(* ===== verification/_CoqProject ===== *)
-Q . S2P
Prelude.v
Text.v
Interfaces.v
Frame.v
ReceiveBuffer.v
SendBuffer.v
PeerId.v
Security.v
Connection.v
Transport.v
Bencode.v
Address.v
DhtId.v
RoutingTable.v
TableInvariant.v
TableOps.v
TableClosest.v
Bitfield.v
PiecePicker.v
PickerIndex.v
PickerInvariant.v
PickerOps.v
PickerPick.v
PickerHistory.v
Krpc.v
KrpcCodec.v
KrpcRoundtrip.v
FileStorage.v
Words.v
Pieces.v
Poly1305.v
PolyReference.v
Poly64.v
Poly32.v
ChaCha.v
ChaChaStream.v
ChaChaPoly.v
ChaChaPolyProofs.v
Sha256.v
Sha256Proofs.v
Hkdf.v
Noise.v
NoiseProofs.v
NoiseHandshake.v
NoiseSession.v
Lookup.v
LookupInvariant.v
LookupCandidates.v
LookupRequests.v
LookupFinish.v
LookupEvents.v
LookupTicks.v
LookupTimes.v
LookupHistory.v
LookupTheorems.v
Sha1.v
Sha1Proofs.v
Storage.v
StorageProofs.v
DosBlocker.v
DhtNode.v
DhtNodeProofs.v
DhtNodeTheorems.v
Extensions.v
InfoSpan.v
Magnet.v
TorrentInfo.v
TorrentInfoProofs.v
PeerList.v
Torrent.v
TorrentProofs.v
TorrentExchange.v
TorrentTheorems.v
