(* ===== verification/Prelude.v ===== *)
(** * librats: a peer-to-peer networking library

    A model of the C++ library under [src/src/librats/] and the theorems that make its parts
    correct. Paths below are relative to that directory.

    ** The program

    A node holds framed TCP connections. [transport/reactor.cpp] polls sockets and drives one
    [Connection] each ([transport/connection.cpp]): bytes from the socket go through a receive
    buffer ([core/receive_buffer.cpp]), are cut into length-prefixed blocks ([wire/frame.cpp]),
    feed the security handshake ([security/]) until it completes, and are then decrypted into
    frames that are dispatched by channel ([wire/message_router.cpp]); what is sent takes the
    opposite way through a chained send buffer. Identities are Curve25519 key pairs, and the
    handshake is Noise XX over ChaCha20-Poly1305 and SHA-256 ([crypto/]). Discovery is a
    Kademlia DHT ([dht/]) that speaks bencoded KRPC datagrams: a node answers queries from its
    routing table and peer storage behind a rate limiter, and runs lookups of its own. A
    BitTorrent client ([bittorrent/]) reads torrent files and magnet links, fetches metadata
    from peers, picks blocks to download and shares bencode and addresses with the DHT.

    ** How the code is modelled

    Every function of the code is a Rocq function of the same name on records with the fields
    of the classes. Bytes are Stdlib's [byte], machine integers are [Z] with their wrap-around
    written out, a signed overflow, an index out of range and a read of uninitialised memory
    are undefined behaviour: the result [UB] of the [outcome] monad, next to [Ret] and
    [BadAlloc] (an allocation that throws). [returns m P] says that [m] returns, without
    either, a value with [P]; the theorems about operations are of this form, so none of them
    holds because the code would fail. Functions that refuse their input return [option].
    C routines that take pointers work on one memory, a list of bytes with offsets, so that
    overlapping buffers are part of the statements ([Words.v]).

    What the code takes from outside is an argument: clock readings, random numbers and
    bytes, the contents of uninitialised memory, the iteration order of hash maps, the answers
    of the socket, [inet_pton] and [inet_ntop]. The callbacks of a delegate are a class whose
    methods return the calls they make on the connection.

    ** The files

    Foundations: [Prelude.v] (this file: bytes, big-endian integers, lists indexed by [Z], the
    [outcome] monad, hints and tactics), [Text.v] (decimal text, the order of strings),
    [Interfaces.v] (the classes through which components see each other: the two byte queues,
    sessions and security providers).

    Transport: [Frame.v] (module [framer] for [wire/frame.cpp], [MessageRouter]),
    [ReceiveBuffer.v], [SendBuffer.v], [PeerId.v] and [Security.v] (the plaintext provider),
    [Connection.v] (the state machine of a connection, against the interfaces) and
    [Transport.v] (arbitrary event sequences of a connection under its reactor, and two
    connections end to end over any pair of sessions that satisfies [SessionPair]).

    Cryptography: [Words.v], [Pieces.v] (messages cut into blocks), [Poly1305.v] with
    [PolyReference.v], [Poly64.v] and [Poly32.v] (both limb arithmetics), [ChaCha.v] and
    [ChaChaStream.v] (the scalar and the vector version), [ChaChaPoly.v] and
    [ChaChaPolyProofs.v] (the construction over memory), [Sha256.v] and [Sha256Proofs.v],
    [Sha1.v] and [Sha1Proofs.v], [Hkdf.v], [Noise.v] (ciphers, handshake, session, adapters), [NoiseProofs.v] (what each
    operation computes), [NoiseHandshake.v] (the three messages) and [NoiseSession.v] (the
    instances of the interfaces and the theorems about handshake and sessions).

    DHT: [Address.v], [DhtId.v], [RoutingTable.v] with [TableInvariant.v], [TableOps.v] and
    [TableClosest.v]; [Bencode.v], [Krpc.v] with [KrpcCodec.v] and [KrpcRoundtrip.v];
    [Lookup.v] (iterative lookups over the manager of outstanding queries) with
    [LookupInvariant.v], [LookupCandidates.v] (the list of candidates), [LookupRequests.v]
    (waves of queries), [LookupFinish.v] (completion), [LookupEvents.v] (replies and failures),
    [LookupTicks.v] (the sweep over the table), [LookupTimes.v] (when queries were sent),
    [LookupHistory.v] (any order of events) and [LookupTheorems.v]; [Storage.v] with
    [StorageProofs.v] (write tokens and announced peers), [DosBlocker.v] (the rate limiter) and
    [DhtNode.v] with [DhtNodeProofs.v] and [DhtNodeTheorems.v] (a node that composes table,
    storage, limiter, codec and a client of its own through the class [Client]).

    BitTorrent: [Bitfield.v], [PiecePicker.v] with [PickerIndex.v], [PickerInvariant.v],
    [PickerOps.v], [PickerPick.v] and [PickerHistory.v]; [FileStorage.v]; [InfoSpan.v] (the
    scanner of raw torrent files and its agreement with the decoder), [Magnet.v],
    [TorrentInfo.v] with [TorrentInfoProofs.v] ([bittorrent/torrent_info.cpp]); [Extensions.v]
    (the messages of the extension protocol), [PeerList.v] (addresses to dial), and [Torrent.v]
    (the extension protocol of [bittorrent/torrent.cpp]: its state is the record [Torrent], its
    handlers are the steps of [run]) with [TorrentProofs.v] (the invariant),
    [TorrentExchange.v] (two torrents) and [TorrentTheorems.v].

    ** What is proved

    Transport. Under every sequence of events a connection runs into no undefined behaviour,
    keeps its memory bound and only moves forward through its states ([connection_safety],
    [connection_lifecycle]); reading refines a reference reader of the byte stream and writing
    puts exactly the queued blocks on the wire ([inbound_stream], [outbound_stream]); together,
    frames arrive as a prefix of what was sent, in order and intact ([frames_end_to_end]).
    These are proved against the interfaces. The two buffers discharge them as first-in
    first-out queues with their memory accounting ([receive_buffer_fifo], [send_buffer_fifo]),
    and the plaintext and the Noise sessions discharge [SessionPair].

    Cryptography. Both implementations of Poly1305 compute the polynomial modulo 2^130 - 5,
    both versions of ChaCha20 the same key stream; encryption and decryption are inverse for
    every mix of builds, and decryption accepts exactly what was sealed. SHA-1, SHA-256, HMAC
    and HKDF compute the functions of their standards. The Noise handshake completes on both
    sides with each other's identity and with sessions that pair ([noise_handshake]); no input
    of a peer leads to undefined behaviour ([noise_any_input]); a session accepts only the next
    block of its peer ([noise_next_block]). [noise_empty_blocks] is a flaw: two empty blocks
    take an initiator through its handshake with nobody.

    DHT. The routing table keeps its invariant over every history of calls, hearsay cannot
    displace live contacts, and [find_closest] returns exactly the nearest ones;
    [standby_moved_ub] is the one call that leaves the table's vector. Bencode and KRPC are
    decoded safely from any bytes, and what is encoded is decoded to the same value. A lookup
    keeps its books under every history of replies, timeouts and pings ([lookup_safe]), ends
    ([lookup_ends]), reports every peer once ([lookup_reports]), and has asked the closest
    nodes unless farther ones held its slots ([lookup_converges]); [lookup_skips_closest] is a
    lookup that ends without asking the closest node it knows. A node answers every query that
    its limiter lets through, and stays healthy ([queries_answered], [flood_protection]); an
    announcement with the token it handed out is found by those who ask, any other is refused
    ([announce_found], [announce_refused], [write_tokens]); and fewer than five responders
    cannot change its external address ([few_responders]). [unsolicited_votes],
    [refreshed_peer_dropped] and [flood_tracked] show where it can be led astray.

    BitTorrent. The picker keeps its invariant over every history, [pick_blocks] returns
    exactly the blocks its strategy promises, the bitfield is its list of bits, and the file
    layout maps every block to the right bytes. A torrent that is accepted has no path out of
    its directory ([torrent_info_sound]), a torrent file is read as the very bytes that are
    hashed ([torrent_file_exact]), and a magnet link gives back what it was made from
    ([magnet_roundtrip]). Extension messages are read as they were written
    ([extension_roundtrip]), the best addresses are dialled first ([candidates_best]), metadata
    that is taken has the hash of the torrent whatever peers send ([metadata_authentic]), and an
    exchange with an honest peer completes ([metadata_exchange]). Where the code stops working
    is shown by [huge_piece_stuck], [pieces_tile], [huge_torrent_overflows] and
    [piece_count_wraps] (narrow counters and sums), [metadata_scan_diverges] (a scan that does
    not end), [announced_size_sticks] (one wrong size and a magnet link never resolves),
    [tracker_splits], [exchange_outranks], and [closed_inside_loop] (a connection that closes
    inside a loop over the connections).

    ** Bounds and fuel

    Loops over data are structural or recurse on fuel that the definition computes from its
    input (the length of a datagram for the decoders, the number of buckets, blocks or bytes
    left), and the theorems that a function returns show that this fuel is enough.
    The hypotheses bound what the machine bounds: sizes below 2^32 or 2^62 where the code
    relies on them, and [kMaxBlockSize] for a frame. [noise_any_input] admits fewer than a
    billion blocks because the message index is an [int] that every block may advance.
    A lookup may have any number of seeds, contacts, replies and ticks, as long as its
    candidates and the pings sent next to it are fewer than the 65536 transaction ids;
    [fair_draws] says that the random generator hits a free id in that many draws.
    Curve25519 enters through the class [Agreement]: results of 32 bytes and the commutation
    of the two agreements; the witnesses use a multiplication with these laws.
    The scanner of metadata messages need not end, so its fuel, the field [steps] of the
    environment of a torrent, stands for the stack: two steps per byte are enough for what the
    encoder writes, and running out is undefined. Which sends close a connection is the field
    [send_fails]; the order in which a sort leaves equal peers is the class [Sorting].

    ** Not modelled

    Operating system calls and threads (sockets, pollers, disk I/O, timers, mDNS, NAT
    traversal, trackers), logging, the zeroing of secrets, and the C, JNI and Kotlin wrappers.
    Not modelled: Curve25519 arithmetic and BLAKE2, the saved state and the socket loop of the DHT,
    the peer tables, the BitTorrent wire protocol of a peer, downloading and choking, JSON and
    the key-value storage, and the services under [subsystems/]. Of a torrent session only the
    state that the extension protocol uses is kept. *)

From stdpp Require Export base tactics list gmap strings sorting.
From Stdlib Require Export ZArith Lia.
From Stdlib Require Export Strings.Byte.

#[global] Open Scope Z_scope.

Declare Scope rats_scope.
Delimit Scope rats_scope with rats.
#[global] Open Scope rats_scope.

(** * Bytes

    [uint8_t] is Stdlib's [byte]: the range is part of the type. [u8] is the
    value of a byte, [byte_of] the conversion [static_cast<uint8_t>], which keeps
    the low eight bits. *)

Definition u8 (b : byte) : Z := Z.of_N (Byte.to_N b).

Definition byte_of (z : Z) : byte :=
  match Byte.of_N (Z.to_N (z mod 256)) with
  | Some b => b
  | None => x00
  end.

Lemma u8_range b : 0 <= u8 b < 256.
Proof. unfold u8. pose proof (Byte.to_N_bounded b). lia. Qed.

Lemma u8_byte_of z : u8 (byte_of z) = z mod 256.
Proof.
  unfold byte_of, u8. pose proof (Z.mod_pos_bound z 256 ltac:(lia)) as Hb.
  destruct (Byte.of_N _) as [b|] eqn:E.
  - apply Byte.to_of_N in E. rewrite E. lia.
  - apply Byte.of_N_None_iff in E. lia.
Qed.

Lemma byte_of_u8 b : byte_of (u8 b) = b.
Proof.
  unfold byte_of. pose proof (u8_range b). rewrite Z.mod_small by done.
  unfold u8. rewrite N2Z.id, Byte.of_to_N. done.
Qed.

Lemma u8_inj b1 b2 : u8 b1 = u8 b2 -> b1 = b2.
Proof. intros H. rewrite <- (byte_of_u8 b1), <- (byte_of_u8 b2). by rewrite H. Qed.

#[global] Instance byte_eq_decision : EqDecision byte := Byte.byte_eq_dec.

#[global] Program Instance byte_countable : Countable byte :=
  inj_countable Byte.to_N Byte.of_N _.
Next Obligation. intros b. apply Byte.of_to_N. Qed.

#[global] Instance byte_inhabited : Inhabited byte := populate x00.

(** * Machine integers

    An unsigned integer of [w] bits is a [Z] with its wrap-around written out. *)

Definition u16 (z : Z) : Z := z mod 2 ^ 16.
Definition u32 (z : Z) : Z := z mod 2 ^ 32.
Definition u64 (z : Z) : Z := z mod 2 ^ 64.

Lemma u16_small z : 0 <= z < 2 ^ 16 -> u16 z = z.
Proof. apply Z.mod_small. Qed.
Lemma u32_small z : 0 <= z < 2 ^ 32 -> u32 z = z.
Proof. apply Z.mod_small. Qed.
Lemma u64_small z : 0 <= z < 2 ^ 64 -> u64 z = z.
Proof. apply Z.mod_small. Qed.

(** Remove a wrap-around whose argument is in range. *)
Ltac unwrap :=
  repeat first
    [ rewrite u64_small by (cbn; lia)
    | rewrite u32_small by (cbn; lia)
    | rewrite u16_small by (cbn; lia) ].

Lemma testbit_high z k n : 0 <= z < 2 ^ k -> 0 <= k <= n -> Z.testbit z n = false.
Proof.
  intros Hz Hn. destruct (Z.eq_dec z 0) as [->|]; [apply Z.bits_0|].
  apply Z.bits_above_log2; [lia|]. enough (Z.log2 z < k) by lia. apply Z.log2_lt_pow2; lia.
Qed.

(** Joining two fields with shifts is positional arithmetic. *)
Lemma lor_shiftl_add a b k :
  0 <= k -> 0 <= b < 2 ^ k -> Z.lor (Z.shiftl a k) b = a * 2 ^ k + b.
Proof.
  intros Hk Hb. rewrite <- Z.shiftl_mul_pow2 by done.
  assert (Z.land (Z.shiftl a k) b = 0) as E.
  { apply Z.bits_inj'. intros n Hn. rewrite Z.land_spec, Z.bits_0.
    destruct (Z.lt_ge_cases n k).
    - by rewrite Z.shiftl_spec_low.
    - by rewrite (testbit_high b k), andb_false_r by lia. }
  rewrite Z.add_nocarry_lxor by done. by rewrite Z.lxor_lor.
Qed.

Lemma lxor_bound a b k :
  0 <= k -> 0 <= a < 2 ^ k -> 0 <= b < 2 ^ k -> 0 <= Z.lxor a b < 2 ^ k.
Proof.
  intros Hk Ha Hb. replace (Z.lxor a b) with (Z.lxor a b mod 2 ^ k); [apply Z.mod_pos_bound; lia|].
  rewrite <- Z.land_ones by done. apply Z.bits_inj'. intros n Hn.
  rewrite Z.land_spec, Z.lxor_spec. destruct (Z.lt_ge_cases n k).
  - rewrite Z.ones_spec_low by lia. apply andb_true_r.
  - by rewrite Z.ones_spec_high, (testbit_high a k), (testbit_high b k) by lia.
Qed.

(** * Sizes and slices

    [size()] of a container is a [Z]; slices take [Z] bounds. *)

Definition zlen {A} (l : list A) : Z := Z.of_nat (length l).
Definition ztake {A} (n : Z) (l : list A) : list A := take (Z.to_nat n) l.
Definition zdrop {A} (n : Z) (l : list A) : list A := drop (Z.to_nat n) l.

Section Slices.
Context {A : Type}.
Implicit Types l : list A.

Lemma zlen_nonneg l : 0 <= zlen l.
Proof. unfold zlen. lia. Qed.
Lemma zlen_nil : zlen (@nil A) = 0.
Proof. done. Qed.
Lemma zlen_cons x l : zlen (x :: l) = 1 + zlen l.
Proof. unfold zlen. cbn [length]. lia. Qed.
Lemma zlen_app l k : zlen (l ++ k) = zlen l + zlen k.
Proof. unfold zlen. rewrite length_app. lia. Qed.
Lemma zlen_replicate n (x : A) : zlen (replicate n x) = Z.of_nat n.
Proof. unfold zlen. by rewrite length_replicate. Qed.
Lemma zlen_zero l : zlen l = 0 <-> l = [].
Proof. unfold zlen. destruct l; cbn; split; (done || lia). Qed.
Lemma zlen_ztake n l : 0 <= n <= zlen l -> zlen (ztake n l) = n.
Proof. unfold zlen, ztake. intros. rewrite length_take. lia. Qed.
Lemma zlen_zdrop n l : 0 <= n <= zlen l -> zlen (zdrop n l) = zlen l - n.
Proof. unfold zlen, zdrop. intros. rewrite length_drop. lia. Qed.

Lemma ztake_zdrop n l : ztake n l ++ zdrop n l = l.
Proof. apply take_drop. Qed.
Lemma ztake_app n l k : n = zlen l -> ztake n (l ++ k) = l.
Proof. unfold ztake, zlen. intros ->. rewrite Nat2Z.id. apply take_app_length. Qed.
Lemma zdrop_app n l k : n = zlen l -> zdrop n (l ++ k) = k.
Proof. unfold zdrop, zlen. intros ->. rewrite Nat2Z.id. apply drop_app_length. Qed.
Lemma ztake_all n l : zlen l <= n -> ztake n l = l.
Proof. unfold ztake, zlen. intros. apply take_ge. lia. Qed.
Lemma zdrop_all n l : zlen l <= n -> zdrop n l = [].
Proof. unfold zdrop, zlen. intros. apply drop_ge. lia. Qed.
Lemma ztake_0 l : ztake 0 l = [].
Proof. done. Qed.
Lemma zdrop_0 l : zdrop 0 l = l.
Proof. done. Qed.
Lemma ztake_app_le n l k : n <= zlen l -> ztake n (l ++ k) = ztake n l.
Proof. unfold ztake, zlen. intros. apply take_app_le. lia. Qed.
Lemma zdrop_app_le n l k : n <= zlen l -> zdrop n (l ++ k) = zdrop n l ++ k.
Proof. unfold zdrop, zlen. intros. apply drop_app_le. lia. Qed.
Lemma zdrop_zdrop n m l : 0 <= n -> 0 <= m -> zdrop n (zdrop m l) = zdrop (m + n) l.
Proof.
    unfold zdrop. intros. rewrite drop_drop. f_equal. lia.
Qed.
Lemma zdrop_ztake n m l : 0 <= n <= m -> zdrop n (ztake m l) = ztake (m - n) (zdrop n l).
Proof.
    unfold zdrop, ztake. intros. rewrite skipn_firstn_comm. f_equal. lia.
Qed.
End Slices.

Create Rewrite HintDb zlen.
#[global] Hint Rewrite @zlen_nil @zlen_cons @zlen_app @zlen_replicate : zlen.

Create HintDb rats.
#[global] Hint Resolve u8_range zlen_nonneg : rats.

(** Normalise the lengths of the goal and solve it by linear arithmetic. *)
Ltac zlen_facts :=
  repeat match goal with
  | |- context [zlen ?l] =>
      lazymatch goal with
      | H : 0 <= zlen l |- _ => fail
      | _ => pose proof (zlen_nonneg l)
      end
  | H : context [zlen ?l] |- _ =>
      lazymatch goal with
      | H' : 0 <= zlen l |- _ => fail
      | _ => pose proof (zlen_nonneg l)
      end
  end.
Ltac zlia := autorewrite with zlen in *; zlen_facts; lia.

(** * Big-endian integers

    [htonl]/[htons] followed by a [memcpy], and the shifts of
    [bittorrent/byte_io.h], write the bytes of an integer most significant
    first. *)

Fixpoint be_enc (n : nat) (z : Z) : list byte :=
  match n with
  | O => []
  | S n => be_enc n (z / 256) ++ [byte_of z]
  end.

Definition be_dec (bs : list byte) : Z :=
  foldl (fun acc b => acc * 256 + u8 b) 0 bs.

Lemma be_enc_length n z : length (be_enc n z) = n.
Proof. revert z; induction n; intros; cbn; rewrite ?length_app, ?IHn; cbn; lia. Qed.

Lemma zlen_be_enc n z : zlen (be_enc n z) = Z.of_nat n.
Proof. unfold zlen. by rewrite be_enc_length. Qed.
#[global] Hint Rewrite zlen_be_enc : zlen.

Lemma be_dec_app bs b : be_dec (bs ++ [b]) = be_dec bs * 256 + u8 b.
Proof. unfold be_dec. by rewrite foldl_app. Qed.

Lemma be_dec_enc n z : be_dec (be_enc n z) = z mod 2 ^ (8 * Z.of_nat n).
Proof.
  revert z; induction n as [|n IH]; intros z.
  - cbn. by rewrite Z.mod_1_r.
  - cbn [be_enc]. rewrite be_dec_app, IH, u8_byte_of.
    replace (8 * Z.of_nat (S n)) with (8 + 8 * Z.of_nat n) by lia.
    rewrite Z.pow_add_r by lia. change (2 ^ 8) with 256.
    rewrite (Z.rem_mul_r z 256) by lia. lia.
Qed.

Lemma be_dec_range bs : 0 <= be_dec bs < 2 ^ (8 * zlen bs).
Proof.
  induction bs as [|b bs IH] using rev_ind; [done|].
  rewrite be_dec_app, zlen_app. change (zlen [b]) with 1.
  pose proof (u8_range b). pose proof (zlen_nonneg bs).
  replace (8 * (zlen bs + 1)) with (8 + 8 * zlen bs) by lia.
  rewrite Z.pow_add_r by lia. change (2 ^ 8) with 256. nia.
Qed.

Lemma be_enc_dec bs : be_enc (length bs) (be_dec bs) = bs.
Proof.
  induction bs as [|b bs IH] using rev_ind; [done|].
  rewrite length_app, Nat.add_comm. cbn [length Nat.add be_enc].
  pose proof (u8_range b).
  rewrite be_dec_app, Z.div_add_l, Z.div_small, Z.add_0_r, IH by lia.
  do 2 f_equal. apply u8_inj. rewrite u8_byte_of.
  rewrite Z.add_comm, Z.mod_add, Z.mod_small by lia. done.
Qed.

(** * Vector access

    [v\[i\]] on a [std::vector] is undefined behaviour out of range: the models
    return [None] there, and a theorem that an operation returns [Some] says it
    stays in range. *)

Definition zlookup {A} (l : list A) (i : Z) : option A :=
  if 0 <=? i then l !! Z.to_nat i else None.

Definition zupdate {A} (i : Z) (x : A) (l : list A) : option (list A) :=
  if (0 <=? i) && (i <? zlen l) then Some (<[Z.to_nat i := x]> l) else None.

Lemma zlookup_lt {A} (l : list A) i : 0 <= i < zlen l -> is_Some (zlookup l i).
Proof.
  unfold zlookup, zlen. intros. destruct (Z.leb_spec 0 i); [|lia].
  apply lookup_lt_is_Some. lia.
Qed.

Lemma zlookup_range {A} (l : list A) i x : zlookup l i = Some x -> 0 <= i < zlen l.
Proof.
  unfold zlookup, zlen. destruct (Z.leb_spec 0 i); [|done]. intros ?%lookup_lt_Some. lia.
Qed.

Lemma zlookup_update {A} (l : list A) i j x :
  0 <= i < zlen l ->
  zlookup (<[Z.to_nat i := x]> l) j = if j =? i then Some x else zlookup l j.
Proof.
  unfold zlookup, zlen. intros H. destruct (Z.eqb_spec j i) as [->|Hne].
  - destruct (Z.leb_spec 0 i); [|lia]. apply list_lookup_insert_eq. lia.
  - destruct (Z.leb_spec 0 j); [|done]. apply list_lookup_insert_ne. lia.
Qed.

Lemma zlen_insert {A} (l : list A) k x : zlen (<[k := x]> l) = zlen l.
Proof. unfold zlen. by rewrite length_insert. Qed.

(** * Outcomes

    What an operation of the code can do: return, throw [std::bad_alloc], or run
    into undefined behaviour (an access out of range, a failed [assert]). *)

Inductive outcome (A : Type) :=
| Ret (a : A)
| BadAlloc
| UB.
Arguments Ret {A} _.
Arguments BadAlloc {A}.
Arguments UB {A}.

#[global] Instance outcome_ret : MRet outcome := fun A a => Ret a.
#[global] Instance outcome_bind : MBind outcome := fun A B f m =>
  match m with
  | Ret a => f a
  | BadAlloc => BadAlloc
  | UB => UB
  end.

(** [returns m P]: [m] returns a value with [P]. *)
Definition returns {A} (m : outcome A) (P : A -> Prop) : Prop :=
  match m with
  | Ret a => P a
  | _ => False
  end.

(** [safe m P]: [m] has no undefined behaviour, and what it returns has [P]. *)
Definition safe {A} (m : outcome A) (P : A -> Prop) : Prop :=
  match m with
  | Ret a => P a
  | BadAlloc => True
  | UB => False
  end.

Lemma returns_Ret {A} (a : A) (P : A -> Prop) : P a -> returns (Ret a) P.
Proof. done. Qed.

Lemma returns_inv {A} (m : outcome A) P : returns m P -> exists a, m = Ret a /\ P a.
Proof. destruct m; cbn; naive_solver. Qed.

Lemma returns_mono {A} (m : outcome A) (P Q : A -> Prop) :
  returns m P -> (forall a, P a -> Q a) -> returns m Q.
Proof. destruct m; cbn; auto. Qed.

Lemma returns_bind {A B} (m : outcome A) (f : A -> outcome B) P Q :
  returns m P -> (forall a, P a -> returns (f a) Q) -> returns (m ≫= f) Q.
Proof. destruct m; cbn; auto; done. Qed.

Lemma safe_bind {A B} (m : outcome A) (f : A -> outcome B) P Q :
  safe m P -> (forall a, P a -> safe (f a) Q) -> safe (m ≫= f) Q.
Proof. destruct m; cbn; auto; done. Qed.

Lemma safe_mono {A} (m : outcome A) (P Q : A -> Prop) :
  safe m P -> (forall a, P a -> Q a) -> safe m Q.
Proof. destruct m; cbn; auto. Qed.

Lemma returns_safe {A} (m : outcome A) P : returns m P -> safe m P.
Proof. destruct m; cbn; auto. Qed.

(** Indexing a vector, for reading and for writing. *)
Definition vat {A} (l : list A) (i : Z) : outcome A :=
  match zlookup l i with Some x => Ret x | None => UB end.
Definition vput {A} (i : Z) (x : A) (l : list A) : outcome (list A) :=
  match zupdate i x l with Some l => Ret l | None => UB end.

Lemma vat_Some {A} (l : list A) i x : zlookup l i = Some x -> vat l i = Ret x.
Proof. unfold vat. by intros ->. Qed.

Lemma vput_in {A} (l : list A) i x : 0 <= i < zlen l -> vput i x l = Ret (<[Z.to_nat i := x]> l).
Proof.
  intros H. unfold vput, zupdate. by destruct (Z.leb_spec 0 i), (Z.ltb_spec i (zlen l)); try lia.
Qed.

(** [new uint8_t\[n\]] and [std::vector] throw beyond [PTRDIFF_MAX] bytes. *)
Definition PTRDIFF_MAX : Z := 2 ^ 63 - 1.
