(* ===== verification/Text.v ===== *)
(** Text: the decimal form of integers ([std::to_string] and the digit loops of the
    parsers) and the lexicographic order of byte strings ([std::string]'s
    [operator<], which compares bytes as unsigned). *)

From S2P Require Import Prelude.

(** * Byte strings in order *)

Fixpoint bytes_lt (a b : list byte) : bool :=
  match a, b with
  | [], [] => false
  | [], _ :: _ => true
  | _ :: _, [] => false
  | x :: a, y :: b =>
      if u8 x <? u8 y then true else if u8 y <? u8 x then false else bytes_lt a b
  end.

(** The order as a relation, on which the sorting lemmas work. *)
Definition blt (a b : list byte) : Prop := bytes_lt a b = true.

#[global] Instance blt_dec a b : Decision (blt a b).
Proof. unfold blt. apply _. Defined.

Lemma blt_cons x y a b :
  blt (x :: a) (y :: b) <-> u8 x < u8 y \/ (x = y /\ blt a b).
Proof.
  unfold blt. cbn [bytes_lt].
  destruct (Z.ltb_spec (u8 x) (u8 y)); [split; [by left|done]|].
  destruct (Z.ltb_spec (u8 y) (u8 x)); [split; [done|intros [?|[-> _]]; lia]|].
  assert (x = y) as -> by (apply u8_inj; lia).
  split; [by right | intros [?|[_ ?]]; [lia|done]].
Qed.

#[global] Instance blt_strict : StrictOrder blt.
Proof.
  split.
  - intros a. unfold complement. induction a as [|x a IH]; [done|].
    intros [?|[_ ?]]%blt_cons; [lia|by apply IH].
  - intros a. induction a as [|x a IH]; intros [|y b] [|z c]; try done.
    rewrite !blt_cons. intros [?|[-> ?]] [?|[-> ?]]; [left; lia|left; lia|left; lia|].
    right. split; [done|]. by eapply IH.
Qed.

Lemma blt_trichotomy a b : blt a b \/ a = b \/ blt b a.
Proof.
  revert b. induction a as [|x a IH]; intros [|y b]; [by right; left|by left|by right; right|].
  rewrite !blt_cons. destruct (Z.lt_total (u8 x) (u8 y)) as [?|[E|?]]; [by left; left| |by right; right; left].
  apply u8_inj in E as ->. destruct (IH b) as [?|[->|?]]; auto.
Qed.

Lemma blt_irrefl a : ~ blt a a.
Proof. apply irreflexivity, _. Qed.

Lemma blt_asym a b : blt a b -> ~ blt b a.
Proof. intros H1 H2. apply (blt_irrefl a). by etrans. Qed.

(** * Decimal numbers *)

Definition is_digit (c : byte) : bool := (48 <=? u8 c) && (u8 c <=? 57).
Definition digit_val (c : byte) : Z := u8 c - 48.
Definition digit (d : Z) : byte := byte_of (48 + d).

Lemma is_digit_range c : is_digit c = true <-> 0 <= digit_val c <= 9.
Proof. unfold is_digit, digit_val. rewrite andb_true_iff, !Z.leb_le. lia. Qed.

Lemma digit_digit d : 0 <= d <= 9 -> is_digit (digit d) = true /\ digit_val (digit d) = d.
Proof.
  intros Hd. unfold is_digit, digit_val, digit. rewrite u8_byte_of, Z.mod_small by lia.
  rewrite andb_true_iff, !Z.leb_le. lia.
Qed.

(** [std::to_string] of a non-negative integer; twenty digits hold 64 bits. *)
Fixpoint digits_fuel (fuel : nat) (n : Z) : list byte :=
  match fuel with
  | O => []
  | S fuel => (if n <? 10 then [] else digits_fuel fuel (n / 10)) ++ [digit (n mod 10)]
  end.
Definition nat_to_string (n : Z) : list byte := digits_fuel 20 n.

(** [std::to_string(int64_t)]. *)
Definition to_string (z : Z) : list byte :=
  if z <? 0 then x2d :: nat_to_string (- z) else nat_to_string z.

(** The value of a digit string. *)
Definition digits_val (ds : list byte) : Z := foldl (fun acc c => acc * 10 + digit_val c) 0 ds.

Lemma digits_val_app ds c : digits_val (ds ++ [c]) = digits_val ds * 10 + digit_val c.
Proof. unfold digits_val. by rewrite foldl_app. Qed.

Lemma digits_fuel_spec fuel n :
  0 <= n < 10 ^ Z.of_nat fuel -> (0 < fuel)%nat ->
  Forall (fun c => is_digit c = true) (digits_fuel fuel n)
  /\ digits_val (digits_fuel fuel n) = n
  /\ exists c ds, digits_fuel fuel n = c :: ds /\ (n <> 0 -> digit_val c <> 0) /\ (n = 0 -> ds = []).
Proof.
  revert n. induction fuel as [|fuel IH]; intros n Hn Hf; [lia|].
  cbn [digits_fuel]. pose proof (Z.mod_pos_bound n 10).
  destruct (digit_digit (n mod 10) ltac:(lia)) as [Hd Hv].
  destruct (Z.ltb_spec n 10) as [Hlt|Hge].
  - rewrite Z.mod_small in * by lia. cbn [app]. split_and!.
    + by constructor.
    + unfold digits_val. cbn. lia.
    + exists (digit n), []. split_and!; [done|lia|done].
  - destruct (IH (n / 10)) as (Hall & Hval & c & ds & Hc & Hz & _).
    { rewrite Nat2Z.inj_succ, Z.pow_succ_r in Hn by lia.
      split; [apply Z.div_pos; lia|apply Z.div_lt_upper_bound; lia]. }
    { destruct fuel; [|lia]. change (10 ^ Z.of_nat 1) with 10 in Hn. lia. }
    split_and!.
    + apply Forall_app. split; [done|by constructor].
    + rewrite digits_val_app, Hval, Hv. pose proof (Z.div_mod n 10). lia.
    + rewrite Hc. exists c, (ds ++ [digit (n mod 10)]). split_and!; [done| |lia].
      intros _. apply Hz. pose proof (Z.div_le_lower_bound n 10 1). lia.
Qed.

Lemma nat_to_string_spec n :
  0 <= n < 10 ^ 20 ->
  Forall (fun c => is_digit c = true) (nat_to_string n)
  /\ digits_val (nat_to_string n) = n
  /\ exists c ds, nat_to_string n = c :: ds /\ (n <> 0 -> digit_val c <> 0) /\ (n = 0 -> ds = []).
Proof. intros Hn. apply digits_fuel_spec; [exact Hn|lia]. Qed.

Lemma nat_to_string_head n :
  0 <= n -> exists c t, nat_to_string n = c :: t /\ is_digit c = true.
Proof.
  assert (forall fuel m, (0 < fuel)%nat -> 0 <= m ->
            exists c t, digits_fuel fuel m = c :: t /\ is_digit c = true) as Hd.
  { induction fuel as [|fuel IH]; intros m Hf Hm; [lia|]. cbn [digits_fuel].
    pose proof (Z.mod_pos_bound m 10). destruct (digit_digit (m mod 10) ltac:(lia)).
    destruct (_ <? _); [by do 2 eexists|].
    destruct fuel as [|fuel]; [by do 2 eexists|].
    destruct (IH (m / 10)) as (c & t & -> & ?); [lia|apply Z.div_pos; lia|]. by do 2 eexists. }
  apply Hd. lia.
Qed.

Lemma digits_val_ge acc ds :
  Forall (fun c => is_digit c = true) ds -> 0 <= acc ->
  acc <= foldl (fun acc c => acc * 10 + digit_val c) acc ds.
Proof.
  intros Hd. revert acc. induction Hd as [|c ds Hc _ IH]; intros acc Ha; cbn; [lia|].
  apply is_digit_range in Hc. etrans; [|apply IH]; lia.
Qed.

(** * Runs of bytes *)

Fixpoint skip_while (p : byte -> bool) (s : list byte) : list byte :=
  match s with
  | c :: s' => if p c then skip_while p s' else s
  | [] => []
  end.
Fixpoint take_while (p : byte -> bool) (s : list byte) : list byte :=
  match s with
  | c :: s' => if p c then c :: take_while p s' else []
  | [] => []
  end.

Lemma take_while_app p l c k :
  Forall (fun x => p x = true) l -> p c = false -> take_while p (l ++ c :: k) = l /\ skip_while p (l ++ c :: k) = c :: k.
Proof.
  intros Hl Hc. induction Hl as [|x l Hx _ [IH1 IH2]]; cbn; [by rewrite Hc|]. rewrite Hx. by rewrite IH1, IH2.
Qed.

Lemma take_while_all p l : Forall (fun x => p x = true) l -> take_while p l = l /\ skip_while p l = [].
Proof. induction 1 as [|x l Hx _ [IH1 IH2]]; cbn; [done|]. rewrite Hx. by rewrite IH1, IH2. Qed.
