(* ===== verification/Interfaces.v ===== *)
(** What the components promise to each other.

    [RxBuffer] and [TxQueue] are the two byte queues a connection owns: the laws
    speak of the abstract queue of bytes only. [Session] and [Handshaker] are the
    abstract classes of [security/session.h] and [security/handshaker.h]. The
    connection is verified against these interfaces; [ReceiveBuffer.v],
    [SendBuffer.v] and [Security.v] provide the instances. *)

From S2P Require Import Prelude.

(** The receive side. [rx_rep b bs room] says that [b] holds the bytes [bs] and
    that [recv] may write [room] more; [rx_commit] is the [recv] that wrote the
    given bytes followed by [commit]. *)
Class RxBuffer (B : Type) := {
  rx_new : B;
  rx_size : B -> Z;
  rx_cap : B -> Z;
  rx_prepare : Z -> B -> outcome (B * Z);
  rx_commit : list byte -> B -> outcome B;
  rx_view : B -> outcome (list byte);
  rx_consume : Z -> B -> outcome B;
  rx_decay : B -> outcome B;
  rx_rep : B -> list byte -> Z -> Prop;

  rx_new_rep : rx_rep rx_new [] 0 /\ rx_cap rx_new = 0;
  rx_rep_bounds b bs room :
    rx_rep b bs room -> rx_size b = zlen bs /\ 0 <= room /\ zlen bs + room <= rx_cap b;
  rx_prepare_rep n b bs room :
    rx_rep b bs room -> 0 <= n <= 2 ^ 32 -> rx_cap b <= 2 ^ 32 ->
    returns (rx_prepare n b) (fun '(b', span) =>
      rx_rep b' bs span /\ n <= span
      /\ rx_cap b' <= Z.max (rx_cap b) (zlen bs + n + (zlen bs + n) / 2 + 8192));
  rx_commit_rep b bs room new :
    rx_rep b bs room -> zlen new <= room ->
    returns (rx_commit new b) (fun b' =>
      (exists room', rx_rep b' (bs ++ new) room') /\ rx_cap b' <= rx_cap b);
  rx_view_rep b bs room : rx_rep b bs room -> rx_view b = Ret bs;
  rx_consume_rep n b bs room :
    rx_rep b bs room -> 0 <= n <= zlen bs ->
    returns (rx_consume n b) (fun b' =>
      (exists room', rx_rep b' (zdrop n bs) room') /\ rx_cap b' <= rx_cap b);
  rx_decay_rep b bs room :
    rx_rep b bs room ->
    returns (rx_decay b) (fun b' =>
      (exists room', rx_rep b' bs room') /\ rx_cap b' <= rx_cap b);
}.

(** The send side. An owned buffer comes with its capacity. *)
Class TxQueue (Q : Type) := {
  tx_new : Q;
  tx_append_copy : list byte -> Q -> Q;
  tx_append_owned : list byte -> Z -> Q -> Q;
  tx_empty : Q -> bool;
  tx_allocated : Q -> Z;
  tx_gather : Z -> Q -> list (list byte);
  tx_pop_front : Z -> Q -> outcome Q;
  tx_rep : Q -> list byte -> Prop;

  tx_new_rep : tx_rep tx_new [];
  tx_append_copy_rep q bs new : tx_rep q bs -> tx_rep (tx_append_copy new q) (bs ++ new);
  tx_append_owned_rep q bs new cap :
    tx_rep q bs -> zlen new <= cap -> tx_rep (tx_append_owned new cap q) (bs ++ new);
  tx_empty_rep q bs : tx_rep q bs -> tx_empty q = true <-> bs = [];
  tx_allocated_rep q bs : tx_rep q bs -> zlen bs <= tx_allocated q;
  tx_gather_rep q bs n :
    tx_rep q bs -> 0 < n ->
    exists later, bs = concat (tx_gather n q) ++ later /\ (bs <> [] -> concat (tx_gather n q) <> []);
  tx_pop_front_rep q bs n :
    tx_rep q bs -> 0 <= n <= zlen bs ->
    returns (tx_pop_front n q) (fun q' => tx_rep q' (zdrop n bs));
}.

(** [Session::encrypt]/[decrypt]: the new state and the output, or failure. *)
Class Session (S : Type) := {
  encrypt : S -> list byte -> option (S * list byte);
  decrypt : S -> list byte -> option (S * list byte);
  is_secure : S -> bool;
}.

(** [Handshaker::consume] and its [Outcome]. *)
Inductive HsStatus (S : Type) :=
| NeedMore
| Done (session : S) (remote_id : list byte)
| Failed.
Arguments NeedMore {S}.
Arguments Done {S} _ _.
Arguments Failed {S}.

(** [enum class ConnRole] of [core/types.h]. *)
Inductive ConnRole := Inbound | Outbound.

#[global] Instance ConnRole_eq_dec : EqDecision ConnRole.
Proof. solve_decision. Defined.

(** [SecurityProvider::create], [Handshaker::start] and [Handshaker::consume]. *)
Class SecurityProvider (H S : Type) := {
  create : ConnRole -> H;
  hs_start : H -> option (H * list byte);
  hs_consume : H -> list byte -> H * HsStatus S * list byte;
}.
