(* ===== verification/Frame.v ===== *)
(** The wire format ([wire/frame.{h,cpp}]) and the router of decoded frames
    ([wire/message_router.{h,cpp}]).

    The wire is a stream of length-prefixed blocks; the body of a block is opaque
    here. An inner message is a four-byte header and a payload. [framer] models
    the two codecs, [MessageRouter] the dispatch of a decoded frame. *)

From S2P Require Import Prelude.

(** * Data *)

(** [enum class MessageType : uint8_t]: [parse_message] casts any byte to it, so
    the type is the underlying byte and the enumerators are constants. *)
Abbreviation MessageType := byte.
Definition App       : MessageType := x01.
Definition Control   : MessageType := x02.
Definition Gossip    : MessageType := x03.
Definition FileChunk : MessageType := x04.
Definition Ping      : MessageType := x05.
Definition Storage   : MessageType := x06.
Definition Typed     : MessageType := x07.
Definition Pex       : MessageType := x08.

Record FrameHeader := mkFrameHeader {
  type : MessageType;
  flags : byte;
  channel : Z;                       (* uint16_t *)
}.

Record Frame := mkFrame {
  header : FrameHeader;
  payload : list byte;
}.

(** A header whose [channel] fits its [uint16_t] field. *)
Definition header_ok (h : FrameHeader) : Prop := 0 <= channel h < 2 ^ 16.

#[global] Instance header_ok_dec h : Decision (header_ok h).
Proof. unfold header_ok. apply _. Defined.

(** * Framing *)
Module framer.

Definition kLengthPrefixSize : Z := 4.
Definition kHeaderSize : Z := 4.
Definition kMaxBlockSize : Z := 64 * 1024 * 1024.

(** ** Outer blocks *)

(** [static_cast<uint32_t>] then [htonl] then [memcpy]. *)
Definition encode_block_header (body_size : Z) : list byte :=
  be_enc 4 (u32 body_size).

(** [out.resize(at + 4 + body.size())], then the prefix and the body are copied
    into the new tail. *)
Definition encode_block (out body : list byte) : list byte :=
  out ++ encode_block_header (zlen body) ++ body.

Inductive Status := Ok | Incomplete | Error.

#[global] Instance Status_eq_dec : EqDecision Status.
Proof. solve_decision. Defined.

Record Block := mkBlock {
  status : Status;
  consumed : Z;
  body : list byte;
  needed : Z;
}.

Definition try_take_block (data : list byte) : Block :=
  let size := zlen data in
  if size <? kLengthPrefixSize then mkBlock Incomplete 0 [] 0
  else
    let len := be_dec (ztake 4 data) in
    if kMaxBlockSize <? len then mkBlock Error 0 [] 0
    else
      let total := kLengthPrefixSize + len in
      if size <? total then mkBlock Incomplete 0 [] total
      else mkBlock Ok total (ztake len (zdrop kLengthPrefixSize data)) total.

(** ** Inner messages *)

Definition encode_message (out : list byte) (h : FrameHeader) (p : list byte)
    : list byte :=
  out ++ [type h; flags h] ++ be_enc 2 (channel h) ++ p.

(** [Message.ok] is the constructor of the option. *)
Definition parse_message (inner : list byte) : option Frame :=
  if zlen inner <? kHeaderSize then None
  else match inner with
       | t :: f :: rest =>
           Some (mkFrame (mkFrameHeader t f (be_dec (ztake 2 rest)))
                         (zdrop kHeaderSize inner))
       | _ => None
       end.

(** ** A whole stream

    [decode_stream] is the specification of the receive path: the bodies of the
    blocks at the front of a stream, what is left of it, and whether the stream
    broke on an oversized length. It takes fuel, one unit per block; every block
    has at least four bytes, so the length of the stream is enough. *)

Record Decoded := mkDecoded {
  bodies : list (list byte);
  rest : list byte;
  broken : bool;
}.

Fixpoint decode_stream_fuel (fuel : nat) (data : list byte) : Decoded :=
  match fuel with
  | O => mkDecoded [] data false
  | S fuel =>
      let b := try_take_block data in
      match status b with
      | Incomplete => mkDecoded [] data false
      | Error => mkDecoded [] data true
      | Ok => let d := decode_stream_fuel fuel (zdrop (consumed b) data) in
              mkDecoded (body b :: bodies d) (rest d) (broken d)
      end
  end.

Definition decode_stream (data : list byte) : Decoded :=
  decode_stream_fuel (length data) data.

(** ** Lemmas *)

Lemma encode_block_header_len n : zlen (encode_block_header n) = 4.
Proof. unfold encode_block_header. by rewrite zlen_be_enc. Qed.
#[global] Hint Rewrite encode_block_header_len : zlen.

Lemma kMaxBlockSize_val : kMaxBlockSize = 67108864.
Proof. done. Qed.

Lemma decode_block_header n :
  0 <= n < 2 ^ 32 -> be_dec (encode_block_header n) = n.
Proof.
  intros. unfold encode_block_header. rewrite be_dec_enc, u32_small by done.
  by apply Z.mod_small.
Qed.

(** The prefix read back from any buffer that holds it. *)
Lemma ztake_header n l :
  ztake 4 (encode_block_header n ++ l) = encode_block_header n.
Proof. apply ztake_app. zlia. Qed.

Lemma try_take_block_app body l :
  zlen body <= kMaxBlockSize ->
  try_take_block (encode_block [] body ++ l)
  = mkBlock Ok (4 + zlen body) body (4 + zlen body).
Proof.
  intros Hb. unfold encode_block, try_take_block. cbn [app].
  rewrite kMaxBlockSize_val in *. unfold kLengthPrefixSize.
  rewrite <- app_assoc, ztake_header.
  rewrite decode_block_header by (split; [zlia|]; lia).
  repeat case_match; try (rewrite ?Z.ltb_lt, ?Z.ltb_ge in *; zlia).
  rewrite zdrop_app by zlia. by rewrite ztake_app.
Qed.

Lemma try_take_block_consumed data :
  status (try_take_block data) = Ok ->
  4 <= consumed (try_take_block data) <= zlen data.
Proof.
  unfold try_take_block, kLengthPrefixSize.
  pose proof (be_dec_range (ztake 4 data)).
  repeat case_match; cbn; intros; simplify_eq; rewrite ?Z.ltb_ge in *; lia.
Qed.

(** More bytes behind a buffer never change a block that was already decided. *)
Lemma try_take_block_extend data l :
  status (try_take_block data) <> Incomplete ->
  try_take_block (data ++ l) = try_take_block data.
Proof.
  unfold try_take_block, kLengthPrefixSize. intros H.
  destruct (zlen data <? 4) eqn:E4; [done|]. rewrite Z.ltb_ge in E4.
  replace (zlen (data ++ l) <? 4) with false by (symmetry; apply Z.ltb_ge; zlia).
  rewrite ztake_app_le by lia.
  destruct (kMaxBlockSize <? _) eqn:Em; [done|]. rewrite Z.ltb_ge in Em.
  destruct (zlen data <? 4 + _) eqn:Et; [done|]. rewrite Z.ltb_ge in Et.
  replace (zlen (data ++ l) <? _) with false by (symmetry; apply Z.ltb_ge; zlia).
  f_equal. pose proof (be_dec_range (ztake 4 data)).
  rewrite zdrop_app_le by lia. rewrite ztake_app_le; [done|].
  rewrite zlen_zdrop by lia. lia.
Qed.

Lemma decode_stream_fuel_enough f1 f2 data :
  (length data <= f1)%nat -> (length data <= f2)%nat ->
  decode_stream_fuel f1 data = decode_stream_fuel f2 data.
Proof.
  revert f2 data; induction f1 as [|f1 IH]; intros [|f2] data H1 H2;
    try (destruct data; [done | cbn in *; lia]);
    cbn [decode_stream_fuel]; [done..|].
  destruct (status (try_take_block data)) eqn:E; [|done..].
  apply try_take_block_consumed in E.
  rewrite (IH f2); [done| |]; unfold zdrop, zlen in *; rewrite length_drop; lia.
Qed.

(** The fuel of [decode_stream] suffices: it satisfies the loop's equation. *)
Lemma decode_stream_unfold data :
  decode_stream data =
  let b := try_take_block data in
  match status b with
  | Incomplete => mkDecoded [] data false
  | Error => mkDecoded [] data true
  | Ok => let d := decode_stream (zdrop (consumed b) data) in
          mkDecoded (body b :: bodies d) (rest d) (broken d)
  end.
Proof.
  unfold decode_stream at 1. rewrite (decode_stream_fuel_enough _ (S (length data))) by lia.
  cbn [decode_stream_fuel]. cbv zeta.
  destruct (status (try_take_block data)) eqn:E; [|done..].
  apply try_take_block_consumed in E. unfold decode_stream.
  rewrite (decode_stream_fuel_enough _ (length (zdrop (consumed (try_take_block data)) data)));
    [done| |]; unfold zdrop, zlen in *; rewrite length_drop; lia.
Qed.

(** Decoding resumes where it stopped: what is decided from a prefix of the
    stream is not revised by what follows. *)
Lemma decode_stream_app a b :
  decode_stream (a ++ b) =
  let d := decode_stream a in
  if broken d then mkDecoded (bodies d) (rest d ++ b) true
  else let e := decode_stream (rest d ++ b) in
       mkDecoded (bodies d ++ bodies e) (rest e) (broken e).
Proof.
  remember (length a) as n eqn:En. revert a En.
  induction n as [n IH] using lt_wf_ind. intros a En.
  rewrite (decode_stream_unfold a). cbv zeta.
  destruct (status (try_take_block a)) eqn:E; cbn [broken bodies rest app].
  - pose proof (try_take_block_consumed _ E) as Hc.
    rewrite decode_stream_unfold, try_take_block_extend by congruence.
    cbv zeta. rewrite E, zdrop_app_le by lia.
    rewrite (IH (length (zdrop (consumed (try_take_block a)) a)));
      [|unfold zdrop, zlen in *; rewrite length_drop; lia|done].
    cbv zeta. by destruct (broken (decode_stream (zdrop _ a))).
  - by destruct (decode_stream (a ++ b)).
  - rewrite decode_stream_unfold, try_take_block_extend by congruence.
    cbv zeta. by rewrite E.
Qed.

Lemma decode_stream_blocks bs tail :
  Forall (fun body => zlen body <= kMaxBlockSize) bs ->
  status (try_take_block tail) = Incomplete ->
  decode_stream (concat (encode_block [] <$> bs) ++ tail) = mkDecoded bs tail false.
Proof.
  intros Hbs Ht. induction Hbs as [|b bs Hb _ IH]; cbn [fmap list_fmap concat app].
  - rewrite decode_stream_unfold. cbv zeta. by rewrite Ht.
  - rewrite <- app_assoc, decode_stream_unfold, try_take_block_app by done.
    cbv zeta. cbn [status consumed framer.body].
    rewrite zdrop_app by (unfold encode_block; zlia). by rewrite IH.
Qed.

(** a sequence of blocks, written one after the other and followed by an
    incomplete block, decodes to exactly those bodies and leaves the incomplete
    bytes for the next read; any way of cutting the stream in two decodes to the
    same blocks. *)
Theorem block_stream_roundtrip bs tail a b
    (Hbs : Forall (fun body => zlen body <= kMaxBlockSize) bs)
    (Ht : status (try_take_block tail) = Incomplete)
    (Hab : a ++ b = concat (encode_block [] <$> bs) ++ tail) :
  decode_stream (a ++ b) = mkDecoded bs tail false
  /\ broken (decode_stream a) = false
  /\ bodies (decode_stream a) ++ bodies (decode_stream (rest (decode_stream a) ++ b)) = bs
  /\ rest (decode_stream (rest (decode_stream a) ++ b)) = tail.
Proof.
  pose proof (decode_stream_blocks bs tail Hbs Ht) as H. rewrite <- Hab in H.
  split; [done|]. rewrite decode_stream_app in H. cbv zeta in H.
  destruct (broken (decode_stream a)); by simplify_eq.
Qed.

Lemma block_stream_roundtrip_witness :
  Forall (fun body => zlen body <= kMaxBlockSize) [[x61]; []]
  /\ decode_stream ([x00; x00] ++ [x00; x01; x61; x00; x00; x00; x00; x00; x00])
     = mkDecoded [[x61]; []] [x00; x00] false.
Proof.
  assert (Forall (fun body => zlen body <= kMaxBlockSize) [[x61]; []]) as Hbs
    by (repeat constructor; done).
  split; [exact Hbs|].
  exact (proj1 (block_stream_roundtrip [[x61]; []] [x00; x00] [x00; x00]
           [x00; x01; x61; x00; x00; x00; x00; x00; x00] Hbs eq_refl eq_refl)).
Defined.

Lemma parse_encode_message h p :
  header_ok h -> parse_message (encode_message [] h p) = Some (mkFrame h p).
Proof.
  destruct h as [t f c]. intros Hc. unfold parse_message, encode_message, kHeaderSize.
  cbn [type flags channel app] in *.
  destruct (_ <? _) eqn:E; [rewrite Z.ltb_lt in E; zlia|].
  rewrite ztake_app by zlia. rewrite be_dec_enc, Z.mod_small by (exact Hc).
  reflexivity.
Qed.

(** An inner message round-trips in both directions: parsing what was
    encoded gives the header and the payload back, a message that parses is the
    encoding of what it parsed to, and exactly the inputs shorter than the header
    are refused. *)
Theorem message_roundtrip :
  (forall h p, header_ok h -> parse_message (encode_message [] h p) = Some (mkFrame h p))
  /\ (forall inner f, parse_message inner = Some f ->
        encode_message [] (header f) (payload f) = inner /\ header_ok (header f))
  /\ (forall inner, parse_message inner = None <-> zlen inner < kHeaderSize).
Proof.
  split; [exact parse_encode_message|].
  unfold parse_message, encode_message, kHeaderSize. split.
  - intros inner f. destruct (_ <? _) eqn:E; [done|]. rewrite Z.ltb_ge in E.
    destruct inner as [|t [|fl [|c1 [|c2 p]]]]; try zlia.
    intros [= <-]. cbn [header payload type flags channel app].
    change (ztake 2 (c1 :: c2 :: p)) with [c1; c2].
    change 2%nat with (length [c1; c2]). rewrite be_enc_dec. split; [done|].
    apply (be_dec_range [c1; c2]).
  - intros inner. destruct (_ <? _) eqn:E; [rewrite Z.ltb_lt in E; done|].
    rewrite Z.ltb_ge in E.
    destruct inner as [|t [|fl [|c1 [|c2 p]]]]; split; try done; zlia.
Qed.

End framer.

(** * Routing *)
Module MessageRouter.

(** FNV-1a over 32 bits, folded to 16; the id 0 is reserved. *)
Definition fnv_step (hash : Z) (c : byte) : Z :=
  u32 (Z.lxor hash (u8 c) * 16777619).

Definition channel_id (name : list byte) : Z :=
  let hash := foldl fnv_step 2166136261 name in
  let id := u16 (Z.lxor (Z.shiftr hash 16) (Z.land hash 65535)) in
  if id =? 0 then 1 else id.

Section Router.
(** [Handler] is the type of the registered callbacks. *)
Context {Handler : Type}.

Record Router := mkRouter {
  by_channel : gmap Z Handler;
  channel_names : gmap Z (list byte);
  by_type : list (option Handler);        (* std::array<Handler, 256> *)
}.

Definition empty_router : Router := mkRouter ∅ ∅ (replicate 256 None).

(** The logged collision changes no state. *)
Definition on_channel (name : list byte) (h : Handler) (r : Router) : Router :=
  let id := channel_id name in
  mkRouter (<[id := h]> (by_channel r)) (<[id := name]> (channel_names r)) (by_type r).

Definition on_type (t : MessageType) (h : Handler) (r : Router) : Router :=
  mkRouter (by_channel r) (channel_names r)
           (<[Z.to_nat (u8 t) := Some h]> (by_type r)).

(** The handler invoked and the payload it gets; [None] is the result [false]. *)
Definition dispatch (r : Router) (f : Frame) : option (Handler * list byte) :=
  if bool_decide (type (header f) = App) then
    match by_channel r !! channel (header f) with
    | None => None
    | Some h => Some (h, payload f)
    end
  else
    match by_type r !! Z.to_nat (u8 (type (header f))) with
    | Some (Some h) => Some (h, payload f)
    | _ => None
    end.

(** Registrations of handlers, in program order. *)
Inductive Registration :=
| OnChannel (name : list byte) (h : Handler)
| OnType (t : MessageType) (h : Handler).

Definition register (r : Router) (x : Registration) : Router :=
  match x with
  | OnChannel name h => on_channel name h r
  | OnType t h => on_type t h r
  end.

(** The handler a registration provides for a frame. *)
Definition serves (f : Frame) (x : Registration) : option Handler :=
  match x with
  | OnChannel name h =>
      if bool_decide (type (header f) = App)
         && (channel (header f) =? channel_id name) then Some h else None
  | OnType t h =>
      if bool_decide (type (header f) = App) then None
      else if bool_decide (type (header f) = t) then Some h else None
  end.

Definition last_serving (f : Frame) (xs : list Registration) : option Handler :=
  foldl (fun acc x => match serves f x with Some h => Some h | None => acc end) None xs.

Lemma by_type_length xs :
  length (by_type (foldl register empty_router xs)) = 256%nat.
Proof.
  induction xs as [|x xs IH] using rev_ind; [done|].
  rewrite foldl_app. cbn [foldl].
  by destruct x; cbn [register on_channel on_type by_type]; rewrite ?length_insert.
Qed.
End Router.
Arguments Router : clear implicits.
Arguments Registration : clear implicits.

Lemma dispatch_empty {H} f : dispatch (Handler:=H) empty_router f = None.
Proof.
  unfold dispatch, empty_router. cbn [by_channel by_type].
  rewrite lookup_empty. case_match; [done|].
  destruct (_ !! _) as [o|] eqn:E; [|done]. by apply lookup_replicate in E as [-> _].
Qed.

(** One registration changes the dispatch of exactly the frames it serves. *)
Lemma dispatch_register {H} (r : Router H) x f :
  length (by_type r) = 256%nat ->
  dispatch (register r x) f =
  match serves f x with
  | Some h => Some (h, payload f)
  | None => dispatch r f
  end.
Proof.
  intros Hlen. pose proof (u8_range (type (header f))) as Hr.
  unfold dispatch, serves. destruct x as [name h|t h];
    cbn [register on_channel on_type by_channel by_type];
    destruct (bool_decide (type (header f) = App)); cbn [andb]; try done.
  - rewrite lookup_insert.
    destruct (Z.eqb_spec (channel (header f)) (channel_id name)) as [->|Hn];
      case_decide; congruence.
  - case_bool_decide as Ht.
    + subst t. by rewrite list_lookup_insert_eq by lia.
    + rewrite list_lookup_insert_ne; [done|].
      intros E. apply Ht, u8_inj. pose proof (u8_range t). lia.
Qed.

Lemma channel_id_range name : 1 <= channel_id name < 2 ^ 16.
Proof.
  unfold channel_id, u16. case_match; rewrite ?Z.eqb_eq, ?Z.eqb_neq in *; [lia|].
  match goal with |- 1 <= ?x mod _ < _ => pose proof (Z.mod_pos_bound x (2 ^ 16)) end.
  lia.
Qed.

(** No registration serves an App frame on the reserved channel 0. *)
Lemma serves_channel_0 {H} f (x : Registration H) :
  type (header f) = App -> channel (header f) = 0 -> serves f x = None.
Proof.
  intros Hty Hch. destruct x as [name h|t h]; cbn [serves];
    rewrite bool_decide_eq_true_2 by done; cbn [andb]; [|done].
  rewrite Hch. pose proof (channel_id_range name).
  destruct (Z.eqb_spec 0 (channel_id name)); [lia|done].
Qed.

Lemma last_serving_channel_0 {H} f (xs : list (Registration H)) :
  type (header f) = App -> channel (header f) = 0 -> last_serving f xs = None.
Proof.
  intros Hty Hch. unfold last_serving.
  induction xs as [|x xs IH] using rev_ind; [done|].
  rewrite foldl_app. cbn [foldl]. by rewrite serves_channel_0.
Qed.

(** Routing follows the registrations. A frame is handled by the last
    registration that serves it, with its payload unchanged: an App frame by the
    last handler whose channel name hashes to the frame's channel id, any other
    frame by the last handler of its type; a channel id is never the reserved 0,
    so an App frame on channel 0 is handled by nobody. *)
Theorem dispatch_last_registration {H : Type} (xs : list (Registration H)) (f : Frame) :
  dispatch (foldl register empty_router xs) f
    = option_map (fun h => (h, payload f)) (last_serving f xs)
  /\ (type (header f) = App -> channel (header f) = 0 ->
      dispatch (foldl register empty_router xs) f = None).
Proof.
  assert (dispatch (foldl register empty_router xs) f
          = option_map (fun h => (h, payload f)) (last_serving f xs)) as Heq.
  { induction xs as [|x xs IH] using rev_ind; [apply dispatch_empty|].
    unfold last_serving in *. rewrite !foldl_app. cbn [foldl].
    rewrite dispatch_register, IH by apply by_type_length. by destruct (serves f x). }
  split; [exact Heq|]. intros Hty Hch. by rewrite Heq, last_serving_channel_0.
Qed.

End MessageRouter.
