(* ===== verification/ReceiveBuffer.v ===== *)
(** The stream receive buffer ([core/receive_buffer.{h,cpp}]).

    The allocation is a list of cells, [None] for a byte that [new uint8_t\[n\]]
    left uninitialised; [start], [end_] and [cap] are the three cursors. The
    theorems relate the buffer to the queue of bytes it represents ([rep]): every
    operation is a queue operation on it, none reads an uninitialised byte or
    leaves the allocation. Sizes are [size_t]: arithmetic wraps at 64 bits. *)

From S2P Require Import Prelude Interfaces.

Module ReceiveBuffer.

Definition kMinCapacity : Z := 1024.
Definition kUsageAverageShift : Z := 4.
Definition kAllocGranularity : Z := 256.

Record ReceiveBuffer := mk {
  buf : list (option byte);
  cap : Z;
  start : Z;
  end_ : Z;
  peak : Z;
  watermark : Z;
  received_since_decay : bool;
}.

Definition round_up (n granularity : Z) : Z :=
  u64 (u64 (u64 (n + granularity) - 1) / granularity * granularity).

Definition size (b : ReceiveBuffer) : Z := u64 (end_ b - start b).
Definition empty (b : ReceiveBuffer) : bool := start b =? end_ b.

(** The live cells, [size()] of them from [data()]. *)
Definition live_cells (b : ReceiveBuffer) : list (option byte) :=
  ztake (size b) (zdrop (start b) (buf b)).

(** [data()]/[view()]: reading the live bytes is undefined when one of them was
    never written. *)
Definition view (b : ReceiveBuffer) : outcome (list byte) :=
  match mapM id (live_cells b) with
  | Some bs => Ret bs
  | None => UB
  end.

(** The [assert] guards the [memcpy]: a smaller allocation would be overrun. *)
Definition reallocate (new_capacity : Z) (b : ReceiveBuffer) : outcome ReceiveBuffer :=
  let live := size b in
  if new_capacity <? live then UB
  else if PTRDIFF_MAX <? new_capacity then BadAlloc
  else
    let fresh := replicate (Z.to_nat (new_capacity - live)) None in
    Ret (mk (live_cells b ++ fresh) new_capacity 0 live
            (peak b) (watermark b) (received_since_decay b)).

Definition grow_to (new_capacity : Z) (b : ReceiveBuffer) : outcome ReceiveBuffer :=
  b ← reallocate new_capacity b;
  Ret (mk (buf b) (cap b) (start b) (end_ b) (size b) (cap b) (received_since_decay b)).

Definition new_buffer : ReceiveBuffer := mk [] 0 0 0 0 0 false.

(** The constructor. *)
Definition construct (initial_capacity : Z) : outcome ReceiveBuffer :=
  if 0 <? initial_capacity
  then grow_to (round_up initial_capacity kAllocGranularity) new_buffer
  else Ret new_buffer.

(** Move assignment: the source is left empty and unallocated. *)
Definition move_assign (other : ReceiveBuffer) : ReceiveBuffer * ReceiveBuffer :=
  (other, mk [] 0 0 0 0 0 false).

Definition grown_capacity (needed : Z) (b : ReceiveBuffer) : Z :=
  let next := u64 (cap b + cap b / 2) in
  let next := if next <? kMinCapacity then kMinCapacity else next in
  let next := if next <? needed then needed else next in
  round_up next kAllocGranularity.

Definition sample_usage (b : ReceiveBuffer) : ReceiveBuffer :=
  let n := Z.shiftl 1 kUsageAverageShift in
  mk (buf b) (cap b) (start b) (end_ b) (size b)
     (u64 (u64 (u64 (watermark b * (n - 1)) + peak b) + (n - 1)) / n)
     (received_since_decay b).

Definition compact (b : ReceiveBuffer) : ReceiveBuffer :=
  if start b =? 0 then b
  else
    let live := size b in
    sample_usage
      (mk (live_cells b ++ zdrop live (buf b)) (cap b) 0 live
          (peak b) (watermark b) (received_since_decay b)).

Definition make_room (bytes : Z) (b : ReceiveBuffer) : outcome ReceiveBuffer :=
  let live := size b in
  if bytes <=? u64 (cap b - live) then Ret (compact b)
  else grow_to (grown_capacity (u64 (live + bytes)) b) b.

(** The span handed to [recv] is the tail [\[end_, cap)], of the returned size. *)
Definition prepare (min_bytes : Z) (b : ReceiveBuffer) : outcome (ReceiveBuffer * Z) :=
  b ← (if u64 (cap b - end_ b) <? min_bytes then make_room min_bytes b else Ret b);
  let b := mk (buf b) (cap b) (start b) (end_ b)
              (Z.max (peak b) (u64 (size b + min_bytes)))
              (watermark b) (received_since_decay b) in
  Ret (b, u64 (cap b - end_ b)).

(** What [recv] does to the span: it overwrites its first bytes. *)
Definition recv_into (bs : list byte) (b : ReceiveBuffer) : ReceiveBuffer :=
  mk (ztake (end_ b) (buf b) ++ (Some <$> bs) ++ zdrop (end_ b + zlen bs) (buf b))
     (cap b) (start b) (end_ b) (peak b) (watermark b) (received_since_decay b).

Definition commit (bytes : Z) (b : ReceiveBuffer) : outcome ReceiveBuffer :=
  if u64 (cap b - end_ b) <? bytes then UB
  else
    let b := mk (buf b) (cap b) (start b) (u64 (end_ b + bytes)) (peak b) (watermark b) true in
    Ret (mk (buf b) (cap b) (start b) (end_ b) (Z.max (peak b) (size b)) (watermark b) true).

Definition maybe_shrink (b : ReceiveBuffer) : outcome ReceiveBuffer :=
  if (cap b <=? kMinCapacity) || (cap b / 2 <=? watermark b) then Ret b
  else
    let floor := Z.max kMinCapacity (size b) in
    let target := round_up (Z.max floor (watermark b)) kAllocGranularity in
    if target <? cap b then reallocate target b else Ret b.

Definition consume (bytes : Z) (b : ReceiveBuffer) : outcome ReceiveBuffer :=
  if size b <? bytes then UB
  else
    let b := mk (buf b) (cap b) (u64 (start b + bytes)) (end_ b)
                (peak b) (watermark b) (received_since_decay b) in
    if negb (start b =? end_ b) then Ret b
    else maybe_shrink (sample_usage
           (mk (buf b) (cap b) 0 0 (peak b) (watermark b) (received_since_decay b))).

Definition decay (b : ReceiveBuffer) : outcome ReceiveBuffer :=
  if cap b <=? kMinCapacity then Ret b
  else
    let received := received_since_decay b in
    let b := mk (buf b) (cap b) (start b) (end_ b) (peak b) (watermark b) false in
    if received then Ret b
    else if cap b <? u64 (size b * 2) then Ret b
    else maybe_shrink
           (mk (buf b) (cap b) (start b) (end_ b) (peak b) (watermark b / 2) false).

Definition clear (b : ReceiveBuffer) : ReceiveBuffer :=
  mk (buf b) (cap b) 0 0 0 (watermark b) (received_since_decay b).

Definition reset (b : ReceiveBuffer) : ReceiveBuffer :=
  mk [] 0 0 0 0 0 (received_since_decay b).

(** * The queue a buffer represents *)

Record wf (b : ReceiveBuffer) : Prop := {
  wf_len : zlen (buf b) = cap b;
  wf_cursors : 0 <= start b <= end_ b /\ end_ b <= cap b;
  wf_cap : cap b <= PTRDIFF_MAX;
  wf_peak : 0 <= peak b < 2 ^ 64;
  wf_watermark : 0 <= watermark b < 2 ^ 63;
}.

Definition rep (b : ReceiveBuffer) (bs : list byte) : Prop :=
  wf b /\ live_cells b = Some <$> bs.

Lemma PTRDIFF_MAX_val : PTRDIFF_MAX = 9223372036854775807.
Proof. done. Qed.

Lemma size_wf b : wf b -> size b = end_ b - start b.
Proof.
  intros [? ? Hcap ? ?]. unfold size. rewrite PTRDIFF_MAX_val in Hcap.
  apply u64_small. lia.
Qed.

Lemma zlen_live_cells b : wf b -> zlen (live_cells b) = size b.
Proof.
  intros W. pose proof W as [? ? ? ? ?]. unfold live_cells.
  rewrite (size_wf b W). apply zlen_ztake. rewrite zlen_zdrop; lia.
Qed.

Lemma rep_size b bs : rep b bs -> size b = zlen bs.
Proof.
  intros [W H]. rewrite <- (zlen_live_cells b W), H. unfold zlen. by rewrite length_fmap.
Qed.

Lemma round_up_bounds n :
  0 <= n <= 2 ^ 64 - 256 -> n <= round_up n 256 <= n + 255.
Proof.
  intros H. unfold round_up, u64. rewrite Zminus_mod_idemp_l.
  rewrite (Z.mod_small (n + 256 - 1)) by lia.
  pose proof (Z.div_mod (n + 256 - 1) 256 ltac:(lia)).
  pose proof (Z.mod_pos_bound (n + 256 - 1) 256 ltac:(lia)).
  rewrite Z.mod_small; lia.
Qed.

Lemma view_rep b bs : rep b bs -> view b = Ret bs.
Proof.
  intros [_ H]. unfold view. rewrite H.
  assert (mapM id (Some <$> bs) = Some bs) as ->; [|done].
  clear. induction bs as [|x bs IH]; [done|]. cbn. cbn in IH. by rewrite IH.
Qed.

(** The statistics of a buffer do not matter to what it holds. *)
Lemma rep_stats b bs p w r :
  rep b bs -> 0 <= p < 2 ^ 64 -> 0 <= w < 2 ^ 63 ->
  rep (mk (buf b) (cap b) (start b) (end_ b) p w r) bs.
Proof. intros [[? ? ? ? ?] H] Hp Hw. split; [split; done | exact H]. Qed.

Lemma rep_intro b bs pre post :
  buf b = pre ++ (Some <$> bs) ++ post ->
  zlen (buf b) = cap b -> start b = zlen pre -> end_ b = zlen pre + zlen bs ->
  cap b <= PTRDIFF_MAX -> 0 <= peak b < 2 ^ 64 -> 0 <= watermark b < 2 ^ 63 ->
  rep b bs.
Proof.
  intros Hb Hl Hs He Hc Hp Hw.
  assert (wf b) as W.
  { split; try done. rewrite Hs, He, <- Hl, Hb.
    rewrite !zlen_app. replace (zlen (Some <$> bs)) with (zlen bs)
      by (unfold zlen; by rewrite length_fmap). zlen_facts. lia. }
  split; [done|]. unfold live_cells. rewrite (size_wf b W), Hb, Hs, He.
  rewrite zdrop_app by done. apply ztake_app. unfold zlen. rewrite length_fmap. lia.
Qed.

(** A buffer is its consumed prefix, its live bytes and its free tail. *)
Lemma rep_split b bs :
  rep b bs ->
  buf b = ztake (start b) (buf b) ++ (Some <$> bs) ++ zdrop (end_ b) (buf b)
  /\ zlen (ztake (start b) (buf b)) = start b
  /\ end_ b = start b + zlen bs.
Proof.
  intros R. pose proof (rep_size _ _ R) as Hs. destruct R as [W H].
  pose proof W as [Hl Hc ? ? ?]. rewrite (size_wf b W) in Hs. split_and!.
  - rewrite <- H. unfold live_cells. rewrite (size_wf b W).
    rewrite <- (ztake_zdrop (start b) (buf b)) at 1. f_equal.
    rewrite <- (ztake_zdrop (end_ b - start b) (zdrop (start b) (buf b))) at 1. f_equal.
    rewrite zdrop_zdrop by lia. f_equal. lia.
  - apply zlen_ztake. lia.
  - lia.
Qed.

Lemma zlen_Some (bs : list byte) : zlen (Some <$> bs) = zlen bs.
Proof. unfold zlen. by rewrite length_fmap. Qed.
#[local] Hint Rewrite zlen_Some : zlen.

Lemma rep_front b bs :
  rep b bs -> ztake (end_ b) (buf b) = ztake (start b) (buf b) ++ (Some <$> bs).
Proof.
  intros R. destruct (rep_split _ _ R) as (Hb & Hp & He).
  rewrite Hb at 1. rewrite app_assoc. apply ztake_app. rewrite zlen_app, zlen_Some. lia.
Qed.

(** * The operations on the queue *)

Lemma reallocate_rep b bs n :
  rep b bs -> zlen bs <= n <= PTRDIFF_MAX ->
  returns (reallocate n b) (fun b' => rep b' bs /\ cap b' = n /\ end_ b' = zlen bs
    /\ watermark b' = watermark b /\ received_since_decay b' = received_since_decay b).
Proof.
  intros R Hn. pose proof (rep_size _ _ R) as Hs. destruct R as [W H].
  unfold reallocate. rewrite Hs.
  destruct (Z.ltb_spec n (zlen bs)); [lia|].
  destruct (Z.ltb_spec PTRDIFF_MAX n); [lia|]. cbn [returns]. split; [|done].
  apply (rep_intro _ bs [] (replicate (Z.to_nat (n - zlen bs)) None)); cbn -[Z.pow];
    rewrite ?H, ?zlen_app, ?zlen_replicate, ?zlen_Some; try done; try lia;
    try apply W.
Qed.

Lemma sample_usage_rep b bs : rep b bs -> rep (sample_usage b) bs.
Proof.
  intros R. pose proof (rep_size _ _ R) as Hs. unfold sample_usage.
  apply rep_stats; [done| |].
  - rewrite Hs. destruct R as [[Hl Hc Hcap ? ?] H]. rewrite PTRDIFF_MAX_val in Hcap.
    unfold size, u64 in Hs. zlen_facts.
    pose proof (Z.mod_pos_bound (end_ b - start b) (2 ^ 64)). lia.
  - change (Z.shiftl 1 kUsageAverageShift) with 16. unfold u64.
    match goal with |- 0 <= ?x mod ?m / 16 < _ =>
      pose proof (Z.mod_pos_bound x m ltac:(lia)) as Hm end.
    split; [apply Z.div_pos; lia | apply Z.div_lt_upper_bound; lia].
Qed.

Lemma compact_rep b bs :
  rep b bs -> rep (compact b) bs /\ cap (compact b) = cap b
    /\ end_ (compact b) = zlen bs.
Proof.
  intros R. pose proof (rep_size _ _ R) as Hs. pose proof (rep_split _ _ R) as (Hb & Hp & He).
  unfold compact. destruct (Z.eqb_spec (start b) 0) as [E|E].
  { split_and!; [done..|lia]. }
  rewrite Hs. split; [|done]. apply sample_usage_rep.
  destruct R as [[Hl Hc Hcap ? ?] H].
  eapply (rep_intro _ bs [] (zdrop (zlen bs) (buf b))); cbn -[Z.pow]; rewrite ?H; try done.
  rewrite zlen_app, zlen_Some, zlen_zdrop; zlen_facts; lia.
Qed.

Lemma grown_capacity_bounds b n :
  wf b -> 0 <= n <= 2 ^ 63 + 2 ^ 62 ->
  n <= grown_capacity n b /\ cap b <= grown_capacity n b
  /\ grown_capacity n b <= Z.max n (Z.max 1024 (cap b + cap b / 2)) + 255.
Proof.
  intros [Hl Hc Hcap ? ?] Hn. rewrite PTRDIFF_MAX_val in Hcap.
  unfold grown_capacity, kMinCapacity, kAllocGranularity.
  assert (0 <= cap b / 2 <= cap b / 2) by (split; [apply Z.div_pos; lia | lia]).
  assert (cap b / 2 * 2 <= cap b) by (pose proof (Z.mul_div_le (cap b) 2); lia).
  rewrite (u64_small (cap b + cap b / 2)) by lia.
  match goal with |- context [round_up ?x 256] =>
    assert (n <= x /\ cap b <= x /\ x <= Z.max n (Z.max 1024 (cap b + cap b / 2))) as Hx
      by (repeat case_match; rewrite ?Z.ltb_lt, ?Z.ltb_ge in *; lia);
    pose proof (round_up_bounds x ltac:(lia)) end.
  lia.
Qed.

Lemma peak_max_range b x :
  wf b -> 0 <= Z.max (peak b) (u64 x) < 2 ^ 64.
Proof.
  intros [? ? ? ? ?]. unfold u64. pose proof (Z.mod_pos_bound x (2 ^ 64) ltac:(lia)). lia.
Qed.

Lemma tail_wf b : wf b -> u64 (cap b - end_ b) = cap b - end_ b.
Proof.
  intros [? ? Hcap ? ?]. rewrite PTRDIFF_MAX_val in Hcap. apply u64_small. lia.
Qed.

Lemma grow_to_rep b bs n :
  rep b bs -> zlen bs <= n <= PTRDIFF_MAX ->
  returns (grow_to n b) (fun b' => rep b' bs /\ cap b' = n /\ end_ b' = zlen bs).
Proof.
  intros R Hn. unfold grow_to. eapply returns_bind; [by apply reallocate_rep|].
  cbn beta. intros b' (R' & Hc & He & _). split; [|done].
  pose proof (rep_size _ _ R') as Hs. pose proof Hn as [_ Hn']. rewrite PTRDIFF_MAX_val in Hn'.
  apply rep_stats; [done| |]; zlen_facts; lia.
Qed.

(** What a demand for [n] bytes of live and free space can make the capacity. *)
Definition grown_bound (n : Z) : Z := n + n / 2 + 8192.

(** [make_room] always leaves the room asked for, when the allocator can give it. *)
Lemma make_room_rep b bs n :
  rep b bs -> 0 <= n <= 2 ^ 62 -> cap b - end_ b < n ->
  cap b + cap b / 2 <= 2 ^ 62 -> zlen bs + n <= 2 ^ 62 ->
  returns (make_room n b) (fun b' =>
    rep b' bs /\ n <= cap b' - end_ b' /\ cap b' <= Z.max (cap b) (grown_bound (zlen bs + n))).
Proof.
  intros R Hn Htail Hc1 Hc2. pose proof (rep_size _ _ R) as Hs.
  pose proof (rep_split _ _ R) as (_ & _ & He).
  pose proof R as [W _]. pose proof W as [Hl Hc Hcap ? ?].
  unfold make_room. rewrite Hs.
  rewrite PTRDIFF_MAX_val in Hcap. rewrite (u64_small (cap b - zlen bs)) by (zlen_facts; lia).
  destruct (Z.leb_spec n (cap b - zlen bs)).
  - cbn [returns]. destruct (compact_rep b bs R) as (R' & -> & ->). split_and!; [done|lia..].
  - rewrite u64_small by (zlen_facts; lia).
    pose proof (grown_capacity_bounds b (zlen bs + n) W ltac:(zlen_facts; lia)) as Hg.
    eapply returns_mono.
    + apply grow_to_rep; [done|]. rewrite PTRDIFF_MAX_val. lia.
    + cbn beta. intros b' (R' & -> & ->). split_and!; [done|lia|]. unfold grown_bound.
      pose proof (Z.div_le_mono (cap b) (zlen bs + n) 2 ltac:(lia) ltac:(lia)).
      pose proof (Z.div_pos (cap b) 2). zlen_facts. lia.
Qed.

Lemma prepare_rep b bs n :
  rep b bs -> 0 <= n <= 2 ^ 62 ->
  cap b + cap b / 2 <= 2 ^ 62 -> zlen bs + n <= 2 ^ 62 ->
  returns (prepare n b) (fun '(b', span) =>
    rep b' bs /\ span = cap b' - end_ b' /\ n <= span
    /\ cap b' <= Z.max (cap b) (grown_bound (zlen bs + n))).
Proof.
  intros R Hn Hc1 Hc2. unfold prepare.
  eapply (returns_bind _ _ (fun b' => rep b' bs /\ n <= cap b' - end_ b'
            /\ cap b' <= Z.max (cap b) (grown_bound (zlen bs + n)))).
  - pose proof R as [W _]. rewrite (tail_wf b W).
    destruct (Z.ltb_spec (cap b - end_ b) n); [by apply make_room_rep |].
    cbn [returns]. split_and!; [done|lia..].
  - intros b' (R' & Ht & Hb). pose proof R' as [W' _]. cbn -[grown_bound Z.max].
    rewrite (tail_wf b' W'). split; [|cbn [cap end_]; lia]. apply rep_stats; [done| |apply W'].
    by apply peak_max_range.
Qed.

(** Without the bound on the capacity, [prepare] can only fail to allocate. *)
Lemma prepare_safe b bs n :
  rep b bs -> 0 <= n <= 2 ^ 62 ->
  safe (prepare n b) (fun '(b', span) =>
    rep b' bs /\ span = cap b' - end_ b' /\ n <= span).
Proof.
  intros R Hn. pose proof (rep_size _ _ R) as Hs.
  pose proof (rep_split _ _ R) as (_ & _ & He). pose proof R as [W _].
  pose proof W as [Hl Hc Hcap ? ?]. rewrite PTRDIFF_MAX_val in Hcap.
  unfold prepare. eapply (safe_bind _ _ (fun b' => rep b' bs /\ n <= cap b' - end_ b')).
  - rewrite (tail_wf b W). destruct (Z.ltb_spec (cap b - end_ b) n) as [Hlt|]; [|done].
    unfold make_room. rewrite Hs, (u64_small (cap b - zlen bs)) by (zlen_facts; lia).
    destruct (Z.leb_spec n (cap b - zlen bs)).
    + cbn. destruct (compact_rep b bs R) as (R' & -> & ->). split; [done|lia].
    + rewrite u64_small by (zlen_facts; lia).
      pose proof (grown_capacity_bounds b (zlen bs + n) W ltac:(zlen_facts; lia)) as Hg.
      destruct (Z.le_gt_cases (grown_capacity (zlen bs + n) b) PTRDIFF_MAX) as [Ha|Ha].
      * apply returns_safe. eapply returns_mono; [apply grow_to_rep; [done|lia]|].
        cbn beta. intros b' (R' & -> & ->). split; [done|]. lia.
      * unfold grow_to, reallocate. rewrite Hs.
        destruct (Z.ltb_spec (grown_capacity (zlen bs + n) b) (zlen bs)); [zlen_facts; lia|].
        by destruct (Z.ltb_spec PTRDIFF_MAX (grown_capacity (zlen bs + n) b)); [|lia].
  - intros b' [R' Ht]. pose proof R' as [W' _]. cbn.
    rewrite (tail_wf b' W'). split; [|lia]. apply rep_stats; [done| |apply W'].
    by apply peak_max_range.
Qed.

(** What [recv] wrote becomes the back of the queue. *)
Lemma commit_rep b bs rcv :
  rep b bs -> zlen rcv <= cap b - end_ b ->
  returns (commit (zlen rcv) (recv_into rcv b)) (fun b' =>
    rep b' (bs ++ rcv) /\ cap b' = cap b /\ received_since_decay b' = true).
Proof.
  intros R Hn. pose proof (rep_split _ _ R) as (Hb & Hp & He).
  pose proof R as [W _]. pose proof W as [Hl Hc Hcap Hpk Hw].
  pose proof Hcap as Hcap'. rewrite PTRDIFF_MAX_val in Hcap'.
  unfold commit, recv_into. cbn [cap end_ buf start peak watermark].
  rewrite (tail_wf b W). destruct (Z.ltb_spec (cap b - end_ b) (zlen rcv)); [lia|].
  cbn [returns cap received_since_decay]. split; [|done].
  rewrite u64_small by (zlen_facts; lia).
  set (c := mk _ (cap b) (start b) (end_ b + zlen rcv) (Z.max _ _) _ _).
  apply (rep_intro c (bs ++ rcv) (ztake (start b) (buf b)) (zdrop (end_ b + zlen rcv) (buf b)));
    cbn [c buf cap start end_ peak watermark].
  - rewrite (rep_front _ _ R), fmap_app. by rewrite <- !app_assoc.
  - rewrite !zlen_app, zlen_Some, zlen_ztake, zlen_zdrop; zlen_facts; lia.
  - lia.
  - rewrite zlen_app. lia.
  - done.
  - unfold size. by apply peak_max_range.
  - done.
Qed.

Lemma maybe_shrink_rep b bs :
  rep b bs -> returns (maybe_shrink b) (fun b' => rep b' bs /\ cap b' <= cap b
    /\ watermark b' = watermark b /\ received_since_decay b' = received_since_decay b).
Proof.
  intros R. pose proof (rep_size _ _ R) as Hs. pose proof (rep_split _ _ R) as (_ & _ & He).
  pose proof R as [W _]. pose proof W as [Hl Hc Hcap Hpk Hw]. rewrite PTRDIFF_MAX_val in Hcap.
  unfold maybe_shrink, kMinCapacity, kAllocGranularity. rewrite Hs.
  destruct (_ || _) eqn:E; [cbn; done|]. rewrite orb_false_iff, !Z.leb_gt in E.
  pose proof (round_up_bounds (Z.max (Z.max 1024 (zlen bs)) (watermark b))) as Hr.
  destruct (Z.ltb_spec (round_up (Z.max (Z.max 1024 (zlen bs)) (watermark b)) 256) (cap b));
    [|done].
  eapply returns_mono; [apply reallocate_rep; [done|]|].
  - rewrite PTRDIFF_MAX_val. lia.
  - cbn beta. intros b' (? & -> & ? & ? & ?). split_and!; try done; lia.
Qed.

(** Consuming drops bytes from the front and never fails: shrinking asks for less
    than the buffer already holds. *)
Lemma consume_rep b bs n :
  rep b bs -> 0 <= n <= zlen bs ->
  returns (consume n b) (fun b' => rep b' (zdrop n bs) /\ cap b' <= cap b).
Proof.
  intros R Hn. pose proof (rep_size _ _ R) as Hs.
  pose proof (rep_split _ _ R) as (Hb & Hp & He).
  pose proof R as [W _]. pose proof W as [Hl Hc Hcap Hpk Hw].
  pose proof Hcap as Hcap'. rewrite PTRDIFF_MAX_val in Hcap'.
  unfold consume. rewrite Hs. destruct (Z.ltb_spec (zlen bs) n); [lia|].
  cbn [start end_ cap buf peak watermark received_since_decay].
  rewrite u64_small by (zlen_facts; lia).
  destruct (Z.eqb_spec (start b + n) (end_ b)) as [E|E]; cbn [negb].
  - rewrite zdrop_all by lia.
    eapply returns_mono; [apply maybe_shrink_rep, sample_usage_rep|].
    + apply (rep_intro _ [] [] (buf b)); cbn -[Z.pow]; done.
    + cbn beta. by intros b' (? & ? & _).
  - cbn [returns cap]. split; [|lia].
    apply (rep_intro _ _ (ztake (start b) (buf b) ++ (Some <$> ztake n bs))
             (zdrop (end_ b) (buf b))); cbn -[Z.pow]; try done.
    + rewrite Hb at 1. rewrite <- !app_assoc. f_equal. rewrite app_assoc, <- fmap_app.
      by rewrite ztake_zdrop.
    + rewrite zlen_app, zlen_Some, Hp, zlen_ztake by lia. lia.
    + rewrite zlen_app, zlen_Some, Hp, zlen_ztake, zlen_zdrop by lia. lia.
Qed.

Lemma decay_rep b bs :
  rep b bs -> returns (decay b) (fun b' => rep b' bs /\ cap b' <= cap b).
Proof.
  intros R. pose proof R as [W _]. unfold decay.
  destruct (cap b <=? kMinCapacity); [done|].
  destruct (received_since_decay b);
    [split; [apply rep_stats; [done|apply W|apply W] | done]|].
  cbn [cap]. destruct (_ <? u64 _); [split; [apply rep_stats; [done|apply W|apply W] | done]|].
  eapply returns_mono; [apply maybe_shrink_rep, (rep_stats b); [done|apply W|]|].
  - destruct W as [? ? ? ? ?]. cbn [watermark].
    split; [apply Z.div_pos; lia | apply Z.div_lt_upper_bound; lia].
  - cbn beta. by intros b' (? & ? & _).
Qed.

Lemma clear_rep b bs : rep b bs -> rep (clear b) [].
Proof.
  intros [[? ? ? ? ?] _]. apply (rep_intro _ [] [] (buf b)); cbn -[Z.pow]; done.
Qed.

Lemma reset_rep b : rep (reset b) [].
Proof. by apply (rep_intro _ [] [] []). Qed.

Lemma new_buffer_rep : rep new_buffer [].
Proof. by apply (rep_intro _ [] [] []). Qed.

(** * Claims *)

(** What the owner of a buffer does with it: read from the socket (the kernel
    has [avail] bytes ready and takes what fits the span), parse and drop bytes
    from the front, and the maintenance calls. *)
Inductive Op :=
| Read (n : Z) (avail : list byte)
| Drop (n : Z)
| Compact
| Decay.

Definition op_ok (o : Op) : Prop :=
  match o with
  | Read n _ => 0 <= n <= 2 ^ 62
  | Drop n => 0 <= n
  | _ => True
  end.

(** The buffer with all bytes received and all bytes dropped so far. *)
Definition step (st : ReceiveBuffer * list byte * list byte) (o : Op)
    : outcome (ReceiveBuffer * list byte * list byte) :=
  let '(b, rcvd, dropped) := st in
  match o with
  | Read n avail =>
      '(b, span) ← prepare n b;
      let got := ztake span avail in
      b ← commit (zlen got) (recv_into got b);
      Ret (b, rcvd ++ got, dropped)
  | Drop n =>
      bs ← view b;
      let n := Z.min n (zlen bs) in
      b ← consume n b;
      Ret (b, rcvd, dropped ++ ztake n bs)
  | Compact => Ret (compact b, rcvd, dropped)
  | Decay => b ← decay b; Ret (b, rcvd, dropped)
  end.

Fixpoint run (ops : list Op) (st : ReceiveBuffer * list byte * list byte)
    : outcome (ReceiveBuffer * list byte * list byte) :=
  match ops with
  | [] => Ret st
  | o :: ops => st ← step st o; run ops st
  end.

(** Received = dropped, then live. *)
Definition fifo (st : ReceiveBuffer * list byte * list byte) : Prop :=
  let '(b, rcvd, dropped) := st in
  exists live, rep b live /\ rcvd = dropped ++ live.

Lemma receive_step_fifo st o : fifo st -> op_ok o -> safe (step st o) fifo.
Proof.
  destruct st as [[b rcvd] dropped]. intros (live & R & ->) Ho.
  destruct o as [n avail|n| |]; cbn [step op_ok] in *.
  - eapply safe_bind; [by apply prepare_safe|]. intros [b' span] (R' & Hspan & Hn).
    eapply safe_bind; [apply returns_safe, commit_rep; [done|]|].
    + destruct R' as [[? ? ? ? ?] _]. unfold ztake, zlen. rewrite length_take. lia.
    + intros b'' (R'' & _). exists (live ++ ztake span avail). by rewrite app_assoc.
  - rewrite (view_rep _ _ R). cbn -[Z.min consume].
    eapply safe_bind; [apply returns_safe, consume_rep; [done|zlen_facts; lia]|].
    intros b' (R' & _). eexists; split; [exact R'|].
    by rewrite <- app_assoc, ztake_zdrop.
  - destruct (compact_rep _ _ R) as (R' & _). cbn. eauto.
  - eapply safe_bind; [by apply returns_safe, decay_rep|]. intros b' [R' _]. cbn. eauto.
Qed.

(** C32: the buffer is a first-in first-out byte stream. For any sequence of
    reads, drops, compactions and decay ticks from an empty buffer, with the
    kernel delivering any bytes, nothing runs into undefined behaviour (no read of
    an uninitialised cell, no overrun of the allocation, no violated assertion),
    and what is dropped followed by what is live is exactly what was received. *)
Theorem receive_buffer_fifo ops (Hops : Forall op_ok ops) :
  safe (run ops (new_buffer, [], [])) (fun '(b, rcvd, dropped) =>
    exists live, view b = Ret live /\ size b = zlen live /\ rcvd = dropped ++ live).
Proof.
  assert (forall st, fifo st -> safe (run ops st) fifo) as Hrun.
  { induction Hops as [|o ops Ho _ IH]; intros st Hst; [done|].
    cbn. eapply safe_bind; [by apply receive_step_fifo|]. auto. }
  eapply safe_mono; [apply Hrun; exists []; split; [apply new_buffer_rep|done]|].
  intros [[b rcvd] dropped] (live & R & H). exists live.
  split_and!; [by apply view_rep | by apply rep_size | done].
Qed.

Lemma receive_buffer_fifo_witness :
  safe (run [Read 3 [x61; x62; x63]; Drop 1; Compact; Read 2 [x64]; Decay; Drop 2]
            (new_buffer, [], []))
    (fun '(b, rcvd, dropped) =>
       exists live, view b = Ret live /\ size b = zlen live /\ rcvd = dropped ++ live)
  /\ returns (run [Read 3 [x61; x62; x63]; Drop 1; Compact; Read 2 [x64]; Decay; Drop 2]
            (new_buffer, [], []))
    (fun '(b, rcvd, dropped) =>
       view b = Ret [x64] /\ rcvd = [x61; x62; x63; x64] /\ dropped = [x61; x62; x63]).
Proof.
  split; [apply receive_buffer_fifo; repeat constructor; cbn; lia|].
  vm_compute. repeat split.
Defined.

(** [prepare] keeps the live bytes and hands out at least the room asked for,
    from the end of the live bytes to the end of the allocation; the allocation
    succeeds for every capacity up to 2^61 bytes, and it grows to at most one and a
    half times the demand. *)
Theorem prepare_room b bs n (R : rep b bs) (Hn : 0 <= n <= 2 ^ 62)
    (Hcap : cap b <= 2 ^ 61) (Hb : zlen bs + n <= 2 ^ 62) :
  returns (prepare n b) (fun '(b', span) =>
    view b' = Ret bs /\ n <= span /\ end_ b' + span = zlen (buf b')
    /\ cap b' <= Z.max (cap b) (grown_bound (zlen bs + n))).
Proof.
  assert (cap b / 2 * 2 <= cap b) by (pose proof (Z.mul_div_le (cap b) 2); lia).
  eapply returns_mono; [apply prepare_rep; [done..|lia|lia]|].
  intros [b' span] (R' & -> & Hspan & Hg). split_and!; [by apply view_rep | done | | done].
  destruct R' as [[-> ? ? ? ?] _]. lia.
Qed.

Lemma prepare_room_witness :
  returns (prepare 2000 (mk [Some x61; Some x62; None] 3 1 2 0 0 false))
    (fun '(b', span) => view b' = Ret [x62] /\ 2000 <= span /\ end_ b' + span = zlen (buf b')
       /\ cap b' <= Z.max 3 (grown_bound (zlen [x62] + 2000))).
Proof.
  apply (prepare_room (mk [Some x61; Some x62; None] 3 1 2 0 0 false)); [|by vm_compute..].
  apply (rep_intro _ [x62] [Some x61] [None]); by vm_compute.
Defined.

(** ** Idle buffers shrink *)

Definition small (b : ReceiveBuffer) (bs : list byte) : Prop :=
  cap b <= Z.max kMinCapacity (2 * zlen bs).

Lemma round_up_floor n : 0 <= n < 2 ^ 63 -> round_up (Z.max 1024 n) 256 <= Z.max 1024 (2 * n).
Proof.
  intros Hn. destruct (Z.le_gt_cases n 1024).
  - rewrite Z.max_l by lia. change (round_up 1024 256) with 1024. lia.
  - pose proof (round_up_bounds (Z.max 1024 n)). lia.
Qed.

(** A quiet tick leaves the buffer small or halves its watermark. *)
Lemma decay_quiet b bs :
  rep b bs -> received_since_decay b = false ->
  returns (decay b) (fun b' => rep b' bs /\ received_since_decay b' = false
    /\ (small b' bs \/ watermark b' = watermark b / 2 /\ 0 < watermark b')).
Proof.
  intros R Hq. pose proof R as [W _]. pose proof W as [Hl Hc Hcap Hpk Hw].
  pose proof (rep_size _ _ R) as Hs. pose proof (rep_split _ _ R) as (_ & _ & He).
  rewrite PTRDIFF_MAX_val in Hcap. unfold decay, small, kMinCapacity. rewrite Hq.
  destruct (Z.leb_spec (cap b) 1024); [cbn; split_and!; [done..|lia]|].
  cbn [cap buf start end_ peak watermark]. change (size _) with (size b).
  rewrite Hs, u64_small by (zlen_facts; lia).
  destruct (Z.ltb_spec (cap b) (zlen bs * 2)).
  { split_and!; [apply rep_stats; [done|apply W..] | done | left; cbn; lia]. }
  set (b1 := mk _ _ _ _ _ _ _).
  assert (0 <= watermark b / 2 < 2 ^ 63) as Hw2
    by (split; [apply Z.div_pos; lia | apply Z.div_lt_upper_bound; lia]).
  assert (rep b1 bs) as R1 by (apply (rep_stats b); [done|apply W|done]).
  pose proof (rep_size _ _ R1) as Hs1.
  unfold maybe_shrink, kMinCapacity, kAllocGranularity. rewrite Hs1.
  cbn [b1 cap watermark]. destruct (_ || _) eqn:E.
  { cbn [returns]. split_and!; [done..|]. right. cbn. split; [done|].
    rewrite orb_true_iff, !Z.leb_le in E. destruct E; [lia|].
    pose proof (Z.div_le_lower_bound (cap b) 2 512). lia. }
  destruct (Z.eq_dec (watermark b / 2) 0) as [E0|E0].
  - pose proof (round_up_floor (zlen bs) ltac:(zlen_facts; lia)) as Hf.
    pose proof (round_up_bounds (Z.max 1024 (zlen bs)) ltac:(zlen_facts; lia)) as Hf2.
    rewrite E0, (Z.max_l _ 0) by lia.
    destruct (Z.ltb_spec (round_up (Z.max 1024 (zlen bs)) 256) (cap b)).
    + eapply returns_mono; [apply reallocate_rep; [done|rewrite PTRDIFF_MAX_val; lia]|].
      cbn beta. intros b' (R' & -> & _ & _ & ->). split_and!; [done..|left; lia].
    + cbn. split_and!; [done..|left; lia].
  - pose proof (round_up_bounds (Z.max (Z.max 1024 (zlen bs)) (watermark b / 2))
                  ltac:(zlen_facts; lia)) as Hf2.
    destruct (Z.ltb_spec (round_up (Z.max (Z.max 1024 (zlen bs)) (watermark b / 2)) 256) (cap b)).
    + eapply returns_mono; [apply reallocate_rep; [done|rewrite PTRDIFF_MAX_val; lia]|].
      cbn beta. intros b' (R' & _ & _ & -> & ->). split_and!; [done..|right; cbn; lia].
    + cbn. split_and!; [done..|right; lia].
Qed.

Fixpoint decays (n : nat) (b : ReceiveBuffer) : outcome ReceiveBuffer :=
  match n with
  | O => Ret b
  | S n => b ← decay b; decays n b
  end.

Lemma decays_small n b bs :
  rep b bs -> small b bs -> returns (decays n b) (fun b' => rep b' bs /\ small b' bs).
Proof.
  revert b; induction n as [|n IH]; intros b R Hsm; [done|]. cbn [decays].
  eapply returns_bind; [by apply decay_rep|]. intros b' [R' Hc]. apply IH; [done|].
  unfold small in *. lia.
Qed.

Lemma decays_quiet n b bs :
  rep b bs -> received_since_decay b = false -> watermark b < 2 ^ Z.of_nat n ->
  returns (decays (S n) b) (fun b' => rep b' bs /\ small b' bs).
Proof.
  revert b; induction n as [|n IH]; intros b R Hq Hw; cbn [decays].
  all: eapply returns_bind; [by apply decay_quiet|]; cbn beta;
    intros b' (R' & Hq' & [Hsm|[Hw' Hpos]]).
  - done.
  - exfalso. pose proof (Z.div_small (watermark b) 2). destruct R as [[? ? ? ? ?] _]. cbn in Hw. lia.
  - by apply (decays_small (S n)).
  - apply IH; [done..|]. rewrite Hw'. apply Z.div_lt_upper_bound; [lia|].
    replace (Z.of_nat (S n)) with (1 + Z.of_nat n) in Hw by lia.
    by rewrite Z.pow_add_r in Hw by lia.
Qed.

(** a connection that falls silent gives its buffer back. Whatever the
    capacity and the watermark, after 65 maintenance ticks with no traffic the
    allocation is at most twice the bytes still live (or the 1024-byte floor), and
    the live bytes of a half-received message are untouched. *)
Theorem decay_releases b bs (R : rep b bs) :
  returns (decays 65 b) (fun b' =>
    view b' = Ret bs /\ cap b' <= Z.max kMinCapacity (2 * zlen bs)).
Proof.
  eapply (returns_mono _ (fun b' => rep b' bs /\ small b' bs)); [|
    intros b' [R' Hsm]; split; [by apply view_rep|done]].
  pose proof R as [[Hl Hc Hcap Hpk Hw] _].
  destruct (received_since_decay b) eqn:Hr;
    [|change 65%nat with (S (1 + 63)); apply decays_quiet; [done..|lia]].
  destruct (Z.leb_spec (cap b) kMinCapacity);
    [apply decays_small; [done|unfold small; lia]|].
  change (decays 65 b) with (decay b ≫= decays (S 63)). unfold decay. rewrite Hr.
  destruct (Z.leb_spec (cap b) kMinCapacity); [lia|].
  apply (decays_quiet 63 _ bs); [apply rep_stats; [done|apply Hpk|apply Hw] | done | cbn -[Z.pow]; lia].
Qed.

Lemma decay_releases_witness :
  returns (decays 65 (mk (Some x61 :: replicate 4095 None) 4096 0 1 0 4096 true))
    (fun b' => view b' = Ret [x61] /\ cap b' <= Z.max kMinCapacity (2 * zlen [x61])).
Proof.
  apply decay_releases.
  apply (rep_intro _ [x61] [] (replicate 4095 None)); by vm_compute.
Defined.

(** * The interface *)

#[global, program] Instance receive_buffer_rx : RxBuffer ReceiveBuffer := {|
  rx_new := new_buffer;
  rx_size := size;
  rx_cap := cap;
  rx_prepare := prepare;
  rx_commit new b := commit (zlen new) (recv_into new b);
  rx_view := view;
  rx_consume := consume;
  rx_decay := decay;
  rx_rep b bs room := rep b bs /\ room = cap b - end_ b;
|}.
Next Obligation. split; [split; [apply new_buffer_rep|done]|done]. Qed.
Next Obligation.
  intros b bs room [R ->]. pose proof (rep_size _ _ R). pose proof (rep_split _ _ R) as (_ & _ & He).
  destruct R as [[? ? ? ? ?] _]. lia.
Qed.
Next Obligation.
  intros n b bs room [R ->] Hn Hc. pose proof (rep_split _ _ R) as (_ & _ & He).
  pose proof R as [[? ? ? ? ?] _].
  eapply returns_mono; [apply prepare_rep; [done|lia|..]|].
  - pose proof (Z.mul_div_le (cap b) 2 ltac:(lia)). zlen_facts. lia.
  - lia.
  - intros [b' span] (? & -> & ? & ?). done.
Qed.
Next Obligation.
  intros b bs room new [R ->] Hn. eapply returns_mono; [by apply commit_rep|].
  intros b' (R' & -> & _). split; [by eexists | done].
Qed.
Next Obligation. intros b bs room [R _]. by apply view_rep. Qed.
Next Obligation.
  intros n b bs room [R _] Hn. eapply returns_mono; [by apply consume_rep|].
  intros b' [R' Hc]. split; [by eexists | done].
Qed.
Next Obligation.
  intros b bs room [R _]. eapply returns_mono; [by apply decay_rep|].
  intros b' [R' Hc]. split; [by eexists | done].
Qed.

End ReceiveBuffer.
