(* ===== verification/SendBuffer.v ===== *)
(** The outbound byte queue ([core/chained_send_buffer.{h,cpp}]).

    A [Bytes] is its contents and its capacity. The chain is the vector
    [chunks_] with the index [head_] of the first live chunk; the slots before it
    are drained and their buffers moved out. [rep] relates the chain to the bytes
    still to be sent. The two counters are sums of the sizes of objects that are
    alive at the same time, so they cannot reach 2^64 and are plain integers; the
    capacity of the slot vector itself is not modelled (it holds no payload). *)

From S2P Require Import Prelude Interfaces.

Module ChainedSendBuffer.

Definition kScratchCapacity : Z := 1024.
Definition kMaxRecycledCapacity : Z := 4 * 1024.
Definition kMaxGatherBytes : Z := 1024 * 1024.

(** [std::vector<uint8_t>]. A default-constructed or moved-from vector holds no
    memory. *)
Record Bytes := mkBytes {
  contents : list byte;
  capacity : Z;
}.
Definition no_bytes : Bytes := mkBytes [] 0.

Record Chunk := mkChunk {
  data : Bytes;
  sent : Z;
}.

Definition remaining (c : Chunk) : Z := zlen (contents (data c)) - sent c.
(** The view [(head(), remaining())]. *)
Definition unsent (c : Chunk) : list byte := zdrop (sent c) (contents (data c)).

Record ChainedSendBuffer := mk {
  chunks : list Chunk;
  head : Z;
  pending : Z;
  allocated_ : Z;
  recycled : Bytes;
}.

Definition new_buffer : ChainedSendBuffer := mk [] 0 0 0 no_bytes.

Definition empty (s : ChainedSendBuffer) : bool := pending s =? 0.
Definition size (s : ChainedSendBuffer) : Z := pending s.
Definition allocated (s : ChainedSendBuffer) : Z := allocated_ s + capacity (recycled s).
Definition chunk_count (s : ChainedSendBuffer) : Z := zlen (chunks s) - head s.

(** [append(Bytes)]. *)
Definition append_owned (d : Bytes) (s : ChainedSendBuffer) : ChainedSendBuffer :=
  if zlen (contents d) =? 0 then s
  else mk (chunks s ++ [mkChunk d 0]) (head s) (pending s + zlen (contents d))
          (allocated_ s + capacity d) (recycled s).

(** The tail chunk ([chunks_.back()]), if [bytes] fit its spare capacity. *)
Definition coalescable_tail (bytes : Z) (s : ChainedSendBuffer) : option Chunk :=
  if head s =? zlen (chunks s) then None
  else match last (chunks s) with
       | None => None
       | Some tail =>
           if bytes <=? capacity (data tail) - zlen (contents (data tail))
           then Some tail else None
       end.

(** [reserve] on an empty vector allocates what it is asked for. *)
Definition take_chunk (bytes : Z) (s : ChainedSendBuffer) : Bytes * ChainedSendBuffer :=
  if bytes <=? capacity (recycled s)
  then (recycled s, mk (chunks s) (head s) (pending s) (allocated_ s) no_bytes)
  else (mkBytes [] (Z.max bytes kScratchCapacity), s).

(** [vector::assign]: the buffer is kept when it is large enough. *)
Definition assign (bs : list byte) (d : Bytes) : Bytes :=
  mkBytes bs (if zlen bs <=? capacity d then capacity d else zlen bs).

(** [append(ByteView)]. *)
Definition append_copy (bs : list byte) (s : ChainedSendBuffer) : ChainedSendBuffer :=
  if zlen bs =? 0 then s
  else match coalescable_tail (zlen bs) s with
       | Some tail =>
           let tail := mkChunk (mkBytes (contents (data tail) ++ bs) (capacity (data tail)))
                               (sent tail) in
           mk (<[(length (chunks s) - 1)%nat := tail]> (chunks s)) (head s)
              (pending s + zlen bs) (allocated_ s) (recycled s)
       | None =>
           let '(chunk, s) := take_chunk (zlen bs) s in
           append_owned (assign bs chunk) s
       end.

Definition recycle (d : Bytes) (s : ChainedSendBuffer) : ChainedSendBuffer :=
  if kMaxRecycledCapacity <? capacity d then s
  else if capacity d <=? capacity (recycled s) then s
  else mk (chunks s) (head s) (pending s) (allocated_ s) (mkBytes [] (capacity d)).

(** The loop of [gather], over the chunks from [head_] on. *)
Fixpoint gather_loop (cs : list Chunk) (n bytes max_slices max_bytes : Z)
    : list (list byte) :=
  match cs with
  | [] => []
  | c :: cs =>
      if n <? max_slices then
        let bytes := bytes + remaining c in
        unsent c :: (if max_bytes <=? bytes then []
                     else gather_loop cs (n + 1) bytes max_slices max_bytes)
      else []
  end.

Definition gather (max_slices max_bytes : Z) (s : ChainedSendBuffer) : list (list byte) :=
  gather_loop (zdrop (head s) (chunks s)) 0 0 max_slices max_bytes.

Definition front (s : ChainedSendBuffer) : outcome (list byte) :=
  if head s =? zlen (chunks s) then Ret []
  else match zlookup (chunks s) (head s) with
       | Some c => Ret (unsent c)
       | None => UB
       end.

Definition reclaim_drained_slots (s : ChainedSendBuffer) : ChainedSendBuffer :=
  if head s =? 0 then s
  else if head s =? zlen (chunks s)
       then mk [] 0 (pending s) (allocated_ s) (recycled s)
  else if zlen (chunks s) <=? head s * 2
       then mk (zdrop (head s) (chunks s)) 0 (pending s) (allocated_ s) (recycled s)
  else s.

(** The loop of [pop_front]: each turn that goes on drains one chunk, so the
    number of chunks bounds the turns. *)
Fixpoint pop_loop (fuel : nat) (bytes : Z) (s : ChainedSendBuffer)
    : outcome ChainedSendBuffer :=
  match fuel with
  | O => UB
  | S fuel =>
      if (0 <? bytes) && (head s <? zlen (chunks s)) then
        match zlookup (chunks s) (head s) with
        | None => UB
        | Some c =>
            let left := remaining c in
            if bytes <? left then
              Ret (mk (<[Z.to_nat (head s) := mkChunk (data c) (sent c + bytes)]> (chunks s))
                      (head s) (pending s - bytes) (allocated_ s) (recycled s))
            else
              let s := mk (<[Z.to_nat (head s) := mkChunk no_bytes (sent c)]> (chunks s))
                          (head s) (pending s - left)
                          (allocated_ s - capacity (data c)) (recycled s) in
              let s := recycle (data c) s in
              pop_loop fuel (bytes - left)
                (mk (chunks s) (head s + 1) (pending s) (allocated_ s) (recycled s))
        end
      else Ret s
  end.

Definition pop_front (bytes : Z) (s : ChainedSendBuffer) : outcome ChainedSendBuffer :=
  if pending s <? bytes then UB
  else s ← pop_loop (S (length (chunks s))) bytes s; Ret (reclaim_drained_slots s).

Definition clear (s : ChainedSendBuffer) : ChainedSendBuffer := mk [] 0 0 0 no_bytes.

(** Move assignment: the target and the source it leaves behind. *)
Definition move_assign (other : ChainedSendBuffer) : ChainedSendBuffer * ChainedSendBuffer :=
  (other, clear (mk (chunks other) 0 0 0 (recycled other))).

(** * The queue a chain represents *)

Definition chunk_ok (c : Chunk) : Prop :=
  0 <= sent c < zlen (contents (data c)) /\ zlen (contents (data c)) <= capacity (data c).

Definition caps (cs : list Chunk) : Z :=
  foldr (fun c z => capacity (data c) + z) 0 cs.

Definition bytes_of (cs : list Chunk) : list byte := concat (unsent <$> cs).

Definition bytes_ok (d : Bytes) : Prop := zlen (contents d) <= capacity d.

(** The vector is the drained slots, which hold no memory, and the live chunks. *)
Definition rep (s : ChainedSendBuffer) (bs : list byte) : Prop :=
  exists dead live,
    chunks s = dead ++ live /\ head s = zlen dead
    /\ Forall (fun c => data c = no_bytes) dead /\ Forall chunk_ok live
    /\ bs = bytes_of live /\ pending s = zlen bs /\ allocated_ s = caps live
    /\ contents (recycled s) = [] /\ 0 <= capacity (recycled s) <= kMaxRecycledCapacity.

(** Split the clauses of [rep] and solve the ones that are unchanged. *)
Ltac sb_split :=
  split_and!; cbn [chunks head pending allocated_ recycled];
  try done; try apply Forall_nil_2; try lia.

Lemma zlen_unsent c : chunk_ok c -> zlen (unsent c) = remaining c /\ 0 < remaining c.
Proof. intros [? ?]. unfold unsent, remaining. rewrite zlen_zdrop by lia. lia. Qed.

Lemma caps_app cs ds : caps (cs ++ ds) = caps cs + caps ds.
Proof. induction cs as [|c cs IH]; cbn; [done|]. fold (caps (cs ++ ds)) (caps cs). lia. Qed.

Lemma bytes_of_app cs ds : bytes_of (cs ++ ds) = bytes_of cs ++ bytes_of ds.
Proof. unfold bytes_of. by rewrite fmap_app, concat_app. Qed.

Lemma bytes_of_snoc cs c : bytes_of (cs ++ [c]) = bytes_of cs ++ unsent c.
Proof. rewrite bytes_of_app. unfold bytes_of. cbn. by rewrite app_nil_r. Qed.

Lemma bytes_of_cons c cs : bytes_of (c :: cs) = unsent c ++ bytes_of cs.
Proof. done. Qed.

Lemma caps_drained dead : Forall (fun c => data c = no_bytes) dead -> caps dead = 0.
Proof. induction 1 as [|c dead H _ IH]; cbn; [done|]. rewrite H. cbn. exact IH. Qed.

Lemma bytes_of_len live : Forall chunk_ok live -> zlen (bytes_of live) <= caps live.
Proof.
  induction 1 as [|c live H _ IH]; [done|]. rewrite bytes_of_cons, zlen_app.
  destruct (zlen_unsent c H) as [-> _]. destruct H as [? ?]. unfold remaining.
  cbn [caps foldr]. fold (caps live). lia.
Qed.

Lemma rep_new : rep new_buffer [].
Proof. exists [], []. repeat split; try done; apply Forall_nil_2. Qed.

Lemma append_owned_rep s bs d :
  rep s bs -> bytes_ok d -> rep (append_owned d s) (bs ++ contents d).
Proof.
  intros (dead & live & Hc & Hh & Hd & Hl & Hb & Hp & Ha & Hr & Hrc) Hd'.
  unfold append_owned. destruct (Z.eqb_spec (zlen (contents d)) 0) as [E|E].
  { apply zlen_zero in E. rewrite E, app_nil_r. exists dead, live. done. }
  exists dead, (live ++ [mkChunk d 0]). cbn [chunks head pending allocated_ recycled].
  split_and!; try done; try lia.
  - by rewrite Hc, app_assoc.
  - apply Forall_app. split; [done|]. constructor; [|done]. split; cbn; [|done].
    zlen_facts. lia.
  - by rewrite bytes_of_snoc, Hb.
  - rewrite zlen_app. lia.
  - rewrite caps_app. cbn. lia.
Qed.

Lemma coalescable_tail_Some s bs n tail :
  rep s bs -> coalescable_tail n s = Some tail ->
  exists dead live, chunks s = dead ++ live ++ [tail] /\ head s = zlen dead
    /\ Forall (fun c => data c = no_bytes) dead /\ Forall chunk_ok (live ++ [tail])
    /\ bs = bytes_of (live ++ [tail]) /\ pending s = zlen bs
    /\ allocated_ s = caps (live ++ [tail])
    /\ n <= capacity (data tail) - zlen (contents (data tail)).
Proof.
  intros (dead & live & Hc & Hh & Hd & Hl & Hb & Hp & Ha & _).
  unfold coalescable_tail. destruct (Z.eqb_spec (head s) (zlen (chunks s))) as [E|E]; [done|].
  destruct live as [|c live _] using rev_ind.
  { exfalso. apply E. rewrite Hc, zlen_app, Hh. zlia. }
  rewrite Hc, app_assoc, last_snoc. destruct (Z.leb_spec n
    (capacity (data c) - zlen (contents (data c)))); [|done].
  intros [= <-]. exists dead, live. split_and!; try done. by rewrite app_assoc.
Qed.

Lemma append_copy_rep s bs new :
  rep s bs -> rep (append_copy new s) (bs ++ new).
Proof.
  intros R. unfold append_copy. destruct (Z.eqb_spec (zlen new) 0) as [E|E].
  { apply zlen_zero in E as ->. by rewrite app_nil_r. }
  destruct (coalescable_tail (zlen new) s) as [tail|] eqn:Et.
  - destruct (coalescable_tail_Some _ _ _ _ R Et)
      as (dead & live & Hc & Hh & Hd & Hl & Hb & Hp & Ha & Hn).
    destruct R as (_ & _ & _ & _ & _ & _ & _ & _ & _ & Hr & Hrc).
    apply Forall_app in Hl as [Hl Ht]. inversion Ht as [|? ? [Ht1 Ht2] _]; subst.
    set (tail' := mkChunk _ _).
    exists dead, (live ++ [tail']). cbn [chunks head pending allocated_ recycled].
    split_and!; try done; try lia.
    + rewrite Hc, !length_app. cbn [length].
      replace (length dead + (length live + 1) - 1)%nat with (length (dead ++ live) + 0)%nat
        by (rewrite length_app; lia).
      rewrite app_assoc, insert_app_r. cbn. by rewrite <- app_assoc.
    + apply Forall_app. split; [done|]. constructor; [|done].
      split; cbn; rewrite zlen_app; zlen_facts; lia.
    + rewrite !bytes_of_snoc, <- app_assoc. do 2 f_equal. unfold unsent. cbn.
      rewrite zdrop_app_le; [done|lia].
    + rewrite zlen_app. lia.
    + rewrite Ha, !caps_app. done.
  - destruct (take_chunk (zlen new) s) as [chunk s'] eqn:Ek.
    unfold take_chunk in Ek. destruct R as (dead & live & Hc & Hh & Hd & Hl & Hb & Hp & Ha & Hr & Hrc).
    assert (rep s' bs) as R'.
    { destruct (_ <=? _) in Ek; simplify_eq; exists dead, live;
        split_and!; try done; cbn; unfold kMaxRecycledCapacity in *; lia. }
    change (bs ++ new) with (bs ++ contents (assign new chunk)).
    apply append_owned_rep; [done|]. unfold bytes_ok, assign. cbn.
    destruct (Z.leb_spec (zlen new) (capacity chunk)); lia.
Qed.

(** ** Draining *)

Lemma recycle_rep d s bs : rep s bs -> 0 <= capacity d -> rep (recycle d s) bs.
Proof.
  intros (dead & live & Hc & Hh & Hd & Hl & Hb & Hp & Ha & Hr & Hrc) Hcd.
  unfold recycle. destruct (Z.ltb_spec kMaxRecycledCapacity (capacity d));
    [exists dead, live; done|].
  destruct (_ <=? _); exists dead, live; split_and!; try done; cbn; lia.
Qed.

Lemma recycle_fields d s :
  chunks (recycle d s) = chunks s /\ head (recycle d s) = head s
  /\ pending (recycle d s) = pending s /\ allocated_ (recycle d s) = allocated_ s.
Proof. unfold recycle. by repeat case_match. Qed.

Lemma reclaim_rep s bs : rep s bs -> rep (reclaim_drained_slots s) bs.
Proof.
  intros (dead & live & Hc & Hh & Hd & Hl & Hb & Hp & Ha & Hr & Hrc).
  unfold reclaim_drained_slots. rewrite Hh, Hc, zlen_app.
  destruct (Z.eqb_spec (zlen dead) 0); [exists dead, live; done|].
  destruct (Z.eqb_spec (zlen dead) (zlen dead + zlen live)) as [E|E].
  - assert (live = []) as -> by (apply zlen_zero; lia).
    exists [], []. sb_split.
  - destruct (_ <=? _); [|exists dead, live; done].
    exists [], live. rewrite zdrop_app by done. sb_split.
Qed.

Lemma zlookup_app_head {A} (dead live : list A) c :
  zlookup (dead ++ c :: live) (zlen dead) = Some c.
Proof.
  unfold zlookup, zlen. destruct (Z.leb_spec 0 (Z.of_nat (length dead))); [|lia].
  rewrite Nat2Z.id. by rewrite list_lookup_middle.
Qed.

Lemma insert_app_head {A} (dead live : list A) c c' :
  <[Z.to_nat (zlen dead) := c']> (dead ++ c :: live) = dead ++ c' :: live.
Proof.
  unfold zlen. rewrite Nat2Z.id. rewrite <- (Nat.add_0_r (length dead)). by rewrite insert_app_r.
Qed.

(** The split into drained slots and live chunks is unique. *)
Lemma rep_at s bs dead live :
  rep s bs -> chunks s = dead ++ live -> head s = zlen dead ->
  pending s = zlen bs /\ allocated_ s = caps live
  /\ contents (recycled s) = [] /\ 0 <= capacity (recycled s) <= kMaxRecycledCapacity.
Proof.
  intros (d & l & Hc0 & Hh0 & _ & _ & _ & ? & Ha & ? & ?) Hc Hh.
  rewrite Hc in Hc0. apply app_inj_1 in Hc0; [|unfold zlen in *; lia].
  destruct Hc0; subst. done.
Qed.

(** One turn of the loop that drains a whole chunk. *)
Lemma drain_head_rep s dead c live :
  rep s (bytes_of (c :: live)) ->
  chunks s = dead ++ c :: live -> head s = zlen dead ->
  Forall (fun c => data c = no_bytes) dead -> Forall chunk_ok (c :: live) ->
  let s1 := mk (<[Z.to_nat (head s) := mkChunk no_bytes (sent c)]> (chunks s)) (head s)
               (pending s - remaining c) (allocated_ s - capacity (data c)) (recycled s) in
  let s2 := recycle (data c) s1 in
  let s3 := mk (chunks s2) (head s2 + 1) (pending s2) (allocated_ s2) (recycled s2) in
  rep s3 (bytes_of live)
  /\ chunks s3 = (dead ++ [mkChunk no_bytes (sent c)]) ++ live
  /\ head s3 = zlen (dead ++ [mkChunk no_bytes (sent c)]).
Proof.
  intros R Hc Hh Hd Hl s1 s2 s3.
  destruct (recycle_fields (data c) s1) as (E1 & E2 & E3 & E4). fold s2 in E1, E2, E3, E4.
  assert (chunks s3 = (dead ++ [mkChunk no_bytes (sent c)]) ++ live) as Hc3.
  { unfold s3. cbn. rewrite E1. unfold s1. cbn. rewrite Hh, Hc, insert_app_head.
    by rewrite <- app_assoc. }
  assert (head s3 = zlen (dead ++ [mkChunk no_bytes (sent c)])) as Hh3.
  { unfold s3. cbn. rewrite E2. cbn. rewrite zlen_app, zlen_cons, zlen_nil. lia. }
  split_and!; [|done..]. inversion Hl as [|? ? Hok Hl']; subst.
  destruct (zlen_unsent c Hok) as [Hu Hpos].
  destruct (rep_at _ _ _ _ R Hc Hh) as (Hp0 & Ha0 & Hr0 & Hrc0).
  exists (dead ++ [mkChunk no_bytes (sent c)]), live.
  split_and!; try done.
  - apply Forall_app. split; [done|]. by constructor.
  - unfold s3. cbn. rewrite E3. cbn. rewrite Hp0, bytes_of_cons, zlen_app. lia.
  - unfold s3. cbn. rewrite E4. cbn. rewrite Ha0. cbn. fold (caps live). lia.
  - unfold s3, s2, recycle, s1. cbn. by repeat case_match.
  - unfold s3, s2, recycle, s1. cbn. destruct Hok as [? ?].
    repeat case_match; cbn; lia.
  - unfold s3, s2, recycle, s1. cbn.
    destruct (Z.ltb_spec kMaxRecycledCapacity (capacity (data c))); cbn; [lia|].
    case_match; cbn; lia.
Qed.

Lemma pop_loop_rep fuel n s dead live :
  rep s (bytes_of live) -> chunks s = dead ++ live -> head s = zlen dead ->
  Forall (fun c => data c = no_bytes) dead -> Forall chunk_ok live ->
  0 <= n <= zlen (bytes_of live) -> (length live < fuel)%nat ->
  returns (pop_loop fuel n s) (fun s' => rep s' (zdrop n (bytes_of live))).
Proof.
  revert n s dead live; induction fuel as [|fuel IH]; intros n s dead live R Hc Hh Hd Hl Hn Hf;
    [lia|]. cbn [pop_loop].
  destruct (Z.ltb_spec 0 n) as [Hpos|Hpos]; cbn [andb].
  2:{ cbn. replace n with 0 by lia. by rewrite zdrop_0. }
  destruct live as [|c live]; [change (zlen (bytes_of [])) with 0 in Hn; lia|].
  rewrite Hc at 1. rewrite zlen_app, zlen_cons, Hh at 1.
  destruct (Z.ltb_spec (zlen dead) (zlen dead + (1 + zlen live))); [|zlen_facts; lia].
  rewrite Hc at 1. rewrite Hh at 1. rewrite zlookup_app_head.
  inversion Hl as [|? ? Hok Hl']; subst. destruct (zlen_unsent c Hok) as [Hu Hrem].
  destruct (Z.ltb_spec n (remaining c)) as [Hlt|Hge].
  - cbn [returns].
    destruct (rep_at _ _ _ _ R Hc Hh) as (Hp0 & Ha0 & Hr0 & Hrc0).
    set (c' := mkChunk (data c) (sent c + n)).
    exists dead, (c' :: live). cbn [chunks head pending allocated_ recycled].
    rewrite Hh, Hc, insert_app_head.
    assert (zdrop n (bytes_of (c :: live)) = bytes_of (c' :: live)) as Hz.
    { rewrite !bytes_of_cons, zdrop_app_le by lia. f_equal. unfold unsent, c'. cbn.
      destruct Hok. rewrite zdrop_zdrop by lia. done. }
    split_and!; try done; try lia.
    + constructor; [|done]. destruct Hok as [? ?]. unfold remaining in Hlt.
      split; cbn; [lia|done].
    + rewrite zlen_zdrop; lia.
  - destruct (drain_head_rep s dead c live R Hc Hh Hd Hl) as (R' & Hc' & Hh').
    rewrite bytes_of_cons in Hn |- *. rewrite zlen_app in Hn.
    replace (zdrop n (unsent c ++ bytes_of live)) with (zdrop (n - remaining c) (bytes_of live)).
    + eapply (IH _ _ _ live); [exact R'|exact Hc'|exact Hh'| |done|lia|cbn in Hf; lia].
      apply Forall_app. split; [done|]. by constructor.
    + replace n with (remaining c + (n - remaining c)) at 2 by lia.
      rewrite <- zdrop_zdrop by lia. by rewrite (zdrop_app (remaining c)).
Qed.

Lemma pop_front_rep s bs n :
  rep s bs -> 0 <= n <= zlen bs -> returns (pop_front n s) (fun s' => rep s' (zdrop n bs)).
Proof.
  intros R Hn. pose proof R as (dead & live & Hc & Hh & Hd & Hl & Hb & Hp & _).
  unfold pop_front. rewrite Hp. destruct (Z.ltb_spec (zlen bs) n); [lia|].
  subst bs. eapply returns_bind.
  - eapply (pop_loop_rep _ _ _ dead live); try done. rewrite Hc, length_app. lia.
  - intros s' R'. cbn. by apply reclaim_rep.
Qed.

(** ** Gathering *)

Lemma gather_loop_spec cs n bytes max_slices max_bytes :
  Forall chunk_ok cs ->
  let g := gather_loop cs n bytes max_slices max_bytes in
  exists k, g = unsent <$> take k cs /\ (k <= length cs)%nat
    /\ (n <= max_slices -> n + Z.of_nat k <= max_slices)
    /\ (k = length cs \/ n + Z.of_nat k >= max_slices
        \/ max_bytes <= bytes + zlen (bytes_of (take k cs)))
    /\ (cs <> [] -> n < max_slices -> (0 < k)%nat).
Proof.
  intros Hcs. revert n bytes. induction Hcs as [|c cs Hok _ IH]; intros n bytes g.
  { exists 0%nat. cbn. split_and!; [done|lia..|by left|done]. }
  unfold g. cbn [gather_loop]. destruct (Z.ltb_spec n max_slices).
  2:{ exists 0%nat. cbn. split_and!; [done|lia..|right; left; lia|lia]. }
  destruct (zlen_unsent c Hok) as [Hu _].
  destruct (Z.leb_spec max_bytes (bytes + remaining c)).
  - exists 1%nat. split_and!; [done|cbn; lia|lia| |lia]. right. right. cbn [take].
    rewrite bytes_of_cons, zlen_app. zlen_facts. lia.
  - destruct (IH (n + 1) (bytes + remaining c)) as (k & Hg & Hk & Hn & Hstop & _).
    exists (S k). cbn [take fmap list_fmap]. rewrite Hg. split_and!; [done|cbn; lia|lia| |lia].
    rewrite bytes_of_cons, zlen_app, Hu. cbn [length].
    destruct Hstop as [->|[?|?]]; [by left | right; left; lia | right; right; lia].
Qed.

Lemma gather_spec s bs max_slices max_bytes :
  rep s bs -> 0 < max_slices ->
  let g := gather max_slices max_bytes s in
  exists later, bs = concat g ++ later
    /\ Forall (fun slice => slice <> []) g /\ zlen g <= max_slices
    /\ (later = [] \/ zlen g = max_slices \/ max_bytes <= zlen (concat g))
    /\ (bs <> [] -> concat g <> []).
Proof.
  intros R Hm.
  destruct R as (dead & live & Hc & Hh & Hd & Hl & -> & Hp & _). unfold gather.
  rewrite Hc, Hh, zdrop_app by done. cbv zeta.
  destruct (gather_loop_spec live 0 0 max_slices max_bytes Hl) as (k & -> & Hk & Hn & Hstop & Hpos).
  exists (bytes_of (drop k live)). fold (bytes_of (take k live)).
  assert (zlen (unsent <$> take k live) = Z.of_nat k) as Hg
    by (unfold zlen; rewrite length_fmap, length_take; lia).
  rewrite <- bytes_of_app, take_drop, Hg. split_and!.
  - done.
  - apply Forall_fmap, (Forall_impl chunk_ok); [by apply Forall_take|].
    intros c Hok. cbn. destruct (zlen_unsent c Hok) as [Hu Hr].
    intros E. rewrite E in Hu. change (zlen []) with 0 in Hu. lia.
  - lia.
  - destruct Hstop as [->|[?|?]]; [left; by rewrite drop_all | right; left; lia | right; right; lia].
  - intros Hne E. destruct live as [|c live]; [done|]. inversion Hl as [|? ? Hok _]; subst.
    destruct (zlen_unsent c Hok) as [Hu Hr].
    destruct k as [|k]; [specialize (Hpos ltac:(done) Hm); lia|].
    cbn [take] in E. rewrite bytes_of_cons in E.
    apply app_nil in E as [E _]. rewrite E in Hu. change (zlen []) with 0 in Hu. lia.
Qed.

(** * Claims *)

(** [gather] describes the front of the queue: its slices, in order, are a
    prefix of the bytes to send, none of them is empty and there are at most
    [max_slices]; when it stops short of the whole queue, it has used all slices
    or covered [max_bytes]. In particular a non-empty queue always yields a slice,
    so a flush makes progress. *)
Theorem gather_prefix s bs max_slices max_bytes (R : rep s bs) (Hm : 0 < max_slices) :
  let g := gather max_slices max_bytes s in
  exists later, bs = concat g ++ later
    /\ Forall (fun slice => slice <> []) g /\ zlen g <= max_slices
    /\ (later = [] \/ zlen g = max_slices \/ max_bytes <= zlen (concat g))
    /\ (bs <> [] -> concat g <> []).
Proof. by apply gather_spec. Qed.

Lemma gather_prefix_witness :
  exists later, [x61; x62; x63] = concat (gather 1 10 (append_owned (mkBytes [x63] 1)
                    (append_owned (mkBytes [x61; x62] 2) new_buffer))) ++ later
    /\ later = [x63].
Proof.
  destruct (gather_prefix (append_owned (mkBytes [x63] 1)
              (append_owned (mkBytes [x61; x62] 2) new_buffer)) [x61; x62; x63] 1 10)
    as (later & H & _).
  - apply (append_owned_rep _ [x61; x62] (mkBytes [x63] 1)); [|by vm_compute].
    apply (append_owned_rep _ [] (mkBytes [x61; x62] 2)); [apply rep_new|by vm_compute].
  - lia.
  - exists later. split; [exact H|]. vm_compute in H. congruence.
Defined.

(** What the owner of a queue does with it: queue a buffer it gives away, queue a
    copy, and drop what the socket accepted (at most what is queued). *)
Inductive Op :=
| AppendOwned (d : Bytes)
| AppendCopy (bs : list byte)
| PopFront (n : Z).

Definition op_ok (o : Op) : Prop :=
  match o with
  | AppendOwned d => bytes_ok d
  | AppendCopy _ => True
  | PopFront n => 0 <= n
  end.

(** The queue, all bytes queued and all bytes sent so far. *)
Definition step (st : ChainedSendBuffer * list byte * list byte) (o : Op)
    : outcome (ChainedSendBuffer * list byte * list byte) :=
  let '(s, queued, gone) := st in
  match o with
  | AppendOwned d => Ret (append_owned d s, queued ++ contents d, gone)
  | AppendCopy bs => Ret (append_copy bs s, queued ++ bs, gone)
  | PopFront n =>
      let n := Z.min n (size s) in
      let slices := concat (gather (zlen (chunks s) + 1) (size s + 1) s) in
      s ← pop_front n s;
      Ret (s, queued, gone ++ ztake n slices)
  end.

Fixpoint run (ops : list Op) (st : ChainedSendBuffer * list byte * list byte)
    : outcome (ChainedSendBuffer * list byte * list byte) :=
  match ops with
  | [] => Ret st
  | o :: ops => st ← step st o; run ops st
  end.

Definition fifo (st : ChainedSendBuffer * list byte * list byte) : Prop :=
  let '(s, queued, gone) := st in exists bs, rep s bs /\ queued = gone ++ bs.

(** Enough slices and bytes: [gather] describes the whole queue. *)
Lemma gather_all s bs :
  rep s bs -> concat (gather (zlen (chunks s) + 1) (size s + 1) s) = bs.
Proof.
  intros (dead & live & Hc & Hh & Hd & Hl & -> & Hp & _). unfold gather, size.
  rewrite Hp, Hc, Hh, zdrop_app by done.
  destruct (gather_loop_spec live 0 0 (zlen (dead ++ live) + 1) (zlen (bytes_of live) + 1) Hl)
    as (k & -> & Hk & _ & Hstop & _).
  change (bytes_of (take k live) = bytes_of live).
  destruct Hstop as [->|[Hs|Hs]].
  - by rewrite firstn_all.
  - rewrite zlen_app in Hs. unfold zlen in Hs. lia.
  - exfalso. assert (zlen (bytes_of (take k live)) <= zlen (bytes_of live)); [|lia].
    rewrite <- (take_drop k live) at 2. rewrite bytes_of_app, zlen_app. zlen_facts. lia.
Qed.

Lemma send_step_fifo st o : fifo st -> op_ok o -> returns (step st o) fifo.
Proof.
  destruct st as [[s queued] gone]. intros (bs & R & ->) Ho.
  destruct o as [d|new|n]; cbn [step op_ok] in *.
  - exists (bs ++ contents d). split; [by apply append_owned_rep | by rewrite app_assoc].
  - exists (bs ++ new). split; [by apply append_copy_rep | by rewrite app_assoc].
  - rewrite (gather_all _ _ R). pose proof R as (_ & _ & _ & _ & _ & _ & _ & Hp & _).
    unfold size. rewrite Hp.
    eapply returns_bind; [apply pop_front_rep; [done|zlen_facts; lia]|].
    intros s' R'. exists (zdrop (Z.min n (zlen bs)) bs). split; [done|].
    by rewrite <- app_assoc, ztake_zdrop.
Qed.

(** C33: the chain is a first-in first-out byte queue that accounts for its memory
    exactly. For any sequence of appends (owned or copied, packed into a tail
    chunk or not) and partial sends, nothing runs out of range, what was sent
    followed by what is pending is exactly what was queued, [size()] is the number
    of pending bytes, and [allocated()] is the capacity of every buffer the object
    still owns, drained slots included: no buffer is held unaccounted. *)
Theorem send_buffer_fifo ops (Hops : Forall op_ok ops) :
  returns (run ops (new_buffer, [], [])) (fun '(s, queued, gone) =>
    queued = gone ++ concat (gather (zlen (chunks s) + 1) (size s + 1) s)
    /\ size s = zlen queued - zlen gone
    /\ allocated s = caps (chunks s) + capacity (recycled s)
    /\ size s <= allocated s).
Proof.
  assert (forall st, fifo st -> returns (run ops st) fifo) as Hrun.
  { induction Hops as [|o ops Ho _ IH]; intros st Hst; [done|].
    cbn. eapply returns_bind; [by apply send_step_fifo|]. auto. }
  eapply returns_mono; [apply Hrun; exists []; split; [apply rep_new|done]|].
  intros [[s queued] gone] (bs & R & ->). rewrite (gather_all _ _ R).
  destruct R as (dead & live & Hc & Hh & Hd & Hl & Hb & Hp & Ha & Hr & Hrc).
  unfold size, allocated. rewrite Hp, Ha, Hc, caps_app, (caps_drained dead Hd).
  pose proof (bytes_of_len live Hl). rewrite zlen_app. subst bs. split_and!; [done|lia..].
Qed.

Lemma send_buffer_fifo_witness :
  returns (run [AppendCopy [x61; x62]; AppendCopy [x63]; AppendOwned (mkBytes [x64] 8);
                PopFront 4; AppendCopy [x65]] (new_buffer, [], []))
    (fun '(s, queued, gone) =>
       queued = gone ++ concat (gather (zlen (chunks s) + 1) (size s + 1) s)
       /\ size s = zlen queued - zlen gone
       /\ allocated s = caps (chunks s) + capacity (recycled s)
       /\ size s <= allocated s)
  /\ returns (run [AppendCopy [x61; x62]; AppendCopy [x63]; AppendOwned (mkBytes [x64] 8);
                PopFront 4; AppendCopy [x65]] (new_buffer, [], []))
    (fun '(s, queued, gone) => gone = [x61; x62; x63; x64] /\ allocated s = 1024).
Proof.
  split; [|by vm_compute]. apply send_buffer_fifo.
  repeat (apply Forall_cons_2; [by vm_compute|]). apply Forall_nil_2.
Defined.

(** * The interface *)

#[global, program] Instance chained_send_buffer_tx : TxQueue ChainedSendBuffer := {|
  tx_new := new_buffer;
  tx_append_copy := append_copy;
  tx_append_owned bs cap := append_owned (mkBytes bs cap);
  tx_empty := empty;
  tx_allocated := allocated;
  tx_gather n := gather n kMaxGatherBytes;
  tx_pop_front := pop_front;
  tx_rep := rep;
|}.
Next Obligation. apply rep_new. Qed.
Next Obligation. intros. by apply append_copy_rep. Qed.
Next Obligation. intros q bs new cap R Hc. by apply (append_owned_rep q bs (mkBytes new cap)). Qed.
Next Obligation.
  intros q bs (dead & live & _ & _ & _ & _ & _ & Hp & _). unfold empty.
  rewrite Hp, Z.eqb_eq. apply zlen_zero.
Qed.
Next Obligation.
  intros q bs (dead & live & _ & _ & _ & Hl & -> & _ & Ha & _ & Hr). unfold allocated.
  rewrite Ha. pose proof (bytes_of_len _ Hl). lia.
Qed.
Next Obligation.
  intros q bs n R Hn. destruct (gather_spec q bs n kMaxGatherBytes R Hn)
    as (later & Hl & _ & _ & _ & Hne). by exists later.
Qed.
Next Obligation. intros. by apply pop_front_rep. Qed.

End ChainedSendBuffer.
