(* ===== verification/PeerId.v ===== *)
(** The identity of a peer ([peer/peer_id.{h,cpp}]): 32 bytes, and their textual
    form. Text is a list of bytes, as [std::string] is. [from_public_key] is in [Noise.v]. *)

From S2P Require Import Prelude Text.

Definition PeerId : Type := list byte.

Module peer_id.

Definition kSize : Z := 32.

(** What the type [std::array<uint8_t, 32>] guarantees. *)
Definition id_ok (id : PeerId) : Prop := zlen id = kSize.

Definition hex_value (c : byte) : Z :=
  let v := u8 c in
  if (48 <=? v) && (v <=? 57) then v - 48
  else if (97 <=? v) && (v <=? 102) then v - 97 + 10
  else if (65 <=? v) && (v <=? 70) then v - 65 + 10
  else -1.

Definition hex_digit (v : Z) : byte := byte_of (if v <? 10 then 48 + v else 87 + v).

Definition from_bytes (raw : list byte) : option PeerId :=
  if zlen raw =? kSize then Some raw else None.

(** The loop of [from_hex], two characters at a time. *)
Fixpoint parse_hex (hex : list byte) : option (list byte) :=
  match hex with
  | [] => Some []
  | h :: l :: hex =>
      let hi := hex_value h in
      let lo := hex_value l in
      if (hi <? 0) || (lo <? 0) then None
      else rest ← parse_hex hex; Some (byte_of (Z.lor (Z.shiftl hi 4) lo) :: rest)
  | [_] => None
  end.

Definition from_hex (hex : list byte) : option PeerId :=
  if zlen hex =? kSize * 2 then parse_hex hex else None.

Definition to_hex (id : PeerId) : list byte :=
  concat ((fun b => [hex_digit (Z.shiftr (u8 b) 4); hex_digit (Z.land (u8 b) 15)]) <$> id).

Definition short_hex (id : PeerId) : list byte := ztake 8 (to_hex id).

Definition is_zero (id : PeerId) : bool := forallb (fun b => u8 b =? 0) id.

(** [operator<] of [std::array]: lexicographic on the bytes. *)
Definition lt (a b : PeerId) : bool := bytes_lt a b.

(** The lower-case form of a hex digit. *)
Definition to_lower (c : byte) : byte :=
  let v := u8 c in if (65 <=? v) && (v <=? 90) then byte_of (v + 32) else c.

(** ** Lemmas *)

Lemma hex_digits_byte b :
  hex_value (hex_digit (Z.shiftr (u8 b) 4)) = Z.shiftr (u8 b) 4
  /\ hex_value (hex_digit (Z.land (u8 b) 15)) = Z.land (u8 b) 15
  /\ byte_of (Z.lor (Z.shiftl (Z.shiftr (u8 b) 4) 4) (Z.land (u8 b) 15)) = b.
Proof. destruct b; vm_compute; done. Qed.

(** A digit pair that [from_hex] accepts is the pair [to_hex] writes, up to case. *)
Lemma hex_value_digit c :
  0 <= hex_value c -> hex_digit (hex_value c) = to_lower c /\ hex_value c < 16.
Proof. destruct c; vm_compute; intros H; try done; by destruct (H eq_refl). Qed.

Lemma nibbles hi lo :
  0 <= hi < 16 -> 0 <= lo < 16 ->
  let b := byte_of (Z.lor (Z.shiftl hi 4) lo) in
  Z.shiftr (u8 b) 4 = hi /\ Z.land (u8 b) 15 = lo.
Proof.
  intros Hh Hl.
  assert (forallb (fun n => forallb (fun m =>
      let b := byte_of (Z.lor (Z.shiftl (Z.of_nat n) 4) (Z.of_nat m)) in
      (Z.shiftr (u8 b) 4 =? Z.of_nat n) && (Z.land (u8 b) 15 =? Z.of_nat m)) (seq 0 16)) (seq 0 16)
      = true) as Hall by (vm_compute; done).
  rewrite forallb_forall in Hall.
  specialize (Hall (Z.to_nat hi)). rewrite in_seq in Hall. specialize (Hall ltac:(lia)).
  rewrite forallb_forall in Hall.
  specialize (Hall (Z.to_nat lo)). rewrite in_seq in Hall. specialize (Hall ltac:(lia)).
  rewrite !Z2Nat.id in Hall by lia. apply andb_prop in Hall as [H1 H2].
  by apply Z.eqb_eq in H1, H2.
Qed.

Lemma zlen_to_hex id : zlen (to_hex id) = 2 * zlen id.
Proof.
  unfold to_hex. induction id as [|b id IH]; [done|].
  cbn [fmap list_fmap concat]. rewrite zlen_app, IH. zlia.
Qed.

Lemma parse_to_hex id : parse_hex (to_hex id) = Some id.
Proof.
  induction id as [|b id IH]; [done|].
  unfold to_hex in *. cbn [fmap list_fmap concat app parse_hex].
  destruct (hex_digits_byte b) as (-> & -> & Hb). pose proof (u8_range b).
  destruct (Z.ltb_spec (Z.shiftr (u8 b) 4) 0) as [E|];
    [apply Z.shiftr_neg in E; lia|].
  destruct (Z.ltb_spec (Z.land (u8 b) 15) 0) as [E|];
    [apply Z.land_neg in E; lia|].
  cbn [orb]. rewrite IH. cbn. by rewrite Hb.
Qed.

Lemma to_hex_parse hex id :
  parse_hex hex = Some id -> to_hex id = to_lower <$> hex /\ zlen hex = 2 * zlen id.
Proof.
  remember (length hex) as n eqn:En. revert hex id En.
  induction n as [n IH] using lt_wf_ind. intros [|h [|l hex]] id En; cbn [parse_hex].
  - intros [= <-]. done.
  - done.
  - destruct (Z.ltb_spec (hex_value h) 0); [done|].
    destruct (Z.ltb_spec (hex_value l) 0); [done|]. cbn [orb].
    destruct (parse_hex hex) as [id'|] eqn:E; [|done]. intros [= <-].
    destruct (IH (length hex) ltac:(cbn in En; lia) hex id' eq_refl E) as [Hh Hlen].
    destruct (hex_value_digit h ltac:(done)) as [Hdh ?].
    destruct (hex_value_digit l ltac:(done)) as [Hdl ?].
    destruct (nibbles (hex_value h) (hex_value l) ltac:(lia) ltac:(lia)) as [E1 E2].
    split; [|zlia]. unfold to_hex in *. cbn [fmap list_fmap concat app].
    by rewrite E1, E2, Hdh, Hdl, Hh.
Qed.

(** An id and its text determine each other: what [to_hex] writes, [from_hex]
    reads back, and a text that [from_hex] accepts is, up to the case of its
    letters, what [to_hex] writes for the id; every id read is 32 bytes. *)
Theorem peer_id_hex_roundtrip :
  (forall id, id_ok id -> from_hex (to_hex id) = Some id)
  /\ (forall hex id, from_hex hex = Some id -> to_hex id = to_lower <$> hex /\ id_ok id).
Proof.
  unfold from_hex, id_ok, kSize. split.
  - intros id Hid. rewrite zlen_to_hex, Hid. apply parse_to_hex.
  - intros hex id. destruct (Z.eqb_spec (zlen hex) (32 * 2)) as [E|]; [|done].
    intros H. apply to_hex_parse in H as [-> Hl]. split; [done|lia].
Qed.

End peer_id.
