(* ===== verification/Security.v ===== *)
(** The plaintext security provider ([security/plaintext_security.h]), the reference
    implementation of the handshake and session contract. The session keeps only the
    remote id, which it never uses to transform data. *)

From S2P Require Import Prelude Interfaces PeerId.

(** [protocol_id] of [security/handshaker.h]: a 14-byte tag, then the protocol. *)
Definition protocol_tag : list byte :=
  [x6c; x69; x62; x72; x61; x74; x73; x2d; x70; x72; x6f; x74; x6f; x1f].
Definition protocol_id (protocol : list byte) : list byte := protocol_tag ++ protocol.

Module Plaintext.

Record PlaintextSession := mkSession { remote_id : PeerId }.

Record PlaintextHandshaker := mkHandshaker {
  local : PeerId;
  proto : list byte;
  initiator : bool;
}.

#[global] Instance plaintext_session : Session PlaintextSession := {|
  encrypt s plain := Some (s, plain);
  decrypt s cipher := Some (s, cipher);
  is_secure _ := false;
|}.

Definition append_message (h : PlaintextHandshaker) (out : list byte) : list byte :=
  out ++ [byte_of (Z.shiftr (zlen (proto h)) 8); byte_of (zlen (proto h))]
      ++ proto h ++ local h.

Definition start (h : PlaintextHandshaker) : option (PlaintextHandshaker * list byte) :=
  Some (h, if initiator h then append_message h [] else []).

Definition consume (h : PlaintextHandshaker) (incoming : list byte)
    : PlaintextHandshaker * HsStatus PlaintextSession * list byte :=
  let n := zlen incoming in
  match incoming with
  | p0 :: p1 :: rest =>
      let proto_len := Z.lor (Z.shiftl (u8 p0) 8) (u8 p1) in
      if n <? 2 + proto_len + peer_id.kSize then (h, Failed, [])
      else if negb (proto_len =? zlen (proto h))
              || negb (bool_decide (ztake proto_len rest = ztake proto_len (proto h)))
      then (h, Failed, [])
      else
        match peer_id.from_bytes (ztake peer_id.kSize (zdrop proto_len rest)) with
        | None => (h, Failed, [])
        | Some remote =>
            (h, Done (mkSession remote) remote,
             if initiator h then [] else append_message h [])
        end
  | _ => (h, Failed, [])
  end.

(** [PlaintextSecurity]: a local id and a protocol id. *)
Definition provider (id : PeerId) (protocol : list byte)
    : SecurityProvider PlaintextHandshaker PlaintextSession := {|
  create role := mkHandshaker id (protocol_id protocol) (bool_decide (role = Outbound));
  hs_start := start;
  hs_consume := consume;
|}.

(** ** Lemmas *)

Lemma proto_len_bytes n :
  0 <= n < 2 ^ 16 -> Z.lor (Z.shiftl (u8 (byte_of (Z.shiftr n 8))) 8) (u8 (byte_of n)) = n.
Proof.
  intros Hn. rewrite !u8_byte_of, Z.shiftr_div_pow2 by lia.
  change (2 ^ 8) with 256. rewrite (Z.mod_small (n / 256)).
  2:{ split; [apply Z.div_pos; lia | apply Z.div_lt_upper_bound; lia]. }
  rewrite lor_shiftl_add by (try apply Z.mod_pos_bound; lia).
  change (2 ^ 8) with 256. pose proof (Z.div_mod n 256). lia.
Qed.

Lemma consume_message h h' tail :
  zlen (proto h') < 2 ^ 16 -> peer_id.id_ok (local h') ->
  consume h (append_message h' [] ++ tail) =
  if bool_decide (proto h' = proto h)
  then (h, Done (mkSession (local h')) (local h'),
        if initiator h then [] else append_message h [])
  else (h, Failed, []).
Proof.
  intros Hp Hid. unfold append_message. cbn [app consume].
  rewrite (proto_len_bytes (zlen (proto h'))) by zlia. unfold peer_id.id_ok in Hid.
  rewrite <- !app_assoc, !zlen_cons, !zlen_app. unfold peer_id.kSize in *.
  destruct (Z.ltb_spec (1 + (1 + (zlen (proto h') + (zlen (local h') + zlen tail))))
                       (2 + zlen (proto h') + 32)); [zlia|].
  rewrite ztake_app, zdrop_app, (ztake_app 32) by done.
  destruct (bool_decide_reflect (proto h' = proto h)) as [E|E].
  - rewrite E, Z.eqb_refl, ztake_all, bool_decide_true by (done || lia). cbn [negb orb].
    unfold peer_id.from_bytes, peer_id.kSize. by rewrite Hid.
  - destruct (Z.eqb_spec (zlen (proto h')) (zlen (proto h))) as [El|]; [|done].
    rewrite El, ztake_all, bool_decide_false by (done || lia). done.
Qed.

(** The plaintext handshake. The initiator opens with one message and the
    responder with none; when the two protocols are the same, the responder
    completes with the initiator's id and answers, and on that answer the initiator
    completes with the responder's id and nothing more to say; when they differ, the
    responder fails without a reply. *)
Theorem plaintext_handshake idA idB protocolA protocolB
    (HA : peer_id.id_ok idA) (HB : peer_id.id_ok idB)
    (HpA : zlen protocolA <= 65521) (HpB : zlen protocolB <= 65521) :
  let a := create (SecurityProvider:=provider idA protocolA) Outbound in
  let b := create (SecurityProvider:=provider idB protocolB) Inbound in
  exists m1, start a = Some (a, m1) /\ start b = Some (b, [])
  /\ if bool_decide (protocolA = protocolB) then
       exists m2, consume b m1 = (b, Done (mkSession idA) idA, m2)
                  /\ consume a m2 = (a, Done (mkSession idB) idB, [])
     else consume b m1 = (b, Failed, []).
Proof.
  assert (forall p, zlen (protocol_id p) = 14 + zlen p) as Ht
    by (intros p; unfold protocol_id; rewrite zlen_app; done).
  intros a b. exists (append_message a []). split_and!; [done..|].
  assert (forall p q, protocol_id p = protocol_id q <-> p = q) as Hinj
    by (unfold protocol_id; intros p q; split; [apply (inj (app protocol_tag))|by intros ->]).
  pose proof (consume_message b a []) as Hb. pose proof (consume_message a b []) as Ha.
  rewrite !app_nil_r in Ha, Hb. unfold a, b in *. cbn [create provider proto local initiator] in *.
  change (bool_decide (Inbound = Outbound)) with false in *.
  change (bool_decide (Outbound = Outbound)) with true in *. cbv iota in Ha, Hb.
  rewrite Ht in Ha, Hb. rewrite Hb by (done || lia).
  destruct (bool_decide_reflect (protocolA = protocolB)) as [E|E].
  - subst. rewrite bool_decide_true by done. eexists. split; [done|].
    rewrite Ha, bool_decide_true by (done || lia). done.
  - by rewrite bool_decide_false by (rewrite Hinj; done).
Qed.

(** The ids are told apart by their first byte. *)
Lemma plaintext_handshake_witness :
  let idA := replicate 32 x01 in
  let idB := replicate 32 x02 in
  let a := create (SecurityProvider:=provider idA [x70]) Outbound in
  let b := create (SecurityProvider:=provider idB [x70]) Inbound in
  exists m1, start a = Some (a, m1) /\ start b = Some (b, [])
  /\ if bool_decide ([x70] = [x70]) then
       exists m2, consume b m1 = (b, Done (mkSession idA) idA, m2)
                  /\ consume a m2 = (a, Done (mkSession idB) idB, [])
     else consume b m1 = (b, Failed, []).
Proof. apply plaintext_handshake; by vm_compute. Defined.

End Plaintext.
