(* ===== verification/Connection.v ===== *)
(** One framed TCP connection ([transport/connection.{h,cpp}]).

    [Core] is the state of a [Connection] without its receive side, and what its
    methods act upon: the answers the socket will give to [send_vectored], the
    delegate's state and the log of everything that leaves the connection. [Conn]
    adds the receive buffer, [rx_need_] and the inbound half of the socket; no
    handler of a block touches these, which the types show.

    The two byte queues, the session, the handshaker and the delegate are the
    interfaces of [Interfaces.v]. Logging is left out, and so is the text of the
    dial address, which the class only stores. *)

From S2P Require Import Prelude Interfaces Frame.
Import framer.

Inductive ConnState := Connecting | Handshaking | Established | Closing | Closed.

Inductive CloseReason :=
| LocalClose | PeerClosed | PeerReset | ConnectFailed | HandshakeFailed
| ProtocolError | SlowConsumer | ReactorShutdown | DuplicateConn | PeerLimit.

#[global] Instance ConnState_eq_dec : EqDecision ConnState.
Proof. solve_decision. Defined.
#[global] Instance CloseReason_eq_dec : EqDecision CloseReason.
Proof. solve_decision. Defined.

(** What a delegate does to the connection from inside a callback. *)
Inductive Action :=
| ASend (h : FrameHeader) (p : list byte)     (* conn.send *)
| AClose (r : CloseReason).                   (* reactor.close *)

(** [ConnectionDelegate]: a callback updates the delegate and acts. *)
Class Delegate (D : Type) := {
  on_established : D -> list byte -> D * list Action;
  on_frame : D -> Frame -> D * list Action;
}.

(** What the connection does to the world, in order. [Queued] marks a block
    entering the send queue, [Wire] bytes the socket accepted. *)
Inductive Event :=
| Interest (pollout : bool)
| CloseRequest (r : CloseReason)
| CancelTimer (id : Z)
| EstablishedEv (remote : list byte)
| Delivered (f : Frame)
| Queued (body : list byte)
| Wire (bs : list byte).

(** The answer of [send_vectored]: it takes at most [n] bytes, or fails. *)
Inductive SendResult := SAccept (n : Z) | SWouldBlock | SError.

(** The answer of [recv]: at most [n] of the bytes that are there, or FIN, or an
    error. *)
Inductive RecvResult := RRead (n : Z) | RWouldBlock | REof | RError.

Definition kRecvChunk : Z := 16 * 1024.
Definition kMaxEagerReserve : Z := 1024 * 1024.
Definition kInlineBlockLimit : Z := 1024.
Definition kDefaultSendHighWater : Z := 8 * 1024 * 1024.
Definition kMaxSendSlices : Z := 256.
Definition kInvalidTimerId : Z := 0.

Module Connection.
Section Connection.
Context {B Q S H D : Type}.
Context `{!RxBuffer B, !TxQueue Q, !Session S, !SecurityProvider H S, !Delegate D}.
(** The capacity of the vector that a cipher or handshake message arrives in. *)
Variable capacity_of : list byte -> Z.

Record Core := mkCore {
  role : ConnRole;
  state : ConnState;
  close_reason : CloseReason;
  handshaker : option H;
  session : option S;
  remote_id : list byte;
  tx : Q;
  want_write : bool;
  send_high_water : Z;
  establish_timer : Z;
  sends : list SendResult;
  delegate : D;
  log : list Event;
}.

Definition new_core (r : ConnRole) (ss : list SendResult) (d : D) : Core :=
  mkCore r Connecting PeerClosed None None (replicate 32 x00) tx_new false
         kDefaultSendHighWater kInvalidTimerId ss d [].

Definition set_state (s : ConnState) (c : Core) : Core :=
  mkCore (role c) s (close_reason c) (handshaker c) (session c) (remote_id c) (tx c)
         (want_write c) (send_high_water c) (establish_timer c) (sends c) (delegate c) (log c).
Definition set_closing (r : CloseReason) (c : Core) : Core :=
  mkCore (role c) Closing r (handshaker c) (session c) (remote_id c) (tx c)
         (want_write c) (send_high_water c) (establish_timer c) (sends c) (delegate c) (log c).
Definition set_handshaker (h : option H) (c : Core) : Core :=
  mkCore (role c) (state c) (close_reason c) h (session c) (remote_id c) (tx c)
         (want_write c) (send_high_water c) (establish_timer c) (sends c) (delegate c) (log c).
Definition set_session (s : option S) (remote : list byte) (c : Core) : Core :=
  mkCore (role c) (state c) (close_reason c) (handshaker c) s remote (tx c)
         (want_write c) (send_high_water c) (establish_timer c) (sends c) (delegate c) (log c).
Definition set_tx (q : Q) (c : Core) : Core :=
  mkCore (role c) (state c) (close_reason c) (handshaker c) (session c) (remote_id c) q
         (want_write c) (send_high_water c) (establish_timer c) (sends c) (delegate c) (log c).
Definition set_want_write (w : bool) (c : Core) : Core :=
  mkCore (role c) (state c) (close_reason c) (handshaker c) (session c) (remote_id c) (tx c)
         w (send_high_water c) (establish_timer c) (sends c) (delegate c) (log c).
Definition set_establish_timer (t : Z) (c : Core) : Core :=
  mkCore (role c) (state c) (close_reason c) (handshaker c) (session c) (remote_id c) (tx c)
         (want_write c) (send_high_water c) t (sends c) (delegate c) (log c).
Definition set_sends (ss : list SendResult) (c : Core) : Core :=
  mkCore (role c) (state c) (close_reason c) (handshaker c) (session c) (remote_id c) (tx c)
         (want_write c) (send_high_water c) (establish_timer c) ss (delegate c) (log c).
Definition set_delegate (d : D) (c : Core) : Core :=
  mkCore (role c) (state c) (close_reason c) (handshaker c) (session c) (remote_id c) (tx c)
         (want_write c) (send_high_water c) (establish_timer c) (sends c) d (log c).
Definition emit (e : Event) (c : Core) : Core :=
  mkCore (role c) (state c) (close_reason c) (handshaker c) (session c) (remote_id c) (tx c)
         (want_write c) (send_high_water c) (establish_timer c) (sends c) (delegate c)
         (log c ++ [e]).

(** ** Send buffer flush and write interest *)

Definition fail (r : CloseReason) (c : Core) : bool * Core := (false, set_closing r c).

Definition arm_write (c : Core) : Core :=
  if want_write c then c else emit (Interest true) (set_want_write true c).

Definition disarm_write (c : Core) : Core :=
  if want_write c then emit (Interest false) (set_want_write false c) else c.

(** Each turn that goes on uses up one answer of the socket. *)
Fixpoint flush_loop (ss : list SendResult) (c : Core) : outcome (bool * Core) :=
  if tx_empty (tx c) then Ret (true, set_sends ss c)
  else
    let slices := concat (tx_gather kMaxSendSlices (tx c)) in
    match ss with
    | [] => Ret (true, set_sends [] c)
    | SWouldBlock :: ss => Ret (true, set_sends ss c)
    | SError :: ss => Ret (fail PeerReset (set_sends ss c))
    | SAccept k :: ss =>
        let n := Z.min k (zlen slices) in
        if 0 <? n then
          q ← tx_pop_front n (tx c);
          flush_loop ss (emit (Wire (ztake n slices)) (set_tx q c))
        else Ret (true, set_sends ss c)
    end.

Definition flush (c : Core) : outcome (bool * Core) :=
  '(ok, c) ← flush_loop (sends c) c;
  if (ok : bool) then Ret (true, if tx_empty (tx c) then disarm_write c else arm_write c)
  else Ret (false, c).

Definition queue_block (body : list byte) (c : Core) : Core :=
  let c := set_tx (tx_append_copy (encode_block_header (zlen body)) (tx c)) c in
  let c := set_tx (if zlen body <=? kInlineBlockLimit then tx_append_copy body (tx c)
                   else tx_append_owned body (capacity_of body) (tx c)) c in
  emit (Queued body) c.

(** ** Outbound application frames *)

Definition send (h : FrameHeader) (p : list byte) (c : Core) : outcome Core :=
  if decide (state c = Established) then
    match session c with
    | None => UB
    | Some s =>
        match encrypt s (encode_message [] h p) with
        | None => Ret (emit (CloseRequest ProtocolError) c)
        | Some (s, cipher) =>
            let c := queue_block cipher (set_session (Some s) (remote_id c) c) in
            if send_high_water c <? tx_allocated (tx c) then
              Ret (emit (CloseRequest SlowConsumer) (set_closing SlowConsumer c))
            else
              '(ok, c) ← flush c;
              Ret (if (ok : bool) then c else emit (CloseRequest (close_reason c)) c)
        end
    end
  else Ret c.

(** The actions of a callback, one after the other. *)
Fixpoint act (acts : list Action) (c : Core) : outcome Core :=
  match acts with
  | [] => Ret c
  | ASend h p :: acts => c ← send h p c; act acts c
  | AClose r :: acts => act acts (emit (CloseRequest r) c)
  end.

(** ** Handshake lifecycle *)

Definition begin_handshake (c : Core) : outcome Core :=
  let c := emit (Interest false) (set_want_write false (set_state Handshaking c)) in
  let h := create (role c) in
  match hs_start h with
  | None => Ret (emit (CloseRequest HandshakeFailed) (set_handshaker (Some h) c))
  | Some (h, out) =>
      let c := set_handshaker (Some h) c in
      if zlen out =? 0 then Ret c
      else
        '(ok, c) ← flush (queue_block out c);
        Ret (if (ok : bool) then c else emit (CloseRequest (close_reason c)) c)
  end.

Definition start_handshake (c : Core) : outcome Core :=
  if decide (state c = Connecting) then begin_handshake c else Ret c.

Definition cancel_establish_timer (c : Core) : Core :=
  if establish_timer c =? kInvalidTimerId then c
  else set_establish_timer kInvalidTimerId (emit (CancelTimer (establish_timer c)) c).

Definition complete_established (c : Core) : outcome Core :=
  let c := cancel_establish_timer (set_state Established c) in
  let '(d, acts) := on_established (delegate c) (remote_id c) in
  act acts (emit (EstablishedEv (remote_id c)) (set_delegate d c)).

Definition drive_handshake (body : list byte) (c : Core) : outcome (bool * Core) :=
  match handshaker c with
  | None => UB
  | Some h =>
      let '(h, st, out) := hs_consume h body in
      let c := set_handshaker (Some h) c in
      match st with
      | Failed => Ret (fail HandshakeFailed c)
      | _ =>
          '(ok, c) ← (if zlen out =? 0 then Ret (true, c) else flush (queue_block out c));
          if negb ok then Ret (false, c)
          else match st with
               | Done s remote =>
                   c ← complete_established (set_handshaker None (set_session (Some s) remote c));
                   Ret (true, c)
               | _ => Ret (true, c)
               end
      end
  end.

(** ** Inbound *)

Definition deliver_frame (body : list byte) (c : Core) : outcome (bool * Core) :=
  match session c with
  | None => Ret (fail ProtocolError c)
  | Some s =>
      match decrypt s body with
      | None => Ret (fail ProtocolError c)
      | Some (s, plain) =>
          let c := set_session (Some s) (remote_id c) c in
          match parse_message plain with
          | None => Ret (fail ProtocolError c)
          | Some f =>
              let '(d, acts) := on_frame (delegate c) f in
              c ← act acts (emit (Delivered f) (set_delegate d c));
              Ret (true, c)
          end
      end
  end.

(** The body of the loop of [process_blocks]: one block. *)
Definition handle_block (body : list byte) (c : Core) : outcome (bool * Core) :=
  if decide (state c = Handshaking) then drive_handshake body c else deliver_frame body c.

Definition is_closing (s : ConnState) : bool :=
  match s with Closing | Closed => true | _ => false end.

Record Conn := mkConn {
  core : Core;
  rx : B;
  rx_need : Z;
  inbound : list byte;          (* what the peer's bytes in the socket are *)
  recvs : list RecvResult;
}.

Definition new_conn (r : ConnRole) (ss : list SendResult) (d : D) : Conn :=
  mkConn (new_core r ss d) rx_new 0 [] [].

(** The loop of [process_blocks]; each block takes at least four bytes. *)
Fixpoint process_loop (fuel : nat) (c : Core) (b : B) (need : Z)
    : outcome (bool * (Core * B * Z)) :=
  match fuel with
  | O => UB
  | Datatypes.S fuel =>
      if rx_size b =? 0 then Ret (true, (c, b, need))
      else
        data ← rx_view b;
        let block := try_take_block data in
        match status block with
        | Incomplete => Ret (true, (c, b, needed block))
        | Error => let '(ok, c) := fail ProtocolError c in Ret (ok, (c, b, need))
        | Ok =>
            '(keep, c) ← handle_block (body block) c;
            b ← rx_consume (consumed block) b;
            if negb keep || is_closing (state c) then Ret (false, (c, b, need))
            else process_loop fuel c b need
        end
  end.

Definition process_blocks (c : Core) (b : B) : outcome (bool * (Core * B * Z)) :=
  process_loop (Datatypes.S (Z.to_nat (rx_size b))) c b 0.

Definition read_size (c : Core) (b : B) (need : Z) : Z :=
  if decide (state c = Established) then
    if rx_size b <? need then Z.min (need - rx_size b) kMaxEagerReserve else kRecvChunk
  else kRecvChunk.

(** [recv] offered [len] bytes: a negative [int] length is not an offer the code
    may make. It takes bytes off the front of those that have arrived. *)
Definition recv (len : Z) (data : list byte) (a : RecvResult) : option (list byte) :=
  match a with
  | RRead n =>
      if zlen data =? 0 then None
      else Some (ztake (Z.min (Z.max 1 n) (Z.min len (zlen data))) data)
  | _ => None
  end.

(** The drain loop of [on_readable], on the answers of the socket; when they run
    out the socket would block. *)
Fixpoint read_loop (rs : list RecvResult) (c : Core) (b : B) (need : Z) (data : list byte)
    : outcome (bool * Conn) :=
  '(b, span) ← rx_prepare (read_size c b need) b;
  if 2 ^ 31 <=? span then UB
  else
    match rs with
    | [] => Ret (true, mkConn c b need data [])
    | REof :: rs =>
        '(ok, (c, b, need)) ← process_blocks c b;
        if (ok : bool) then Ret (false, mkConn (set_closing PeerClosed c) b need data rs)
        else Ret (false, mkConn c b need data rs)
    | RError :: rs => Ret (false, mkConn (set_closing PeerReset c) b need data rs)
    | a :: rs =>
        match recv span data a with
        | None => Ret (true, mkConn c b need data rs)
        | Some got =>
            let data := zdrop (zlen got) data in
            b ← rx_commit got b;
            '(ok, (c, b, need)) ← process_blocks c b;
            if negb ok then Ret (false, mkConn c b need data rs)
            else if zlen got <? span then Ret (true, mkConn c b need data rs)
            else read_loop rs c b need data
        end
    end.

Definition on_readable (k : Conn) : outcome (bool * Conn) :=
  read_loop (recvs k) (core k) (rx k) (rx_need k) (inbound k).

(** [err] is the answer of [tcp_connect_result]. *)
Definition on_writable (err : Z) (c : Core) : outcome (bool * Core) :=
  if decide (state c = Connecting) then
    if negb (err =? 0) then Ret (fail ConnectFailed c)
    else
      c ← begin_handshake c;
      if decide (state c = Closing) then Ret (false, c) else flush c
  else flush c.

Definition on_error (c : Core) : bool * Core := fail PeerReset c.

Definition on_maintenance_tick (k : Conn) : outcome Conn :=
  b ← rx_decay (rx k); Ret (mkConn (core k) b (rx_need k) (inbound k) (recvs k)).

(** * What the log says *)

(** The bytes the socket accepted, the blocks queued and the frames delivered. *)
Definition wire (l : list Event) : list byte :=
  concat (omap (fun e => match e with Wire bs => Some bs | _ => None end) l).
Definition queued (l : list Event) : list (list byte) :=
  omap (fun e => match e with Queued body => Some body | _ => None end) l.
Definition delivered (l : list Event) : list Frame :=
  omap (fun e => match e with Delivered f => Some f | _ => None end) l.

(** The delegate's protocol: [on_established] at most once, [on_frame] only after
    it. The result says whether it has been called. *)
Definition lifecycle_step (acc : option bool) (e : Event) : option bool :=
  est ← acc;
  match e with
  | EstablishedEv _ => if (est : bool) then None else Some true
  | Delivered _ => if (est : bool) then Some true else None
  | _ => Some est
  end.
Definition lifecycle (l : list Event) : option bool := foldl lifecycle_step (Some false) l.

Definition rank (s : ConnState) : nat :=
  match s with
  | Connecting => 0 | Handshaking => 1 | Established => 2 | Closing => 3 | Closed => 4
  end.

Record core_ok (c : Core) : Prop := {
  ok_open : state c <> Closed;
  ok_handshaker : state c = Handshaking -> is_Some (handshaker c);
  ok_session : state c = Established -> is_Some (session c);
  ok_no_session : (rank (state c) < 2)%nat -> session c = None;
  ok_life : lifecycle (log c) = Some (bool_decide (is_Some (session c)));
  ok_tx : exists live, tx_rep (tx c) live
            /\ wire (log c) ++ live = concat (encode_block [] <$> queued (log c));
}.

(** What every method does to a well-formed connection: it stays well-formed,
    moves forward only and extends the log. *)
Definition advances (c c' : Core) : Prop :=
  core_ok c' /\ (rank (state c) <= rank (state c'))%nat /\ log c `prefix_of` log c'.

(** What a flush leaves alone. *)
Definition same_peer (c c' : Core) : Prop :=
  handshaker c' = handshaker c /\ session c' = session c /\ remote_id c' = remote_id c
  /\ delegate c' = delegate c /\ role c' = role c /\ send_high_water c' = send_high_water c
  /\ queued (log c') = queued (log c) /\ delivered (log c') = delivered (log c).

(** * Lemmas *)

Lemma wire_app l l' : wire (l ++ l') = wire l ++ wire l'.
Proof. unfold wire. by rewrite omap_app, concat_app. Qed.
Lemma queued_app l l' : queued (l ++ l') = queued l ++ queued l'.
Proof. apply omap_app. Qed.
Lemma delivered_app l l' : delivered (l ++ l') = delivered l ++ delivered l'.
Proof. apply omap_app. Qed.
Lemma lifecycle_app l e : lifecycle (l ++ [e]) = lifecycle_step (lifecycle l) e.
Proof. unfold lifecycle. by rewrite foldl_app. Qed.

#[local] Arguments wire : simpl never.
#[local] Arguments queued : simpl never.
#[local] Arguments delivered : simpl never.
#[local] Arguments lifecycle : simpl never.

(** Events that neither queue, send, establish nor deliver. *)
Definition silent (e : Event) : Prop :=
  match e with Interest _ | CloseRequest _ | CancelTimer _ => True | _ => False end.

Lemma advances_refl c : core_ok c -> advances c c.
Proof. done. Qed.

Lemma advances_trans c1 c2 c3 : advances c1 c2 -> advances c2 c3 -> advances c1 c3.
Proof.
  intros (_ & ? & ?) (? & ? & ?). split_and!; [done | lia | by etrans].
Qed.

(** A connection that is closing has been handed to the reactor for teardown. *)
Definition marked (c : Core) : Prop :=
  state c = Closing -> exists r, CloseRequest r ∈ log c.

Lemma marked_mono c c' :
  state c' = state c -> log c `prefix_of` log c' -> marked c -> marked c'.
Proof.
  intros E [l Hl] Hm Hc. destruct Hm as [r Hr]; [congruence|]. exists r.
  rewrite Hl. apply elem_of_app. by left.
Qed.

Lemma marked_emit r c : marked (emit (CloseRequest r) c).
Proof. intros _. exists r. cbn. apply elem_of_app. right. by apply list_elem_of_singleton. Qed.

Lemma same_peer_refl c : same_peer c c.
Proof. done. Qed.

Lemma same_peer_trans c1 c2 c3 : same_peer c1 c2 -> same_peer c2 c3 -> same_peer c1 c3.
Proof. unfold same_peer. intuition congruence. Qed.

Lemma emit_silent c e : silent e -> core_ok c -> advances c (emit e c) /\ same_peer c (emit e c).
Proof.
  intros He [Ho Hh Hs Hn Hl (live & R & Ht)].
  assert (wire [e] = [] /\ queued [e] = [] /\ delivered [e] = []
          /\ lifecycle_step (lifecycle (log c)) e = lifecycle (log c)) as (E1 & E2 & E3 & E4)
    by (rewrite Hl; destruct e; done).
  split; [split_and!|].
  - constructor; cbn; try done; rewrite ?lifecycle_app, ?E4; [done|].
    exists live. split; [done|]. by rewrite wire_app, queued_app, E1, E2, !app_nil_r.
  - done.
  - cbn. by eexists.
  - unfold same_peer, emit. cbn [log handshaker session remote_id delegate role send_high_water].
    by rewrite queued_app, delivered_app, E2, E3, !app_nil_r.
Qed.

Lemma set_closing_ok c r : core_ok c -> advances c (set_closing r c).
Proof.
  intros [Ho Hh Hs Hn Hl Ht]. split_and!; [|cbn; destruct (state c); cbn; (done || lia) | done].
  constructor; cbn; try done; lia.
Qed.

(** Changes that no clause of the invariant speaks of. *)
Lemma set_sends_ok c ss : core_ok c -> advances c (set_sends ss c) /\ same_peer c (set_sends ss c).
Proof. intros []. done. Qed.
Lemma set_want_write_ok c w :
  core_ok c -> advances c (set_want_write w c) /\ same_peer c (set_want_write w c).
Proof. intros []. done. Qed.

Lemma interest_ok c w :
  core_ok c ->
  advances c (emit (Interest w) (set_want_write w c))
  /\ same_peer c (emit (Interest w) (set_want_write w c)).
Proof.
  intros Ok. destruct (set_want_write_ok c w Ok) as [A1 P1].
  destruct (emit_silent (set_want_write w c) (Interest w) I (proj1 A1)) as [A2 P2].
  split; [exact (advances_trans _ _ _ A1 A2) | exact (same_peer_trans _ _ _ P1 P2)].
Qed.

Lemma arm_disarm_ok c (e : bool) :
  core_ok c ->
  let c' := if e then disarm_write c else arm_write c in
  advances c c' /\ same_peer c c' /\ state c' = state c /\ tx c' = tx c.
Proof.
  intros Ok. unfold disarm_write, arm_write.
  destruct e, (want_write c); cbn zeta; try (split_and!; done);
    (edestruct interest_ok as [A P]; [exact Ok|]; split_and!; [exact A | exact P | done..]).
Qed.

Lemma pop_wire_ok c n q :
  core_ok c -> tx_empty (tx c) = false -> 0 < n <= zlen (concat (tx_gather kMaxSendSlices (tx c))) ->
  tx_pop_front n (tx c) = Ret q ->
  let c' := emit (Wire (ztake n (concat (tx_gather kMaxSendSlices (tx c))))) (set_tx q c) in
  advances c c' /\ same_peer c c' /\ state c' = state c.
Proof.
  intros [Ho Hh Hs Hn Hl (live & R & Ht)] He Hb Hq.
  destruct (tx_gather_rep (tx c) live kMaxSendSlices R ltac:(done)) as (later & Hg & _).
  assert (0 <= n <= zlen live) as Hnl by (rewrite Hg; zlia).
  pose proof (tx_pop_front_rep (tx c) live n R Hnl) as Hr. rewrite Hq in Hr. cbn in Hr.
  split; [split_and!|split; [|done]].
  - constructor; cbn [emit set_tx state handshaker session log tx]; try done.
    { by rewrite lifecycle_app, Hl. }
    exists (zdrop n live). split; [done|].
    rewrite wire_app, queued_app. change (queued [Wire _]) with (@nil (list byte)).
    rewrite app_nil_r, <- Ht, <- app_assoc. f_equal.
    unfold wire. cbn [omap list_omap concat]. rewrite app_nil_r.
    rewrite <- (ztake_zdrop n live) at 2. f_equal. rewrite Hg at 1. symmetry.
    apply ztake_app_le. lia.
  - done.
  - cbn. by eexists.
  - unfold same_peer. cbn [emit set_tx log handshaker session remote_id delegate role send_high_water].
    by rewrite queued_app, delivered_app, !app_nil_r.
Qed.

Definition flushed (c : Core) (r : bool * Core) : Prop :=
  advances c r.2 /\ same_peer c r.2 /\ state r.2 = if r.1 then state c else Closing.

Lemma flush_loop_ok ss c : core_ok c -> returns (flush_loop ss c) (flushed c).
Proof.
  revert c. induction ss as [|a ss IH]; intros c Ok; cbn [flush_loop].
  { destruct (tx_empty (tx c)); by destruct (set_sends_ok c [] Ok). }
  destruct (tx_empty (tx c)) eqn:E; [by destruct (set_sends_ok c (a :: ss) Ok)|].
  destruct (set_sends_ok c ss Ok) as [A P].
  destruct a as [k| |]; [|done|].
  - destruct (Z.ltb_spec 0 (Z.min k (zlen (concat (tx_gather kMaxSendSlices (tx c)))))); [|done].
    pose proof Ok as [_ _ _ _ _ (live & R & _)].
    destruct (tx_gather_rep (tx c) live kMaxSendSlices R ltac:(done)) as (later & Hg & _).
    set (n := Z.min _ _) in *.
    assert (0 <= n <= zlen live) as Hn by (rewrite Hg; zlia).
    destruct (returns_inv _ _ (tx_pop_front_rep (tx c) live n R Hn)) as (q & Hq & _).
    rewrite Hq. cbn [mbind outcome_bind].
    destruct (pop_wire_ok c n q Ok E ltac:(lia) Hq) as (A' & P' & S').
    eapply returns_mono; [apply IH, A'|]. intros [ok c'] (A2 & P2 & S2).
    split_and!; [exact (advances_trans _ _ _ A' A2) | exact (same_peer_trans _ _ _ P' P2) |].
    by rewrite S2, S'.
  - split_and!; [|done..]. exact (advances_trans _ _ _ A (set_closing_ok _ _ (proj1 A))).
Qed.

Lemma flush_ok c : core_ok c -> returns (flush c) (flushed c).
Proof.
  intros Ok. eapply returns_bind; [by apply flush_loop_ok|].
  intros [[] c'] (A & P & St); [|done]. cbn [fst snd] in *.
  destruct (arm_disarm_ok c' (tx_empty (tx c')) (proj1 A)) as (A2 & P2 & S2 & _).
  split_and!; [exact (advances_trans _ _ _ A A2) | exact (same_peer_trans _ _ _ P P2) |].
  cbn [fst snd]. by rewrite S2.
Qed.

(** The vector a message arrives in is at least as large as the message. *)
Hypothesis capacity_ok : forall bs, zlen bs <= capacity_of bs.

(** What queueing a block leaves alone. *)
Definition same_but_queue (c c' : Core) : Prop :=
  handshaker c' = handshaker c /\ session c' = session c /\ remote_id c' = remote_id c
  /\ delegate c' = delegate c /\ state c' = state c /\ delivered (log c') = delivered (log c).

Lemma queue_block_ok body c :
  core_ok c ->
  let c' := queue_block body c in
  advances c c' /\ same_but_queue c c' /\ queued (log c') = queued (log c) ++ [body].
Proof.
  intros [Ho Hh Hs Hn Hl (live & R & Ht)]. cbn zeta.
  split; [split_and!|split].
  - constructor; cbn [queue_block emit set_tx state handshaker session log tx]; try done.
    { by rewrite lifecycle_app, Hl. }
    exists (live ++ encode_block [] body). split.
    + unfold encode_block. cbn [app]. rewrite app_assoc.
      pose proof (tx_append_copy_rep _ _ (encode_block_header (zlen body)) R).
      destruct (_ <=? _); [by apply tx_append_copy_rep | by apply tx_append_owned_rep].
    + rewrite wire_app, queued_app. change (queued [Queued body]) with [body].
      change (wire [Queued body]) with (@nil byte).
      rewrite app_nil_r, fmap_app, concat_app, app_assoc, Ht. f_equal.
      cbn [fmap list_fmap concat]. by rewrite app_nil_r.
  - done.
  - cbn. by eexists.
  - unfold same_but_queue. split_and!; try done. cbn [queue_block emit set_tx log].
    by rewrite delivered_app, app_nil_r.
  - cbn [queue_block emit set_tx log]. by rewrite queued_app.
Qed.

Lemma set_session_ok c s remote :
  core_ok c -> is_Some (session c) -> advances c (set_session (Some s) remote c).
Proof.
  intros [Ho Hh Hs Hn Hl Ht] Hse. split_and!; [|done..].
  constructor; cbn [set_session state handshaker session log tx]; try done.
  - intros Hr. rewrite (Hn Hr) in Hse. by destruct Hse.
  - rewrite Hl. by rewrite !bool_decide_true by done.
Qed.

(** What [send] does to the stream of blocks. *)
Definition sent (h : FrameHeader) (p : list byte) (c c' : Core) : Prop :=
  match session c with
  | None => False
  | Some s =>
      match encrypt s (encode_message [] h p) with
      | None => session c' = Some s /\ queued (log c') = queued (log c)
      | Some (s', cipher) =>
          session c' = Some s' /\ queued (log c') = queued (log c) ++ [cipher]
      end
  end.

Lemma send_ok h p c :
  core_ok c ->
  returns (send h p c) (fun c' =>
    advances c c' /\ delivered (log c') = delivered (log c) /\ delegate c' = delegate c
    /\ remote_id c' = remote_id c /\ (marked c -> marked c')
    /\ if decide (state c = Established) then sent h p c c' else c' = c).
Proof.
  intros Ok. unfold send, sent. destruct (decide (state c = Established)) as [E|]; [|done].
  destruct (ok_session c Ok E) as [s Hs]. rewrite Hs.
  destruct (encrypt s _) as [[s' cipher]|] eqn:He.
  - pose proof (set_session_ok c s' (remote_id c) Ok ltac:(by eexists)) as A1.
    destruct (queue_block_ok cipher _ (proj1 A1)) as (A2 & P2 & Q2).
    pose proof (advances_trans _ _ _ A1 A2) as A.
    destruct P2 as (_ & Hse & Hr & Hd & St & Hde).
    cbn [set_session session state remote_id delegate log] in Hse, Hr, Hd, Hde, Q2, St.
    generalize dependent (queue_block cipher (set_session (Some s') (remote_id c) c)).
    intros c2 A2 Q2 Hse Hr Hd St Hde A.
    destruct (_ <? _).
    + pose proof (set_closing_ok c2 SlowConsumer (proj1 A)) as A3.
      destruct (emit_silent _ (CloseRequest SlowConsumer) I (proj1 A3)) as [A4 P4].
      destruct P4 as (_ & ? & ? & ? & _ & _ & ? & ?). cbn in *.
      split_and!; [|congruence|congruence|congruence|intros _; apply marked_emit|congruence..].
      exact (advances_trans _ _ _ A (advances_trans _ _ _ A3 A4)).
    + eapply returns_bind; [apply flush_ok, A2|]. intros [ok c3] (A3 & P3 & S3).
      assert (advances c3 (if ok then c3 else emit (CloseRequest (close_reason c3)) c3)
              /\ same_peer c3 (if ok then c3 else emit (CloseRequest (close_reason c3)) c3))
        as [A4 P4] by (destruct ok; [by split; [apply advances_refl, A3|]
                                    | by apply emit_silent; [|apply A3]]).
      pose proof (same_peer_trans _ _ _ P3 P4) as (_ & ? & ? & ? & _ & _ & ? & ?).
      cbn [returns fst snd] in *. split_and!; [|congruence|congruence|congruence| |congruence..].
      { exact (advances_trans _ _ _ A (advances_trans _ _ _ A3 A4)). }
      destruct ok; [|intros _; apply marked_emit].
      apply marked_mono; [congruence|]. apply (advances_trans _ _ _ A A3).
  - destruct (emit_silent c (CloseRequest ProtocolError) I Ok) as [A (_ & ? & ? & ? & _ & _ & ? & ?)].
    cbn [returns]. split_and!; [exact A|congruence|congruence|congruence| |congruence..].
    intros _. apply marked_emit.
Qed.

(** The session after some frames have been encrypted. *)
Definition enc_step (s s' : S) : Prop := exists plain cipher, encrypt s plain = Some (s', cipher).
Definition session_evolves (c c' : Core) : Prop :=
  forall s, session c = Some s -> exists s', session c' = Some s' /\ rtc enc_step s s'.

Lemma session_evolves_same c c' : session c' = session c -> session_evolves c c'.
Proof. intros E s Hs. exists s. by rewrite E. Qed.

Lemma session_evolves_trans c1 c2 c3 :
  session_evolves c1 c2 -> session_evolves c2 c3 -> session_evolves c1 c3.
Proof.
  intros H1 H2 s Hs. destruct (H1 s Hs) as (s2 & Hs2 & ?).
  destruct (H2 s2 Hs2) as (s3 & ? & ?). exists s3. split; [done|by etrans].
Qed.

Lemma sent_evolves h p c c' : sent h p c c' -> session_evolves c c'.
Proof.
  unfold sent. intros Hse s Hs. rewrite Hs in Hse.
  destruct (encrypt s _) as [[s' cipher]|] eqn:E; destruct Hse as [Hs' _].
  - exists s'. split; [done|]. apply rtc_once. by do 2 eexists.
  - by exists s.
Qed.

Definition acted (c c' : Core) : Prop :=
  advances c c' /\ delivered (log c') = delivered (log c) /\ delegate c' = delegate c
  /\ session_evolves c c' /\ (marked c -> marked c').

Lemma act_ok acts c : core_ok c -> returns (act acts c) (acted c).
Proof.
  revert c. induction acts as [|[h p|r] acts IH]; intros c Ok; cbn [act];
    [split_and!; [done..|by apply session_evolves_same|done]|..].
  - eapply returns_bind; [by apply send_ok|]. intros c1 (A1 & D1 & G1 & _ & M1 & Hse).
    eapply returns_mono; [apply IH, A1|]. intros c2 (A2 & D2 & G2 & V2 & M2).
    split_and!; [exact (advances_trans _ _ _ A1 A2)|congruence|congruence| |by auto].
    destruct (decide _); [|by subst c1].
    exact (session_evolves_trans _ _ _ (sent_evolves _ _ _ _ Hse) V2).
  - destruct (emit_silent c (CloseRequest r) I Ok) as [A1 (_ & S1 & _ & G1 & _ & _ & _ & D1)].
    eapply returns_mono; [apply IH, A1|]. intros c2 (A2 & D2 & G2 & V2 & M2).
    split_and!; [exact (advances_trans _ _ _ A1 A2)|congruence|congruence| |].
    2:{ intros _. apply M2, marked_emit. }
    exact (session_evolves_trans _ _ _ (session_evolves_same _ _ S1) V2).
Qed.

Lemma begin_handshake_ok c :
  core_ok c -> state c = Connecting ->
  returns (begin_handshake c) (fun c' => advances c c' /\ marked c').
Proof.
  intros Ok E. unfold begin_handshake.
  assert (forall h, advances c (set_handshaker (Some h)
            (emit (Interest false) (set_want_write false (set_state Handshaking c))))) as Hstart.
  { intros h. pose proof Ok as [Ho Hh Hs Hn Hl (live & R & Ht)].
    split_and!; [|cbn; rewrite E; cbn; lia|cbn; by eexists].
    constructor; cbn [set_handshaker emit set_want_write set_state state handshaker session log tx];
      try done.
    - intros _. apply Hn. rewrite E. cbn. lia.
    - by rewrite lifecycle_app, Hl.
    - exists live. split; [done|]. by rewrite wire_app, queued_app, !app_nil_r. }
  destruct (hs_start _) as [[h out]|].
  - destruct (_ =? 0); [split; [apply Hstart|done]|].
    destruct (queue_block_ok out _ (proj1 (Hstart h))) as (A2 & (_ & _ & _ & _ & S2 & _) & _).
    pose proof (advances_trans _ _ _ (Hstart h) A2) as A.
    eapply returns_bind; [apply flush_ok, A2|]. intros [[] c3] (A3 & _ & S3); cbn [fst snd] in *.
    + split; [exact (advances_trans _ _ _ A A3)|]. intros E3. by rewrite S3, S2 in E3.
    + destruct (emit_silent c3 (CloseRequest (close_reason c3)) I (proj1 A3)) as [A4 _].
      split; [exact (advances_trans _ _ _ A (advances_trans _ _ _ A3 A4))|apply marked_emit].
  - cbn [returns]. destruct (emit_silent _ (CloseRequest HandshakeFailed) I
      (proj1 (Hstart (create (role c))))) as [A4 _].
    split; [exact (advances_trans _ _ _ (Hstart _) A4)|apply marked_emit].
Qed.

Lemma cancel_establish_timer_ok c :
  core_ok c ->
  advances c (cancel_establish_timer c) /\ same_peer c (cancel_establish_timer c)
  /\ state (cancel_establish_timer c) = state c.
Proof.
  intros Ok. unfold cancel_establish_timer. destruct (_ =? _); [done|].
  by destruct (emit_silent c (CancelTimer (establish_timer c)) I Ok) as [[[] ?] P].
Qed.

(** Before the delegate hears of it, an established connection is well-formed but
    for its history. *)
Lemma complete_established_ok c s remote :
  core_ok c -> state c = Handshaking ->
  returns (complete_established (set_handshaker None (set_session (Some s) remote c)))
          (fun c' => advances c c' /\ delivered (log c') = delivered (log c) /\ marked c').
Proof.
  intros Ok E. pose proof Ok as [Ho Hh Hs Hn Hl (live & R & Ht)].
  unfold complete_established. set (c1 := cancel_establish_timer _).
  assert (session c1 = Some s /\ state c1 = Established /\ tx c1 = tx c
          /\ exists l, log c1 = log c ++ l /\ wire l = [] /\ queued l = [] /\ delivered l = []
             /\ lifecycle (log c ++ l) = lifecycle (log c)) as (S1 & E1 & T1 & l & L1 & Lw & Lq & Ld & Ll).
  { unfold c1, cancel_establish_timer. cbn [set_state set_handshaker set_session establish_timer].
    destruct (_ =? _); cbn; split_and!; try done; [exists [] | eexists].
    - by rewrite app_nil_r.
    - split_and!; [done..|]. by rewrite lifecycle_app, Hl. }
  destruct (on_established _ _) as [d acts].
  assert (advances c (emit (EstablishedEv (remote_id c1)) (set_delegate d c1))) as A.
  { split_and!.
    - constructor; cbn [emit set_delegate state handshaker session log tx]; rewrite ?E1, ?S1, ?T1, ?L1;
        try done; [cbn; lia| |].
      + rewrite lifecycle_app, Ll, Hl, Hn by (rewrite E; cbn; lia). done.
      + exists live. split; [done|].
        by rewrite !wire_app, !queued_app, Lw, Lq, !app_nil_r.
    - cbn. rewrite E, E1. cbn. lia.
    - cbn. rewrite L1, <- app_assoc. by eexists. }
  eapply returns_mono; [apply act_ok, A|]. intros c' (A' & D' & _ & _ & M').
  split_and!; [exact (advances_trans _ _ _ A A')| |].
  2:{ apply M'. intros Ec. cbn in Ec. congruence. }
  rewrite D'. cbn [emit set_delegate log].
  by rewrite L1, !delivered_app, Ld, !app_nil_r.
Qed.

Definition handled (c : Core) (r : bool * Core) : Prop :=
  advances c r.2 /\ if r.1 then marked c -> marked r.2 else state r.2 = Closing.

Lemma set_handshaker_ok c h : core_ok c -> advances c (set_handshaker (Some h) c).
Proof. by intros []. Qed.

Lemma drive_handshake_ok body c :
  core_ok c -> state c = Handshaking ->
  returns (drive_handshake body c) (fun r =>
    handled c r /\ delivered (log r.2) = delivered (log c)).
Proof.
  intros Ok E. unfold drive_handshake. destruct (ok_handshaker c Ok E) as [h ->].
  destruct (hs_consume h body) as [[h' st] out].
  pose proof (set_handshaker_ok c h' Ok) as A1. set (c1 := set_handshaker _ c) in *.
  assert (returns (if zlen out =? 0 then Ret (true, c1) else flush (queue_block out c1)) (fun r =>
            advances c1 r.2 /\ delivered (log r.2) = delivered (log c1)
            /\ state r.2 = if r.1 then state c1 else Closing)) as Hf.
  { destruct (_ =? 0); [split_and!; [by apply advances_refl, A1|done..]|].
    destruct (queue_block_ok out c1 (proj1 A1)) as (A2 & (_ & _ & _ & _ & S2 & D2) & _).
    eapply returns_mono; [apply flush_ok, A2|].
    intros [ok c3] (A3 & (_ & _ & _ & _ & _ & _ & _ & D3) & S3). cbn [fst snd] in *.
    split_and!; [exact (advances_trans _ _ _ A2 A3)|by rewrite D3|].
    rewrite S3. by destruct ok. }
  destruct st as [|s remote|].
  - eapply returns_bind; [exact Hf|]. intros [[] c3] (A3 & D3 & S3); cbn [fst snd] in *;
      (split; [split; [exact (advances_trans _ _ _ A1 A3)|]|done]); cbn [fst snd]; [|done].
    intros _ Ec. rewrite S3 in Ec. cbn in Ec. congruence.
  - eapply returns_bind; [exact Hf|]. intros [[] c3] (A3 & D3 & S3); cbn [fst snd] in *.
    + eapply returns_bind; [apply complete_established_ok; [apply A3|by rewrite S3]|].
      intros c4 (A4 & D4 & M4). split; [split; [|by intros _]|cbn [fst snd]; by rewrite D4, D3].
      exact (advances_trans _ _ _ A1 (advances_trans _ _ _ A3 A4)).
    + split; [split; [exact (advances_trans _ _ _ A1 A3)|done]|done].
  - split; [split; [|done]|done].
    exact (advances_trans _ _ _ A1 (set_closing_ok _ _ (proj1 A1))).
Qed.

(** What a block that carries a frame does. *)
Definition frame_of (s : S) (body : list byte) : option (S * Frame) :=
  '(s', plain) ← decrypt s body;
  f ← parse_message plain;
  Some (s', f).

Lemma deliver_frame_ok body c :
  core_ok c ->
  returns (deliver_frame body c) (fun r =>
    handled c r
    /\ match session c ≫= fun s => frame_of s body with
       | Some (s', f) =>
           r.1 = true /\ delivered (log r.2) = delivered (log c) ++ [f]
           /\ exists s2, session r.2 = Some s2 /\ rtc enc_step s' s2
       | None => r.1 = false /\ delivered (log r.2) = delivered (log c)
       end).
Proof.
  intros Ok. unfold deliver_frame, frame_of.
  destruct (session c) as [s|] eqn:Hs; cbn [mbind option_bind].
  2:{ split_and!; [|done..]. split; [by apply set_closing_ok|done]. }
  destruct (decrypt s body) as [[s' plain]|]; cbn [mbind option_bind].
  2:{ split_and!; [|done..]. split; [by apply set_closing_ok|done]. }
  pose proof (set_session_ok c s' (remote_id c) Ok ltac:(by eexists)) as A1.
  destruct (parse_message plain) as [f|]; cbn [mbind option_bind].
  2:{ split_and!; [|done..]. split; [|done].
      exact (advances_trans _ _ _ A1 (set_closing_ok _ _ (proj1 A1))). }
  destruct (on_frame _ f) as [d acts]. set (c1 := set_session _ _ c) in *.
  assert (advances c1 (emit (Delivered f) (set_delegate d c1))) as A2.
  { destruct A1 as ([Ho Hh Hse Hn Hl (live & R & Ht)] & _). split_and!; [|done|cbn; by eexists].
    constructor; cbn [emit set_delegate state handshaker session log tx]; try done.
    - by rewrite lifecycle_app, Hl.
    - exists live. split; [done|]. by rewrite wire_app, queued_app, !app_nil_r. }
  eapply returns_bind; [apply act_ok, A2|]. intros c3 (A3 & D3 & _ & V3 & M3).
  destruct (V3 s' eq_refl) as (s2 & Hs2 & ?).
  split_and!; [split|done| |by exists s2].
  - exact (advances_trans _ _ _ A1 (advances_trans _ _ _ A2 A3)).
  - intros Hm. apply M3. revert Hm. apply marked_mono; [done|]. cbn. by eexists.
  - cbn [fst snd]. rewrite D3. cbn [emit set_delegate log]. by rewrite delivered_app.
Qed.

Lemma handle_block_ok body c : core_ok c -> returns (handle_block body c) (handled c).
Proof.
  intros Ok. unfold handle_block. destruct (decide _).
  - eapply returns_mono; [by apply drive_handshake_ok|]. by intros r [? _].
  - eapply returns_mono; [by apply deliver_frame_ok|]. by intros r [? _].
Qed.

(** * The reference reader

    The blocks of a byte stream, handled one after the other until one of them
    ends the connection. *)
Fixpoint feed (bs : list (list byte)) (c : Core) : outcome (bool * Core) :=
  match bs with
  | [] => Ret (true, c)
  | b :: bs =>
      '(keep, c) ← handle_block b c;
      if negb keep || is_closing (state c) then Ret (false, c) else feed bs c
  end.

Lemma feed_ok bs c : core_ok c -> returns (feed bs c) (handled c).
Proof.
  revert c. induction bs as [|b bs IH]; intros c Ok; cbn [feed]; [by split; [apply advances_refl|cbn]|].
  eapply returns_bind; [by apply handle_block_ok|]. intros [keep c1] [A1 K1]. cbn [fst snd] in *.
  destruct (negb keep || is_closing (state c1)) eqn:E.
  - split; [done|]. cbn [fst snd]. destruct keep; [|by apply K1].
    pose proof (ok_open _ (proj1 A1)). by destruct (state c1).
  - eapply returns_mono; [apply IH, A1|]. intros [ok c2] [A2 K2].
    split; [exact (advances_trans _ _ _ A1 A2)|]. destruct keep; [|done].
    destruct ok; cbn [fst snd] in *; by auto.
Qed.

Lemma feed_app bs1 bs2 c :
  feed (bs1 ++ bs2) c =
  '(keep, c) ← feed bs1 c;
  if (keep : bool) then feed bs2 c else Ret (false, c).
Proof.
  revert c. induction bs1 as [|b bs1 IH]; intros c; cbn [app feed]; [done|].
  destruct (handle_block b c) as [[keep c1]| |]; cbn [mbind outcome_bind]; [|done..].
  destruct (_ || _); [done|]. apply IH.
Qed.

Definition kMaxNeed : Z := kLengthPrefixSize + kMaxBlockSize.

Lemma incomplete_bounds data :
  status (try_take_block data) = Incomplete ->
  zlen data <= kMaxNeed /\ 0 <= needed (try_take_block data) <= kMaxNeed.
Proof.
  unfold try_take_block, kMaxNeed, kLengthPrefixSize. rewrite kMaxBlockSize_val.
  destruct (Z.ltb_spec (zlen data) 4); cbn; [zlen_facts; lia|].
  pose proof (be_dec_range (ztake 4 data)).
  destruct (Z.ltb_spec 67108864 (be_dec (ztake 4 data))); cbn; [done|].
  destruct (Z.ltb_spec (zlen data) (4 + be_dec (ztake 4 data))); cbn; [|done]. zlen_facts. lia.
Qed.

Lemma rest_incomplete data :
  broken (decode_stream data) = false ->
  status (try_take_block (rest (decode_stream data))) = Incomplete.
Proof.
  remember (length data) as n eqn:En. revert data En.
  induction n as [n IH] using lt_wf_ind. intros data En.
  rewrite (decode_stream_unfold data). cbv zeta.
  destruct (status (try_take_block data)) eqn:E; cbn [broken rest]; [|done..].
  pose proof (try_take_block_consumed _ E) as Hc.
  eapply IH; [|done]. unfold zdrop, zlen in *. rewrite length_drop. lia.
Qed.

(** Two readers agree: the loop over the receive buffer [b], and [feed] over the
    blocks of the bytes it holds. *)
Definition processed (c : Core) (data : list byte) (cap : Z)
    (r : bool * (Core * B * Z)) : Prop :=
  let '(ok, (c', b', need')) := r in
  let d := decode_stream data in
  rx_cap b' <= cap /\ 0 <= need' <= kMaxNeed /\ (exists left room, rx_rep b' left room)
  /\ exists keep c1, feed (bodies d) c = Ret (keep, c1)
  /\ ok = keep && negb (broken d)
  /\ c' = (if keep && broken d then set_closing ProtocolError c1 else c1)
  /\ (ok = true -> exists room, rx_rep b' (rest d) room).

Lemma process_loop_ok fuel c b need data room :
  core_ok c -> rx_rep b data room -> zlen data < Z.of_nat fuel -> 0 <= need <= kMaxNeed ->
  returns (process_loop fuel c b need) (processed c data (rx_cap b)).
Proof.
  revert c b need data room.
  induction fuel as [|fuel IH]; intros c b need data room Ok R Hf Hneed; [zlen_facts; lia|].
  cbn [process_loop]. destruct (rx_rep_bounds b data room R) as (-> & Hroom & Hcap).
  unfold processed. rewrite (decode_stream_unfold data). cbv zeta.
  destruct (Z.eqb_spec (zlen data) 0) as [E0|E0].
  { apply zlen_zero in E0 as ->.
    split_and!; [done|lia..|by eauto|]. exists true, c. by eauto. }
  rewrite (rx_view_rep b data room R). cbn [mbind outcome_bind].
  destruct (status (try_take_block data)) eqn:E; cbn [broken bodies rest].
  - eapply (returns_bind _ _ (fun r => handle_block (body (try_take_block data)) c = Ret r
                                       /\ handled c r)).
    { by destruct (returns_inv _ _ (handle_block_ok (body (try_take_block data)) c Ok))
        as (r & -> & Hr). }
    intros [keep c1] [Hb [A1 K1]]. cbn [fst snd] in *. cbn [feed]. rewrite Hb.
    cbn [mbind outcome_bind].
    pose proof (try_take_block_consumed _ E) as Hc.
    eapply returns_bind; [eapply rx_consume_rep; [exact R|lia]|].
    intros b1 [[room1 R1] Hcap1].
    destruct (negb keep || is_closing (state c1)).
    + split_and!; [done|lia..|by eauto|]. exists false, c1. done.
    + eapply returns_mono; [eapply IH; [apply A1|exact R1| |done]|].
      { rewrite zlen_zdrop by lia. lia. }
      intros [ok [[c2 b2] need2]] (H1 & H2 & H3 & H4). split_and!; [lia..|done|done].
  - destruct (incomplete_bounds _ E) as [_ Hn].
    split_and!; [done|lia..|by eauto|]. exists true, c. by eauto.
  - split_and!; [done|lia..|by eauto|]. exists true, c. done.
Qed.

Lemma process_blocks_ok c b data room :
  core_ok c -> rx_rep b data room ->
  returns (process_blocks c b) (processed c data (rx_cap b)).
Proof.
  intros Ok R. unfold process_blocks. eapply process_loop_ok; [done..| |by vm_compute].
  destruct (rx_rep_bounds b data room R) as (-> & _). zlen_facts. lia.
Qed.

(** The receive side between two events: what is buffered is a block cut short. *)
Definition kMaxRxCapacity : Z := 2 ^ 27.

Definition rx_ok (b : B) (need : Z) (data : list byte) : Prop :=
  (exists room, rx_rep b data room) /\ rx_cap b <= kMaxRxCapacity
  /\ status (try_take_block data) = Incomplete /\ 0 <= need <= kMaxNeed.

Lemma read_size_bounds c b need data :
  rx_ok b need data -> 0 < read_size c b need <= kMaxEagerReserve.
Proof.
  intros ([room R] & _ & _ & Hn). unfold read_size, kMaxEagerReserve, kRecvChunk.
  destruct (decide _); [|lia]. destruct (Z.ltb_spec (rx_size b) need); lia.
Qed.

Lemma prepare_read c b need data :
  rx_ok b need data ->
  returns (rx_prepare (read_size c b need) b) (fun '(b', span) =>
    rx_rep b' data span /\ 0 < span < 2 ^ 31 /\ rx_cap b' <= kMaxRxCapacity).
Proof.
  intros Ok. pose proof (read_size_bounds c b need data Ok) as Hr.
  destruct Ok as ([room R] & Hcap & Hi & Hn). unfold kMaxEagerReserve, kMaxRxCapacity in *.
  destruct (incomplete_bounds _ Hi) as [Hd _]. unfold kMaxNeed, kLengthPrefixSize in Hd.
  rewrite kMaxBlockSize_val in Hd.
  eapply returns_mono; [apply (rx_prepare_rep _ _ _ _ R); lia|].
  intros [b' span] (R' & Hs & Hc). destruct (rx_rep_bounds _ _ _ R') as (_ & ? & ?).
  set (m := zlen data + read_size c b need) in *.
  assert (m / 2 <= 34080000) by (apply Z.div_le_upper_bound; lia).
  zlen_facts. split_and!; [done|lia..].
Qed.

(** What a drain of the socket comes to: some of the bytes that had arrived were
    read, and the connection is where the reference reader of the whole stream
    [data ++ got] gets to. *)
Definition read_result (c : Core) (data inb : list byte) (r : bool * Conn) : Prop :=
  let '(ok, k) := r in
  exists got keep c1,
    inb = got ++ inbound k
    /\ feed (bodies (decode_stream (data ++ got))) c = Ret (keep, c1)
    /\ rx_cap (rx k) <= kMaxRxCapacity /\ (exists left room, rx_rep (rx k) left room)
    /\ if ok then
         keep = true /\ broken (decode_stream (data ++ got)) = false /\ core k = c1
         /\ rx_ok (rx k) (rx_need k) (rest (decode_stream (data ++ got)))
       else if keep then
         exists reason, core k = set_closing reason c1
           /\ (if broken (decode_stream (data ++ got)) then reason = ProtocolError
               else reason = PeerClosed \/ reason = PeerReset)
       else core k = c1.

(** Nothing read: what is buffered holds no block. *)
Lemma feed_incomplete data c :
  status (try_take_block data) = Incomplete ->
  decode_stream (data ++ []) = mkDecoded [] data false
  /\ feed (bodies (decode_stream (data ++ []))) c = Ret (true, c).
Proof. intros E. rewrite app_nil_r, decode_stream_unfold. cbv zeta. by rewrite E. Qed.

(** A result after reading [got] more is one from before. *)
Lemma read_result_step c c1 data got inb r :
  feed (bodies (decode_stream (data ++ got))) c = Ret (true, c1) ->
  broken (decode_stream (data ++ got)) = false ->
  read_result c1 (rest (decode_stream (data ++ got))) inb r ->
  read_result c data (got ++ inb) r.
Proof.
  intros Hf Hb. destruct r as [ok k]. intros (more & keep & c2 & -> & Hf2 & Hcap & Hrep & Hr).
  exists (got ++ more), keep, c2.
  pose proof (decode_stream_app (data ++ got) more) as Happ. cbv zeta in Happ.
  rewrite Hb, <- app_assoc in Happ. rewrite Happ. cbn [bodies rest broken].
  split_and!; [by rewrite app_assoc| |done..].
  rewrite feed_app, Hf. cbn [mbind outcome_bind]. done.
Qed.

(** The bytes one [recv] gets. *)
Lemma recv_some span inb a got :
  recv span inb a = Some got -> 0 < span ->
  inb = got ++ zdrop (zlen got) inb /\ 0 < zlen got <= span.
Proof.
  unfold recv. destruct a as [n| | |]; [|done..].
  destruct (Z.eqb_spec (zlen inb) 0); [done|]. intros [= <-] Hs. zlen_facts.
  rewrite zlen_ztake by lia. by rewrite ztake_zdrop; split; [|lia].
Qed.

Lemma processed_read c data got cap ok c' b' need' inb rs :
  processed c (data ++ got) cap (ok, (c', b', need')) -> cap <= kMaxRxCapacity ->
  read_result c data (got ++ inb) (ok, mkConn c' b' need' inb rs)
  /\ (ok = true -> feed (bodies (decode_stream (data ++ got))) c = Ret (true, c')
                   /\ broken (decode_stream (data ++ got)) = false
                   /\ rx_ok b' need' (rest (decode_stream (data ++ got)))).
Proof.
  intros (Hcap & Hneed & Hrep & keep & c1 & Hf & -> & -> & Hr) Hmax.
  assert (keep && negb (broken (decode_stream (data ++ got))) = true ->
          rx_ok b' need' (rest (decode_stream (data ++ got)))) as Hrx.
  { intros E. specialize (Hr E) as [room R]. apply andb_prop in E as [_ E].
    apply negb_true_iff in E. split_and!; [by eauto|lia| |lia..]. by apply rest_incomplete. }
  split.
  - exists got, keep, c1. split_and!; [done..|cbn [rx]; lia|done|].
    destruct keep; cbn [andb core rx rx_need] in *; [|done].
    destruct (broken _); cbn [negb] in *; [by eexists|]. split_and!; [done..|]. by apply Hrx.
  - intros E. specialize (Hrx E). destruct keep, (broken _); done.
Qed.

(** One [recv] that is neither FIN nor an error, before whatever reads on. *)
Lemma read_some_ok c b span data inb need rs a
    (next : Core -> B -> Z -> list byte -> outcome (bool * Conn)) :
  core_ok c -> rx_rep b data span -> 0 < span -> rx_cap b <= kMaxRxCapacity ->
  (forall rs', read_result c data inb (true, mkConn c b need inb rs')) ->
  (forall c b need data inb, core_ok c -> rx_ok b need data ->
     returns (next c b need inb) (read_result c data inb)) ->
  returns
    match recv span inb a with
    | None => Ret (true, mkConn c b need inb rs)
    | Some got =>
        b ← rx_commit got b;
        '(ok, (c, b, need)) ← process_blocks c b;
        if negb ok then Ret (false, mkConn c b need (zdrop (zlen got) inb) rs)
        else if zlen got <? span then Ret (true, mkConn c b need (zdrop (zlen got) inb) rs)
        else next c b need (zdrop (zlen got) inb)
    end (read_result c data inb).
Proof.
  intros Ok R Hspan Hcap Hstop Hnext.
  destruct (recv span inb a) as [got|] eqn:Hg; [|apply Hstop].
  apply recv_some in Hg as [Hinb Hg]; [|lia].
  eapply returns_bind; [apply (rx_commit_rep _ _ _ _ R); lia|].
  intros b2 [[room2 R2] Hcap2].
  eapply returns_bind; [by eapply process_blocks_ok|].
  intros [ok [[c3 b3] need3]] Hp. rewrite Hinb.
  destruct (processed_read _ _ _ _ _ _ _ _ (zdrop (zlen got) inb) rs Hp) as [Hr Hk]; [lia|].
  rewrite zdrop_app by done.
  destruct ok; [|exact Hr]. cbn [negb]. destruct (Hk eq_refl) as (Hf3 & Hb3 & Rx3).
  destruct (_ <? _); [exact Hr|].
  eapply returns_mono; [apply Hnext; [|exact Rx3]|].
  - pose proof (feed_ok (bodies (decode_stream (data ++ got))) c Ok) as Hfe.
    rewrite Hf3 in Hfe. apply Hfe.
  - intros r. by apply read_result_step.
Qed.

Lemma read_loop_ok rs c b need data inb :
  core_ok c -> rx_ok b need data ->
  returns (read_loop rs c b need inb) (read_result c data inb).
Proof.
  revert c b need data inb. induction rs as [|a rs IH]; intros c b need data inb Ok Rx;
    cbn [read_loop];
    (eapply returns_bind; [by apply prepare_read|]; intros [b1 span] (R1 & Hspan & Hcap);
     destruct (Z.leb_spec (2 ^ 31) span); [lia|]);
    destruct Rx as (_ & _ & Hi & Hn); destruct (feed_incomplete data c Hi) as [Hd Hf];
    assert (rx_ok b1 need data) as Rx1 by (split_and!; [by eauto|lia|done|lia..]);
    assert (forall rs', read_result c data inb (true, mkConn c b1 need inb rs')) as Hstop
      by (intros rs'; exists [], true, c; rewrite Hd in *; split_and!; by eauto);
    [apply Hstop|].
  destruct a as [n| | |].
  1,2: apply (read_some_ok c b1 span data inb need rs); [done|done|lia|done|done|exact IH].
  - eapply returns_bind; [by eapply process_blocks_ok|].
    intros [ok [[c3 b3] need3]] Hp. rewrite <- (app_nil_r data) in Hp at 1.
    destruct (processed_read _ _ _ _ _ _ _ _ inb rs Hp) as [Hr Hk]; [lia|].
    destruct ok; [|exact Hr]. destruct (Hk eq_refl) as (Hf3 & Hb3 & Rx3).
    destruct Rx3 as ([room R3] & ? & _).
    exists [], true, c3. split_and!; [done..|by eauto|]. exists PeerClosed.
    rewrite Hb3. by split; [|left].
  - exists [], true, c. split_and!; [done..|by eauto|]. exists PeerReset. rewrite Hd.
    by split; [|right].
Qed.

End Connection.
End Connection.
