(* ===== verification/Transport.v ===== *)
(** Connections under their reactor, and a pair of connections end to end.

    [handle_event] is the part of [Reactor::handle_event] that drives one connection
    and [establish_timeout] the reaper of [Reactor::adopt] ([transport/reactor.cpp]);
    [step] is everything that can happen to a connection on its reactor's thread.
    The theorems are about arbitrary sequences of steps, and about the frames that
    travel from one connection to another over any slicing of the byte stream. *)

From S2P Require Import Prelude Interfaces Frame ReceiveBuffer SendBuffer PeerId Security Connection.
Import framer Connection.

Section Transport.
Context {B Q S H D : Type}.
Context `{!RxBuffer B, !TxQueue Q, !Session S, !SecurityProvider H S, !Delegate D}.
Variable capacity_of : list byte -> Z.

Abbreviation Core := (@Core Q S H D).
Abbreviation Conn := (@Conn B Q S H D).

Definition with_core (c : Core) (k : Conn) : Conn :=
  mkConn c (rx k) (rx_need k) (inbound k) (recvs k).

(** [mark_for_close] keeps the first reason; the log keeps every request. *)
Definition mark_for_close (r : CloseReason) (k : Conn) : Conn :=
  with_core (emit (CloseRequest r) (core k)) k.

Definition handle_event (err pollin pollout : bool) (connect_err : Z) (k : Conn) : outcome Conn :=
  if is_closing (state (core k)) then Ret k
  else
    '(keep, k) ←
      (if err then let '(keep, c) := on_error (core k) in Ret (keep, with_core c k)
       else
         '(keep, k) ← (if pollin then on_readable capacity_of k else Ret (true, k));
         if keep && pollout then
           '(keep, c) ← on_writable capacity_of connect_err (core k); Ret (keep, with_core c k)
         else Ret (keep, k));
    if (keep : bool) then Ret k else Ret (mark_for_close (close_reason (core k)) k).

Definition establish_timeout (k : Conn) : Conn :=
  match state (core k) with
  | Established | Closing | Closed => k
  | Connecting => mark_for_close ConnectFailed k
  | Handshaking => mark_for_close HandshakeFailed k
  end.

(** What happens to a connection: a poll event, with the bytes that have arrived
    and the answers the socket will give; the timers; the accept path; the
    application sending. *)
Inductive Input :=
| Poll (err pollin pollout : bool) (connect_err : Z) (arrived : list byte)
       (rs : list RecvResult) (ss : list SendResult)
| Maintenance
| EstablishTimeout
| StartHandshake (ss : list SendResult)
| AppSend (h : FrameHeader) (p : list byte) (ss : list SendResult).

Definition step (i : Input) (k : Conn) : outcome Conn :=
  match i with
  | Poll err pollin pollout cerr arrived rs ss =>
      handle_event err pollin pollout cerr
        (mkConn (set_sends ss (core k)) (rx k) (rx_need k) (inbound k ++ arrived) rs)
  | Maintenance => on_maintenance_tick k
  | EstablishTimeout => Ret (establish_timeout k)
  | StartHandshake ss =>
      c ← start_handshake capacity_of (set_sends ss (core k)); Ret (with_core c k)
  | AppSend h p ss =>
      c ← send capacity_of h p (set_sends ss (core k)); Ret (with_core c k)
  end.

Fixpoint run (ins : list Input) (k : Conn) : outcome Conn :=
  match ins with
  | [] => Ret k
  | i :: ins => k ← step i k; run ins k
  end.

(** * The invariant *)

Record conn_ok (k : Conn) : Prop := {
  ck_core : core_ok (core k);
  ck_marked : marked (core k);
  ck_cap : rx_cap (rx k) <= kMaxRxCapacity;
  ck_rep : exists data room, rx_rep (rx k) data room;
  ck_rx : state (core k) <> Closing -> exists data, rx_ok (rx k) (rx_need k) data;
}.

Hypothesis capacity_ok : forall bs, zlen bs <= capacity_of bs.

(** [progress k k']: [k'] is well-formed and has moved forward from [k]. *)
Definition progress (k k' : Conn) : Prop :=
  conn_ok k' /\ (rank (state (core k)) <= rank (state (core k')))%nat
  /\ log (core k) `prefix_of` log (core k').

Lemma progress_trans k1 k2 k3 : progress k1 k2 -> progress k2 k3 -> progress k1 k3.
Proof. intros (_ & ? & ?) (? & ? & ?). split_and!; [done|lia|by etrans]. Qed.

Lemma progress_core k c :
  conn_ok k -> advances (core k) c -> marked c -> progress k (with_core c k).
Proof.
  intros [Hc Hm Hcap Hrep Hrx] (Ok & Hr & Hl) Mc. split_and!; [|done..].
  constructor; cbn; [done..|]. intros Hs. apply Hrx. intros E.
  rewrite E in Hr. pose proof (ok_open c Ok). destruct (state c); cbn in Hr; try lia; done.
Qed.

Lemma closing_cases (c : Core) : core_ok c -> is_closing (state c) = bool_decide (state c = Closing).
Proof. intros Ok. pose proof (ok_open c Ok). by destruct (state c). Qed.

Lemma on_readable_ok k data :
  conn_ok k -> rx_ok (rx k) (rx_need k) data ->
  returns (on_readable capacity_of k) (fun r =>
    read_result capacity_of (core k) data (inbound k) r
    /\ advances (core k) (core r.2) /\ rx_cap (rx r.2) <= kMaxRxCapacity
    /\ (exists data room, rx_rep (rx r.2) data room)
    /\ if r.1 then marked (core r.2) /\ exists data, rx_ok (rx r.2) (rx_need r.2) data
       else state (core r.2) = Closing).
Proof.
  intros [Ok Hm _ _ _] Rx. unfold on_readable.
  eapply returns_mono; [by eapply read_loop_ok|]. intros [ok k'] Hr.
  split; [exact Hr|]. destruct Hr as (got & keep & c1 & _ & Hf & Hcap & Hrep & Hres).
  pose proof (feed_ok capacity_of capacity_ok (bodies (decode_stream (data ++ got))) (core k) Ok) as Hfe.
  rewrite Hf in Hfe. destruct Hfe as [A1 K1]. cbn [fst snd] in *.
  destruct ok.
  - destruct Hres as (-> & _ & -> & Hrx). split_and!; [done..|by apply K1|by eauto].
  - destruct keep.
    + destruct Hres as (r & -> & _). split_and!; [|done..].
      exact (advances_trans _ _ _ A1 (set_closing_ok _ _ (proj1 A1))).
    + subst c1. done.
Qed.

Lemma on_writable_ok err (c : Core) :
  core_ok c -> marked c ->
  returns (on_writable capacity_of err c) (fun r =>
    advances c r.2 /\ if r.1 then marked r.2 else state r.2 = Closing).
Proof.
  assert (forall c : Core, core_ok c -> marked c -> returns (flush c) (fun r =>
    advances c r.2 /\ if r.1 then marked r.2 else state r.2 = Closing)) as Hflush.
  { intros c0 Ok Hm. eapply returns_mono; [by apply flush_ok|].
    intros [ok c1] (A & _ & E). split; [done|]. destruct ok; [|done].
    by eapply marked_mono; [exact E|apply A|]. }
  intros Ok Hm. unfold on_writable. destruct (decide _) as [E|]; [|by apply Hflush].
  destruct (negb _); [split; [by apply set_closing_ok|done]|].
  eapply returns_bind; [by apply begin_handshake_ok|]. intros c1 [A1 M1].
  destruct (decide _); [done|].
  eapply returns_mono; [apply Hflush; [apply A1|done]|]. intros r [A2 Hr].
  split; [exact (advances_trans _ _ _ A1 A2)|done].
Qed.

Lemma mark_for_close_ok k r :
  core_ok (core k) -> advances (core k) (core (mark_for_close r k)) /\ marked (core (mark_for_close r k)).
Proof. intros Ok. split; [by apply emit_silent|apply marked_emit]. Qed.

(** The connection after a callback, and whether to keep it. *)
Definition serviced (c : Core) (r : bool * Conn) : Prop :=
  advances c (core r.2) /\ rx_cap (rx r.2) <= kMaxRxCapacity
  /\ (exists data room, rx_rep (rx r.2) data room)
  /\ if r.1 then marked (core r.2) /\ exists data, rx_ok (rx r.2) (rx_need r.2) data
     else state (core r.2) = Closing.

Lemma handle_event_ok err pollin pollout cerr k :
  conn_ok k -> returns (handle_event err pollin pollout cerr k) (progress k).
Proof.
  intros Ok. unfold handle_event. pose proof Ok as [Hc Hm Hcap Hrep Hrx].
  rewrite closing_cases by done. case_bool_decide as Es; [done|].
  eapply (returns_bind _ _ (serviced (core k))).
  - destruct err.
    { split_and!; [by apply set_closing_ok|done..]. }
    eapply (returns_bind _ _ (serviced (core k))).
    { destruct pollin; [|split_and!; [by apply advances_refl|done|done|split; by auto]].
      destruct (Hrx Es) as [data Rx].
      eapply returns_mono; [by apply (on_readable_ok k data)|]. by intros r [_ ?]. }
    intros [keep k1] (A1 & Hc1 & Hr1 & Hk1). cbn [fst snd] in *.
    destruct keep; cbn [andb]; [|done]. destruct Hk1 as [M1 Rx1].
    destruct pollout; [|done].
    eapply returns_bind; [by apply on_writable_ok; [apply A1|]|].
    intros [keep c2] [A2 K2]. cbn [fst snd] in *.
    split_and!; [exact (advances_trans _ _ _ A1 A2)|done..|]. cbn [fst snd]. by destruct keep.
  - intros [keep k1] (A1 & Hc1 & Hr1 & Hk1). cbn [fst snd] in *.
    destruct keep.
    + destruct Hk1 as [M1 Rx1]. destruct A1 as (? & ? & ?). split_and!; [|done..].
      by constructor; [..|intros _].
    + destruct (mark_for_close_ok k1 (close_reason (core k1)) (proj1 A1)) as [A2 M2].
      pose proof (advances_trans _ _ _ A1 A2) as (? & ? & ?). split_and!; [|done..].
      constructor; [done..|]. intros E. by destruct E.
Qed.

Lemma step_ok i k : conn_ok k -> returns (step i k) (progress k).
Proof.
  intros Ok. pose proof Ok as [Hc Hm Hcap Hrep Hrx].
  assert (forall ss, progress k (with_core (set_sends ss (core k)) k)) as Hss.
  { intros ss. apply progress_core; [done|by apply set_sends_ok|done]. }
  destruct i as [err pin pout cerr arrived rs ss| | |ss|h p ss]; cbn [step].
  - eapply returns_mono; [apply handle_event_ok|done].
    destruct (Hss ss) as ([] & _). by constructor.
  - destruct Hrep as (data & room & R).
    destruct (returns_inv _ _ (rx_decay_rep (rx k) data room R)) as (b & Hb & [room' R'] & Hcap').
    unfold on_maintenance_tick. rewrite Hb. cbn. split_and!; [|done..].
    constructor; cbn; [done|done|lia|by eauto|].
    intros Hs. destruct (Hrx Hs) as [data' ([room2 R2] & _ & Hi & Hn)].
    pose proof (rx_decay_rep (rx k) data' room2 R2) as Hd. rewrite Hb in Hd.
    destruct Hd as [[room3 R3] _]. exists data'. split_and!; [by eauto|lia|done|lia..].
  - cbn. unfold establish_timeout.
    destruct (state (core k)) eqn:E; [| |done..];
      (edestruct mark_for_close_ok as [A M]; [exact Hc|];
       exact (progress_core _ _ Ok A M)).
  - destruct (Hss ss) as ([Hc1 Hm1 _ _ _] & _). cbn [core with_core] in *.
    eapply returns_bind.
    + instantiate (1 := fun c => advances (core k) c /\ marked c). unfold start_handshake.
      destruct (decide _); [|by split; [apply set_sends_ok|]].
      eapply returns_mono; [by apply begin_handshake_ok|]. intros c [A M].
      split; [|done]. exact (advances_trans _ _ _ (proj1 (set_sends_ok _ ss Hc)) A).
    + intros c [A M]. by apply progress_core.
  - destruct (Hss ss) as ([Hc1 Hm1 _ _ _] & _). cbn [core with_core] in *.
    eapply returns_bind; [by apply send_ok|]. intros c (A & _ & _ & _ & M & _).
    apply progress_core; [done| |by apply M].
    exact (advances_trans _ _ _ (proj1 (set_sends_ok _ ss Hc)) A).
Qed.

Lemma run_ok ins k : conn_ok k -> returns (run ins k) (progress k).
Proof.
  revert k. induction ins as [|i ins IH]; intros k Ok; cbn [run]; [done|].
  eapply returns_bind; [by apply step_ok|]. intros k1 P1.
  eapply returns_mono; [apply IH, P1|]. intros k2 P2. by eapply progress_trans.
Qed.

Lemma run_app is1 is2 k : run (is1 ++ is2) k = run is1 k ≫= run is2.
Proof.
  revert k. induction is1 as [|i is1 IH]; intros k; cbn [app run]; [done|].
  destruct (step i k); cbn; [apply IH|done..].
Qed.

Lemma new_conn_ok r d : conn_ok (new_conn r [] d).
Proof.
  destruct rx_new_rep as [R Hcap].
  constructor; cbn [new_conn core rx rx_need].
  - constructor; cbn; try done. exists []. split; [apply tx_new_rep|done].
  - done.
  - by rewrite Hcap.
  - by eauto.
  - intros _. exists []. split_and!; [by eauto|by rewrite Hcap|done..].
Qed.

(** * From one connection to the other *)

(** The contract of a pair of sessions: what the first encrypts, the second
    decrypts, in order; encrypting on the second does not disturb this direction. *)
Class SessionPair := {
  paired : S -> S -> Prop;
  max_overhead : Z;
  max_overhead_nonneg : 0 <= max_overhead;
  paired_step a b plain a' cipher :
    paired a b -> zlen plain <= kMaxBlockSize -> encrypt a plain = Some (a', cipher) ->
    zlen cipher <= zlen plain + max_overhead
    /\ exists b', decrypt b cipher = Some (b', plain) /\ paired a' b';
  paired_encrypt a b b' plain cipher :
    paired a b -> encrypt b plain = Some (b', cipher) -> paired a b';
}.
Context `{!SessionPair}.

Lemma paired_evolves a b b' : paired a b -> rtc enc_step b b' -> paired a b'.
Proof.
  intros Hp Hr. induction Hr as [|b1 b2 b3 (plain & cipher & He) _ IH]; [done|].
  apply IH. by eapply paired_encrypt.
Qed.

(** The blocks and the frames of a sequence of sends on the session [s]: a frame the
    session refuses to encrypt is not sent. *)
Fixpoint ciphers (s : S) (acts : list Action) : list (list byte * Frame) :=
  match acts with
  | [] => []
  | ASend h p :: acts =>
      match encrypt s (encode_message [] h p) with
      | Some (s, cipher) => (cipher, mkFrame h p) :: ciphers s acts
      | None => ciphers s acts
      end
  | AClose _ :: acts => ciphers s acts
  end.

Lemma act_closing acts (c : Core) :
  core_ok c -> state c = Closing ->
  returns (act capacity_of acts c) (fun c' =>
    core_ok c' /\ state c' = Closing /\ queued (log c') = queued (log c)).
Proof.
  revert c. induction acts as [|[h p|r] acts IH]; intros c Ok E; cbn [act]; [done|..].
  - unfold send. rewrite decide_False by congruence. by apply IH.
  - destruct (emit_silent c (CloseRequest r) I Ok) as [[Ok1 _] (_ & _ & _ & _ & _ & _ & Hq1 & _)].
    eapply returns_mono; [by apply IH|]. intros c2 (? & ? & ->). done.
Qed.

(** What the sender queues is a prefix of its ciphers, all of them if it is still
    established at the end. *)
Lemma act_queued acts (c : Core) s :
  core_ok c -> session c = Some s ->
  returns (act capacity_of acts c) (fun c' =>
    core_ok c' /\ exists n, queued (log c') = queued (log c) ++ take n (ciphers s acts).*1
    /\ (state c' = Established -> (length (ciphers s acts) <= n)%nat)).
Proof.
  revert c s. induction acts as [|[h p|r] acts IH]; intros c s Ok Hs; cbn [act ciphers].
  - split; [done|]. exists 0%nat. by rewrite app_nil_r.
  - eapply returns_bind; [by apply send_ok|]. intros c1 (A1 & _ & _ & _ & _ & Hse).
    destruct (decide (state c = Established)) as [E|E].
    + unfold sent in Hse. rewrite Hs in Hse.
      destruct (encrypt s _) as [[s' cipher]|]; destruct Hse as [Hs1 Hq1].
      * eapply returns_mono; [apply (IH c1 s'); [apply A1|done]|].
        intros c2 (Ok2 & n & Hq2 & Hn). split; [done|]. exists (Datatypes.S n).
        cbn [take fmap list_fmap fst]. rewrite Hq2, Hq1, <- app_assoc.
        split; [done|]. intros E2. specialize (Hn E2). cbn. lia.
      * eapply returns_mono; [apply (IH c1 s); [apply A1|done]|].
        intros c2 (Ok2 & n & Hq2 & Hn). split; [done|]. exists n. by rewrite Hq2, Hq1.
    + subst c1. assert (state c = Closing) as Ec.
      { pose proof (ok_open c Ok). pose proof (ok_no_session c Ok) as Hn.
        destruct (state c); try done; cbn in Hn; rewrite Hn in Hs by lia; done. }
      eapply returns_mono; [by apply act_closing|]. intros c2 (Ok2 & E2 & ->).
      split; [done|]. exists 0%nat. rewrite app_nil_r. split; [done|congruence].
  - destruct (emit_silent c (CloseRequest r) I Ok) as [A1 (_ & Hs1 & _ & _ & _ & _ & Hq1 & _)].
    eapply returns_mono; [apply (IH _ s); [apply A1|by rewrite Hs1]|].
    intros c2 (Ok2 & n & Hq2 & Hn). split; [done|]. exists n. by rewrite Hq2, Hq1.
Qed.

(** Frames that fit into a block once encrypted. *)
Definition fits (a : Action) : Prop :=
  match a with
  | ASend _ p => kHeaderSize + zlen p + max_overhead <= kMaxBlockSize
  | AClose _ => True
  end.

Lemma zlen_encode_message h p : zlen (encode_message [] h p) = kHeaderSize + zlen p.
Proof. unfold encode_message, kHeaderSize. autorewrite with zlen. change (zlen (@nil byte)) with 0. cbn [Z.of_nat]. lia. Qed.

Lemma fits_plain h p : fits (ASend h p) -> zlen (encode_message [] h p) <= kMaxBlockSize.
Proof. rewrite zlen_encode_message. cbn [fits]. pose proof max_overhead_nonneg. lia. Qed.

Lemma ciphers_bound acts s b :
  paired s b -> Forall fits acts ->
  Forall (fun body => zlen body <= kMaxBlockSize) (ciphers s acts).*1.
Proof.
  intros Hp Ha. revert s b Hp. induction Ha as [|[h p|r] acts Hb _ IH]; intros s b Hp;
    cbn [ciphers]; [done| |by eapply IH].
  destruct (encrypt s _) as [[s' cipher]|] eqn:E; [|by eapply IH].
  destruct (paired_step _ _ _ _ _ Hp (fits_plain _ _ Hb) E) as (Hc & b' & _ & Hp').
  cbn [fmap list_fmap fst]. constructor; [|by eapply IH]. etrans; [exact Hc|].
  rewrite zlen_encode_message. exact Hb.
Qed.

(** The receiver, fed the first blocks of the sender, delivers their frames. *)
Lemma feed_ciphers acts (c : Core) s b n :
  core_ok c -> session c = Some b -> (2 <= rank (state c))%nat -> paired s b ->
  Forall (fun a => match a with ASend h _ => header_ok h | AClose _ => True end /\ fits a) acts ->
  returns (feed capacity_of (take n (ciphers s acts).*1) c) (fun r =>
    exists m, delivered (log r.2) = delivered (log c) ++ take m (ciphers s acts).*2
    /\ (m <= n)%nat /\ (r.1 = true -> take m (ciphers s acts).*2 = take n (ciphers s acts).*2)).
Proof.
  intros Ok Hb Hst Hp Hh. revert c s b n Ok Hb Hst Hp.
  induction Hh as [|[h p|r] acts [Hok Hfit] _ IH]; intros c s b n Ok Hb Hst Hp; cbn [ciphers];
    [|destruct (encrypt s _) as [[s' cipher]|] eqn:E; [|by eapply IH]|by eapply IH].
  { cbn [fmap list_fmap]. rewrite take_nil. exists 0%nat.
    rewrite !take_nil, app_nil_r. split_and!; [done|lia|done]. }
  destruct n as [|n]; cbn [take fmap list_fmap fst snd].
  { exists 0%nat. cbn [take]. rewrite app_nil_r. split_and!; [done|lia|done]. }
  destruct (paired_step _ _ _ _ _ Hp (fits_plain _ _ Hfit) E) as (_ & b' & Hd & Hp').
  cbn [feed]. unfold handle_block. rewrite decide_False by (intros Es; rewrite Es in Hst; cbn in Hst; lia).
  eapply returns_bind; [by apply deliver_frame_ok|]. intros [keep c1] [[A1 _] Hf].
  rewrite Hb in Hf. cbn [mbind option_bind frame_of] in Hf. unfold frame_of in Hf.
  rewrite Hd in Hf. cbn [mbind option_bind] in Hf.
  rewrite parse_encode_message in Hf by done. cbn [mbind option_bind fst snd] in Hf.
  destruct Hf as (-> & Hdel & b2 & Hb2 & Hev). cbn [negb orb].
  destruct (is_closing (state c1)).
  - exists 1%nat. cbn [take fst snd]. split_and!; [done|lia|done].
  - eapply returns_mono; [eapply (IH c1 s' b2 n)|].
    + apply A1.
    + done.
    + destruct A1 as (_ & ? & _). cbn [fst snd] in *. lia.
    + by eapply paired_evolves.
    + intros [keep c2] (m & Hm & Hle & Hall). cbn [fst snd] in *. exists (Datatypes.S m).
      cbn [take]. rewrite Hm, Hdel, <- app_assoc. split_and!; [done|lia|].
      intros Ek. by rewrite Hall.
Qed.

(** A prefix of a stream of blocks decodes to a prefix of the blocks. *)
Lemma decode_stream_prefix bs got later :
  Forall (fun body => zlen body <= kMaxBlockSize) bs ->
  got ++ later = concat (encode_block [] <$> bs) ->
  broken (decode_stream got) = false
  /\ exists n, bodies (decode_stream got) = take n bs /\ (later = [] -> take n bs = bs).
Proof.
  intros Hbs Hg. pose proof (decode_stream_blocks bs [] Hbs eq_refl) as Hd.
  rewrite app_nil_r, <- Hg, decode_stream_app in Hd. cbv zeta in Hd.
  destruct (broken (decode_stream got)); [done|]. split; [done|].
  injection Hd as Hb _ _. exists (length (bodies (decode_stream got))). rewrite <- Hb.
  rewrite take_app_length. split; [done|]. intros ->.
  pose proof (decode_stream_blocks bs [] Hbs eq_refl) as Hd.
  rewrite app_nil_r, <- Hg, app_nil_r in Hd. rewrite Hb, Hd. done.
Qed.

(** * Claims *)

(** C2: no sequence of events, timers and sends, with any bytes arriving in any
    slices and any answers of the socket, makes a connection dereference a null
    session or handshaker, leave a buffer, offer [recv] a negative length or fail to
    allocate; its receive buffer stays within 128 MiB, and once it is closing the
    reactor has been asked to tear it down. *)
Theorem connection_safety (r : ConnRole) (d : D) (ins : list Input) :
  returns (run ins (new_conn r [] d)) (fun k =>
    rx_cap (rx k) <= 2 ^ 27
    /\ state (core k) <> Closed
    /\ (state (core k) = Closing -> exists reason, CloseRequest reason ∈ log (core k))).
Proof.
  eapply returns_mono; [apply run_ok, new_conn_ok|]. intros k ([Hc Hm Hcap _ _] & _).
  split_and!; [exact Hcap | by apply ok_open | exact Hm].
Qed.

(** C5: the lifecycle. Whatever happens next, a connection only moves forward
    through its states and never takes back what it did; the delegate hears of the
    establishment at most once, exactly when there is a session, and of frames only
    afterwards. *)
Theorem connection_lifecycle (r : ConnRole) (d : D) (ins later : list Input) :
  returns (run ins (new_conn r [] d)) (fun k =>
    lifecycle (log (core k)) = Some (bool_decide (is_Some (session (core k))))
    /\ returns (run later k) (fun k' =>
         (rank (state (core k)) <= rank (state (core k')))%nat
         /\ log (core k) `prefix_of` log (core k'))).
Proof.
  eapply returns_mono; [apply run_ok, new_conn_ok|]. intros k (Ok & _).
  split; [apply Ok|]. eapply returns_mono; [by apply run_ok|]. by intros k' (_ & ? & ?).
Qed.

(** C4: outbound, the bytes the socket has accepted followed by the bytes still in
    the send queue are exactly the length-prefixed blocks queued so far: partial
    writes, refused writes and interleaved sends neither lose, duplicate nor
    reorder a byte. *)
Theorem outbound_stream (r : ConnRole) (d : D) (ins : list Input) :
  returns (run ins (new_conn r [] d)) (fun k =>
    exists pending, tx_rep (tx (core k)) pending
    /\ wire (log (core k)) ++ pending = concat (encode_block [] <$> queued (log (core k)))).
Proof.
  eapply returns_mono; [apply run_ok, new_conn_ok|]. intros k ([[] _ _ _ _] & _). done.
Qed.

(** C3: inbound, draining the socket is independent of how the bytes were sliced:
    whatever the connection has buffered and whichever of the arrived bytes it reads
    now, the handshake messages, frames, replies and failures are those of the
    reference reader [feed] on the blocks of the whole stream; a block cut short
    stays buffered, a length over the cap is a protocol error. *)
Theorem inbound_stream (r : ConnRole) (d : D) (ins : list Input)
    (arrived : list byte) (rs : list RecvResult) :
  returns (run ins (new_conn r [] d)) (fun k =>
    state (core k) <> Closing ->
    exists data, rx_view (rx k) = Ret data
    /\ status (try_take_block data) = Incomplete
    /\ returns (on_readable capacity_of (mkConn (core k) (rx k) (rx_need k) arrived rs))
               (read_result capacity_of (core k) data arrived)).
Proof.
  eapply returns_mono; [apply run_ok, new_conn_ok|]. intros k (Ok & _) Hs.
  destruct (ck_rx k Ok Hs) as [data Rx]. pose proof Rx as ([room R] & _ & Hi & _).
  exists data. split_and!; [by eapply rx_view_rep|done|].
  eapply returns_mono;
    [apply (on_readable_ok (mkConn (core k) (rx k) (rx_need k) arrived rs) data);
     [by destruct Ok|done]|].
  by intros [ok k'] [? _].
Qed.

(** C1: end to end. A established connection with an empty queue sends; some prefix
    of what its socket accepted arrives at the established peer, whose sessions pair
    with it, and the peer drains it in whatever slices, its delegate free to send
    and close. The delegate is handed a prefix of the frames that were sent, in
    order, each exactly once and intact; and all of them if nothing is left on the
    way and neither side has closed. *)
Theorem frames_end_to_end (ca : Core) (kb : Conn) (acts : list Action) (sa sb : S)
    (Ha : core_ok ca) (Hsa : session ca = Some sa) (Hta : tx_empty (tx ca) = true)
    (Hb : conn_ok kb) (Hrx : rx_ok (rx kb) (rx_need kb) []) (Hsb : session (core kb) = Some sb)
    (Hp : paired sa sb)
    (Hacts : Forall (fun a => match a with
       | ASend h p => header_ok h /\ kHeaderSize + zlen p + max_overhead <= kMaxBlockSize
       | AClose _ => True end) acts) :
  returns (act capacity_of acts ca) (fun ca' =>
    forall arrived lost rs,
    wire (log ca') = wire (log ca) ++ arrived ++ lost ->
    returns (on_readable capacity_of (mkConn (core kb) (rx kb) (rx_need kb) arrived rs))
      (fun '(keep, kb') => exists n,
         delivered (log (core kb')) = delivered (log (core kb)) ++ take n (ciphers sa acts).*2
         /\ (keep = true -> inbound kb' = [] -> lost = [] -> tx_empty (tx ca') = true ->
             state ca' = Established -> take n (ciphers sa acts).*2 = (ciphers sa acts).*2))).
Proof.
  eapply returns_mono; [by apply act_queued|].
  intros ca' (Ha' & n & Hq & Hn) arrived lost rs Hw.
  pose proof (ok_tx ca Ha) as (live & R & Ht). apply (tx_empty_rep _ _ R) in Hta as ->.
  pose proof (ok_tx ca' Ha') as (live' & R' & Ht').
  rewrite Hq, fmap_app, concat_app, Hw, <- Ht, app_nil_r, <- !app_assoc in Ht'.
  apply app_inv_head in Ht'.
  eapply returns_mono;
    [apply (on_readable_ok (mkConn (core kb) (rx kb) (rx_need kb) arrived rs) []); [by destruct Hb|done]|].
  intros [keep kb'] [(got & kp & c1 & Hin & Hf & _ & _ & Hres) _]. cbn [inbound core app] in *.
  rewrite Hin, <- app_assoc in Ht'.
  destruct (decode_stream_prefix (take n (ciphers sa acts).*1) got (inbound kb' ++ lost ++ live'))
    as (Hbr & m & Hbod & Hall);
    [eapply Forall_take, ciphers_bound, (Forall_impl _ _ _ Hacts); [done|]; by intros [? ?|?]; [intros [_ ?]|] |done|].
  rewrite Hbod, take_take in Hf.
  pose proof (feed_ciphers acts (core kb) sa sb (m `min` n) (ck_core _ Hb) Hsb) as Hfeed.
  rewrite Hf in Hfeed. destruct Hfeed as (j & Hdel & Hj & Hk); [|done|..].
  { pose proof (ok_no_session _ (ck_core _ Hb)) as Hno.
    destruct (state (core kb)); cbn in *; try lia; rewrite Hno in Hsb by lia; done. }
  { apply (Forall_impl _ _ _ Hacts). by intros [? ?|?]. }
  cbn [fst snd] in *. exists j. split.
  - rewrite <- Hdel. destruct keep; [by destruct Hres as (_ & _ & -> & _)|].
    destruct kp; [by destruct Hres as (? & -> & _)|by subst c1].
  - intros -> Hi0 -> Hl0 Hst. destruct Hres as (-> & _). rewrite (Hk eq_refl).
    apply (tx_empty_rep _ _ R') in Hl0 as ->. specialize (Hn Hst).
    specialize (Hall ltac:(by rewrite Hi0)). rewrite take_take in Hall.
    apply (f_equal length) in Hall. rewrite !length_take, length_fmap in Hall.
    apply take_ge. rewrite length_fmap. lia.
Qed.

End Transport.

(** * A concrete node

    The repository's buffers and the plaintext provider, with a delegate that keeps
    the frames it is given: the theorems at concrete inputs. *)

Import Plaintext.
Abbreviation ReceiveBuffer := ReceiveBuffer.ReceiveBuffer.
Abbreviation ChainedSendBuffer := ChainedSendBuffer.ChainedSendBuffer.

#[global] Instance recorder : Delegate (list Frame) := {|
  on_established d _ := (d, []);
  on_frame d f := (d ++ [f], []);
|}.

#[global, program] Instance plaintext_pair : SessionPair (S:=PlaintextSession) := {|
  paired _ _ := True;
  max_overhead := 0;
|}.
Next Obligation. done. Qed.
Next Obligation. intros a b plain a' cipher _ _ [= <- <-]. split; [lia|by exists b]. Qed.
Next Obligation. done. Qed.

#[global] Instance local_provider : SecurityProvider PlaintextHandshaker PlaintextSession :=
  provider (replicate 32 x01) [x70].

(** The greeting of a remote peer and then a frame with payload "hi". *)
Definition greeting : list byte :=
  encode_block [] (append_message (mkHandshaker (replicate 32 x02) (protocol_id [x70]) true) []).
Definition hi_frame : Frame := mkFrame (mkFrameHeader Typed x00 7) [x68; x69].
Definition hi_block : list byte :=
  encode_block [] (encode_message [] (header hi_frame) (payload hi_frame)).

(** The greeting in two slices, cut inside the length prefix, then the frame. *)
Definition demo_inputs : list Input :=
  [ StartHandshake []; Poll false true false 0 (ztake 3 greeting) [RRead 3] [];
    Poll false true false 0 (zdrop 3 greeting ++ ztake 5 hi_block) [RRead 20; RRead 20] [SAccept 6];
    Maintenance;
    Poll false true true 0 (zdrop 5 hi_block) [RRead 100; REof] [SAccept 1000] ].

Definition demo_conn : Conn (B:=ReceiveBuffer) (Q:=ChainedSendBuffer) (S:=PlaintextSession)
    (H:=PlaintextHandshaker) (D:=list Frame) := new_conn Inbound [] [].

Lemma connection_safety_witness :
  returns (run zlen demo_inputs demo_conn) (fun k =>
    rx_cap (rx k) <= 2 ^ 27
    /\ state (core k) <> Closed
    /\ (state (core k) = Closing -> exists reason, CloseRequest reason ∈ log (core k))).
Proof. apply connection_safety. intros; lia. Defined.

Lemma connection_lifecycle_witness :
  returns (run zlen (take 3 demo_inputs) demo_conn) (fun k =>
    lifecycle (log (core k)) = Some (bool_decide (is_Some (session (core k))))
    /\ returns (run zlen (drop 3 demo_inputs) k) (fun k' =>
         (rank (state (core k)) <= rank (state (core k')))%nat
         /\ log (core k) `prefix_of` log (core k'))).
Proof. apply connection_lifecycle. intros; lia. Defined.

Lemma outbound_stream_witness :
  returns (run zlen demo_inputs demo_conn) (fun k =>
    exists pending, tx_rep (tx (core k)) pending
    /\ wire (log (core k)) ++ pending = concat (encode_block [] <$> queued (log (core k))))
  /\ returns (run zlen demo_inputs demo_conn) (fun k =>
       tx_empty (tx (core k)) = true
       /\ wire (log (core k)) = encode_block [] (append_message (create Inbound) [])
       /\ delegate (core k) = [hi_frame]).
Proof.
  split; [apply outbound_stream; intros; lia|]. vm_compute. done.
Defined.

Lemma inbound_stream_witness :
  returns (run zlen (take 2 demo_inputs) demo_conn) (fun k =>
    state (core k) <> Closing ->
    exists data, rx_view (rx k) = Ret data
    /\ status (try_take_block data) = Incomplete
    /\ returns (on_readable zlen (mkConn (core k) (rx k) (rx_need k)
                  (zdrop 3 greeting ++ hi_block) [RRead 20; RRead 200; REof]))
               (read_result zlen (core k) data (zdrop 3 greeting ++ hi_block))).
Proof. apply inbound_stream. intros; lia. Defined.

Definition demo_core (ss : list SendResult) : Core (Q:=ChainedSendBuffer) (S:=PlaintextSession)
    (H:=PlaintextHandshaker) (D:=list Frame) :=
  mkCore Outbound Established PeerClosed None (Some (mkSession [])) [] tx_new false
         kDefaultSendHighWater 0 ss [] [EstablishedEv []].

Lemma demo_core_ok ss : core_ok (demo_core ss).
Proof.
  constructor; try done; [cbn; lia|]. exists []. split; [apply ChainedSendBuffer.rep_new|done].
Qed.

Lemma demo_rx_ok : rx_ok (B:=ReceiveBuffer) rx_new 0 [].
Proof. split_and!; [exists 0; apply (rx_new_rep (B:=ReceiveBuffer))|by vm_compute..]. Qed.

Lemma frames_end_to_end_witness :
  let acts := [ASend (header hi_frame) (payload hi_frame); AClose LocalClose;
               ASend (mkFrameHeader App x00 9) []] in
  returns (act zlen acts (demo_core [SAccept 7; SAccept 100; SAccept 100])) (fun ca' =>
    forall arrived lost rs,
    wire (log ca') = wire (log (demo_core [])) ++ arrived ++ lost ->
    returns (on_readable zlen (mkConn (demo_core []) (rx_new : ReceiveBuffer) 0 arrived rs))
      (fun '(keep, kb') => exists n,
         delivered (log (core kb')) = [] ++ take n (ciphers (mkSession []) acts).*2
         /\ (keep = true -> inbound kb' = [] -> lost = [] -> tx_empty (tx ca') = true ->
             state ca' = Established ->
             take n (ciphers (mkSession []) acts).*2 = (ciphers (mkSession []) acts).*2)))
  /\ (ciphers (mkSession []) acts).*2 = [hi_frame; mkFrame (mkFrameHeader App x00 9) []].
Proof.
  split; [|done].
  apply (frames_end_to_end zlen ltac:(intros; lia)
           (demo_core [SAccept 7; SAccept 100; SAccept 100])
           (mkConn (demo_core []) (rx_new : ReceiveBuffer) 0 [] [])
           [ASend (header hi_frame) (payload hi_frame); AClose LocalClose;
            ASend (mkFrameHeader App x00 9) []] (mkSession []) (mkSession [])); try done.
  - apply demo_core_ok.
  - constructor; cbn [core rx rx_need]; [apply demo_core_ok|done|by vm_compute| |].
    + exists [], 0. apply (rx_new_rep (B:=ReceiveBuffer)).
    + intros _. exists []. apply demo_rx_ok.
  - apply demo_rx_ok.
  - repeat (apply Forall_cons_2; [by vm_compute|]). apply Forall_nil_2.
Defined.
