(* ===== verification/Bencode.v ===== *)
(** Bencode ([bittorrent/bencode.{h,cpp}]): the value tree, the encoder and the
    recursive-descent decoder shared by BitTorrent and the DHT.

    Strings are lists of bytes; a dictionary is the vector of its entries. A pointer
    into the input is the list of the bytes from it to the end. An accessor that
    throws returns [None]. The boxing of containers and the copy and move members
    are what the value semantics of the model already is. *)

From S2P Require Import Prelude Text.

(** [class BencodeValue]; its induction principle is [value_ind] below. *)
Unset Elimination Schemes.
Inductive BencodeValue :=
| Integer (v : Z)
| String (s : list byte)
| List (l : list BencodeValue)
| Dictionary (d : list (list byte * BencodeValue)).
Set Elimination Schemes.

Module bencode.

Abbreviation BencodeDict := (list (list byte * BencodeValue)).

(** * Accessors *)

Definition as_integer (v : BencodeValue) : option Z :=
  match v with Integer z => Some z | _ => None end.
Definition as_string (v : BencodeValue) : option (list byte) :=
  match v with String s => Some s | _ => None end.
Definition as_list (v : BencodeValue) : option (list BencodeValue) :=
  match v with List l => Some l | _ => None end.
Definition as_dict (v : BencodeValue) : option BencodeDict :=
  match v with Dictionary d => Some d | _ => None end.

(** [std::lower_bound] with [KeyLess]: the entries before the first one whose key is
    not smaller, and the rest. *)
Fixpoint lower_bound (key : list byte) (d : BencodeDict) : BencodeDict * BencodeDict :=
  match d with
  | e :: d' =>
      if bytes_lt e.1 key then let '(before, after) := lower_bound key d' in (e :: before, after)
      else ([], d)
  | [] => ([], [])
  end.

Definition find (key : list byte) (v : BencodeValue) : option BencodeValue :=
  match v with
  | Dictionary d =>
      match (lower_bound key d).2 with
      | e :: _ => if bool_decide (e.1 = key) then Some e.2 else None
      | [] => None
      end
  | _ => None
  end.

Definition has_key (key : list byte) (v : BencodeValue) : bool := bool_decide (is_Some (find key v)).

(** The mutable [operator\[\]]: what the reference refers to, and the dictionary that
    an update through it makes. A new entry starts as the empty string. *)
Definition update (key : list byte) (f : BencodeValue -> BencodeValue) (v : BencodeValue)
    : option BencodeValue :=
  match v with
  | Dictionary d =>
      let '(before, after) := lower_bound key d in
      Some (Dictionary
        match after with
        | e :: after' =>
            if bool_decide (e.1 = key) then before ++ (e.1, f e.2) :: after'
            else before ++ (key, f (String [])) :: after
        | [] => before ++ [(key, f (String []))]
        end)
  | _ => None
  end.

Definition at_index (i : Z) (v : BencodeValue) : option BencodeValue :=
  l ← as_list v; if zlen l <=? i then None else zlookup l i.

Definition push_back (x v : BencodeValue) : option BencodeValue :=
  l ← as_list v; Some (List (l ++ [x])).

Definition size (v : BencodeValue) : option Z :=
  match v with
  | Integer _ => None
  | String s => Some (zlen s)
  | List l => Some (zlen l)
  | Dictionary d => Some (zlen d)
  end.

(** * Encoding *)

Definition append_str (s : list byte) : list byte := nat_to_string (zlen s) ++ x3a :: s.

Fixpoint encode (v : BencodeValue) : list byte :=
  match v with
  | Integer z => x69 :: to_string z ++ [x65]
  | String s => append_str s
  | List l => x6c :: concat (map encode l) ++ [x65]
  | Dictionary d => x64 :: concat (map (fun e => append_str e.1 ++ encode e.2) d) ++ [x65]
  end.

(** * Decoding *)

Definition kMaxDepth : Z := 100.
Definition kMaxMag : Z := 9223372036854775808.

(** The result of a parsing method: a value and the cursor after it, or [nullopt].
    [OutOfFuel] is not a result of the code; [decode_sound] shows it never arises. *)
Inductive parsed (A : Type) :=
| Parsed (a : A) (p : list byte)
| Malformed
| OutOfFuel.
Arguments Parsed {A} _ _.
Arguments Malformed {A}.
Arguments OutOfFuel {A}.

Definition then_ {A B} (r : parsed A) (k : A -> list byte -> parsed B) : parsed B :=
  match r with
  | Parsed a p => k a p
  | Malformed => Malformed
  | OutOfFuel => OutOfFuel
  end.

(** The digit loop of [parse_raw_int]; the magnitude is a [uint64_t]. *)
Fixpoint mag_loop (mag : Z) (p : list byte) : parsed Z :=
  match p with
  | c :: p' =>
      if is_digit c then
        let d := digit_val c in
        if u64 (kMaxMag - d) / 10 <? mag then Malformed
        else mag_loop (u64 (u64 (mag * 10) + d)) p'
      else Parsed mag p
  | [] => Parsed mag p
  end.

(** The terminator, and the cursor after it. *)
Definition expect (c : byte) (p : list byte) : option (list byte) :=
  match p with
  | c' :: p => if bool_decide (c' = c) then Some p else None
  | [] => None
  end.

(** The sign is kept apart; [-mag] is taken in [int64_t]. *)
Definition parse_raw_int (term : byte) (p : list byte) : parsed Z :=
  let '(negative, p) := match expect x2d p with Some p => (true, p) | None => (false, p) end in
  match p with
  | [] => Malformed
  | c :: p1 =>
      if negb (is_digit c) then Malformed
      else if bool_decide (c = x30) then
        if (negative : bool) then Malformed
        else match expect term p1 with Some p => Parsed 0 p | None => Malformed end
      else
        then_ (mag_loop 0 p) (fun mag p =>
          match expect term p with
          | None => Malformed
          | Some p =>
              if negative then Parsed (- mag) p
              else if kMaxMag <=? mag then Malformed else Parsed mag p
          end)
  end.

(** The digit loop of [parse_raw_string]; the length is a [uint64_t]. *)
Fixpoint len_loop (cap len : Z) (p : list byte) : parsed Z :=
  match p with
  | c :: p' =>
      if is_digit c then
        let len := u64 (u64 (len * 10) + digit_val c) in
        if cap <? len then Malformed else len_loop cap len p'
      else Parsed len p
  | [] => Parsed len p
  end.

Definition parse_raw_string (p : list byte) : parsed (list byte) :=
  match p with
  | [] => Malformed
  | c :: _ =>
      if negb (is_digit c) then Malformed
      else
        then_ (len_loop (zlen p) 0 p) (fun len p =>
          match expect x3a p with
          | None => Malformed
          | Some p => if zlen p <? len then Malformed else Parsed (ztake len p) (zdrop len p)
          end)
  end.

Definition parse_integer (p : list byte) : parsed BencodeValue :=
  then_ (parse_raw_int x65 (tail p)) (fun v => Parsed (Integer v)).

Definition parse_string (p : list byte) : parsed BencodeValue :=
  then_ (parse_raw_string p) (fun s => Parsed (String s)).

(** [std::stable_sort] on the keys. *)
Fixpoint insert_entry (e : list byte * BencodeValue) (d : BencodeDict) : BencodeDict :=
  match d with
  | [] => [e]
  | e' :: d' => if bytes_lt e'.1 e.1 then e' :: insert_entry e d' else e :: d
  end.
Definition stable_sort (d : BencodeDict) : BencodeDict := foldr insert_entry [] d.

(** Two neighbours with the same key. *)
Fixpoint adjacent_dup (d : BencodeDict) : bool :=
  match d with
  | e :: ((e' :: _) as d') => bool_decide (e'.1 = e.1) || adjacent_dup d'
  | _ => false
  end.

(** The loops of [parse_list] and [parse_dict]; [value] is [parse(depth + 1)]. *)
Fixpoint list_loop (value : list byte -> parsed BencodeValue) (fuel : nat) (p : list byte)
    : parsed (list BencodeValue) :=
  match fuel with
  | O => OutOfFuel
  | S fuel =>
      match p with
      | [] => Malformed
      | c :: p' =>
          if bool_decide (c = x65) then Parsed [] p'
          else
            then_ (value p) (fun v p =>
            then_ (list_loop value fuel p) (fun vs => Parsed (v :: vs)))
      end
  end.

Fixpoint dict_loop (value : list byte -> parsed BencodeValue) (fuel : nat) (p : list byte)
    : parsed BencodeDict :=
  match fuel with
  | O => OutOfFuel
  | S fuel =>
      match p with
      | [] => Malformed
      | c :: p' =>
          if bool_decide (c = x65) then Parsed [] p'
          else
            then_ (parse_raw_string p) (fun key p =>
            then_ (value p) (fun val p =>
            then_ (dict_loop value fuel p) (fun es => Parsed ((key, val) :: es))))
      end
  end.

Definition parse_list (value : list byte -> parsed BencodeValue) (fuel : nat) (p : list byte)
    : parsed BencodeValue :=
  then_ (list_loop value fuel (tail p)) (fun items => Parsed (List items)).

Definition parse_dict (value : list byte -> parsed BencodeValue) (fuel : nat) (p : list byte)
    : parsed BencodeValue :=
  then_ (dict_loop value fuel (tail p)) (fun entries p =>
    let entries := stable_sort entries in
    if adjacent_dup entries then Malformed else Parsed (Dictionary entries) p).

Fixpoint parse (fuel : nat) (depth : Z) (p : list byte) : parsed BencodeValue :=
  match fuel with
  | O => OutOfFuel
  | S fuel =>
      match p with
      | [] => Malformed
      | c :: _ =>
          if kMaxDepth <? depth then Malformed
          else if bool_decide (c = x69) then parse_integer p
          else if bool_decide (c = x6c) then parse_list (parse fuel (depth + 1)) fuel p
          else if bool_decide (c = x64) then parse_dict (parse fuel (depth + 1)) fuel p
          else if is_digit c then parse_string p
          else Malformed
      end
  end.

(** Two calls per byte of input are enough ([decode_sound]). *)
Definition decode_full (data : list byte) : option BencodeValue :=
  match parse (2 * length data + 2) 0 data with
  | Parsed v [] => Some v
  | _ => None
  end.

(** * Well-formed values

    What the decoder guarantees and the encoder expects: integers of 64 bits, and
    dictionaries strictly sorted by key. *)

Definition sorted_keys (d : BencodeDict) : Prop := StronglySorted blt d.*1.

Fixpoint wf (v : BencodeValue) : Prop :=
  match v with
  | Integer z => - 2 ^ 63 <= z < 2 ^ 63
  | String _ => True
  | List l => foldr (fun x acc => wf x /\ acc) True l
  | Dictionary d => sorted_keys d /\ foldr (fun e acc => wf e.2 /\ acc) True d
  end.

(** How deep values are nested below this one. *)
Fixpoint height (v : BencodeValue) : Z :=
  match v with
  | Integer _ | String _ => 0
  | List l => foldr (fun x acc => Z.max (1 + height x) acc) 0 l
  | Dictionary d => foldr (fun e acc => Z.max (1 + height e.2) acc) 0 d
  end.

Lemma foldr_and_Forall {A} (P : A -> Prop) l :
  foldr (fun x acc => P x /\ acc) True l <-> Forall P l.
Proof.
  induction l as [|x l IH]; cbn; [split; [constructor|done]|].
  rewrite IH, Forall_cons. done.
Qed.

Lemma foldr_max_le {A} (f : A -> Z) l m :
  0 <= m -> foldr (fun x acc => Z.max (1 + f x) acc) 0 l <= m <-> Forall (fun x => 1 + f x <= m) l.
Proof.
  intros Hm. induction l as [|x l IH]; cbn; [split; [constructor|done]|].
  rewrite Forall_cons, <- IH. lia.
Qed.

Lemma wf_List l : wf (List l) <-> Forall wf l.
Proof. apply foldr_and_Forall. Qed.
Lemma wf_Dictionary d : wf (Dictionary d) <-> sorted_keys d /\ Forall (fun e => wf e.2) d.
Proof. cbn. by rewrite (foldr_and_Forall (fun e => wf e.2)). Qed.
Lemma height_List l m : 0 <= m -> height (List l) <= m <-> Forall (fun x => 1 + height x <= m) l.
Proof. apply foldr_max_le. Qed.
Lemma height_Dictionary d m :
  0 <= m -> height (Dictionary d) <= m <-> Forall (fun e => 1 + height e.2 <= m) d.
Proof. apply (foldr_max_le (fun e => height e.2)). Qed.

(** Induction over values, with the hypothesis for the values inside. *)
Lemma value_ind (P : BencodeValue -> Prop) :
  (forall z, P (Integer z)) -> (forall s, P (String s)) ->
  (forall l, Forall P l -> P (List l)) ->
  (forall d, Forall (fun e => P e.2) d -> P (Dictionary d)) ->
  forall v, P v.
Proof.
  intros HI HS HL HD. fix IH 1. intros [z|s|l|d].
  - apply HI.
  - apply HS.
  - apply HL. induction l as [|x l IHl]; constructor; [apply IH|exact IHl].
  - apply HD. induction d as [|[k x] d IHd]; constructor; [apply IH|exact IHd].
Qed.

Lemma height_nonneg v : 0 <= height v.
Proof.
  induction v as [z|s|l IH|d IH] using value_ind; cbn; [lia..| |];
    induction IH as [|x l' Hx _ IHl]; cbn; lia.
Qed.

(** * The parser consumes its input *)

Lemma mag_loop_shrinks mag p v p' : mag_loop mag p = Parsed v p' -> zlen p' <= zlen p.
Proof.
  revert mag. induction p as [|c p IH]; intros mag; cbn [mag_loop]; [by intros [= _ <-]|].
  destruct (is_digit c); [|by intros [= _ <-]]. destruct (_ <? _); [done|].
  intros H%IH. rewrite zlen_cons. lia.
Qed.

Lemma len_loop_shrinks cap len p v p' : len_loop cap len p = Parsed v p' -> zlen p' <= zlen p.
Proof.
  revert len. induction p as [|c p IH]; intros len; cbn [len_loop]; [by intros [= _ <-]|].
  destruct (is_digit c); [|by intros [= _ <-]]. destruct (_ <? _); [done|].
  intros H%IH. rewrite zlen_cons. lia.
Qed.

Lemma expect_Some c p p' : expect c p = Some p' <-> p = c :: p'.
Proof.
  unfold expect. destruct p as [|c' p]; [done|]. case_bool_decide; split; intros; simplify_eq; done.
Qed.

(** Neither loop runs out of anything. *)
Lemma mag_loop_total mag p : mag_loop mag p <> OutOfFuel.
Proof.
  revert mag. induction p as [|c p IH]; intros mag; cbn [mag_loop]; [done|].
  destruct (is_digit c); [|done]. destruct (_ <? _); [done|]. apply IH.
Qed.
Lemma len_loop_total cap len p : len_loop cap len p <> OutOfFuel.
Proof.
  revert len. induction p as [|c p IH]; intros len; cbn [len_loop]; [done|].
  destruct (is_digit c); [|done]. destruct (_ <? _); [done|]. apply IH.
Qed.

Lemma parse_raw_string_spec p :
  match parse_raw_string p with
  | Parsed s p' => zlen p' < zlen p
  | Malformed => True
  | OutOfFuel => False
  end.
Proof.
  unfold parse_raw_string. destruct p as [|c p]; [done|]. destruct (negb _); [done|].
  destruct (len_loop _ 0 (c :: p)) as [len p1| |] eqn:E; cbn [then_]; [|done|by apply len_loop_total in E].
  destruct (expect x3a p1) as [p2|] eqn:Ex; [|done]. apply expect_Some in Ex as ->.
  apply len_loop_shrinks in E. destruct (Z.ltb_spec (zlen p2) len); [done|].
  autorewrite with zlen in E. unfold zdrop, zlen in *. rewrite length_drop. cbn [length] in *. lia.
Qed.

Lemma parse_raw_int_spec t p :
  match parse_raw_int t p with
  | Parsed z p' => zlen p' < zlen p
  | Malformed => True
  | OutOfFuel => False
  end.
Proof.
  unfold parse_raw_int.
  assert (exists neg p0, (match expect x2d p with Some p => (true, p) | None => (false, p) end) = (neg, p0)
          /\ zlen p0 <= zlen p) as (neg & p0 & -> & Hp0).
  { destruct (expect x2d p) as [p1|] eqn:E; [apply expect_Some in E as ->|];
      do 2 eexists; (split; [done|]); zlia. }
  destruct p0 as [|c p1]; [done|]. destruct (negb _); [done|].
  case_bool_decide.
  - destruct neg; [done|]. destruct (expect t p1) as [p2|] eqn:E; [|done].
    apply expect_Some in E as ->. autorewrite with zlen in *. lia.
  - destruct (mag_loop 0 (c :: p1)) as [mag p2| |] eqn:E; cbn [then_]; [|done|by apply mag_loop_total in E].
    apply mag_loop_shrinks in E. destruct (expect t p2) as [p3|] eqn:Ex; [|done].
    apply expect_Some in Ex as ->. autorewrite with zlen in *.
    destruct neg; [|destruct (_ <=? _)]; [lia|done|lia].
Qed.

(** * Totality *)

Definition consumes {A} (p : list byte) (strict : bool) (r : parsed A) : Prop :=
  match r with
  | Parsed _ p' => zlen p' + (if strict then 1 else 0) <= zlen p
  | Malformed => True
  | OutOfFuel => False
  end.

Lemma consumes_then {A B} p s (r : parsed A) (k : A -> list byte -> parsed B) :
  consumes p s r ->
  (forall a p', zlen p' + (if s then 1 else 0) <= zlen p -> consumes p true (k a p')) ->
  consumes p true (then_ r k).
Proof. destruct r; cbn; auto. Qed.

Lemma raw_string_consumes p : consumes p true (parse_raw_string p).
Proof. pose proof (parse_raw_string_spec p) as H. destruct (parse_raw_string p); cbn; (done || lia). Qed.

Lemma consumes_cons {A} c p (r : parsed A) : consumes p true r -> consumes (c :: p) true r.
Proof. destruct r; cbn; [zlia|done..]. Qed.

Section Loops.
Variable value : list byte -> parsed BencodeValue.

Lemma list_loop_consumes fuel p :
  (forall q, zlen q <= zlen p -> consumes q true (value q)) -> zlen p + 1 <= Z.of_nat fuel ->
  consumes p true (list_loop value fuel p).
Proof.
  revert p. induction fuel as [|fuel IH]; intros p Hv Hf; [zlen_facts; lia|].
  destruct p as [|c p]; cbn [list_loop]; [done|].
  case_bool_decide; [cbn; zlia|].
  eapply consumes_then; [by apply Hv|]. intros v p' Hp. cbn in Hp.
  assert (consumes p' true (list_loop value fuel p')) as H'
    by (apply IH; [intros; apply Hv; lia|lia]).
  destruct (list_loop value fuel p'); cbn in *; (done || lia).
Qed.

Lemma dict_loop_consumes fuel p :
  (forall q, zlen q <= zlen p -> consumes q true (value q)) -> zlen p + 1 <= Z.of_nat fuel ->
  consumes p true (dict_loop value fuel p).
Proof.
  revert p. induction fuel as [|fuel IH]; intros p Hv Hf; [zlen_facts; lia|].
  destruct p as [|c p]; cbn [dict_loop]; [done|].
  case_bool_decide; [cbn; zlia|].
  eapply consumes_then; [apply raw_string_consumes|]. intros key p1 Hp1. cbn in Hp1.
  pose proof (Hv p1 ltac:(lia)) as H1. destruct (value p1) as [v p2| |]; cbn in *; [|done..].
  assert (consumes p2 true (dict_loop value fuel p2)) as H2
    by (apply IH; [intros; apply Hv; lia|lia]).
  destruct (dict_loop value fuel p2); cbn in *; (done || lia).
Qed.
End Loops.

Lemma parse_consumes fuel depth p :
  2 * zlen p + 1 <= Z.of_nat fuel -> consumes p true (parse fuel depth p).
Proof.
  revert depth p. induction fuel as [|fuel IH]; intros depth p Hf; [zlen_facts; lia|].
  destruct p as [|c p]; cbn [parse]; [done|]. autorewrite with zlen in Hf.
  assert (forall q, zlen q <= zlen p -> consumes q true (parse fuel (depth + 1) q)) as Hv
    by (intros q Hq; apply IH; lia).
  destruct (_ <? _); [done|]. case_bool_decide.
  { unfold parse_integer. cbn [tail]. apply consumes_cons.
    pose proof (parse_raw_int_spec x65 p) as H'.
    destruct (parse_raw_int x65 p); cbn in *; (done || lia). }
  case_bool_decide.
  { unfold parse_list. cbn [tail]. apply consumes_cons.
    eapply consumes_then; [apply list_loop_consumes; [done|zlen_facts; lia]|].
    cbn. intros; lia. }
  case_bool_decide.
  { unfold parse_dict. cbn [tail]. apply consumes_cons.
    eapply consumes_then; [apply dict_loop_consumes; [done|zlen_facts; lia]|].
    intros a p' Hp. cbv zeta. destruct (adjacent_dup _); cbn in *; (done || lia). }
  destruct (is_digit c); [|done]. unfold parse_string.
  eapply consumes_then; [apply raw_string_consumes|]. done.
Qed.

(** * Numbers *)

Lemma len_loop_digits cap ds c p len :
  Forall (fun c => is_digit c = true) ds -> is_digit c = false -> 0 <= len ->
  foldl (fun acc c => acc * 10 + digit_val c) len ds <= cap -> cap < 2 ^ 60 ->
  len_loop cap len (ds ++ c :: p)
  = Parsed (foldl (fun acc c => acc * 10 + digit_val c) len ds) (c :: p).
Proof.
  intros Hd Hc. revert len. induction Hd as [|x ds Hx Hds IH]; intros len Hl Hv Hcap; cbn [app len_loop foldl].
  - by rewrite Hc.
  - rewrite Hx. apply is_digit_range in Hx. cbn [foldl] in Hv.
    pose proof (digits_val_ge (len * 10 + digit_val x) ds Hds ltac:(lia)) as Hge.
    rewrite (u64_small (len * 10)), u64_small by lia.
    destruct (Z.ltb_spec cap (len * 10 + digit_val x)); [lia|]. apply IH; lia.
Qed.

Lemma mag_loop_digits ds c p mag :
  Forall (fun c => is_digit c = true) ds -> is_digit c = false -> 0 <= mag ->
  foldl (fun acc c => acc * 10 + digit_val c) mag ds <= kMaxMag ->
  mag_loop mag (ds ++ c :: p)
  = Parsed (foldl (fun acc c => acc * 10 + digit_val c) mag ds) (c :: p).
Proof.
  unfold kMaxMag. intros Hd Hc. revert mag.
  induction Hd as [|x ds Hx Hds IH]; intros mag Hl Hv; cbn [app mag_loop foldl].
  - by rewrite Hc.
  - rewrite Hx. apply is_digit_range in Hx. cbn [foldl] in Hv.
    pose proof (digits_val_ge (mag * 10 + digit_val x) ds Hds ltac:(lia)) as Hge.
    rewrite (u64_small (mag * 10)), (u64_small (mag * 10 + _)) by lia.
    unfold kMaxMag. rewrite u64_small by lia.
    destruct (Z.ltb_spec ((9223372036854775808 - digit_val x) / 10) mag) as [H|];
      [|apply IH; lia].
    pose proof (Z.div_le_lower_bound (9223372036854775808 - digit_val x) 10 mag). lia.
Qed.

(** A string is read back, when the input is no longer than 2^60 bytes. *)
Lemma parse_raw_string_append s p :
  zlen (append_str s ++ p) < 2 ^ 60 -> parse_raw_string (append_str s ++ p) = Parsed s p.
Proof.
  unfold append_str. rewrite <- app_assoc. cbn [app]. intros Hlen.
  destruct (nat_to_string_spec (zlen s)) as (Hd & Hv & c & ds & Hc & _).
  { autorewrite with zlen in Hlen. zlen_facts. lia. }
  unfold parse_raw_string. rewrite Hc in *. cbn [app] in *.
  inversion Hd as [|? ? Hc1 Hds]; subst. rewrite Hc1. cbn [negb].
  change (c :: ds ++ x3a :: s ++ p) with ((c :: ds) ++ x3a :: s ++ p) in *.
  set (data := (c :: ds) ++ x3a :: s ++ p) in *.
  assert (zlen s <= zlen data) by (unfold data; zlia).
  unfold data at 2. rewrite len_loop_digits; [|by constructor|done|lia|by unfold digits_val in Hv; rewrite Hv|lia].
  unfold digits_val in Hv. rewrite Hv. cbn [then_].
  replace (expect x3a (x3a :: s ++ p)) with (Some (s ++ p)) by (symmetry; by apply expect_Some).
  destruct (Z.ltb_spec (zlen (s ++ p)) (zlen s)); [zlia|].
  by rewrite ztake_app, zdrop_app.
Qed.

Lemma parse_raw_int_to_string z p :
  - 2 ^ 63 <= z < 2 ^ 63 -> parse_raw_int x65 (to_string z ++ x65 :: p) = Parsed z p.
Proof.
  intros Hz. unfold to_string.
  destruct (nat_to_string_spec (Z.abs z)) as (Hd & Hv & c & ds & Hc & Hnz & Hz0); [lia|].
  inversion Hd as [|? ? Hc1 Hds]; [congruence|]. rewrite Hc in H. simplify_eq.
  assert (c <> x2d) as Hminus by (intros ->; done).
  assert (bool_decide (c = x30) = bool_decide (z = 0)) as Hzero.
  { destruct (decide (z = 0)) as [->|]; [|].
    - rewrite bool_decide_true; [by rewrite bool_decide_true|].
      rewrite Hz0 in * by done. rewrite Hc in Hv. unfold digits_val in Hv. cbn in Hv.
      apply u8_inj. unfold digit_val in Hv. change (u8 x30) with 48. lia.
    - rewrite !bool_decide_false; [done|done|]. intros ->. by apply Hnz; [lia|]. }
  pose proof (mag_loop_digits (c :: ds) x65 p 0 ltac:(by constructor) eq_refl ltac:(lia)) as Hm.
  fold (digits_val (c :: ds)) in Hm. rewrite Hc in Hv. rewrite Hv in Hm.
  specialize (Hm ltac:(unfold kMaxMag; lia)). cbn [app] in Hm.
  assert (expect x65 (x65 :: p) = Some p) as He by (by apply expect_Some).
  destruct (Z.ltb_spec z 0).
  - replace (- z) with (Z.abs z) by lia. rewrite Hc. unfold parse_raw_int. cbn [app].
    replace (expect x2d (x2d :: c :: ds ++ x65 :: p)) with (Some (c :: ds ++ x65 :: p))
      by (symmetry; by apply expect_Some).
    rewrite Hc1, Hzero, bool_decide_false, Hm by lia. cbn [negb then_]. rewrite He. f_equal. lia.
  - replace z with (Z.abs z) at 1 by lia. rewrite Hc. unfold parse_raw_int. cbn [app].
    destruct (expect x2d (c :: ds ++ x65 :: p)) as [q|] eqn:Eq;
      [apply expect_Some in Eq; congruence|].
    rewrite Hc1, Hzero. clear Hzero. cbn [negb]. case_bool_decide as E0.
    + assert (z = 0) as -> by lia. rewrite Hz0 in * by done. cbn [app]. by rewrite He.
    + rewrite Hm. cbn [then_]. rewrite He. unfold kMaxMag.
      destruct (Z.leb_spec 9223372036854775808 (Z.abs z)); [lia|]. f_equal. lia.
Qed.

(** * Sorting *)

Lemma insert_entry_perm e d : insert_entry e d ≡ₚ e :: d.
Proof.
  induction d as [|e' d IH]; [done|]. cbn [insert_entry]. destruct (bytes_lt e'.1 e.1); [|done].
  rewrite IH. apply perm_swap.
Qed.

Lemma stable_sort_perm d : stable_sort d ≡ₚ d.
Proof. induction d as [|e d IH]; [done|]. cbn. by rewrite insert_entry_perm, IH. Qed.

(** Sorted, equal keys allowed. *)
Definition weakly_sorted (d : BencodeDict) : Prop := StronglySorted (fun a b => ~ blt b a) d.*1.

Lemma insert_entry_sorted e d : weakly_sorted d -> weakly_sorted (insert_entry e d).
Proof.
  unfold weakly_sorted. induction d as [|e' d IH]; intros Hd; cbn [insert_entry].
  { cbn. constructor; constructor. }
  cbn [fmap list_fmap] in Hd. inversion Hd as [|? ? Hs Hall]; subst.
  destruct (bytes_lt e'.1 e.1) eqn:E; cbn [fmap list_fmap].
  - constructor; [by apply IH|]. rewrite (insert_entry_perm e d). cbn.
    constructor; [by apply blt_asym|done].
  - assert (~ blt e'.1 e.1) as Hn by (unfold blt; congruence).
    constructor; [done|]. constructor; [done|].
    eapply Forall_impl; [exact Hall|]. intros k Hk Hlt. cbn in Hk.
    destruct (blt_trichotomy e'.1 k) as [?|[<-|?]]; [apply Hn; by etrans|done..].
Qed.

Lemma stable_sort_sorted d : weakly_sorted (stable_sort d).
Proof. induction d as [|e d IH]; [constructor|]. by apply insert_entry_sorted. Qed.

(** No neighbours alike in a sorted vector means strictly sorted. *)
Lemma adjacent_dup_sorted d : weakly_sorted d -> adjacent_dup d = false -> sorted_keys d.
Proof.
  unfold weakly_sorted, sorted_keys. induction d as [|e d IH]; [constructor|].
  intros Hd Hdup. cbn [fmap list_fmap] in Hd |- *. inversion Hd as [|? ? Hs Hall]; subst.
  destruct d as [|e' d]; [constructor; constructor|].
  cbn [adjacent_dup] in Hdup. apply orb_false_iff in Hdup as [Hne Hdup].
  apply bool_decide_eq_false in Hne. specialize (IH Hs Hdup). constructor; [done|].
  cbn [fmap list_fmap] in Hall, IH |- *. inversion Hall as [|? ? He _]; subst.
  inversion IH as [|? ? _ Hgt]; subst.
  assert (blt e.1 e'.1) as Hlt.
  { destruct (blt_trichotomy e.1 e'.1) as [?|[?|?]]; [done|congruence|done]. }
  constructor; [done|]. eapply Forall_impl; [exact Hgt|]. intros k Hk. by etrans.
Qed.

Lemma stable_sort_id d : sorted_keys d -> stable_sort d = d.
Proof.
  unfold sorted_keys. induction d as [|e d IH]; [done|]. cbn [fmap list_fmap]. intros Hd.
  inversion Hd as [|? ? Hs Hall]; subst. cbn. fold (stable_sort d). rewrite IH by done.
  destruct d as [|e' d]; [done|]. cbn [insert_entry].
  cbn [fmap list_fmap] in Hall. inversion Hall as [|? ? Hlt _]; subst.
  destruct (bytes_lt e'.1 e.1) eqn:E; [|done]. by apply blt_asym in Hlt.
Qed.

Lemma sorted_no_dup d : sorted_keys d -> adjacent_dup d = false.
Proof.
  unfold sorted_keys. induction d as [|e [|e' d] IH]; [done..|]. intros Hd.
  change (adjacent_dup (e :: e' :: d)) with (bool_decide (e'.1 = e.1) || adjacent_dup (e' :: d)).
  cbn [fmap list_fmap] in Hd. inversion Hd as [|? ? Hs Hall]; subst.
  inversion Hall as [|? ? Hlt _]; subst. rewrite IH by done.
  rewrite bool_decide_false; [done|]. intros E. rewrite E in Hlt. by apply blt_irrefl in Hlt.
Qed.

(** * Round trip *)

Lemma append_str_head s : exists c t, append_str s = c :: t /\ is_digit c = true.
Proof.
  unfold append_str. destruct (nat_to_string_head (zlen s)) as (c & t & -> & Hc); [zlen_facts; lia|].
  by do 2 eexists.
Qed.

Lemma encode_head v : exists c t, encode v = c :: t /\ c <> x65.
Proof.
  destruct v; cbn [encode]; [by do 2 eexists| |by do 2 eexists..].
  destruct (append_str_head s) as (c & t & -> & Hc). do 2 eexists. split; [done|]. by intros ->.
Qed.

(** What the round trip of one value says. *)
Definition reads_back (v : BencodeValue) : Prop :=
  forall fuel depth p, 0 <= depth -> depth + height v <= kMaxDepth ->
    2 * zlen (encode v) + 1 <= Z.of_nat fuel -> zlen (encode v ++ p) < 2 ^ 60 ->
    parse fuel depth (encode v ++ p) = Parsed v p.

Lemma list_loop_encode l f fuel depth p :
  Forall reads_back l -> Forall (fun x => 1 + height x <= kMaxDepth - depth) l -> 0 <= depth ->
  2 * zlen (concat (map encode l)) + 1 <= Z.of_nat f -> zlen (concat (map encode l)) + 1 <= Z.of_nat fuel ->
  zlen (concat (map encode l) ++ x65 :: p) < 2 ^ 60 ->
  list_loop (parse f (depth + 1)) fuel (concat (map encode l) ++ x65 :: p) = Parsed l p.
Proof.
  intros Hl. revert fuel. induction Hl as [|v l Hv Hl IH]; intros fuel Hh Hd Hf0 Hf Hb;
    (destruct fuel as [|fuel]; [zlen_facts; lia|]).
  { done. }
  inversion Hh as [|? ? Hh1 Hh2]; subst. cbn [map concat] in *. rewrite <- app_assoc in *.
  destruct (encode_head v) as (c & t & E & Hne).
  cbn [list_loop]. rewrite E at 1. cbn [app]. rewrite bool_decide_false by done.
  assert (1 <= zlen (encode v)) by (rewrite E; zlia).
  autorewrite with zlen in Hf0, Hf, Hb.
  rewrite Hv by (autorewrite with zlen; zlen_facts; lia). cbn [then_].
  rewrite IH by (autorewrite with zlen; (done || zlen_facts; lia)). done.
Qed.

Lemma dict_loop_encode d f fuel depth p :
  Forall (fun e => reads_back e.2) d -> Forall (fun e => 1 + height e.2 <= kMaxDepth - depth) d ->
  0 <= depth ->
  2 * zlen (concat (map (fun e => append_str e.1 ++ encode e.2) d)) + 1 <= Z.of_nat f -> zlen (concat (map (fun e => append_str e.1 ++ encode e.2) d)) + 1 <= Z.of_nat fuel ->
  zlen (concat (map (fun e => append_str e.1 ++ encode e.2) d) ++ x65 :: p) < 2 ^ 60 ->
  dict_loop (parse f (depth + 1)) fuel (concat (map (fun e => append_str e.1 ++ encode e.2) d) ++ x65 :: p)
  = Parsed d p.
Proof.
  intros Hl. revert fuel. induction Hl as [|[k v] d Hv Hl IH]; intros fuel Hh Hd Hf0 Hf Hb;
    (destruct fuel as [|fuel]; [zlen_facts; lia|]).
  { done. }
  inversion Hh as [|? ? Hh1 Hh2]; subst. cbn [map concat fst snd] in *. rewrite <- !app_assoc in *.
  destruct (append_str_head k) as (c & t & E & Hdig).
  cbn [dict_loop]. rewrite E at 1. cbn [app]. rewrite bool_decide_false by (by intros ->).
  assert (1 <= zlen (append_str k)) by (rewrite E; zlia).
  rewrite parse_raw_string_append by done. cbn [then_].
  autorewrite with zlen in Hf0, Hf, Hb.
  rewrite Hv by (autorewrite with zlen; zlen_facts; lia). cbn [then_].
  rewrite IH by (autorewrite with zlen; (done || zlen_facts; lia)). done.
Qed.

Lemma parse_encode v : wf v -> reads_back v.
Proof.
  induction v as [z|s|l IH|d IH] using value_ind; intros Hwf fuel depth p Hd Hh Hf Hb;
    (destruct fuel as [|fuel]; [zlen_facts; lia|]).
  - cbn [encode app parse]. cbn [height] in Hh.
    destruct (Z.ltb_spec kMaxDepth depth); [lia|]. cbn [bool_decide decide_rel].
    rewrite bool_decide_true by done. unfold parse_integer. cbn [tail].
    rewrite <- app_assoc. cbn [app]. by rewrite parse_raw_int_to_string.
  - cbn [encode height] in *. destruct (append_str_head s) as (c & t & E & Hdig).
    cbn [parse]. rewrite E at 1. cbn [app]. destruct (Z.ltb_spec kMaxDepth depth); [lia|].
    rewrite !bool_decide_false by (by intros ->). rewrite Hdig. unfold parse_string.
    by rewrite parse_raw_string_append.
  - apply wf_List in Hwf. assert (Forall reads_back l) as Hl
      by (rewrite Forall_forall in *; auto).
    pose proof (proj1 (height_List l (kMaxDepth - depth) ltac:(pose proof (height_nonneg (List l)); lia))
                  ltac:(lia)) as Hhl.
    cbn [encode app parse] in *. destruct (Z.ltb_spec kMaxDepth depth);
      [pose proof (height_nonneg (List l)); lia|].
    rewrite bool_decide_false, bool_decide_true by done.
    rewrite <- app_assoc in *. cbn [app] in *.
    unfold parse_list. cbn [tail].
    rewrite list_loop_encode; [done|done|done|done|autorewrite with zlen in *; zlen_facts; lia..].
  - apply wf_Dictionary in Hwf as [Hs Hwf]. assert (Forall (fun e => reads_back e.2) d) as Hl
      by (rewrite Forall_forall in *; auto).
    pose proof (proj1 (height_Dictionary d (kMaxDepth - depth)
                  ltac:(pose proof (height_nonneg (Dictionary d)); lia)) ltac:(lia)) as Hhl.
    cbn [encode app parse] in *. destruct (Z.ltb_spec kMaxDepth depth);
      [pose proof (height_nonneg (Dictionary d)); lia|].
    rewrite !(bool_decide_false (x64 = _)), bool_decide_true by done.
    rewrite <- app_assoc in *. cbn [app] in *.
    unfold parse_dict. cbn [tail].
    rewrite dict_loop_encode; [|done|done|done|autorewrite with zlen in *; zlen_facts; lia..].
    cbn [then_]. by rewrite stable_sort_id, sorted_no_dup.
Qed.

Lemma decode_encode v :
  wf v -> height v <= kMaxDepth -> zlen (encode v) < 2 ^ 60 -> decode_full (encode v) = Some v.
Proof.
  intros Hwf Hh Hlen.
  unfold decode_full. pose proof (parse_encode v Hwf (2 * length (encode v) + 2)%nat 0 []) as H.
  rewrite app_nil_r in H. rewrite H; [done|lia..| |done]. unfold zlen. lia.
Qed.

(** * What is decoded is well-formed *)

Lemma mag_loop_range mag p v p' :
  0 <= mag <= kMaxMag -> mag_loop mag p = Parsed v p' -> 0 <= v <= kMaxMag.
Proof.
  unfold kMaxMag. revert mag. induction p as [|c p IH]; intros mag Hm; cbn [mag_loop];
    [by intros [= <- _]|].
  destruct (is_digit c) eqn:Hc; [|by intros [= <- _]]. apply is_digit_range in Hc.
  unfold kMaxMag. rewrite (u64_small (_ - _)) by lia.
  destruct (Z.ltb_spec ((9223372036854775808 - digit_val c) / 10) mag) as [|Hle]; [done|].
  assert (mag * 10 + digit_val c <= 9223372036854775808) as Hb.
  { pose proof (Z.mul_div_le (9223372036854775808 - digit_val c) 10 ltac:(lia)). lia. }
  apply IH. rewrite (u64_small (mag * 10)), u64_small by lia. lia.
Qed.

Lemma parse_raw_int_range t p z p' :
  parse_raw_int t p = Parsed z p' -> - 2 ^ 63 <= z < 2 ^ 63.
Proof.
  unfold parse_raw_int. destruct (match expect x2d p with Some _ => _ | None => _ end) as [neg p0].
  destruct p0 as [|c p1]; [done|]. destruct (negb _); [done|].
  case_bool_decide.
  - destruct neg; [done|]. destruct (expect t p1); [|done]. intros [= <- _]. lia.
  - destruct (mag_loop 0 (c :: p1)) as [mag p2| |] eqn:E; cbn [then_]; [|done..].
    apply mag_loop_range in E; [|unfold kMaxMag; lia]. unfold kMaxMag in *.
    destruct (expect t p2); [|done]. destruct neg; [intros [= <- _]; lia|].
    destruct (Z.leb_spec 9223372036854775808 mag); [done|]. intros [= <- _]. lia.
Qed.

Definition sound (depth : Z) (v : BencodeValue) : Prop := wf v /\ depth + height v <= kMaxDepth.

Lemma sound_list depth l :
  depth <= kMaxDepth -> Forall (sound (depth + 1)) l -> sound depth (List l).
Proof.
  intros Hd Hl. split; [apply wf_List; eapply Forall_impl; [exact Hl|]; by intros ? []|].
  enough (height (List l) <= kMaxDepth - depth) by lia.
  apply height_List; [lia|]. eapply Forall_impl; [exact Hl|]. intros ? []. lia.
Qed.

Lemma sound_dict depth d :
  depth <= kMaxDepth -> Forall (fun e => sound (depth + 1) e.2) d ->
  adjacent_dup (stable_sort d) = false -> sound depth (Dictionary (stable_sort d)).
Proof.
  intros Hd Hl Hdup. rewrite <- (stable_sort_perm d) in Hl. split.
  - apply wf_Dictionary. split; [apply adjacent_dup_sorted; [apply stable_sort_sorted|done]|].
    eapply Forall_impl; [exact Hl|]. by intros ? [].
  - enough (height (Dictionary (stable_sort d)) <= kMaxDepth - depth) by lia.
    apply height_Dictionary; [lia|]. eapply Forall_impl; [exact Hl|]. cbn. intros ? []. lia.
Qed.

Lemma loops_sound value fuel depth :
  (forall p v p', value p = Parsed v p' -> sound (depth + 1) v) ->
  (forall p l p', list_loop value fuel p = Parsed l p' -> Forall (sound (depth + 1)) l)
  /\ (forall p d p', dict_loop value fuel p = Parsed d p' -> Forall (fun e => sound (depth + 1) e.2) d).
Proof.
  intros Hv. induction fuel as [|fuel [IHl IHd]]; [done|].
  split; intros p r p'; destruct p as [|c p]; cbn [list_loop dict_loop]; try done.
  - case_bool_decide; [intros [= <- _]; constructor|].
    destruct (value (c :: p)) as [v p1| |] eqn:E; cbn [then_]; [|done..].
    destruct (list_loop value fuel p1) as [l p2| |] eqn:El; cbn [then_]; [|done..].
    intros [= <- _]. constructor; [by eapply Hv|by eapply IHl].
  - case_bool_decide; [intros [= <- _]; constructor|].
    destruct (parse_raw_string (c :: p)) as [k p1| |]; cbn [then_]; [|done..].
    destruct (value p1) as [v p2| |] eqn:E; cbn [then_]; [|done..].
    destruct (dict_loop value fuel p2) as [d p3| |] eqn:Ed; cbn [then_]; [|done..].
    intros [= <- _]. constructor; [by eapply Hv|by eapply IHd].
Qed.

Lemma parse_sound fuel depth p v p' : parse fuel depth p = Parsed v p' -> sound depth v.
Proof.
  revert depth p v p'. induction fuel as [|fuel IH]; [done|]. intros depth p v p'.
  destruct (loops_sound (parse fuel (depth + 1)) fuel depth (IH (depth + 1))) as [Hl Hd].
  destruct p as [|c p]; cbn [parse]; [done|].
  destruct (Z.ltb_spec kMaxDepth depth); [done|]. case_bool_decide.
  { unfold parse_integer. cbn [tail]. destruct (parse_raw_int x65 p) as [z p1| |] eqn:E; [|done..].
    intros [= <- _]. split; [by apply parse_raw_int_range in E|cbn; lia]. }
  case_bool_decide.
  { unfold parse_list. cbn [tail]. destruct (list_loop _ fuel p) as [l p1| |] eqn:E; [|done..].
    intros [= <- _]. apply sound_list; [done|]. by eapply Hl. }
  case_bool_decide.
  { unfold parse_dict. cbn [tail]. destruct (dict_loop _ fuel p) as [d p1| |] eqn:E; cbn [then_]; [|done..].
    destruct (adjacent_dup _) eqn:Ed; [done|]. intros [= <- _].
    apply sound_dict; [done| |done]. by eapply Hd. }
  destruct (is_digit c); [|done]. unfold parse_string.
  destruct (parse_raw_string _); cbn [then_]; [|done..]. intros [= <- _]. split; [done|cbn; lia].
Qed.

(** * Dictionaries as maps *)

Lemma lower_bound_spec key d before after :
  lower_bound key d = (before, after) ->
  d = before ++ after /\ Forall (fun e => blt e.1 key) before
  /\ (forall e rest, after = e :: rest -> ~ blt e.1 key).
Proof.
  revert before after. induction d as [|e d IH]; intros before after; cbn [lower_bound].
  { intros [= <- <-]. by split_and!. }
  destruct (bytes_lt e.1 key) eqn:E.
  - destruct (lower_bound key d) as [b a] eqn:El. intros [= <- <-].
    destruct (IH _ _ eq_refl) as (-> & Hb & Ha). split_and!; [done|by constructor|done].
  - intros [= <- <-]. split_and!; [done|constructor|]. intros e' rest [= <- _]. unfold blt. congruence.
Qed.

(** The entry a sorted dictionary has for a key. *)
Lemma find_elem key d v :
  sorted_keys d -> find key (Dictionary d) = Some v <-> (key, v) ∈ d.
Proof.
  unfold sorted_keys. intros Hs. cbn [find].
  destruct (lower_bound key d) as [before after] eqn:E.
  apply lower_bound_spec in E as (-> & Hb & Ha). cbn [snd].
  rewrite fmap_app in Hs. rewrite elem_of_app.
  assert ((key, v) ∉ before) as Hnb.
  { intros Hin. rewrite Forall_forall in Hb. apply Hb in Hin. by apply blt_irrefl in Hin. }
  destruct after as [|[k x] after].
  { split; [done|]. intros [?|?%elem_of_nil]; done. }
  cbn [fst snd]. rewrite elem_of_cons.
  assert ((key, v) ∉ after) as Hna.
  { intros Hin. apply StronglySorted_app_1_r in Hs. cbn in Hs.
    inversion Hs as [|? ? _ Hall]; subst. rewrite Forall_forall in Hall.
    specialize (Hall key ltac:(by apply (list_elem_of_fmap_2 fst) in Hin)).
    by apply (Ha (k, x) after). }
  case_bool_decide as Ek; [subst k|]; split.
  - intros [= ->]. by right; left.
  - by intros [?|[[= ->]|?]].
  - done.
  - by intros [?|[[= <- _]|?]].
Qed.

Lemma sorted_insert key x before after :
  sorted_keys (before ++ after) -> Forall (fun e => blt e.1 key) before ->
  Forall (fun e => blt key e.1) after -> sorted_keys (before ++ (key, x) :: after).
Proof.
  unfold sorted_keys. rewrite !fmap_app. cbn [fmap list_fmap fst]. intros Hs Hb Ha.
  pose proof (StronglySorted_app_1_r _ _ _ Hs) as Hsa.
  induction Hb as [|e before He _ IH]; cbn [fmap list_fmap app] in *.
  - constructor; [done|]. by apply Forall_fmap.
  - inversion Hs as [|? ? Hs' Hall]; subst. constructor; [by apply IH|].
    apply Forall_app in Hall as [Hall1 Hall2]. apply Forall_app. split; [done|].
    constructor; [done|]. done.
Qed.

Lemma sorted_after key d before after :
  sorted_keys d -> lower_bound key d = (before, after) ->
  (forall e rest, after = e :: rest -> e.1 <> key) -> Forall (fun e => blt key e.1) after.
Proof.
  intros Hs E Hne. apply lower_bound_spec in E as (-> & _ & Ha).
  unfold sorted_keys in Hs. rewrite fmap_app in Hs. apply StronglySorted_app_1_r in Hs.
  destruct after as [|e after]; [constructor|]. specialize (Ha _ _ eq_refl). specialize (Hne _ _ eq_refl).
  assert (blt key e.1) as Hlt by (destruct (blt_trichotomy key e.1) as [?|[?|?]]; [done|congruence|done]).
  constructor; [done|]. inversion Hs as [|? ? _ Hall]; subst.
  change (Forall (blt e.1) (fst <$> after)) in Hall. rewrite Forall_fmap in Hall.
  eapply Forall_impl; [exact Hall|]. intros e' He'. cbn in He'. by etrans.
Qed.

Lemma update_spec key f d :
  sorted_keys d ->
  exists d', update key f (Dictionary d) = Some (Dictionary d') /\ sorted_keys d'
  /\ find key (Dictionary d') = Some (f (default (String []) (find key (Dictionary d))))
  /\ forall k, k <> key -> find k (Dictionary d') = find k (Dictionary d).
Proof.
  intros Hs. cbn [update]. destruct (lower_bound key d) as [before after] eqn:E.
  pose proof (lower_bound_spec _ _ _ _ E) as (Hd & Hb & Ha).
  assert (forall d' x, sorted_keys d' -> (forall k y, k <> key -> (k, y) ∈ d' <-> (k, y) ∈ d) ->
            (key, x) ∈ d' -> x = f (default (String []) (find key (Dictionary d))) ->
            find key (Dictionary d') = Some (f (default (String []) (find key (Dictionary d))))
            /\ forall k, k <> key -> find k (Dictionary d') = find k (Dictionary d)) as Hfin.
  { intros d' x Hs' Hel Hin ->. split; [by apply find_elem|].
    intros k Hk. apply option_eq. intros y. rewrite !find_elem by done. by apply Hel. }
  assert ((forall e rest, after = e :: rest -> e.1 <> key) ->
          let d' := before ++ (key, f (String [])) :: after in
          sorted_keys d' /\ find key (Dictionary d') = Some (f (default (String []) (find key (Dictionary d))))
            /\ forall k, k <> key -> find k (Dictionary d') = find k (Dictionary d)) as Hnew.
  { intros Hne d'. pose proof (sorted_after _ _ _ _ Hs E Hne) as Hgt. rewrite Hd in Hs.
    split; [by apply sorted_insert|].
    eapply (Hfin d' (f (String []))); [by apply sorted_insert| |unfold d'; set_solver|].
    - intros k y Hk. unfold d'. rewrite Hd, !elem_of_app, elem_of_cons. naive_solver.
    - destruct (find key (Dictionary d)) as [y|] eqn:Ef; [|done]. exfalso.
      rewrite find_elem, Hd, elem_of_app in Ef by (by rewrite Hd). rewrite Forall_forall in Hb, Hgt.
      destruct Ef as [Ef|Ef]; [apply Hb in Ef|apply Hgt in Ef]; by apply blt_irrefl in Ef. }
  destruct after as [|[k y] after]; [by eexists; split; [done|apply Hnew]|].
  cbn [fst snd]. case_bool_decide as Ek; [subst k|by eexists; split; [done|apply Hnew; intros ?? [= <- _]]].
  eexists. split; [done|].
  assert (sorted_keys (before ++ (key, f y) :: after)) as Hs'.
  { unfold sorted_keys in *. rewrite Hd, fmap_app in Hs. by rewrite fmap_app. }
  split; [done|]. eapply (Hfin _ (f y)); [done| |set_solver|].
  - intros k z Hk. rewrite Hd, !elem_of_app, !elem_of_cons. naive_solver.
  - replace (find key (Dictionary d)) with (Some y); [done|]. symmetry.
    apply find_elem; [done|]. rewrite Hd. set_solver.
Qed.

(** * Claims *)

(** C34: a well-formed value that is nested at most a hundred deep is read back from
    its encoding; so two such values with the same encoding are the same. *)
Theorem bencode_roundtrip v (Hwf : wf v) (Hh : height v <= kMaxDepth)
    (Hlen : zlen (encode v) < 2 ^ 60) :
  decode_full (encode v) = Some v.
Proof. by apply decode_encode. Qed.

(** The dictionary { "a": [-5, ""], "b": {} }. *)
Definition demo_value : BencodeValue :=
  Dictionary [([x61], List [Integer (-5); String []]); ([x62], Dictionary [])].

Lemma bencode_roundtrip_witness :
  decode_full (encode demo_value) = Some demo_value /\ zlen (encode demo_value) = 18.
Proof.
  split; [|done]. apply bencode_roundtrip; [|by vm_compute..].
  apply wf_Dictionary. split; [|repeat constructor; cbn; lia].
  repeat constructor.
Defined.

(** C35: on any input the decoder terminates, and what it accepts is well-formed:
    integers of 64 bits, dictionaries strictly sorted without duplicates, at most a
    hundred levels; so it decodes again from its canonical encoding. *)
Theorem decode_sound (data : list byte) :
  parse (2 * length data + 2) 0 data <> OutOfFuel
  /\ forall v, decode_full data = Some v ->
       wf v /\ height v <= kMaxDepth
       /\ (zlen (encode v) < 2 ^ 60 -> decode_full (encode v) = Some v).
Proof.
  split.
  - pose proof (parse_consumes (2 * length data + 2) 0 data ltac:(unfold zlen; lia)) as H.
    by intros E; rewrite E in H.
  - unfold decode_full. intros v. destruct (parse _ 0 data) as [v' [|]| |] eqn:E; [|done..].
    intros [= <-]. destruct (parse_sound _ _ _ _ _ E) as [Hwf Hh]. split_and!; [done|lia|]. intros Hlen. apply decode_encode; (done || lia).
Qed.

(** A dictionary is a map. On a sorted dictionary the binary search finds exactly
    the entries it has, and a write through the mutable [operator\[\]] keeps it
    sorted, changes that key (from the empty string when it was absent) and no
    other. *)
Theorem dictionary_map key f d (Hs : sorted_keys d) :
  (forall v, find key (Dictionary d) = Some v <-> (key, v) ∈ d)
  /\ exists d', update key f (Dictionary d) = Some (Dictionary d') /\ sorted_keys d'
     /\ find key (Dictionary d') = Some (f (default (String []) (find key (Dictionary d))))
     /\ forall k, k <> key -> find k (Dictionary d') = find k (Dictionary d).
Proof. split; [intros v; by apply find_elem|by apply update_spec]. Qed.

Lemma dictionary_map_witness :
  let d := [([x61], Integer 1); ([x63], Integer 3)] in
  (forall v, find [x62] (Dictionary d) = Some v <-> ([x62], v) ∈ d)
  /\ exists d', update [x62] (fun _ => Integer 2) (Dictionary d) = Some (Dictionary d') /\ sorted_keys d'
     /\ find [x62] (Dictionary d') = Some (Integer 2)
     /\ forall k, k <> [x62] -> find k (Dictionary d') = find k (Dictionary d).
Proof.
  apply (dictionary_map [x62] (fun _ => Integer 2) [([x61], Integer 1); ([x63], Integer 3)]).
  repeat constructor.
Defined.

(** A length with leading zeros is accepted, an integer with leading zeros is not. *)
Lemma leading_zeros :
  decode_full [x30; x30; x31; x3a; x61] = Some (String [x61])
  /\ decode_full [x69; x30; x31; x65] = None.
Proof. done. Qed.

End bencode.
