(* ===== verification/Address.v ===== *)
(** Endpoints: numeric addresses ([core/ip_address.{h,cpp}]), endpoints and their text
    ([core/address.{h,cpp}], [core/endpoint_parse.{h,cpp}], [core/host_endpoint.h]) and
    the public-address test of [util/network_utils.cpp].

    [inet_pton] and [inet_ntop] belong to the C library: they are parameters, with
    what the code relies on as hypotheses. A [sockaddr] is its family, port and raw
    address bytes. *)

From S2P Require Import Prelude Text PeerId.

Inductive Family := FNone | V4 | V6.

#[global] Instance Family_eq_dec : EqDecision Family.
Proof. solve_decision. Defined.

(** [class IpAddress]: sixteen bytes and a tag. *)
Record IpAddress := mkIp { bytes_ : list byte; family : Family }.

#[global] Instance IpAddress_eq_dec : EqDecision IpAddress.
Proof. solve_decision. Defined.

Definition family_code (f : Family) : N := match f with FNone => 0 | V4 => 1 | V6 => 2 end.

#[global] Instance Family_countable : Countable Family.
Proof.
  refine (inj_countable family_code
    (fun n => match n with 0%N => Some FNone | 1%N => Some V4 | _ => Some V6 end) _).
  by intros [].
Defined.

#[global] Instance IpAddress_countable : Countable IpAddress.
Proof.
  refine (inj_countable' (fun a => (bytes_ a, family a)) (fun p => mkIp p.1 p.2) _).
  by intros [].
Defined.

Record Address := mkAddress { ip : IpAddress; port : Z }.

#[global] Instance Address_eq_dec : EqDecision Address.
Proof. solve_decision. Defined.

Record HostEndpoint := mkHost { host : list byte; host_port : Z }.

Module ip_address.

(** The unspecified address. *)
Definition unspecified : IpAddress := mkIp (replicate 16 x00) FNone.

Definition size (a : IpAddress) : Z :=
  match family a with V6 => 16 | V4 => 4 | FNone => 0 end.

Definition bytes (a : IpAddress) : list byte := ztake (size a) (bytes_ a).

(** The array holds sixteen bytes and the unused tail is zero. *)
Definition ip_ok (a : IpAddress) : Prop :=
  zlen (bytes_ a) = 16 /\ zdrop (size a) (bytes_ a) = replicate (Z.to_nat (16 - size a)) x00.

Definition from_v4 (b : list byte) : IpAddress := mkIp (b ++ replicate 12 x00) V4.
Definition from_v6 (b : list byte) : IpAddress := mkIp b V6.

Definition from_bytes (b : list byte) : option IpAddress :=
  if zlen b =? 4 then Some (mkIp (b ++ replicate 12 x00) V4)
  else if zlen b =? 16 then Some (mkIp b V6)
  else None.

Definition is_any (a : IpAddress) : bool :=
  match family a with
  | FNone => true
  | _ => forallb (fun b => u8 b =? 0) (bytes a)
  end.

(** The order of [operator<]: by family tag, then by bytes. *)
Definition lt (a b : IpAddress) : bool :=
  if decide (family a = family b) then bytes_lt (bytes_ a) (bytes_ b)
  else (family_code (family a) <? family_code (family b))%N.

(** [AF_INET], [AF_INET6] or another family; the address in network order. *)
Inductive sockaddr :=
| SockV4 (port : Z) (addr : list byte)
| SockV6 (port : Z) (addr : list byte)
| SockOther.

Definition v4_mapped_prefix : list byte := replicate 10 x00 ++ [xff; xff].

Definition from_sockaddr (sa : sockaddr) : option IpAddress :=
  match sa with
  | SockV4 _ addr => Some (from_v4 addr)
  | SockV6 _ addr =>
      if bool_decide (ztake 12 addr = v4_mapped_prefix) then Some (from_v4 (zdrop 12 addr))
      else Some (from_v6 addr)
  | SockOther => None
  end.

(** [None] is the length 0 returned for the unspecified address. *)
Definition to_sockaddr (a : IpAddress) (port : Z) : option sockaddr :=
  match family a with
  | V4 => Some (SockV4 port (ztake 4 (bytes_ a)))
  | V6 => Some (SockV6 port (bytes_ a))
  | FNone => None
  end.

(** [network_utils::is_public_ip]. *)
Definition is_public_ip (a : IpAddress) : bool :=
  let b := u8 <$> bytes a in
  let at_ i := default 0 (b !! i) in
  match family a with
  | V6 =>
      if forallb (fun x => x =? 0) b then false
      else if (at_ 15%nat =? 1) && forallb (fun x => x =? 0) (take 15 b) then false
      else if Z.land (at_ 0%nat) 254 =? 252 then false
      else if (at_ 0%nat =? 254) && (Z.land (at_ 1%nat) 192 =? 128) then false
      else negb (at_ 0%nat =? 255)
  | V4 =>
      let o1 := at_ 0%nat in
      let o2 := at_ 1%nat in
      if o1 =? 0 then false
      else if o1 =? 127 then false
      else if o1 =? 10 then false
      else if (o1 =? 172) && (16 <=? o2) && (o2 <=? 31) then false
      else if (o1 =? 192) && (o2 =? 168) then false
      else if (o1 =? 169) && (o2 =? 254) then false
      else if (o1 =? 100) && (64 <=? o2) && (o2 <=? 127) then false
      else negb (224 <=? o1)
  | FNone => false
  end.

Section Text.
(** [inet_pton]/[inet_ntop] for the two families. *)
Context (pton4 pton6 : list byte -> option (list byte)) (ntop4 ntop6 : list byte -> list byte).

Definition parse (literal : list byte) : option IpAddress :=
  match pton4 literal with
  | Some v4 => Some (from_v4 v4)
  | None => match pton6 literal with
            | Some v6 => Some (from_v6 v6)
            | None => None
            end
  end.

Definition to_text (a : IpAddress) : list byte :=
  match family a with
  | V4 => ntop4 (ztake 4 (bytes_ a))
  | V6 => ntop6 (bytes_ a)
  | FNone => []
  end.
End Text.

End ip_address.

(** * Splitting host and port *)
Module endpoint.

(** [std::string_view::find] and [rfind] of a character. *)
Fixpoint find_char (c : byte) (l : list byte) : option Z :=
  match l with
  | [] => None
  | x :: l => if bool_decide (x = c) then Some 0 else n ← find_char c l; Some (1 + n)
  end.

Fixpoint rfind_char (c : byte) (l : list byte) : option Z :=
  match l with
  | [] => None
  | x :: l => match rfind_char c l with
              | Some n => Some (1 + n)
              | None => if bool_decide (x = c) then Some 0 else None
              end
  end.

(** The loop of [parse_port]; [unsigned long] is at least 32 bits and the value stays
    below 2^20. *)
Fixpoint port_loop (port : Z) (text : list byte) : option Z :=
  match text with
  | [] => Some port
  | c :: text =>
      if negb (is_digit c) then None
      else
        let port := u32 (u32 (port * 10) + digit_val c) in
        if 65535 <? port then None else port_loop port text
  end.

Definition parse_port (text : list byte) : option Z :=
  match text with
  | [] => None
  | _ => port ← port_loop 0 text; if port =? 0 then None else Some port
  end.

Definition split_host_port (text : list byte) : option (list byte * Z) :=
  if bool_decide (head text = Some x5b) then
    close ← find_char x5d text;
    if negb (close + 1 <? zlen text) || negb (bool_decide (zlookup text (close + 1) = Some x3a))
    then None
    else
      let host := ztake (close - 1) (zdrop 1 text) in
      if zlen host =? 0 then None
      else port ← parse_port (zdrop (close + 2) text); Some (host, port)
  else
    colon ← rfind_char x3a text;
    if (colon =? 0) || (colon + 1 =? zlen text) then None
    else
      let host := ztake colon text in
      if bool_decide (is_Some (find_char x3a host)) then None
      else port ← parse_port (zdrop (colon + 1) text); Some (host, port).

(** [HostEndpoint]. *)
Definition host_parse (text : list byte) : option HostEndpoint :=
  '(h, p) ← split_host_port text; Some (mkHost h p).

Definition bracketed (h : list byte) (p : Z) : list byte := x5b :: h ++ [x5d; x3a] ++ to_string p.
Definition plain (h : list byte) (p : Z) : list byte := h ++ x3a :: to_string p.

Definition host_to_string (e : HostEndpoint) : list byte :=
  if bool_decide (is_Some (find_char x3a (host e))) then bracketed (host e) (host_port e)
  else plain (host e) (host_port e).

Section Text.
Context (pton4 pton6 : list byte -> option (list byte)) (ntop4 ntop6 : list byte -> list byte).

(** [Address]. *)
Definition address_parse (text : list byte) : option Address :=
  '(h, p) ← split_host_port text;
  a ← ip_address.parse pton4 pton6 h;
  Some (mkAddress a p).

Definition address_to_string (a : Address) : list byte :=
  let s := ip_address.to_text ntop4 ntop6 (ip a) in
  if bool_decide (family (ip a) = V6) then bracketed s (port a) else plain s (port a).
End Text.

Definition is_valid (a : Address) : bool :=
  negb (bool_decide (family (ip a) = FNone)) && negb (port a =? 0).

Definition address_lt (a b : Address) : bool :=
  if decide (ip a = ip b) then port a <? port b else ip_address.lt (ip a) (ip b).

(** ** Lemmas *)

Lemma find_char_app c l1 l2 : c ∉ l1 -> find_char c (l1 ++ c :: l2) = Some (zlen l1).
Proof.
  induction l1 as [|x l1 IH]; cbn; intros Hn.
  { by rewrite bool_decide_true. }
  rewrite bool_decide_false by set_solver. rewrite IH by set_solver. cbn. f_equal. by rewrite zlen_cons.
Qed.

Lemma find_char_None c l : c ∉ l -> find_char c l = None.
Proof.
  induction l as [|x l IH]; cbn; intros Hn; [done|].
  rewrite bool_decide_false by set_solver. by rewrite IH by set_solver.
Qed.

Lemma rfind_char_None c l : c ∉ l -> rfind_char c l = None.
Proof.
  induction l as [|x l IH]; cbn; intros Hn; [done|].
  rewrite IH by set_solver. by rewrite bool_decide_false by set_solver.
Qed.

Lemma rfind_char_app c l1 l2 : c ∉ l2 -> rfind_char c (l1 ++ c :: l2) = Some (zlen l1).
Proof.
  intros Hn. induction l1 as [|x l1 IH]; cbn.
  { rewrite rfind_char_None by done. by rewrite bool_decide_true. }
  rewrite IH. f_equal. by rewrite zlen_cons.
Qed.

Lemma port_loop_digits ds port :
  Forall (fun c => is_digit c = true) ds -> 0 <= port ->
  foldl (fun acc c => acc * 10 + digit_val c) port ds <= 65535 ->
  port_loop port ds = Some (foldl (fun acc c => acc * 10 + digit_val c) port ds).
Proof.
  intros Hd. revert port. induction Hd as [|c ds Hc Hds IH]; intros port Hp Hb; cbn [port_loop foldl]; [done|].
  rewrite Hc. cbn [negb]. apply is_digit_range in Hc. cbn [foldl] in Hb.
  pose proof (digits_val_ge (port * 10 + digit_val c) ds Hds ltac:(lia)).
  rewrite (u32_small (port * 10)), u32_small by lia.
  destruct (Z.ltb_spec 65535 (port * 10 + digit_val c)); [lia|]. apply IH; lia.
Qed.

Lemma to_string_pos n : 0 <= n < 10 ^ 20 -> to_string n = nat_to_string n.
Proof. intros. unfold to_string. destruct (Z.ltb_spec n 0); [lia|done]. Qed.

Lemma parse_port_to_string p : 1 <= p <= 65535 -> parse_port (to_string p) = Some p.
Proof.
  intros Hp. rewrite to_string_pos by lia.
  destruct (nat_to_string_spec p ltac:(lia)) as (Hd & Hv & c & ds & Hc & _).
  unfold parse_port. rewrite Hc in *. unfold digits_val in Hv.
  rewrite port_loop_digits by (done || lia). rewrite Hv. cbn [mbind option_bind].
  destruct (Z.eqb_spec p 0); [lia|done].
Qed.

Lemma to_string_no_colon p : 0 <= p < 10 ^ 20 -> x3a ∉ to_string p /\ 1 <= zlen (to_string p).
Proof.
  intros Hp. rewrite to_string_pos by done.
  destruct (nat_to_string_spec p Hp) as (Hd & _ & c & ds & Hc & _). split.
  - intros Hin. rewrite Forall_forall in Hd. by apply Hd in Hin.
  - rewrite Hc. zlia.
Qed.

Lemma split_bracketed h p :
  h <> [] -> x5d ∉ h -> 1 <= p <= 65535 -> split_host_port (bracketed h p) = Some (h, p).
Proof.
  intros Hne Hn Hp. unfold split_host_port, bracketed. cbn [head app].
  rewrite bool_decide_true by done.
  change (x5b :: h ++ x5d :: x3a :: to_string p) with ((x5b :: h) ++ x5d :: x3a :: to_string p).
  rewrite find_char_app by set_solver. cbn [mbind option_bind]. set (n := zlen (x5b :: h)).
  destruct (to_string_no_colon p ltac:(lia)) as [_ Hs].
  assert (n = 1 + zlen h) as En by (unfold n; zlia).
  assert (zlen h <> 0) by (by rewrite zlen_zero).
  destruct (Z.ltb_spec (n + 1) (zlen ((x5b :: h) ++ x5d :: x3a :: to_string p)));
    [|autorewrite with zlen in *; lia].
  replace (zlookup ((x5b :: h) ++ x5d :: x3a :: to_string p) (n + 1)) with (Some x3a).
  2:{ unfold zlookup. destruct (Z.leb_spec 0 (n + 1)); [|zlen_facts; lia].
      symmetry. rewrite lookup_app_r by (unfold n, zlen; lia).
      replace (Z.to_nat (n + 1) - length (x5b :: h))%nat with 1%nat by (unfold n, zlen; lia). done. }
  rewrite bool_decide_true by done. cbn [negb orb].
  replace (ztake (n - 1) (zdrop 1 ((x5b :: h) ++ x5d :: x3a :: to_string p))) with h.
  2:{ symmetry. cbn [app]. change (zdrop 1 (x5b :: ?l)) with l. apply ztake_app. lia. }
  destruct (Z.eqb_spec (zlen h) 0); [done|].
  replace (zdrop (n + 2) ((x5b :: h) ++ x5d :: x3a :: to_string p)) with (to_string p).
  2:{ symmetry. replace (n + 2) with (zlen ((x5b :: h) ++ [x5d; x3a])) by zlia.
      replace ((x5b :: h) ++ x5d :: x3a :: to_string p)
        with (((x5b :: h) ++ [x5d; x3a]) ++ to_string p) by (by rewrite <- app_assoc).
      by apply zdrop_app. }
  by rewrite parse_port_to_string.
Qed.

Lemma split_plain h p :
  h <> [] -> head h <> Some x5b -> x3a ∉ h -> 1 <= p <= 65535 ->
  split_host_port (plain h p) = Some (h, p).
Proof.
  intros Hne Hb Hn Hp. unfold split_host_port, plain.
  destruct (to_string_no_colon p ltac:(lia)) as [Hc Hs].
  rewrite bool_decide_false by (destruct h; done).
  rewrite rfind_char_app by done. cbn [mbind option_bind].
  assert (zlen h <> 0) by (by rewrite zlen_zero).
  destruct (Z.eqb_spec (zlen h) 0); [done|].
  destruct (Z.eqb_spec (zlen h + 1) (zlen (h ++ x3a :: to_string p)));
    [autorewrite with zlen in *; lia|].
  cbn [orb]. rewrite ztake_app by done. rewrite find_char_None by done.
  rewrite bool_decide_false by (by intros []).
  replace (zdrop (zlen h + 1) (h ++ x3a :: to_string p)) with (to_string p).
  2:{ symmetry. replace (h ++ x3a :: to_string p) with ((h ++ [x3a]) ++ to_string p)
        by (by rewrite <- app_assoc). apply zdrop_app. zlia. }
  by rewrite parse_port_to_string.
Qed.

(** * Claims *)

(** What the code relies on from the C library: text and bytes determine each other,
    the two families are told apart, and the characters that delimit an endpoint do
    not occur where they would be misread. *)
Record inet_spec (pton4 pton6 : list byte -> option (list byte)) (ntop4 ntop6 : list byte -> list byte)
    : Prop := {
  inet_4 b : zlen b = 4 -> pton4 (ntop4 b) = Some b;
  inet_6 b : zlen b = 16 -> pton6 (ntop6 b) = Some b;
  inet_4_6 b : zlen b = 16 -> pton4 (ntop6 b) = None;
  inet_4_text b : zlen b = 4 -> ntop4 b <> [] /\ x3a ∉ ntop4 b /\ head (ntop4 b) <> Some x5b;
  inet_6_text b : zlen b = 16 -> ntop6 b <> [] /\ x5d ∉ ntop6 b;
}.

(** The text of an endpoint with an address and a non-zero port parses back to
    it, for both families; and so does the text of a host and port, whether the host
    is bracketed for its colons or not. *)
Theorem endpoint_roundtrip pton4 pton6 ntop4 ntop6 a h p
    (Hinet : inet_spec pton4 pton6 ntop4 ntop6)
    (Hip : ip_address.ip_ok (ip a)) (Hf : family (ip a) <> FNone)
    (Hport : 1 <= port a <= 65535) (Hp : 1 <= p <= 65535)
    (Hh : h <> []) (Hhb : x5d ∉ h) (Hh0 : head h <> Some x5b) :
  address_parse pton4 pton6 (address_to_string ntop4 ntop6 a) = Some a
  /\ host_parse (host_to_string (mkHost h p)) = Some (mkHost h p).
Proof.
  split.
  - destruct a as [[b f] q], Hip as [Hlen Htail], Hinet as [I4 I6 I46 T4 T6].
    unfold address_parse, address_to_string, ip_address.to_text, ip_address.parse in *.
    cbn [ip family bytes_ ip_address.size port] in *.
    destruct f; [done| |].
    + rewrite bool_decide_false by done.
      assert (zlen (ztake 4 b) = 4) as H4 by (rewrite zlen_ztake; lia).
      destruct (T4 _ H4) as (? & ? & ?). rewrite split_plain by done. cbn [mbind option_bind].
      rewrite I4 by done. cbn [mbind option_bind]. unfold ip_address.from_v4.
      change (zdrop 4 b = replicate 12 x00) in Htail. by rewrite <- Htail, ztake_zdrop.
    + rewrite bool_decide_true by done. destruct (T6 _ Hlen) as (? & ?).
      rewrite split_bracketed by done. cbn [mbind option_bind].
      rewrite I46, I6 by done. done.
  - unfold host_parse, host_to_string. cbn [host host_port]. case_bool_decide as E.
    + by rewrite split_bracketed.
    + rewrite split_plain; [done|done|done| |done]. intros Hin. apply E.
      apply list_elem_of_split in Hin as (l1 & l2 & ->).
      clear. induction l1 as [|x l1 IH]; cbn; [rewrite bool_decide_true by done; by eexists|].
      case_bool_decide; [by eexists|]. destruct IH as [n ->]. by eexists.
Qed.

(** A stand-in for the C library that writes addresses in hexadecimal. *)
Definition hex_pton (n : Z) (s : list byte) : option (list byte) :=
  if zlen s =? 2 * n then peer_id.parse_hex s else None.

Lemma to_hex_chars id : Forall (fun c => 0 <= peer_id.hex_value c) (peer_id.to_hex id).
Proof.
  unfold peer_id.to_hex. induction id as [|b id IH]; [constructor|]. cbn [fmap list_fmap concat app].
  destruct (peer_id.hex_digits_byte b) as (H1 & H2 & _). pose proof (u8_range b).
  constructor; [rewrite H1; apply Z.shiftr_nonneg; lia|].
  constructor; [rewrite H2; apply Z.land_nonneg; lia|done].
Qed.

Lemma hex_inet_spec : inet_spec (hex_pton 4) (hex_pton 16) peer_id.to_hex peer_id.to_hex.
Proof.
  assert (forall c b, peer_id.hex_value c < 0 -> c ∉ peer_id.to_hex b) as Hc.
  { intros c b Hv Hin. pose proof (to_hex_chars b) as Hall. rewrite Forall_forall in Hall.
    apply Hall in Hin. lia. }
  assert (forall b, 0 < zlen b -> peer_id.to_hex b <> []) as Hne.
  { intros b Hb E. pose proof (peer_id.zlen_to_hex b) as Hl. rewrite E in Hl.
    change (zlen []) with 0 in Hl. lia. }
  constructor; intros b Hb; unfold hex_pton; rewrite ?peer_id.zlen_to_hex, ?Hb, ?peer_id.parse_to_hex;
    try done.
  - split_and!; [apply Hne; lia|by apply Hc|]. intros Hh. apply (Hc x5b b); [done|].
    destruct (peer_id.to_hex b); [done|]. cbn in Hh. simplify_eq. left.
  - split; [apply Hne; lia|by apply Hc].
Qed.

Lemma endpoint_roundtrip_witness :
  let a := mkAddress (ip_address.from_v4 [x7f; x00; x00; x01]) 6881 in
  address_parse (hex_pton 4) (hex_pton 16) (address_to_string peer_id.to_hex peer_id.to_hex a) = Some a
  /\ host_parse (host_to_string (mkHost [x61; x3a; x62] 80)) = Some (mkHost [x61; x3a; x62] 80).
Proof.
  apply endpoint_roundtrip; [apply hex_inet_spec|by vm_compute..| | |done].
  - done.
  - intros Hin. by repeat (apply elem_of_cons in Hin as [?|Hin]; [done|]); apply elem_of_nil in Hin.
Defined.

(** A port is one or more decimal digits with a value from 1 to 65535; nothing
    else is accepted, whatever the length of the text. *)
Theorem parse_port_spec text p :
  parse_port text = Some p <->
  text <> [] /\ Forall (fun c => is_digit c = true) text /\ digits_val text = p /\ 1 <= p <= 65535.
Proof.
  assert (forall text acc r, 0 <= acc <= 65535 -> port_loop acc text = Some r ->
            Forall (fun c => is_digit c = true) text
            /\ r = foldl (fun acc c => acc * 10 + digit_val c) acc text /\ 0 <= r <= 65535) as Hloop.
  { clear. induction text as [|c text IH]; intros acc r Ha; cbn [port_loop foldl].
    { intros [= <-]. done. }
    destruct (is_digit c) eqn:Hc; [|done]. cbn [negb]. pose proof Hc as Hr.
    apply is_digit_range in Hr. rewrite (u32_small (acc * 10)), u32_small by lia.
    destruct (Z.ltb_spec 65535 (acc * 10 + digit_val c)); [done|]. intros Hl.
    apply IH in Hl as (? & ? & ?); [|lia]. split_and!; [by constructor|done|lia..]. }
  unfold parse_port. destruct text as [|c text]; [naive_solver|].
  destruct (port_loop 0 (c :: text)) as [r|] eqn:E; cbn [mbind option_bind].
  - apply Hloop in E as (Hd & Hv & Hr); [|lia]. unfold digits_val. rewrite <- Hv.
    destruct (Z.eqb_spec r 0); split; [done|naive_solver lia|intros [= <-]; split_and!; (done || lia)|].
    by intros (_ & _ & -> & _).
  - split; [done|]. intros (_ & Hd & Hv & Hp). rewrite port_loop_digits in E; [done|done|lia|].
    unfold digits_val in Hv. lia.
Qed.

(** An endpoint without a port has a text that is not parsed back. *)
Lemma port_zero_not_parsed :
  let a := mkAddress (ip_address.from_v4 [x01; x02; x03; x04]) 0 in
  address_parse (hex_pton 4) (hex_pton 16) (address_to_string peer_id.to_hex peer_id.to_hex a) = None.
Proof. by vm_compute. Qed.

End endpoint.
