(* ===== verification/DhtId.v ===== *)
(** The DHT key space ([dht/id.h]): 160-bit identifiers, the XOR metric, the shared
    prefix that indexes buckets, and the textual and wire forms.

    An id is the list of its twenty bytes ([id_ok]); [id_val] is the 160-bit number it
    stands for, on which the metric is stated. *)

From S2P Require Import Prelude Text PeerId.

Definition NodeId : Type := list byte.

Module dht_id.

Definition kIdSize : Z := 20.
Definition kBucketSize : Z := 8.
Definition kAlpha : Z := 3.
Definition kBucketCount : Z := 160.

Definition id_ok (id : NodeId) : Prop := length id = 20%nat.

Definition zero_id : NodeId := replicate 20 x00.

Definition xor_byte (a b : byte) : byte := byte_of (Z.lxor (u8 a) (u8 b)).

Definition distance (a b : NodeId) : NodeId := zip_with xor_byte a b.

Fixpoint closer_to (a b target : NodeId) : bool :=
  match a, b, target with
  | x :: a, y :: b, t :: target =>
      let da := Z.lxor (u8 x) (u8 t) in
      let db := Z.lxor (u8 y) (u8 t) in
      if negb (da =? db) then da <? db else closer_to a b target
  | _, _, _ => false
  end.

(** [__builtin_clz] of a non-zero 32-bit word. *)
Definition count_leading_zeros32 (x : Z) : Z := 31 - Z.log2 x.

(** The loop of [shared_prefix_bits] over words of four bytes, from byte [i] on. *)
Fixpoint prefix_words (i : Z) (a b : NodeId) : Z :=
  match a, b with
  | a0 :: a1 :: a2 :: a3 :: a, b0 :: b1 :: b2 :: b3 :: b =>
      let d := Z.lor (Z.lor (Z.lor (Z.shiftl (Z.lxor (u8 a0) (u8 b0)) 24)
                                   (Z.shiftl (Z.lxor (u8 a1) (u8 b1)) 16))
                            (Z.shiftl (Z.lxor (u8 a2) (u8 b2)) 8))
                     (Z.lxor (u8 a3) (u8 b3)) in
      if negb (d =? 0) then i * 8 + count_leading_zeros32 d else prefix_words (i + 4) a b
  | _, _ => kBucketCount
  end.

Definition shared_prefix_bits (a b : NodeId) : Z := prefix_words 0 a b.

(** The bit of an id at an index, the top bit of the first byte first; 0 past its end. *)
Definition id_bit (id : NodeId) (bit : Z) : Z :=
  if (0 <=? bit) && (bit <? kBucketCount) then
    match zlookup id (Z.shiftr bit 3) with
    | Some b => Z.land (Z.shiftr (u8 b) (7 - Z.land bit 7)) 1
    | None => 0
    end
  else 0.

(** The loop of [bits_at], [n] bits from [start]. *)
Fixpoint bits_loop (id : NodeId) (bit : Z) (n : nat) (v : Z) : Z :=
  match n with
  | O => v
  | S n => bits_loop id (bit + 1) n (Z.lor (u32 (Z.shiftl v 1)) (id_bit id bit))
  end.
Definition bits_at (id : NodeId) (start n : Z) : Z := bits_loop id start (Z.to_nat n) 0.

Definition to_hex (id : NodeId) : list byte := peer_id.to_hex id.

(** A malformed text gives the zero id. *)
Definition from_hex (hex : list byte) : NodeId :=
  if zlen hex =? kIdSize * 2 then default zero_id (peer_id.parse_hex hex) else zero_id.

Definition to_bytes (id : NodeId) : list byte := id.
Definition from_bytes (bytes : list byte) : NodeId :=
  if zlen bytes =? kIdSize then bytes else zero_id.

(** ** The number an id stands for *)

Definition id_val (id : NodeId) : Z := be_dec id.

Lemma id_val_range id : id_ok id -> 0 <= id_val id < 2 ^ 160.
Proof.
  intros Hid. pose proof (be_dec_range id) as H. unfold zlen in H. by rewrite Hid in H.
Qed.

Lemma be_dec_inj a b : length a = length b -> be_dec a = be_dec b -> a = b.
Proof. intros Hl Hv. rewrite <- (be_enc_dec a), <- (be_enc_dec b). by rewrite Hl, Hv. Qed.

Lemma id_val_inj a b : id_ok a -> id_ok b -> id_val a = id_val b -> a = b.
Proof. unfold id_ok. intros Ha Hb. apply be_dec_inj. congruence. Qed.

Lemma be_dec_cons x l : be_dec (x :: l) = u8 x * 2 ^ (8 * zlen l) + be_dec l.
Proof.
  induction l as [|y l IH] using rev_ind.
  - change (2 ^ (8 * zlen (@nil byte))) with 1. unfold be_dec. cbn [foldl]. lia.
  - rewrite app_comm_cons, !be_dec_app, IH, zlen_app. change (zlen [y]) with 1.
    replace (8 * (zlen l + 1)) with (8 * zlen l + 8) by lia.
    rewrite Z.pow_add_r by (zlen_facts; lia). lia.
Qed.

Lemma lxor_byte a b : u8 (xor_byte a b) = Z.lxor (u8 a) (u8 b) /\ 0 <= Z.lxor (u8 a) (u8 b) < 256.
Proof.
  pose proof (u8_range a). pose proof (u8_range b).
  pose proof (lxor_bound (u8 a) (u8 b) 8 ltac:(lia) ltac:(done) ltac:(done)) as Hb.
  unfold xor_byte. by rewrite u8_byte_of, Z.mod_small.
Qed.

(** Two fields of [k] low bits are combined field by field. *)
Lemma lxor_fields a b x y k :
  0 <= k -> 0 <= x < 2 ^ k -> 0 <= y < 2 ^ k ->
  Z.lxor (a * 2 ^ k + x) (b * 2 ^ k + y) = Z.lxor a b * 2 ^ k + Z.lxor x y.
Proof.
  intros Hk Hx Hy.
  pose proof (lxor_bound x y k Hk Hx Hy) as Hxy.
  rewrite <- !lor_shiftl_add by done.
  apply Z.bits_inj'. intros n Hn. rewrite !Z.lxor_spec, !Z.lor_spec, Z.lxor_spec.
  destruct (Z.lt_ge_cases n k).
  - by rewrite !Z.shiftl_spec_low.
  - rewrite !Z.shiftl_spec_high, Z.lxor_spec by lia.
    rewrite (testbit_high x k), (testbit_high y k) by lia.
    by rewrite !orb_false_r.
Qed.

Lemma distance_val a b : length a = length b -> be_dec (distance a b) = Z.lxor (be_dec a) (be_dec b).
Proof.
  unfold distance. revert b. induction a as [|x a IH]; intros [|y b] Hl; try done.
  injection Hl as Hl. cbn [zip_with]. rewrite !be_dec_cons, IH by done.
  unfold zlen. rewrite length_zip_with_l_eq by done. rewrite Hl.
  destruct (lxor_byte x y) as [-> _].
  rewrite lxor_fields; [done|lia|..].
  - pose proof (be_dec_range a) as Hr. unfold zlen in Hr. by rewrite Hl in Hr.
  - apply be_dec_range.
Qed.

(** Big-endian bytes are ordered as the numbers are. *)
Lemma bytes_lt_val a b :
  length a = length b -> bytes_lt a b = true <-> be_dec a < be_dec b.
Proof.
  revert b. induction a as [|x a IH]; intros [|y b] Hl; try done.
  injection Hl as Hl. cbn [bytes_lt]. rewrite !be_dec_cons. unfold zlen. rewrite Hl.
  pose proof (be_dec_range a) as Ha. pose proof (be_dec_range b) as Hb. unfold zlen in *. rewrite Hl in Ha.
  set (m := 2 ^ (8 * Z.of_nat (length b))) in *.
  destruct (Z.ltb_spec (u8 x) (u8 y)); [split; [nia|done]|].
  destruct (Z.ltb_spec (u8 y) (u8 x)); [split; [done|nia]|].
  rewrite IH by done. replace (u8 y) with (u8 x) by lia. lia.
Qed.

Lemma closer_to_distance a b t :
  length a = length t -> length b = length t ->
  closer_to a b t = bytes_lt (distance a t) (distance b t).
Proof.
  revert a b. induction t as [|z t IH]; intros [|x a] [|y b] Ha Hb; try done.
  injection Ha as Ha. injection Hb as Hb. cbn [closer_to distance zip_with bytes_lt].
  destruct (lxor_byte x z) as [-> _], (lxor_byte y z) as [-> _].
  destruct (Z.eqb_spec (Z.lxor (u8 x) (u8 z)) (Z.lxor (u8 y) (u8 z))) as [->|Hne]; cbn [negb].
  - rewrite Z.ltb_irrefl. by apply IH.
  - destruct (Z.ltb_spec (Z.lxor (u8 x) (u8 z)) (Z.lxor (u8 y) (u8 z))); [done|].
    destruct (Z.ltb_spec (Z.lxor (u8 y) (u8 z)) (Z.lxor (u8 x) (u8 z))); [done|lia].
Qed.

(** The metric. *)
Definition dist (a b : NodeId) : Z := Z.lxor (id_val a) (id_val b).

Lemma closer_to_dist a b t :
  id_ok a -> id_ok b -> id_ok t -> closer_to a b t = (dist a t <? dist b t).
Proof.
  unfold id_ok, dist, id_val. intros Ha Hb Ht. rewrite closer_to_distance by congruence.
  rewrite <- !distance_val by congruence. apply eq_true_iff_eq. rewrite Z.ltb_lt.
  apply bytes_lt_val. unfold distance. rewrite !length_zip_with_l_eq; congruence.
Qed.

(** ** Leading zeros *)

Lemma word_of_bytes x0 x1 x2 x3 :
  0 <= x1 < 2 ^ 8 -> 0 <= x2 < 2 ^ 8 -> 0 <= x3 < 2 ^ 8 ->
  Z.lor (Z.lor (Z.lor (Z.shiftl x0 24) (Z.shiftl x1 16)) (Z.shiftl x2 8)) x3
  = ((x0 * 2 ^ 8 + x1) * 2 ^ 8 + x2) * 2 ^ 8 + x3.
Proof.
  intros H1 H2 H3.
  assert (Z.shiftl x0 24 = Z.shiftl (Z.shiftl (Z.shiftl x0 8) 8) 8) as ->
    by (by rewrite !Z.shiftl_shiftl by lia).
  assert (Z.shiftl x1 16 = Z.shiftl (Z.shiftl x1 8) 8) as -> by (by rewrite Z.shiftl_shiftl by lia).
  rewrite <- !Z.shiftl_lor. by rewrite !lor_shiftl_add by (done || lia).
Qed.

(** The highest bit of a number is in its highest non-zero field. *)
Lemma log2_fields d r k :
  0 < d -> 0 <= k -> 0 <= r < 2 ^ k -> Z.log2 (d * 2 ^ k + r) = Z.log2 d + k.
Proof.
  intros Hd Hk Hr. pose proof (Z.log2_nonneg d). destruct (Z.log2_spec d Hd) as [H1 H2].
  apply Z.log2_unique; [lia|]. rewrite <- Z.add_succ_l, !Z.pow_add_r by lia. nia.
Qed.

Lemma be_dec_4 x0 x1 x2 x3 l :
  be_dec (x0 :: x1 :: x2 :: x3 :: l)
  = (((u8 x0 * 2 ^ 8 + u8 x1) * 2 ^ 8 + u8 x2) * 2 ^ 8 + u8 x3) * 2 ^ (8 * zlen l) + be_dec l.
Proof.
  rewrite !be_dec_cons. autorewrite with zlen.
  assert (forall j, 0 <= j -> 2 ^ (8 * (j + zlen l)) = 2 ^ (8 * j) * 2 ^ (8 * zlen l)) as E.
  { intros j Hj. rewrite <- Z.pow_add_r by (zlen_facts; lia). f_equal. lia. }
  replace (1 + (1 + (1 + zlen l))) with (3 + zlen l) by lia.
  replace (1 + (1 + zlen l)) with (2 + zlen l) by lia.
  rewrite !E by lia. change (2 ^ (8 * 3)) with 16777216. change (2 ^ (8 * 2)) with 65536.
  change (2 ^ (8 * 1)) with 256. change (2 ^ 8) with 256. lia.
Qed.

Lemma prefix_words_spec k i a b :
  length a = (4 * k)%nat -> length b = (4 * k)%nat -> i * 8 + 32 * Z.of_nat k = 160 ->
  let D := Z.lxor (be_dec a) (be_dec b) in
  prefix_words i a b = if D =? 0 then 160 else 159 - Z.log2 D.
Proof.
  revert i a b. induction k as [|k IH]; intros i a b Ha Hb Hi.
  { destruct a, b; try done. }
  destruct a as [|a0 [|a1 [|a2 [|a3 a]]]]; cbn in Ha; try lia.
  destruct b as [|b0 [|b1 [|b2 [|b3 b]]]]; cbn in Hb; try lia.
  cbn [prefix_words]. cbv zeta. rewrite !be_dec_4.
  assert (length a = (4 * k)%nat) as Ha' by lia. assert (length b = (4 * k)%nat) as Hb' by lia.
  assert (zlen b = 4 * Z.of_nat k) as Hz by (unfold zlen; lia).
  assert (zlen a = zlen b) as -> by (unfold zlen; lia).
  pose proof (be_dec_range a) as Hra. pose proof (be_dec_range b) as Hrb.
  replace (zlen a) with (zlen b) in Hra by (unfold zlen; lia).
  destruct (lxor_byte a0 b0) as [_ H0], (lxor_byte a1 b1) as [_ H1], (lxor_byte a2 b2) as [_ H2],
    (lxor_byte a3 b3) as [_ H3].
  rewrite word_of_bytes by (change (2 ^ 8) with 256; lia).
  rewrite !lxor_fields by (try apply u8_range; change (2 ^ 8) with 256; try apply u8_range; zlen_facts; lia).
  set (d := ((Z.lxor (u8 a0) (u8 b0) * 2 ^ 8 + _) * 2 ^ 8 + _) * 2 ^ 8 + _).
  assert (0 <= d < 2 ^ 32) as Hd by (unfold d; change (2 ^ 8) with 256; lia).
  pose proof (lxor_bound (be_dec a) (be_dec b) (8 * zlen b) ltac:(lia) Hra Hrb) as Hr.
  destruct (Z.eqb_spec d 0) as [E|E]; cbn [negb].
  - rewrite E, Z.mul_0_l, Z.add_0_l. apply IH; [done|done|lia].
  - destruct (Z.eqb_spec (d * 2 ^ (8 * zlen b) + Z.lxor (be_dec a) (be_dec b)) 0); [nia|].
    rewrite log2_fields by lia. unfold count_leading_zeros32. lia.
Qed.

Lemma shared_prefix_val a b :
  id_ok a -> id_ok b ->
  shared_prefix_bits a b = if dist a b =? 0 then 160 else 159 - Z.log2 (dist a b).
Proof. intros Ha Hb. apply (prefix_words_spec 5); done. Qed.

Lemma dist_comm a b : dist a b = dist b a.
Proof. apply Z.lxor_comm. Qed.

Lemma dist_0 a b : id_ok a -> id_ok b -> dist a b = 0 <-> a = b.
Proof.
  intros Ha Hb. unfold dist. rewrite Z.lxor_eq_0_iff.
  split; [by apply id_val_inj|by intros ->].
Qed.

Lemma dist_range a b : id_ok a -> id_ok b -> 0 <= dist a b < 2 ^ 160.
Proof. intros Ha Hb. apply lxor_bound; [lia|by apply id_val_range..]. Qed.

Lemma shared_prefix_range a b :
  id_ok a -> id_ok b -> 0 <= shared_prefix_bits a b <= 160
  /\ (shared_prefix_bits a b = 160 <-> a = b).
Proof.
  intros Ha Hb. rewrite shared_prefix_val, <- (dist_0 a b) by done.
  pose proof (dist_range a b Ha Hb). destruct (Z.eqb_spec (dist a b) 0); [lia|].
  pose proof (Z.log2_nonneg (dist a b)).
  assert (Z.log2 (dist a b) < 160) by (apply Z.log2_lt_pow2; lia). lia.
Qed.

(** ** Tiers

    How the shared prefix with one's own id orders the ids around a target. *)

Lemma lxor_triangle s t x : Z.lxor t x = Z.lxor (Z.lxor s t) (Z.lxor s x).
Proof.
  rewrite (Z.lxor_comm s t), Z.lxor_assoc, <- (Z.lxor_assoc s s x), Z.lxor_nilpotent.
  by rewrite Z.lxor_0_l.
Qed.

(** The higher leading bit wins; two equal ones cancel. *)
Lemma log2_lxor_lt a b : 0 <= a -> 0 < b -> (a = 0 \/ Z.log2 a < Z.log2 b) ->
  Z.lxor a b <> 0 /\ Z.log2 (Z.lxor a b) = Z.log2 b.
Proof.
  intros Ha Hb Hlt. destruct (Z.eq_dec a 0) as [->|Hne]; [rewrite Z.lxor_0_l; lia|].
  destruct Hlt as [?|Hlt]; [done|].
  assert (Z.testbit (Z.lxor a b) (Z.log2 b) = true) as Hbit.
  { rewrite Z.lxor_spec, Z.bit_log2 by lia. rewrite (Z.bits_above_log2 a) by lia. done. }
  assert (0 <= Z.lxor a b) by (apply Z.lxor_nonneg; lia).
  assert (Z.lxor a b <> 0) as Hn0 by (intros E; rewrite E, Z.bits_0 in Hbit; done).
  split; [done|]. apply Z.le_antisymm.
  - etrans; [apply Z.log2_lxor; lia|lia].
  - destruct (Z.le_gt_cases (Z.log2 b) (Z.log2 (Z.lxor a b))) as [|Hgt]; [done|].
    rewrite Z.bits_above_log2 in Hbit by lia. done.
Qed.

Lemma log2_lxor_eq a b : 0 < a -> 0 < b -> Z.log2 a = Z.log2 b ->
  Z.lxor a b = 0 \/ Z.log2 (Z.lxor a b) < Z.log2 b.
Proof.
  intros Ha Hb E. destruct (Z.eq_dec (Z.lxor a b) 0) as [|Hne]; [by left|right].
  assert (0 <= Z.lxor a b) by (apply Z.lxor_nonneg; lia).
  pose proof (Z.log2_lxor a b ltac:(lia) ltac:(lia)) as Hle.
  assert (Z.log2 (Z.lxor a b) <> Z.log2 b); [|lia]. intros El.
  pose proof (Z.bit_log2 (Z.lxor a b) ltac:(lia)) as Hbit. rewrite El, Z.lxor_spec in Hbit.
  rewrite <- E in Hbit at 1. rewrite !Z.bit_log2 in Hbit by lia. done.
Qed.

Lemma prefix_tiers s t x :
  id_ok s -> id_ok t -> id_ok x ->
  let p := shared_prefix_bits s t in
  let i := shared_prefix_bits s x in
  if i <? p then shared_prefix_bits t x = i
  else if p <? i then shared_prefix_bits t x = p
  else p < shared_prefix_bits t x \/ p = 160.
Proof.
  intros Hs Ht Hx. cbv zeta. rewrite !shared_prefix_val by done.
  pose proof (dist_range s t Hs Ht). pose proof (dist_range s x Hs Hx).
  assert (dist t x = Z.lxor (dist s t) (dist s x)) as Htri by apply lxor_triangle.
  rewrite Htri. set (a := dist s t) in *. set (b := dist s x) in *.
  assert (forall z, 0 <= z < 2 ^ 160 -> z <> 0 -> 0 <= Z.log2 z < 160) as Hlog.
  { intros z Hz Hne. split; [apply Z.log2_nonneg|apply Z.log2_lt_pow2; lia]. }
  destruct (Z.eqb_spec a 0) as [Ea|Ea], (Z.eqb_spec b 0) as [Eb|Eb].
  - rewrite Ea, Eb. cbn. by right.
  - pose proof (Hlog b ltac:(done) Eb). destruct (Z.ltb_spec (159 - Z.log2 b) 160); [|lia].
    rewrite Ea, Z.lxor_0_l. destruct (Z.eqb_spec b 0); lia.
  - pose proof (Hlog a ltac:(done) Ea). destruct (Z.ltb_spec 160 (159 - Z.log2 a)); [lia|].
    destruct (Z.ltb_spec (159 - Z.log2 a) 160); [|lia].
    rewrite Eb, Z.lxor_0_r. destruct (Z.eqb_spec a 0); lia.
  - pose proof (Hlog a ltac:(done) Ea). pose proof (Hlog b ltac:(done) Eb).
    destruct (Z.ltb_spec (159 - Z.log2 b) (159 - Z.log2 a)).
    { destruct (log2_lxor_lt a b) as [Hn ->]; [lia|lia|right; lia|].
      destruct (Z.eqb_spec (Z.lxor a b) 0); lia. }
    destruct (Z.ltb_spec (159 - Z.log2 a) (159 - Z.log2 b)).
    { rewrite Z.lxor_comm. destruct (log2_lxor_lt b a) as [Hn ->]; [lia|lia|right; lia|].
      destruct (Z.eqb_spec (Z.lxor b a) 0); lia. }
    left. destruct (log2_lxor_eq a b) as [->|]; [lia|lia|lia|cbn; lia|].
    destruct (Z.eqb_spec (Z.lxor a b) 0); lia.
Qed.

(** A longer shared prefix with the target is closer to it. *)
Lemma prefix_closer t x y :
  id_ok t -> id_ok x -> id_ok y ->
  shared_prefix_bits t y < shared_prefix_bits t x -> dist x t < dist y t.
Proof.
  intros Ht Hx Hy. rewrite !shared_prefix_val, (dist_comm x), (dist_comm y) by done.
  pose proof (dist_range t x Ht Hx). pose proof (dist_range t y Ht Hy).
  destruct (Z.eqb_spec (dist t y) 0) as [Ey|Ey], (Z.eqb_spec (dist t x) 0) as [Ex|Ex]; try lia.
  - pose proof (Z.log2_nonneg (dist t x)). lia.
  - intros Hl. apply Z.log2_lt_cancel. lia.
Qed.

(** * Claims *)

(** The optimised comparisons are the XOR metric. For 160-bit ids, [closer_to]
    compares the distances as numbers; [shared_prefix_bits], a word at a time with a
    count of leading zeros, is the number of leading zeros of the distance, 160 only
    for equal ids. *)
Theorem xor_metric a b t (Ha : id_ok a) (Hb : id_ok b) (Ht : id_ok t) :
  closer_to a b t = (Z.lxor (id_val a) (id_val t) <? Z.lxor (id_val b) (id_val t))
  /\ id_val (distance a b) = Z.lxor (id_val a) (id_val b)
  /\ shared_prefix_bits a b
     = (if Z.lxor (id_val a) (id_val b) =? 0 then 160
        else 159 - Z.log2 (Z.lxor (id_val a) (id_val b)))
  /\ (shared_prefix_bits a b = 160 <-> a = b).
Proof.
  split_and!; [by apply closer_to_dist| |by apply shared_prefix_val|by apply shared_prefix_range].
  apply distance_val. congruence.
Qed.

Lemma xor_metric_witness :
  let a := xff :: replicate 19 x00 in
  let b := x0f :: replicate 19 x00 in
  let t := zero_id in
  closer_to b a t = (Z.lxor (id_val b) (id_val t) <? Z.lxor (id_val a) (id_val t))
  /\ id_val (distance b a) = Z.lxor (id_val b) (id_val a)
  /\ shared_prefix_bits b a
     = (if Z.lxor (id_val b) (id_val a) =? 0 then 160
        else 159 - Z.log2 (Z.lxor (id_val b) (id_val a)))
  /\ (shared_prefix_bits b a = 160 <-> b = a).
Proof. apply xor_metric; done. Defined.

End dht_id.
