(* ===== verification/RoutingTable.v ===== *)
(** The Kademlia routing table ([dht/routing_table.{h,cpp}], [dht/node_entry.h],
    [dht/bep42.cpp]).

    A table is its own id, the vector of buckets and the per-IP index. Buckets are
    accessed by [bucket_at]/[set_bucket], which are undefined behaviour out of range,
    as [buckets_\[i\]] is. A pointer to an entry is its index in its vector. The clock
    is the argument [now] of the operations that read it; [describe], which only
    formats, is left out. *)

From S2P Require Import Prelude Text PeerId Address DhtId.
Import dht_id.

(** * A contact *)

Record NodeEntry := mkEntry {
  id : NodeId;
  endpoint : Address;
  last_seen : Z;
  rtt : Z;              (* uint16_t *)
  fail_count : Z;       (* uint8_t *)
  verified : bool;
}.

#[global] Instance NodeEntry_eq_dec : EqDecision NodeEntry.
Proof. solve_decision. Defined.

Module node_entry.

Definition kRttUnknown : Z := 65535.
Definition kNeverPinged : Z := 255.
(** [steady_clock::time_point::min()]. *)
Definition time_min : Z := - 2 ^ 63.

Definition new_entry (i : NodeId) (ep : Address) : NodeEntry :=
  mkEntry i ep time_min kRttUnknown kNeverPinged false.

Definition pinged (n : NodeEntry) : bool := negb (fail_count n =? kNeverPinged).
Definition confirmed (n : NodeEntry) : bool := fail_count n =? 0.

Definition update_rtt (sample : Z) (n : NodeEntry) : NodeEntry :=
  if sample =? kRttUnknown then n
  else
    mkEntry (id n) (endpoint n) (last_seen n)
      (if rtt n =? kRttUnknown then sample else u16 (rtt n * 2 / 3 + sample / 3))
      (fail_count n) (verified n).

Definition record_success (now sample : Z) (n : NodeEntry) : NodeEntry :=
  update_rtt sample (mkEntry (id n) (endpoint n) now (rtt n) 0 (verified n)).

Definition record_failure (n : NodeEntry) : NodeEntry :=
  if pinged n && (fail_count n <? kNeverPinged - 1)
  then mkEntry (id n) (endpoint n) (last_seen n) (rtt n) (fail_count n + 1) (verified n)
  else n.

Definition is_worse_than (n other : NodeEntry) : bool :=
  if negb (fail_count n =? fail_count other) then fail_count other <? fail_count n
  else if negb (Bool.eqb (verified n) (verified other)) then negb (verified n)
  else rtt other <? rtt n.

Definition set_endpoint (ep : Address) (n : NodeEntry) : NodeEntry :=
  mkEntry (id n) ep (last_seen n) (rtt n) (fail_count n) (verified n).
Definition set_verified (v : bool) (n : NodeEntry) : NodeEntry :=
  mkEntry (id n) (endpoint n) (last_seen n) (rtt n) (fail_count n) v.
Definition set_last_seen (t : Z) (n : NodeEntry) : NodeEntry :=
  mkEntry (id n) (endpoint n) t (rtt n) (fail_count n) (verified n).

End node_entry.
Import node_entry.

(** * IP diversity ([dht/bep42.cpp]) *)
Module bep42.

(** One bit of the reflected CRC-32C. *)
Definition crc_bit (crc : Z) : Z :=
  if Z.testbit crc 0 then Z.lxor (Z.shiftr crc 1) 2197175160 else Z.shiftr crc 1.
Definition crc_byte (crc : Z) (b : byte) : Z := Nat.iter 8 crc_bit (Z.lxor crc (u8 b)).
Definition crc32c (data : list byte) : Z := Z.lxor (foldl crc_byte 4294967295 data) 4294967295.

Definition v4_mask : list byte := [x03; x0f; x3f; xff].
Definition v6_mask : list byte := [x01; x03; x07; x0f; x1f; x3f; x7f; xff].

Definition and_byte (a b : byte) : byte := byte_of (Z.land (u8 a) (u8 b)).
Definition or_byte (a b : byte) : byte := byte_of (Z.lor (u8 a) (u8 b)).

(** The octets written, none for the unspecified address. *)
Definition masked_octets (a : IpAddress) : list byte :=
  match family a with
  | V6 => zip_with and_byte (ztake 8 (ip_address.bytes a)) v6_mask
  | V4 => zip_with and_byte (ip_address.bytes a) v4_mask
  | FNone => []
  end.

Definition bep42_prefix (a : IpAddress) (seed : byte) : option (byte * byte * byte) :=
  match masked_octets a with
  | [] => None
  | o :: octets =>
      let c := crc32c (or_byte o (byte_of (Z.shiftl (Z.land (u8 seed) 7) 5)) :: octets) in
      Some (byte_of (Z.land (Z.shiftr c 24) 255), byte_of (Z.land (Z.shiftr c 16) 255),
            byte_of (Z.land (Z.shiftr c 8) 248))
  end.

Definition is_public_address (a : IpAddress) : bool := ip_address.is_public_ip a.

(** The random bytes are the argument [rand], in the order they are drawn: the seed,
    the low bits of the third byte, the bytes 3 to 18. *)
Definition generate_node_id_from_ip (a : IpAddress) (rand : list byte) : option NodeId :=
  match rand with
  | seed :: r2 :: rest =>
      '(p0, p1, p2) ← bep42_prefix a seed;
      Some ([p0; p1; or_byte p2 (and_byte r2 x07)] ++ take 16 rest ++ [seed])
  | _ => None
  end.

Definition verify_node_id_for_ip (i : NodeId) (a : IpAddress) : bool :=
  if negb (is_public_address a) then true
  else
    let at_ k := default x00 (i !! k) in
    match bep42_prefix a (at_ 19%nat) with
    | None => true
    | Some (p0, p1, p2) =>
        bool_decide (at_ 0%nat = p0) && bool_decide (at_ 1%nat = p1)
        && bool_decide (and_byte (at_ 2%nat) xf8 = p2)
    end.

Definition ip_too_close (a b : IpAddress) : bool :=
  if negb (bool_decide (family a = family b)) then false
  else
    let network_bytes := match family a with V6 => 8 | V4 => 3 | FNone => 0 end in
    if network_bytes =? 0 then false
    else bool_decide (ztake network_bytes (ip_address.bytes a)
                      = ztake network_bytes (ip_address.bytes b)).

End bep42.
Import bep42.

(** * The table *)

Record Bucket := mkBucket {
  live : list NodeEntry;
  replacements : list NodeEntry;
}.

Record RoutingTable := mkTable {
  self : NodeId;
  extended : bool;
  buckets : list Bucket;
  ip_count : gmap IpAddress Z;
}.

Module routing_table.

Definition kMaxFailCount : Z := 5.
Definition kMaxBucketLimit : Z := kBucketSize * 16.
Definition empty_bucket : Bucket := mkBucket [] [].

Definition new_table (i : NodeId) (ext : bool) : RoutingTable := mkTable i ext [empty_bucket] ∅.

Definition bucket_at (i : Z) (t : RoutingTable) : outcome Bucket :=
  match zlookup (buckets t) i with Some b => Ret b | None => UB end.
Definition set_bucket (i : Z) (b : Bucket) (t : RoutingTable) : outcome RoutingTable :=
  match zupdate i b (buckets t) with
  | Some bs => Ret (mkTable (self t) (extended t) bs (ip_count t))
  | None => UB
  end.
Definition with_ips (m : gmap IpAddress Z) (t : RoutingTable) : RoutingTable :=
  mkTable (self t) (extended t) (buckets t) m.
Definition set_buckets (bs : list Bucket) (t : RoutingTable) : RoutingTable :=
  mkTable (self t) (extended t) bs (ip_count t).

(** ** Helpers *)

Definition find_by_id (v : list NodeEntry) (i : NodeId) : option (nat * NodeEntry) :=
  list_find (fun n => id n = i) v.

(** The loop of [worst_of] and [worst_in], with the position reached. *)
Fixpoint worst_from (worst : nat * NodeEntry) (k : nat) (v : list NodeEntry) : nat * NodeEntry :=
  match v with
  | [] => worst
  | n :: v => worst_from (if is_worse_than n worst.2 then (k, n) else worst) (S k) v
  end.
Definition worst_of (v : list NodeEntry) : option (nat * NodeEntry) :=
  match v with [] => None | n :: _ => Some (worst_from (0%nat, n) 0 v) end.

(** The loop of [fill_from_replacements] that picks the best standby. *)
Fixpoint best_from (best : nat * NodeEntry) (k : nat) (v : list NodeEntry) : nat * NodeEntry :=
  match v with
  | [] => best
  | n :: v => best_from (if is_worse_than best.2 n then (k, n) else best) (S k) v
  end.
Definition best_of (v : list NodeEntry) : option (nat * NodeEntry) :=
  match v with [] => None | n :: _ => Some (best_from (0%nat, n) 0 v) end.

(** The least [bits] with [2^bits >= bucket_size]. *)
Definition prefix_bits_for (bucket_size : Z) : Z := Z.log2_up bucket_size.

Definition classify_prefix (bucket_idx : Z) (last_bucket : bool) (bucket_size : Z) (i : NodeId) : Z :=
  bits_at i (bucket_idx + if last_bucket then 0 else 1) (prefix_bits_for bucket_size) mod 256.

Definition all_on_same_side (v : list NodeEntry) (i : NodeId) (idx : Z) : bool :=
  let bits := id_bit i idx :: ((fun n => id_bit (id n) idx) <$> v) in
  forallb (fun b => b =? 1) bits || forallb (fun b => b =? 0) bits.

Definition bucket_index (i : NodeId) (t : RoutingTable) : Z :=
  let prefix := shared_prefix_bits (self t) i in
  let last := zlen (buckets t) - 1 in
  if prefix <? last then prefix else last.

Definition bucket_limit (index : Z) (t : RoutingTable) : Z :=
  if negb (extended t) then kBucketSize
  else kBucketSize * (if index =? 0 then 16 else if index =? 1 then 8
                      else if index =? 2 then 4 else if index =? 3 then 2 else 1).

(** ** The per-IP index *)

Definition ip_track (a : IpAddress) (m : gmap IpAddress Z) : gmap IpAddress Z :=
  if is_public_address a then <[a := default 0 (m !! a) + 1]> m else m.

Definition ip_untrack (a : IpAddress) (m : gmap IpAddress Z) : gmap IpAddress Z :=
  if negb (is_public_address a) then m
  else match m !! a with
       | None => m
       | Some n => if n - 1 <=? 0 then delete a m else <[a := n - 1]> m
       end.

(** [assign] of [e] over the entry [old] of a vector: what it does to the index. *)
Definition assign_ip (old e : NodeEntry) (m : gmap IpAddress Z) : gmap IpAddress Z :=
  ip_track (ip (endpoint e)) (ip_untrack (ip (endpoint old)) m).

(** ** Moving contacts *)

(** Promote standbys while there is room; each turn takes one off the cache. *)
Fixpoint fill_loop (fuel : nat) (limit : Z) (b : Bucket) : Bucket :=
  match fuel with
  | O => b
  | S fuel =>
      if zlen (live b) <? limit then
        match best_of (replacements b) with
        | None => b
        | Some (k, n) =>
            fill_loop fuel limit (mkBucket (live b ++ [n]) (delete k (replacements b)))
        end
      else b
  end.

Definition fill_from_replacements (index : Z) (t : RoutingTable) : outcome RoutingTable :=
  b ← bucket_at index t;
  set_bucket index (fill_loop (length (replacements b)) (bucket_limit index t) b) t.

(** The two loops of [trim_to_limit]. *)
Fixpoint spill_loop (fuel : nat) (limit : Z) (b : Bucket) : Bucket :=
  match fuel with
  | O => b
  | S fuel =>
      if limit <? zlen (live b) then
        match worst_of (live b) with
        | None => b
        | Some (k, n) =>
            spill_loop fuel limit (mkBucket (delete k (live b)) (replacements b ++ [n]))
        end
      else b
  end.

Fixpoint cap_loop (fuel : nat) (r : list NodeEntry) (m : gmap IpAddress Z)
    : list NodeEntry * gmap IpAddress Z :=
  match fuel with
  | O => (r, m)
  | S fuel =>
      if kBucketSize <? zlen r then
        match worst_of r with
        | None => (r, m)
        | Some (k, n) => cap_loop fuel (delete k r) (ip_untrack (ip (endpoint n)) m)
        end
      else (r, m)
  end.

Definition trim_to_limit (index : Z) (t : RoutingTable) : outcome RoutingTable :=
  b ← bucket_at index t;
  let b := spill_loop (length (live b)) (bucket_limit index t) b in
  let '(r, m) := cap_loop (length (replacements b)) (replacements b) (ip_count t) in
  set_bucket index (mkBucket (live b) r) (with_ips m t).

Fixpoint prune_loop (fuel : nat) (bs : list Bucket) : list Bucket :=
  match fuel with
  | O => bs
  | S fuel =>
      match last bs with
      | Some (mkBucket [] []) => if 1 <? zlen bs then prune_loop fuel (removelast bs) else bs
      | _ => bs
      end
  end.

Definition prune_empty_back (t : RoutingTable) : RoutingTable :=
  set_buckets (prune_loop (length (buckets t)) (buckets t)) t.

Definition can_split (index : Z) (e : NodeEntry) (t : RoutingTable) : outcome bool :=
  if (index + 1 =? zlen (buckets t)) && (zlen (buckets t) <? kBucketCount - 1) && confirmed e then
    deep ← (if index =? 0 then Ret true
            else prev ← bucket_at (index - 1) t; Ret (1 <? zlen (live prev)));
    b ← bucket_at index t;
    Ret (deep && negb (all_on_same_side (live b) (id e) index))
  else Ret false.

Definition split_bucket (t : RoutingTable) : outcome RoutingTable :=
  let last := zlen (buckets t) - 1 in
  moved ← bucket_at last t;
  let stays n := bool_decide (shared_prefix_bits (self t) (id n) <= last) in
  let part (v : list NodeEntry) := (List.filter stays v, List.filter (fun n => negb (stays n)) v) in
  let near := mkBucket (part (live moved)).1 (part (replacements moved)).1 in
  let far := mkBucket (part (live moved)).2 (part (replacements moved)).2 in
  let t := set_buckets (ztake last (buckets t) ++ [near; far]) t in
  t ← trim_to_limit last t;
  trim_to_limit (last + 1) t.

(** ** Admission *)

(** The scan of [find_by_endpoint] from bucket [i] on: the bucket, the set, the position
    and the entry. *)
Fixpoint locate (ep : Address) (i : Z) (bs : list Bucket) : option (Z * bool * nat * NodeEntry) :=
  match bs with
  | [] => None
  | b :: bs =>
      match list_find (fun n => endpoint n = ep) (live b) with
      | Some (k, n) => Some (i, true, k, n)
      | None =>
          match list_find (fun n => endpoint n = ep) (replacements b) with
          | Some (k, n) => Some (i, false, k, n)
          | None => locate ep (i + 1) bs
          end
      end
  end.
Definition find_by_endpoint (ep : Address) (t : RoutingTable) : option (Z * bool * nat * NodeEntry) :=
  locate ep 0 (buckets t).

Definition passes_ip_diversity (b : Bucket) (e : NodeEntry) (t : RoutingTable)
    : outcome (bool * RoutingTable) :=
  let a := ip (endpoint e) in
  if negb (is_public_address a) then Ret (true, t)
  else if bool_decide (is_Some (ip_count t !! a)) then
    match find_by_endpoint (endpoint e) t with
    | None => Ret (false, t)
    | Some (fb, flive, k, n) =>
        if negb (pinged e) then Ret (false, t)
        else
          eb ← bucket_at fb t;
          t ← set_bucket fb (if (flive : bool) then mkBucket (delete k (live eb)) (replacements eb)
                             else mkBucket (live eb) (delete k (replacements eb)))
                (with_ips (ip_untrack (ip (endpoint n)) (ip_count t)) t);
          t ← (if flive then fill_from_replacements fb t else Ret t);
          Ret (false, prune_empty_back t)
    end
  else
    Ret (negb (existsb (fun n => ip_too_close (ip (endpoint n)) a) (live b))
         && negb (existsb (fun n => ip_too_close (ip (endpoint n)) a) (replacements b)), t).

(** The stale contact of step 1: the first with the most failures. *)
Fixpoint stale_from (stale : option (nat * NodeEntry)) (k : nat) (v : list NodeEntry)
    : option (nat * NodeEntry) :=
  match v with
  | [] => stale
  | n :: v =>
      let take_it := pinged n && (0 <? fail_count n)
                     && match stale with None => true | Some (_, s) => fail_count s <? fail_count n end in
      stale_from (if take_it then Some (k, n) else stale) (S k) v
  end.

(** The entries of one slot, with their positions in the live set. *)
Definition in_slot (slot : NodeEntry -> Z) (s : Z) (v : list NodeEntry) : list (nat * NodeEntry) :=
  List.filter (fun p => slot p.2 =? s) (imap pair v).

(** [worst_in] over pointers. *)
Definition worst_in (v : list (nat * NodeEntry)) : option (nat * NodeEntry) :=
  match v with
  | [] => None
  | p :: _ => Some (foldl (fun w q => if is_worse_than q.2 w.2 then q else w) p v)
  end.

Definition kMaxSlots : Z := Z.shiftl 1 (prefix_bits_for kMaxBucketLimit).

(** The victim of the over-full slots. *)
Definition victim_of (slots : list (list (nat * NodeEntry))) : option (nat * NodeEntry) :=
  foldl (fun v s =>
    if 1 <? zlen s then
      foldl (fun v q => match v with
                        | None => Some q
                        | Some w => if is_worse_than q.2 w.2 then Some q else v
                        end) v s
    else v) None slots.

(** The contact of the live set that [e] displaces, if any; a slot number past the
    array would be undefined. *)
Definition displaced (index limit : Z) (last : bool) (e : NodeEntry) (v : list NodeEntry)
    : outcome (option (nat * NodeEntry)) :=
  match stale_from None 0 v with
  | Some s => Ret (Some s)
  | None =>
      let slot n := classify_prefix index last limit (id n) in
      if forallb (fun n => slot n <? kMaxSlots) (e :: v) then
        match worst_in (in_slot slot (slot e) v) with
        | Some w => Ret (if is_worse_than w.2 e then Some w else None)
        | None =>
            Ret (victim_of ((fun s => in_slot slot (Z.of_nat s) v) <$> seq 0 (Z.to_nat kMaxSlots)))
        end
      else UB
  end.

Definition replace_for_spread (index limit : Z) (e : NodeEntry) (t : RoutingTable)
    : outcome (bool * RoutingTable) :=
  b ← bucket_at index t;
  found ← displaced index limit (index + 1 =? zlen (buckets t)) e (live b);
  match found with
  | Some (k, old) =>
      t ← set_bucket index (mkBucket (<[k := e]> (live b)) (replacements b)) (with_ips (assign_ip old e (ip_count t)) t);
      Ret (true, t)
  | None => Ret (false, t)
  end.

Definition stash_replacement (index : Z) (e : NodeEntry) (t : RoutingTable) : outcome RoutingTable :=
  b ← bucket_at index t;
  let r := replacements b in
  match find_by_id r (id e) with
  | Some (k, old) => set_bucket index (mkBucket (live b) (<[k := e]> r)) (with_ips (assign_ip old e (ip_count t)) t)
  | None =>
      if zlen r <? kBucketSize then
        set_bucket index (mkBucket (live b) (r ++ [e])) (with_ips (ip_track (ip (endpoint e)) (ip_count t)) t)
      else
        match worst_of r with
        | Some (k, w) =>
            if is_worse_than w e
            then set_bucket index (mkBucket (live b) (<[k := e]> r)) (with_ips (assign_ip w e (ip_count t)) t)
            else Ret t
        | None => Ret t
        end
  end.

(** A live contact seen again: [now] is the time of a confirmed sighting. *)
Definition refresh (now : Z) (n e : NodeEntry) : NodeEntry :=
  let n := set_verified (verified n || verified e) n in
  if pinged e then record_success now (rtt e) (set_endpoint (endpoint e) n) else n.

(** A standby pulled out of the cache by a confirmed sighting. *)
Definition carry (now : Z) (n e : NodeEntry) : NodeEntry :=
  record_success now (rtt e)
    (set_verified (verified n || verified e) (set_endpoint (endpoint e) n)).

(** The end of [add_node], for an entry that is neither live nor parked and has passed
    the gate; [again] is the recursive call. *)
Definition place (again : NodeEntry -> RoutingTable -> outcome (bool * RoutingTable))
    (idx : Z) (e : NodeEntry) (t : RoutingTable) : outcome (bool * RoutingTable) :=
  b ← bucket_at idx t;
  let limit := bucket_limit idx t in
  if zlen (live b) <? limit then
    t ← set_bucket idx (mkBucket (live b ++ [e]) (replacements b))
          (with_ips (ip_track (ip (endpoint e)) (ip_count t)) t);
    Ret (true, t)
  else
    split ← (if confirmed e then can_split idx e t else Ret false);
    if (split : bool) then
      t ← split_bucket t;
      '(added, t) ← again e t;
      t ← fill_from_replacements idx t;
      t ← fill_from_replacements (idx + 1) t;
      Ret (added, t)
    else
      '(replaced, t) ←
        (if confirmed e then replace_for_spread idx limit e t else Ret (false, t));
      if (replaced : bool) then Ret (true, t)
      else t ← stash_replacement idx e t; Ret (false, t).

(** Every split makes the table one bucket deeper, so [kBucketCount] bounds the
    recursion. *)
Fixpoint add_node (fuel : nat) (now : Z) (e : NodeEntry) (t : RoutingTable)
    : outcome (bool * RoutingTable) :=
  match fuel with
  | O => UB
  | S fuel =>
      if bool_decide (id e = self t) then Ret (false, t)
      else
        let idx := bucket_index (id e) t in
        b ← bucket_at idx t;
        match find_by_id (live b) (id e) with
        | Some (k, n) =>
            let m := if pinged e && negb (bool_decide (ip (endpoint n) = ip (endpoint e)))
                     then assign_ip n e (ip_count t) else ip_count t in
            t ← set_bucket idx (mkBucket (<[k := refresh now n e]> (live b)) (replacements b))
                  (with_ips m t);
            Ret (true, t)
        | None =>
            let parked := find_by_id (replacements b) (id e) in
            if bool_decide (is_Some parked) && negb (pinged e) then Ret (false, t)
            else
              '(e, promoted, t) ←
                match parked with
                | Some (k, n) =>
                    t ← set_bucket idx (mkBucket (live b) (delete k (replacements b)))
                          (with_ips (ip_untrack (ip (endpoint n)) (ip_count t)) t);
                    Ret (carry now n e, true, t)
                | None => Ret (e, false, t)
                end;
              '(pass, t) ← (if (promoted : bool) then Ret (true, t) else passes_ip_diversity b e t);
              if negb pass then Ret (false, t)
              else
                place (add_node fuel now) idx e t
        end
  end.

Definition add (now : Z) (e : NodeEntry) (t : RoutingTable) : outcome (bool * RoutingTable) :=
  add_node (Z.to_nat kBucketCount) now e t.

Definition heard_about (now : Z) (i : NodeId) (ep : Address) (v : bool) (t : RoutingTable)
    : outcome RoutingTable :=
  if bool_decide (i = self t) then Ret t
  else '(_, t) ← add now (set_verified v (new_entry i ep)) t; Ret t.

Definition node_seen (now : Z) (i : NodeId) (ep : Address) (sample : Z) (v : bool) (t : RoutingTable)
    : outcome (bool * RoutingTable) :=
  if bool_decide (i = self t) then Ret (false, t)
  else add now (record_success now sample (set_verified v (new_entry i ep))) t.

Definition spent (n : NodeEntry) : bool := negb (pinged n) || (kMaxFailCount <=? fail_count n).

Definition node_failed (i : NodeId) (ep : Address) (t : RoutingTable) : outcome RoutingTable :=
  let idx := bucket_index i t in
  b ← bucket_at idx t;
  match find_by_id (live b) i with
  | None =>
      match find_by_id (replacements b) i with
      | Some (k, n) =>
          if bool_decide (endpoint n = ep) then
            let n' := record_failure n in
            if spent n'
            then set_bucket idx (mkBucket (live b) (delete k (replacements b)))
                   (with_ips (ip_untrack (ip (endpoint n)) (ip_count t)) t)
            else set_bucket idx (mkBucket (live b) (<[k := n']> (replacements b))) t
          else Ret t
      | None => Ret t
      end
  | Some (k, n) =>
      if negb (bool_decide (endpoint n = ep)) then Ret t
      else
        let n' := record_failure n in
        match replacements b with
        | _ :: _ =>
            t ← set_bucket idx (mkBucket (delete k (live b)) (replacements b))
                  (with_ips (ip_untrack (ip (endpoint n)) (ip_count t)) t);
            t ← fill_from_replacements idx t;
            Ret (prune_empty_back t)
        | [] =>
            t ← (if spent n'
                 then set_bucket idx (mkBucket (delete k (live b)) (replacements b))
                        (with_ips (ip_untrack (ip (endpoint n)) (ip_count t)) t)
                 else set_bucket idx (mkBucket (<[k := n']> (live b)) (replacements b)) t);
            Ret (prune_empty_back t)
        end
  end.

(** ** Queries *)

(** Nearer to the target, or as near. *)
Definition near_rel (target : NodeId) (a b : NodeEntry) : Prop :=
  closer_to (id b) (id a) target = false.
#[global] Instance near_rel_dec target a b : Decision (near_rel target a b).
Proof. unfold near_rel. apply _. Defined.

Definition eligible (include_unconfirmed : bool) (b : Bucket) : list NodeEntry :=
  List.filter (fun n => include_unconfirmed || confirmed n) (live b).

(** The walk over the shallower buckets, nearest first, until there are enough. *)
Fixpoint gather_shallow (count : Z) (inc : bool) (result : list NodeEntry) (bs : list Bucket)
    : list NodeEntry :=
  match bs with
  | [] => result
  | b :: bs =>
      if zlen result <? count then gather_shallow count inc (result ++ eligible inc b) bs
      else result
  end.

(** [std::partial_sort] leaves the [count] nearest, in order; the rest is cut off. The
    [reserve] before it only preallocates: a count past the capacity of a vector, where
    it throws, is not modelled. *)
Definition find_closest (target : NodeId) (count : Z) (inc : bool) (t : RoutingTable)
    : outcome (list NodeEntry) :=
  if count =? 0 then Ret []
  else
    let start := bucket_index target t in
    b ← bucket_at start t;
    let result := eligible inc b in
    let result := if zlen result <? count
                  then result ++ concat (eligible inc <$> zdrop (start + 1) (buckets t)) else result in
    let result := gather_shallow count inc result (rev (ztake start (buckets t))) in
    Ret (ztake (Z.min count (zlen result)) (merge_sort (near_rel target) result)).

(** The live contacts in the order of the scan, each with its bucket and position. *)
Definition positions (t : RoutingTable) : list (nat * nat * NodeEntry) :=
  concat (imap (fun i b => imap (fun k n => (i, k, n)) (live b)) (buckets t)).

Definition older (best : option (nat * nat * NodeEntry)) (p : nat * nat * NodeEntry)
    : option (nat * nat * NodeEntry) :=
  match best with
  | None => Some p
  | Some m => if last_seen p.2 <? last_seen m.2 then Some p else best
  end.

Definition next_to_refresh (now : Z) (t : RoutingTable)
    : outcome (option NodeEntry * RoutingTable) :=
  match foldl older None (positions t) with
  | None => Ret (None, t)
  | Some (i, k, n) =>
      b ← bucket_at (Z.of_nat i) t;
      let n := set_last_seen now n in
      t ← set_bucket (Z.of_nat i) (mkBucket (<[k := n]> (live b)) (replacements b)) t;
      Ret (Some n, t)
  end.

Definition size (t : RoutingTable) : Z := foldr (fun b n => zlen (live b) + n) 0 (buckets t).

Definition good_contacts (t : RoutingTable) : list NodeEntry :=
  concat (eligible false <$> buckets t).

Fixpoint load_contacts (now : Z) (contacts : list NodeEntry) (t : RoutingTable)
    : outcome RoutingTable :=
  match contacts with
  | [] => Ret t
  | n :: contacts => '(_, t) ← add now n t; load_contacts now contacts t
  end.

Definition all_contacts (t : RoutingTable) : list NodeEntry :=
  concat ((fun b => live b ++ replacements b) <$> buckets t).

Definition set_self (now : Z) (i : NodeId) (t : RoutingTable) : outcome RoutingTable :=
  if bool_decide (i = self t) then Ret t
  else load_contacts now (all_contacts t) (new_table i (extended t)).

Definition count_public (ns : list NodeEntry) : gmap IpAddress Z :=
  foldl (fun m n => if is_public_address (ip (endpoint n))
                    then <[ip (endpoint n) := default 0 (m !! ip (endpoint n)) + 1]> m else m) ∅ ns.

Definition ip_index_consistent (t : RoutingTable) : bool :=
  bool_decide (count_public (all_contacts t) = ip_count t).

End routing_table.
