(* ===== verification/TableInvariant.v ===== *)
(** The invariant of the routing table.

    A table is [sound] when every contact sits in the bucket its shared prefix with the
    own id selects, no bucket holds an id twice, the own id is absent and the per-IP
    index counts exactly the contacts; it is [table_ok] when the live sets and the
    standby caches also keep their limits. Every operation keeps it and returns, with
    one exception that [standby_moved_ub] shows: a confirmed sighting of a standby at
    an endpoint another contact has. *)

From S2P Require Import Prelude Text PeerId Address DhtId RoutingTable.
Import dht_id node_entry bep42 routing_table.

Definition contacts (b : Bucket) : list NodeEntry := live b ++ replacements b.

(** * The per-IP index *)
Section Index.

(** The entry of the index for the address [a] when the table holds [ns]. *)
Definition tally (a : IpAddress) (ns : list NodeEntry) : option Z :=
  let k := zlen (filter (fun n => ip (endpoint n) = a) ns) in
  if is_public_address a && (0 <? k) then Some k else None.

Definition indexed (m : gmap IpAddress Z) (ns : list NodeEntry) : Prop :=
  forall a, m !! a = tally a ns.

#[global] Instance indexed_perm : Proper ((=) ==> (≡ₚ) ==> iff) indexed.
Proof.
  intros m ? <- ns ns' E. unfold indexed, tally, zlen.
  assert (forall a, length (filter (fun n => ip (endpoint n) = a) ns)
                    = length (filter (fun n => ip (endpoint n) = a) ns')) as L
    by (intros a; apply Permutation_length; by rewrite E).
  split; intros H a; by rewrite H, L.
Qed.

Lemma tally_cons a n ns :
  tally a (n :: ns) =
    if bool_decide (ip (endpoint n) = a) && is_public_address a
    then Some (default 0 (tally a ns) + 1) else tally a ns.
Proof.
  unfold tally. rewrite filter_cons. case_decide;
    rewrite ?bool_decide_eq_true_2, ?bool_decide_eq_false_2 by done.
  - destruct (is_public_address a); cbn [andb]; [|done].
    rewrite zlen_cons. pose proof (zlen_nonneg (filter (fun n => ip (endpoint n) = a) ns)).
    rewrite (proj2 (Z.ltb_lt 0 (1 + _))) by lia.
    destruct (Z.ltb_spec 0 (zlen (filter (fun n => ip (endpoint n) = a) ns))); cbn; f_equal; lia.
  - done.
Qed.

Lemma indexed_track m n ns :
  indexed m ns -> indexed (ip_track (ip (endpoint n)) m) (n :: ns).
Proof.
  intros H a. rewrite tally_cons, <- H. unfold ip_track.
  destruct (decide (ip (endpoint n) = a)) as [<-|Hne].
  - rewrite bool_decide_eq_true_2 by done. cbn [andb].
    destruct (is_public_address _); [by rewrite lookup_insert_eq|done].
  - rewrite bool_decide_eq_false_2 by done. cbn [andb].
    destruct (is_public_address _); [by rewrite lookup_insert_ne|done].
Qed.

Lemma tally_pos a ns k : tally a ns = Some k -> 0 < k.
Proof.
  unfold tally. destruct (is_public_address a); cbn; [|done].
  destruct (Z.ltb_spec 0 (zlen (filter (fun n => ip (endpoint n) = a) ns))); by intros [= <-].
Qed.

Lemma indexed_untrack m n ns :
  indexed m (n :: ns) -> indexed (ip_untrack (ip (endpoint n)) m) ns.
Proof.
  intros H a. specialize (H a) as Ha. rewrite tally_cons in Ha. unfold ip_untrack.
  specialize (H (ip (endpoint n))) as Hn. rewrite tally_cons, bool_decide_eq_true_2 in Hn by done.
  destruct (is_public_address (ip (endpoint n))) eqn:Hp; cbn [andb negb] in *.
  - rewrite Hn. destruct (decide (ip (endpoint n) = a)) as [<-|Hne].
    + destruct (tally (ip (endpoint n)) ns) as [k|] eqn:E; cbn in *.
      * pose proof (tally_pos _ _ _ E). destruct (Z.leb_spec (k + 1 - 1) 0); [lia|].
        rewrite lookup_insert_eq. f_equal. lia.
      * apply lookup_delete_eq.
    + rewrite bool_decide_eq_false_2 in Ha by done. cbn [andb] in Ha.
      case_match; [by rewrite lookup_delete_ne|by rewrite lookup_insert_ne].
  - destruct (decide (ip (endpoint n) = a)) as [<-|Hne].
    + by rewrite Hp, andb_false_r in Ha.
    + by rewrite bool_decide_eq_false_2 in Ha by done.
Qed.

Lemma indexed_assign m old e ns :
  indexed m (old :: ns) -> indexed (assign_ip old e m) (e :: ns).
Proof. intros H. by apply indexed_track, indexed_untrack. Qed.

Lemma indexed_none m ns a :
  indexed m ns -> m !! a = None <-> (is_public_address a = true -> forall n, n ∈ ns -> ip (endpoint n) <> a).
Proof.
  intros H. rewrite H. unfold tally. destruct (is_public_address a); cbn [andb]; [|naive_solver].
  destruct (Z.ltb_spec 0 (zlen (filter (fun n => ip (endpoint n) = a) ns))) as [Hk|Hk].
  - split; [done|]. intros Hn. exfalso. destruct (filter _ ns) as [|x l] eqn:E; [done|].
    assert (x ∈ filter (fun n => ip (endpoint n) = a) ns) as [? ?]%list_elem_of_filter by (rewrite E; left).
    by eapply Hn.
  - split; [|done]. intros _ _ n Hn Ha.
    assert (n ∈ filter (fun n => ip (endpoint n) = a) ns) as Hin by by apply list_elem_of_filter.
    destruct (filter _ ns); [by apply elem_of_nil in Hin|rewrite zlen_cons in Hk; pose proof (zlen_nonneg l); lia].
Qed.

End Index.

(** * The invariant *)

Definition index (s : NodeId) (nb : Z) (x : NodeId) : Z := Z.min (shared_prefix_bits s x) (nb - 1).

Definition contact_ok (s : NodeId) (nb i : Z) (n : NodeEntry) : Prop :=
  id_ok (id n) /\ id n <> s /\ index s nb (id n) = i.

Definition bucket_sound (s : NodeId) (nb i : Z) (b : Bucket) : Prop :=
  (forall n, n ∈ contacts b -> contact_ok s nb i n) /\ NoDup (id <$> contacts b).

Definition sound (t : RoutingTable) : Prop :=
  id_ok (self t) /\ 1 <= zlen (buckets t) < kBucketCount
  /\ (forall i b, zlookup (buckets t) i = Some b -> bucket_sound (self t) (zlen (buckets t)) i b)
  /\ indexed (ip_count t) (all_contacts t).

Definition within (t : RoutingTable) (i : Z) : Prop :=
  forall b, zlookup (buckets t) i = Some b ->
    zlen (live b) <= bucket_limit i t /\ zlen (replacements b) <= kBucketSize.

Definition table_ok (t : RoutingTable) : Prop := sound t /\ forall i, within t i.

(** ** Buckets by index *)

Lemma bucket_at_lookup t i b : zlookup (buckets t) i = Some b -> bucket_at i t = Ret b.
Proof. unfold bucket_at. by intros ->. Qed.

Lemma all_contacts_split t i b :
  zlookup (buckets t) i = Some b ->
  exists rest, all_contacts t ≡ₚ contacts b ++ rest
    /\ forall b' m, all_contacts (mkTable (self t) (extended t) (<[Z.to_nat i := b']> (buckets t)) m)
                    ≡ₚ contacts b' ++ rest.
Proof.
  intros H. pose proof (zlookup_range _ _ _ H) as R. unfold zlookup in H.
  destruct (Z.leb_spec 0 i); [|lia]. unfold all_contacts. cbn [buckets].
  exists (concat ((fun b => live b ++ replacements b) <$> (take (Z.to_nat i) (buckets t) ++ drop (S (Z.to_nat i)) (buckets t)))).
  assert (forall b', <[Z.to_nat i := b']> (buckets t)
           = take (Z.to_nat i) (buckets t) ++ b' :: drop (S (Z.to_nat i)) (buckets t)) as E
    by (intros b'; apply insert_take_drop; unfold zlen in R; lia).
  assert (forall b', concat ((fun b => live b ++ replacements b) <$> <[Z.to_nat i := b']> (buckets t))
    ≡ₚ contacts b' ++ concat ((fun b => live b ++ replacements b) <$> (take (Z.to_nat i) (buckets t) ++ drop (S (Z.to_nat i)) (buckets t)))) as P.
  { intros b'. rewrite E, !fmap_app, !concat_app, fmap_cons. cbn [concat]. unfold contacts.
    apply Permutation_app_swap_app. }
  split; [|intros; apply P]. specialize (P b). by rewrite list_insert_id in P.
Qed.

Lemma elem_buckets (f : Bucket -> list NodeEntry) bs n :
  n ∈ concat (f <$> bs) <-> exists i b, zlookup bs i = Some b /\ n ∈ f b.
Proof.
  rewrite list_elem_of_In, in_concat. split.
  - intros (l & [k Hk]%list_elem_of_In%list_elem_of_lookup & Hn).
    apply list_lookup_fmap_Some in Hk as (b & -> & Hb).
    exists (Z.of_nat k), b. unfold zlookup. destruct (Z.leb_spec 0 (Z.of_nat k)); [|lia].
    rewrite Nat2Z.id. split; [done|by apply list_elem_of_In].
  - intros (i & b & Hb & Hn). exists (f b). split; [|by apply list_elem_of_In].
    apply list_elem_of_In, list_elem_of_fmap. exists b. split; [done|].
    unfold zlookup in Hb. destruct (Z.leb_spec 0 i); [|done]. by eapply list_elem_of_lookup_2.
Qed.

Lemma elem_all t n :
  n ∈ all_contacts t <-> exists i b, zlookup (buckets t) i = Some b /\ n ∈ contacts b.
Proof. apply (elem_buckets contacts). Qed.

(** ** Replacing a bucket *)

Definition updated (t : RoutingTable) (i : Z) (b' : Bucket) (t' : RoutingTable) : Prop :=
  self t' = self t /\ extended t' = extended t /\ zlen (buckets t') = zlen (buckets t)
  /\ forall j, zlookup (buckets t') j = if j =? i then Some b' else zlookup (buckets t) j.

Lemma put t i b b' m :
  sound t -> zlookup (buckets t) i = Some b ->
  bucket_sound (self t) (zlen (buckets t)) i b' ->
  (forall rest, indexed (ip_count t) (contacts b ++ rest) -> indexed m (contacts b' ++ rest)) ->
  returns (set_bucket i b' (with_ips m t)) (fun t' => sound t' /\ updated t i b' t').
Proof.
  intros (Hs & Hn & Hb & Hx) Hi Hb' Hm. pose proof (zlookup_range _ _ _ Hi) as R.
  unfold set_bucket, zupdate, with_ips. cbn [buckets self extended ip_count].
  destruct (Z.leb_spec 0 i), (Z.ltb_spec i (zlen (buckets t))); try lia. cbn [andb returns].
  assert (zlen (<[Z.to_nat i:=b']> (buckets t)) = zlen (buckets t)) as L
    by (unfold zlen; by rewrite length_insert).
  destruct (all_contacts_split t i b Hi) as (rest & E & E').
  split; [|split_and!; try done; intros j; by apply zlookup_update].
  unfold sound. cbn [self buckets ip_count]. rewrite L. split_and!; try done; try lia.
  - intros j bj. rewrite zlookup_update by done. destruct (Z.eqb_spec j i) as [->|].
    + by intros [= <-].
    + apply Hb.
  - rewrite E'. apply Hm. by rewrite <- E.
Qed.

Lemma put_within t i b' t' :
  updated t i b' t' -> (forall j, j <> i -> within t j) ->
  zlen (live b') <= bucket_limit i t -> zlen (replacements b') <= kBucketSize ->
  forall j, within t' j.
Proof.
  intros (Es & Ee & El & Hl) Hw H1 H2 j b. rewrite Hl. unfold bucket_limit. rewrite Ee.
  destruct (Z.eqb_spec j i) as [->|Hne]; [by intros [= <-]|]. by apply Hw.
Qed.

Lemma bucket_index_eq t x : bucket_index x t = index (self t) (zlen (buckets t)) x.
Proof.
  unfold bucket_index, index. case_match; lia.
Qed.

(** * Choosing an entry *)

Lemma insert_perm {A} (l : list A) k x y :
  l !! k = Some x -> <[k := y]> l ≡ₚ y :: delete k l.
Proof.
  intros H. pose proof (lookup_lt_Some _ _ _ H).
  rewrite insert_take_drop, delete_take_drop by done. symmetry. apply Permutation_middle.
Qed.

Lemma find_by_id_Some v i k n :
  find_by_id v i = Some (k, n) -> v !! k = Some n /\ id n = i.
Proof. intros (? & ? & _)%list_find_Some. done. Qed.

Lemma find_by_id_None v i n : find_by_id v i = None -> n ∈ v -> id n <> i.
Proof. intros H%list_find_None Hn. by eapply Forall_forall in H. Qed.

Lemma choose_from (f : (nat * NodeEntry) -> NodeEntry -> bool)
    (go : (nat * NodeEntry) -> nat -> list NodeEntry -> nat * NodeEntry) full :
  (forall w k v, go w k v = match v with [] => w | n :: v => go (if f w n then (k, n) else w) (S k) v end) ->
  forall v k w, drop k full = v -> full !! w.1 = Some w.2 -> full !! (go w k v).1 = Some (go w k v).2.
Proof.
  intros Hgo. induction v as [|n v IH]; intros k w Hd Hw; rewrite Hgo; [done|].
  assert (full !! k = Some n) as Hk
    by (rewrite <- (Nat.add_0_r k), <- lookup_drop, Hd; done).
  apply IH; [|by destruct (f w n)].
  rewrite <- Nat.add_1_r, <- drop_drop, Hd. done.
Qed.

Lemma worst_of_Some v k n : worst_of v = Some (k, n) -> v !! k = Some n.
Proof.
  unfold worst_of. destruct v as [|x v]; [done|]. intros E%(inj Some).
  pose proof (choose_from (fun w n => is_worse_than n w.2) worst_from (x :: v)
    ltac:(intros ? ? []; done) (x :: v) 0 (0%nat, x) eq_refl eq_refl) as H.
  by rewrite E in H.
Qed.

Lemma best_of_Some v k n : best_of v = Some (k, n) -> v !! k = Some n.
Proof.
  unfold best_of. destruct v as [|x v]; [done|]. intros E%(inj Some).
  pose proof (choose_from (fun w n => is_worse_than w.2 n) best_from (x :: v)
    ltac:(intros ? ? []; done) (x :: v) 0 (0%nat, x) eq_refl eq_refl) as H.
  by rewrite E in H.
Qed.

Lemma stale_from_Some full v : forall k s,
  drop k full = v -> (forall j n, s = Some (j, n) -> full !! j = Some n) ->
  forall j n, stale_from s k v = Some (j, n) -> full !! j = Some n.
Proof.
  induction v as [|x v IH]; intros k s Hd Hs; cbn [stale_from]; [done|].
  assert (full !! k = Some x) as Hk
    by (rewrite <- (Nat.add_0_r k), <- lookup_drop, Hd; done).
  apply IH; [by rewrite <- Nat.add_1_r, <- drop_drop, Hd|].
  case_match; [|done]. by intros j n [= <- <-].
Qed.

Lemma in_slot_Some slot s v p : p ∈ in_slot slot s v -> v !! p.1 = Some p.2.
Proof.
  unfold in_slot. rewrite list_elem_of_In, filter_In, <- list_elem_of_In.
  intros [(k & x & -> & Hk)%elem_of_lookup_imap _]. done.
Qed.

Lemma foldl_choose (f : (nat * NodeEntry) -> (nat * NodeEntry) -> nat * NodeEntry) v :
  (forall w q, f w q = q \/ f w q = w) -> forall w, foldl f w v ∈ w :: v.
Proof.
  intros Hf. induction v as [|q v IH]; intros w; cbn [foldl]; [left|].
  destruct (Hf w q) as [-> | ->]; specialize (IH q) as Hq; specialize (IH w).
  - by right.
  - apply elem_of_cons in IH as [->|]; [left|by right; right].
Qed.

Lemma worst_in_elem v p : worst_in v = Some p -> p ∈ v.
Proof.
  unfold worst_in. destruct v as [|q v]; [done|]. intros <-%(inj Some).
  pose proof (foldl_choose (fun w q => if is_worse_than q.2 w.2 then q else w) (q :: v)
    ltac:(intros w r; cbn beta; destruct (is_worse_than r.2 w.2); auto) q) as H.
  apply elem_of_cons in H as [->|]; [left|done].
Qed.

Lemma victim_of_elem slots p : victim_of slots = Some p -> exists s, s ∈ slots /\ p ∈ s.
Proof.
  unfold victim_of. set (f := fun (v : option (nat * NodeEntry)) (q : nat * NodeEntry) =>
    match v with None => Some q | Some w => if is_worse_than q.2 w.2 then Some q else v end).
  assert (forall s v p, foldl f v s = Some p -> v = Some p \/ p ∈ s) as Hs.
  { induction s as [|q s IH]; intros v p'; cbn [foldl]; [by left|].
    intros [H|H]%IH; [|by right; right]. unfold f in H. destruct v as [w|].
    - destruct (is_worse_than q.2 w.2); injection H as ->; [right; left|by left].
    - injection H as ->. right. left. }
  set (g := fun v (s : list (nat * NodeEntry)) => if 1 <? zlen s then foldl f v s else v).
  assert (forall l v, foldl g v l = Some p -> v = Some p \/ exists s, s ∈ l /\ p ∈ s) as Hl.
  { induction l as [|s l IH]; intros v; cbn [foldl]; [by left|].
    intros [H|(s' & ? & ?)]%IH; [|right; exists s'; split; [by right|done]].
    unfold g in H. case_match; [|by left].
    apply Hs in H as [H|H]; [by left|right; exists s; split; [left|done]]. }
  intros [H|H]%Hl; [done|exact H].
Qed.

(** * Moving contacts *)

Lemma bucket_sound_sub s nb i b b' :
  contacts b' ⊆+ contacts b -> bucket_sound s nb i b -> bucket_sound s nb i b'.
Proof.
  intros Hsub [Hc Hd]. split.
  - intros n Hn. apply Hc. by eapply elem_of_submseteq.
  - apply (fmap_submseteq id), submseteq_Permutation in Hsub as [k E].
    rewrite E in Hd. by apply NoDup_app in Hd as [? _].
Qed.

Lemma sound_bucket t i b :
  sound t -> zlookup (buckets t) i = Some b -> bucket_sound (self t) (zlen (buckets t)) i b.
Proof. intros (_ & _ & Hb & _). apply Hb. Qed.

Lemma put_same t i b b' :
  sound t -> zlookup (buckets t) i = Some b -> contacts b' ≡ₚ contacts b ->
  returns (set_bucket i b' t) (fun t' => sound t' /\ updated t i b' t').
Proof.
  intros Ht Hi E. assert (t = with_ips (ip_count t) t) as Et by by destruct t.
  rewrite Et at 1. eapply put; try done.
  - apply (bucket_sound_sub _ _ _ b); [by rewrite E|by apply sound_bucket].
  - intros rest. by rewrite E.
Qed.

Lemma fill_loop_spec fuel limit : forall b,
  let b' := fill_loop fuel limit b in
  contacts b' ≡ₚ contacts b
  /\ (zlen (live b) <= limit -> zlen (live b') <= limit)
  /\ zlen (replacements b') <= zlen (replacements b)
  /\ live b `prefix_of` live b'.
Proof.
  induction fuel as [|fuel IH]; intros b; cbn [fill_loop]; [done|].
  destruct (Z.ltb_spec (zlen (live b)) limit) as [Hl|]; [|done].
  destruct (best_of (replacements b)) as [[k n]|] eqn:E; [|done].
  apply best_of_Some in E. pose proof (delete_Permutation _ _ _ E) as P.
  specialize (IH (mkBucket (live b ++ [n]) (delete k (replacements b)))) as (IP & IL & IR & IX).
  cbn [live replacements] in *. split_and!.
  - rewrite IP. unfold contacts. cbn [live replacements]. rewrite <- (assoc_L (++)).
    apply Permutation_app_head. by symmetry.
  - intros _. apply IL. rewrite zlen_app, zlen_cons, zlen_nil. lia.
  - assert (zlen (replacements b) = 1 + zlen (delete k (replacements b))) as ->
      by (apply Permutation_length in P; unfold zlen; cbn in P; lia). lia.
  - etrans; [|exact IX]. by eexists.
Qed.

Lemma zlookup_is t i : 0 <= i < zlen (buckets t) -> exists b, zlookup (buckets t) i = Some b.
Proof. apply zlookup_lt. Qed.

Lemma fill_spec t i :
  sound t -> 0 <= i < zlen (buckets t) ->
  returns (fill_from_replacements i t) (fun t' =>
    sound t' /\ exists b b', zlookup (buckets t) i = Some b /\ updated t i b' t'
      /\ contacts b' ≡ₚ contacts b
      /\ (zlen (live b) <= bucket_limit i t -> zlen (live b') <= bucket_limit i t)
      /\ zlen (replacements b') <= zlen (replacements b)
      /\ live b `prefix_of` live b').
Proof.
  intros Ht Hi. destruct (zlookup_is t i Hi) as [b Hb].
  unfold fill_from_replacements. rewrite (bucket_at_lookup _ _ _ Hb). cbn [mbind outcome_bind].
  destruct (fill_loop_spec (length (replacements b)) (bucket_limit i t) b) as (P & L & R & X).
  eapply returns_mono; [by eapply put_same|]. intros t' [Ht' Hu]. split; [done|].
  by exists b, (fill_loop (length (replacements b)) (bucket_limit i t) b).
Qed.

(** Elements of the table after a bucket was replaced. *)
Lemma updated_elem t i b' t' n :
  updated t i b' t' -> n ∈ all_contacts t' ->
  n ∈ contacts b' \/ exists j b, j <> i /\ zlookup (buckets t) j = Some b /\ n ∈ contacts b.
Proof.
  intros (_ & _ & _ & Hl) (j & b & Hj & Hn)%elem_all. rewrite Hl in Hj.
  destruct (Z.eqb_spec j i) as [->|]; [left; congruence|right; eauto].
Qed.

Lemma updated_sub t i b b' t' n :
  updated t i b' t' -> zlookup (buckets t) i = Some b -> (forall n, n ∈ contacts b' -> n ∈ contacts b) ->
  n ∈ all_contacts t' -> n ∈ all_contacts t.
Proof.
  intros Hu Hb Hs [Hn|(j & bj & _ & Hj & Hn)]%(updated_elem _ _ _ _ _ Hu); apply elem_all; eauto.
Qed.

Lemma fill_ok t i :
  table_ok t -> 0 <= i < zlen (buckets t) ->
  returns (fill_from_replacements i t) (fun t' =>
    table_ok t' /\ self t' = self t /\ zlen (buckets t') = zlen (buckets t)
    /\ (forall n, n ∈ all_contacts t' -> n ∈ all_contacts t)).
Proof.
  intros [Ht Hw] Hi. eapply returns_mono; [by apply fill_spec|].
  intros t' (Ht' & b & b' & Hb & Hu & P & L & R & _). split_and!; [split; [done|]|by apply Hu..|].
  - destruct (Hw i b Hb). eapply put_within; try done; [by apply L|lia].
  - intros n. eapply updated_sub; try done. intros m. by rewrite P.
Qed.

(** ** Trimming *)

Lemma spill_loop_spec fuel limit : forall b,
  (length (live b) <= fuel)%nat -> 0 <= limit ->
  let b' := spill_loop fuel limit b in
  contacts b' ≡ₚ contacts b /\ zlen (live b') <= limit.
Proof.
  induction fuel as [|fuel IH]; intros b Hf Hl; cbn [spill_loop].
  - destruct (live b) eqn:E; [|cbn in Hf; lia]. cbv zeta. by rewrite zlen_nil.
  - destruct (Z.ltb_spec limit (zlen (live b))) as [Hlt|]; [|done].
    destruct (worst_of (live b)) as [[k n]|] eqn:E.
    + apply worst_of_Some in E. pose proof (delete_Permutation _ _ _ E) as P.
      edestruct (IH (mkBucket (delete k (live b)) (replacements b ++ [n]))) as [IP IL]; [|done|].
      { cbn [live]. apply Permutation_length in P. cbn in P. lia. }
      split; [|done]. rewrite IP. unfold contacts. cbn [live replacements].
      remember (delete k (live b)) as d. rewrite P, (assoc_L (++)). by rewrite (comm (++) _ [n]).
    + unfold worst_of in E. destruct (live b); [rewrite zlen_nil in Hlt; lia|done].
Qed.

Lemma cap_loop_spec fuel : forall r m,
  (length r <= fuel)%nat ->
  let '(r', m') := cap_loop fuel r m in
  r' ⊆+ r /\ zlen r' <= kBucketSize
  /\ forall ns, indexed m (r ++ ns) -> indexed m' (r' ++ ns).
Proof.
  induction fuel as [|fuel IH]; intros r m Hf; cbn [cap_loop].
  - destruct r; [done|cbn in Hf; lia].
  - destruct (Z.ltb_spec kBucketSize (zlen r)) as [Hlt|]; [|done].
    destruct (worst_of r) as [[k n]|] eqn:E.
    + apply worst_of_Some in E. pose proof (delete_Permutation _ _ _ E) as P.
      specialize (IH (delete k r) (ip_untrack (ip (endpoint n)) m)
        ltac:(apply Permutation_length in P; cbn in P; lia)).
      destruct (cap_loop _ _ _) as [r' m']. destruct IH as (I1 & I2 & I3). split_and!; [|done|].
      * etrans; [exact I1|]. remember (delete k r) as d. rewrite P. by apply submseteq_cons.
      * intros ns Hx. apply I3, indexed_untrack. remember (delete k r) as d. by rewrite P in Hx.
    + unfold worst_of in E. destruct r; [unfold kBucketSize in Hlt; rewrite zlen_nil in Hlt; lia|done].
Qed.

Lemma bucket_limit_nonneg i t : kBucketSize <= bucket_limit i t <= kMaxBucketLimit.
Proof. unfold bucket_limit, kMaxBucketLimit, kBucketSize. repeat case_match; lia. Qed.

Lemma trim_ok t i :
  sound t -> 0 <= i < zlen (buckets t) ->
  returns (trim_to_limit i t) (fun t' =>
    sound t' /\ exists b b', zlookup (buckets t) i = Some b /\ updated t i b' t'
      /\ contacts b' ⊆+ contacts b
      /\ zlen (live b') <= bucket_limit i t /\ zlen (replacements b') <= kBucketSize).
Proof.
  intros Ht Hi. destruct (zlookup_is t i Hi) as [b Hb].
  unfold trim_to_limit. rewrite (bucket_at_lookup _ _ _ Hb). cbn [mbind outcome_bind].
  pose proof (bucket_limit_nonneg i t). unfold kBucketSize in *.
  destruct (spill_loop_spec (length (live b)) (bucket_limit i t) b) as [P L]; [done|lia|].
  set (b1 := spill_loop _ _ b) in *.
  pose proof (cap_loop_spec (length (replacements b1)) (replacements b1) (ip_count t) (le_n _)) as C.
  destruct (cap_loop _ _ _) as [r m]. destruct C as (C1 & C2 & C3).
  assert (contacts (mkBucket (live b1) r) ⊆+ contacts b) as S
    by (rewrite <- P; by apply submseteq_app).
  eapply returns_mono; [eapply put; [done|done| |]|].
  - eapply bucket_sound_sub; [exact S|by apply sound_bucket].
  - intros ns Hx. unfold contacts. cbn [live replacements].
    rewrite <- (assoc_L (++)), (Permutation_app_swap_app (live b1)). apply C3.
    rewrite <- P in Hx. unfold contacts in Hx.
    by rewrite <- (assoc_L (++)), (Permutation_app_swap_app (live b1)) in Hx.
  - intros t' [Ht' Hu]. split; [done|]. by exists b, (mkBucket (live b1) r).
Qed.

(** ** Pruning *)

Lemma prune_loop_spec fuel : forall bs,
  exists k, bs = prune_loop fuel bs ++ replicate k empty_bucket
            /\ (1 <= zlen bs -> 1 <= zlen (prune_loop fuel bs)).
Proof.
  induction fuel as [|fuel IH]; intros bs; cbn [prune_loop].
  { exists 0%nat. by rewrite app_nil_r. }
  destruct (last bs) as [[[|? ?] [|? ?]]|] eqn:E;
    try (exists 0%nat; by rewrite app_nil_r).
  destruct (Z.ltb_spec 1 (zlen bs)) as [Hl|]; [|exists 0%nat; by rewrite app_nil_r].
  apply last_Some in E as [l ->]. rewrite removelast_last. destruct (IH l) as (k & E & H).
  exists (S k). rewrite zlen_app, zlen_cons, zlen_nil in Hl. split; [|intros _; apply H; lia].
  rewrite replicate_S_end, (assoc_L (++)). by rewrite <- E.
Qed.

Lemma zlookup_app_l {A} (l k : list A) i x : zlookup l i = Some x -> zlookup (l ++ k) i = Some x.
Proof. unfold zlookup. case_match; [|done]. apply lookup_app_l_Some. Qed.

(** Fewer, or more, buckets leave a contact of a bucket before the last in its place. *)
Lemma contact_ok_nb s nb nb' i n :
  contact_ok s nb i n -> (i <= nb' - 1 <= nb - 1 \/ i < nb - 1 <= nb' - 1) -> contact_ok s nb' i n.
Proof. intros (? & ? & Hi) Hnb. split_and!; try done. unfold index in *. lia. Qed.

Lemma all_contacts_app t bs k m :
  buckets t = bs ++ replicate k empty_bucket ->
  all_contacts t = all_contacts (mkTable (self t) (extended t) bs m).
Proof.
  unfold all_contacts. intros ->. cbn [buckets].
  rewrite fmap_app, concat_app, fmap_replicate. replace (concat (replicate k _)) with (@nil NodeEntry).
  - by rewrite app_nil_r.
  - by induction k.
Qed.

Lemma prune_ok t :
  table_ok t ->
  table_ok (prune_empty_back t) /\ self (prune_empty_back t) = self t
  /\ zlen (buckets (prune_empty_back t)) <= zlen (buckets t)
  /\ all_contacts (prune_empty_back t) = all_contacts t.
Proof.
  intros [(Hs & Hn & Hb & Hx) Hw]. unfold prune_empty_back, set_buckets. cbn [self buckets].
  destruct (prune_loop_spec (length (buckets t)) (buckets t)) as (k & E & H1).
  set (bs := prune_loop _ _) in *.
  assert (zlen (buckets t) = zlen bs + Z.of_nat k) as L
    by (rewrite E at 1; by rewrite zlen_app, zlen_replicate).
  assert (forall i b, zlookup bs i = Some b -> zlookup (buckets t) i = Some b) as Hl
    by (intros i b ?; rewrite E; by apply zlookup_app_l).
  pose proof (all_contacts_app t bs k (ip_count t) E) as Ea.
  split_and!; [|done|lia|done]. split.
  - unfold sound. cbn [self buckets ip_count]. rewrite <- Ea. split_and!; try done; try lia.
    intros i b Hi. destruct (Hb i b (Hl i b Hi)) as [Hc Hd]. split; [|done].
    intros n Hin. eapply contact_ok_nb; [by apply Hc|].
    pose proof (zlookup_range _ _ _ Hi). lia.
  - intros i b Hi. apply (Hw i b (Hl i b Hi)).
Qed.

(** ** Splitting *)

Lemma filter_split_perm {A} (f : A -> bool) l :
  List.filter f l ++ List.filter (fun x => negb (f x)) l ≡ₚ l.
Proof.
  induction l as [|x l IH]; [done|]. cbn [List.filter].
  destruct (f x); cbn [negb app]; [by rewrite IH|].
  rewrite <- Permutation_middle. by rewrite IH.
Qed.

(** The table with its last bucket parted, before it is trimmed. *)
Lemma parted_sound t moved near far :
  sound t -> zlen (buckets t) < kBucketCount - 1 ->
  let last := zlen (buckets t) - 1 in
  zlookup (buckets t) last = Some moved ->
  contacts near ++ contacts far ≡ₚ contacts moved ->
  (forall n, n ∈ contacts near -> shared_prefix_bits (self t) (id n) <= last) ->
  (forall n, n ∈ contacts far -> last < shared_prefix_bits (self t) (id n)) ->
  let t' := set_buckets (ztake last (buckets t) ++ [near; far]) t in
  sound t' /\ zlen (buckets t') = zlen (buckets t) + 1
  /\ (forall j, j < last -> zlookup (buckets t') j = zlookup (buckets t) j)
  /\ zlookup (buckets t') last = Some near /\ zlookup (buckets t') (last + 1) = Some far
  /\ all_contacts t' ≡ₚ all_contacts t.
Proof.
  intros (Hs & Hn & Hb & Hx) Hlt last Hm P Hnear Hfar t'. subst t'. unfold set_buckets.
  cbn [buckets self].
  assert (zlen (ztake last (buckets t)) = last) as Lt by (apply zlen_ztake; lia).
  assert (buckets t = ztake last (buckets t) ++ [moved]) as E.
  { rewrite <- (ztake_zdrop last (buckets t)) at 1. f_equal. unfold zdrop, zlookup, zlen in *.
    destruct (Z.leb_spec 0 last); [|lia]. erewrite drop_S by done. f_equal.
    apply drop_ge. lia. }
  set (pre := ztake last (buckets t)) in *.
  assert (length pre = Z.to_nat last) as Ln by (unfold zlen in Lt; lia).
  assert (zlookup (pre ++ [near; far]) last = Some near) as Enear
    by (unfold zlookup; destruct (Z.leb_spec 0 last); [|lia];
        rewrite lookup_app_r by lia; by rewrite Ln, Nat.sub_diag).
  assert (zlookup (pre ++ [near; far]) (last + 1) = Some far) as Efar
    by (unfold zlookup; destruct (Z.leb_spec 0 (last + 1)); [|lia];
        rewrite lookup_app_r by lia; rewrite Ln;
        by replace (Z.to_nat (last + 1) - Z.to_nat last)%nat with 1%nat by lia).
  assert (forall j, j < last -> zlookup (pre ++ [near; far]) j = zlookup (buckets t) j) as Epre
    by (intros j Hj; rewrite E; unfold zlookup; destruct (Z.leb_spec 0 j); [|done];
        by rewrite !lookup_app_l by lia).
  assert (all_contacts (mkTable (self t) (extended t) (pre ++ [near; far]) (ip_count t))
          ≡ₚ all_contacts t) as Ea.
  { unfold all_contacts. cbn [buckets]. rewrite E. rewrite !fmap_app, !concat_app. f_equiv.
    cbn. rewrite !app_nil_r. exact P. }
  assert (zlen (pre ++ [near; far]) = zlen (buckets t) + 1) as Lb
    by (rewrite zlen_app, Lt; change (zlen [near; far]) with 2; lia).
  split_and!; [|done..]. unfold sound. cbn [self buckets ip_count]. rewrite Lb, Ea.
  unfold kBucketCount in *. split_and!; try done; try lia. destruct (Hb _ _ Hm) as [Hc Hd].
  rewrite <- P, fmap_app in Hd. apply NoDup_app in Hd as (Hd1 & _ & Hd2).
  intros j b Hj. pose proof (zlookup_range _ _ _ Hj) as Rj. rewrite Lb in Rj.
  destruct (Z.lt_trichotomy j last) as [Hj'|[->|Hj']].
  - rewrite Epre in Hj by done. destruct (Hb _ _ Hj) as [Hcj Hdj]. split; [|done].
    intros n Hin. eapply contact_ok_nb; [by apply Hcj|]. lia.
  - rewrite Enear in Hj. injection Hj as <-. split; [|done]. intros n Hin.
    destruct (Hc n) as (? & ? & Hi); [rewrite <- P; apply elem_of_app; by left|].
    specialize (Hnear n Hin). split_and!; try done. unfold index in *. lia.
  - assert (j = last + 1) as -> by lia. rewrite Efar in Hj. injection Hj as <-.
    split; [|done]. intros n Hin.
    destruct (Hc n) as (? & ? & Hi); [rewrite <- P; apply elem_of_app; by right|].
    specialize (Hfar n Hin). split_and!; try done. unfold index in *. lia.
Qed.

(** What an operation that only drops contacts does. *)
Definition shrinks (t t' : RoutingTable) : Prop :=
  self t' = self t /\ forall n, n ∈ all_contacts t' -> n ∈ all_contacts t.

Lemma split_ok t :
  table_ok t -> zlen (buckets t) < kBucketCount - 1 ->
  returns (split_bucket t) (fun t' =>
    table_ok t' /\ shrinks t t' /\ zlen (buckets t') = zlen (buckets t) + 1).
Proof.
  intros [Ht Hw] Hlt. assert (1 <= zlen (buckets t)) by apply Ht.
  destruct (zlookup_is t (zlen (buckets t) - 1)) as [moved Hm]; [lia|].
  unfold split_bucket. rewrite (bucket_at_lookup _ _ _ Hm). cbn [mbind outcome_bind fst snd].
  set (stays := fun n => bool_decide _). set (near := mkBucket _ _). set (far := mkBucket _ _).
  assert (forall f, List.filter f (live moved) ++ List.filter f (replacements moved)
                    = List.filter f (contacts moved)) as Ef by (intros f; symmetry; apply List.filter_app).
  destruct (parted_sound t moved near far Ht Hlt Hm) as (Hs1 & L1 & Hpre & Hnear & Hfar & Ha).
  { unfold contacts at 1 2. cbn [near far live replacements]. rewrite !Ef. apply filter_split_perm. }
  { unfold contacts. cbn [near live replacements]. rewrite Ef.
    intros n [_ Hn]%list_elem_of_In%filter_In. by apply bool_decide_eq_true in Hn. }
  { unfold contacts. cbn [far live replacements]. rewrite Ef.
    intros n [_ Hn]%list_elem_of_In%filter_In. change (negb (stays n) = true) in Hn. unfold stays in Hn.
    apply negb_true_iff, bool_decide_eq_false in Hn. lia. }
  set (t1 := set_buckets _ t) in *. set (last := zlen (buckets t) - 1) in *.
  eapply returns_bind; [apply trim_ok; [done|lia]|].
  intros t2 (Hs2 & b2 & b2' & Hb2 & Hu2 & S2 & W2 & V2).
  assert (zlen (buckets t2) = zlen (buckets t1)) as L2 by apply Hu2.
  eapply returns_mono; [apply trim_ok; [done|lia]|].
  intros t3 (Hs3 & b3 & b3' & Hb3 & Hu3 & S3 & W3 & V3). split_and!.
  - split; [done|]. eapply put_within; [exact Hu3| |done..]. intros j Hj.
    destruct Hu2 as (_ & E2 & _ & Hl2). intros b. rewrite Hl2. unfold bucket_limit. rewrite E2.
    destruct (Z.eqb_spec j last) as [->|Hj']; [by intros [= <-]|].
    intros Hb. pose proof (zlookup_range _ _ _ Hb). rewrite Hpre in Hb by lia. by apply Hw.
  - split; [etrans; [apply Hu3|apply Hu2]|]. intros n Hn. rewrite <- Ha.
    eapply updated_sub; [exact Hu2|exact Hb2|intros; by eapply elem_of_submseteq|].
    eapply updated_sub; [exact Hu3|exact Hb3|intros; by eapply elem_of_submseteq|done].
  - destruct Hu3 as (_ & _ & -> & _). lia.
Qed.

(** * Displacing and stashing *)

(** What an operation that may add [e] does. *)
Definition grows (e : NodeEntry) (t t' : RoutingTable) : Prop :=
  self t' = self t /\ forall n, n ∈ all_contacts t' -> n = e \/ n ∈ all_contacts t.

(** An entry the table has no contact for. *)
Definition newcomer (e : NodeEntry) (t : RoutingTable) : Prop :=
  id_ok (id e) /\ id e <> self t /\ forall n, n ∈ all_contacts t -> id n <> id e.

Lemma newcomer_not_in e t i b :
  newcomer e t -> zlookup (buckets t) i = Some b -> id e ∉ (id <$> contacts b).
Proof.
  intros (_ & _ & H) Hb (n & E & Hn)%list_elem_of_fmap. apply (H n); [apply elem_all; eauto|done].
Qed.

(** A bucket in which [e] replaces the contacts [gone]. *)
Lemma bucket_sound_swap t e i b b' gone rest :
  sound t -> newcomer e t -> i = bucket_index (id e) t -> zlookup (buckets t) i = Some b ->
  contacts b ≡ₚ gone ++ rest -> contacts b' ≡ₚ e :: rest ->
  bucket_sound (self t) (zlen (buckets t)) i b'.
Proof.
  intros Ht He -> Hb E E'. destruct (sound_bucket _ _ _ Ht Hb) as [Hc Hd].
  pose proof (newcomer_not_in _ _ _ _ He Hb) as Hne. split.
  - intros n. rewrite E', elem_of_cons. intros [->|Hn].
    + split_and!; [apply He|apply He|symmetry; apply bucket_index_eq].
    + apply Hc. rewrite E. apply elem_of_app. by right.
  - rewrite E in Hd, Hne. rewrite E'. cbn. rewrite fmap_app in Hd, Hne.
    apply NoDup_app in Hd as (_ & _ & Hd). constructor; [|done].
    intros Hin. apply Hne, elem_of_app. by right.
Qed.

Lemma swap_grows t e i b b' gone rest t' :
  updated t i b' t' -> zlookup (buckets t) i = Some b ->
  contacts b ≡ₚ gone ++ rest -> contacts b' ≡ₚ e :: rest -> grows e t t'.
Proof.
  intros Hu Hb E E'. split; [apply Hu|]. intros n [Hn|(j & bj & _ & Hj & Hn)]%(updated_elem _ _ _ _ _ Hu).
  - rewrite E', elem_of_cons in Hn. destruct Hn as [->|Hn]; [by left|right].
    apply elem_all. exists i, b. split; [done|]. rewrite E. apply elem_of_app. by right.
  - right. apply elem_all. eauto.
Qed.

(** Replacing a bucket by one where [e] takes the place of [old], or of nothing. *)
Lemma swap_ok t e i b b' old rest :
  table_ok t -> newcomer e t -> i = bucket_index (id e) t -> zlookup (buckets t) i = Some b ->
  contacts b ≡ₚ option_list old ++ rest -> contacts b' ≡ₚ e :: rest ->
  zlen (live b') <= bucket_limit i t -> zlen (replacements b') <= kBucketSize ->
  returns (set_bucket i b' (with_ips (match old with Some o => assign_ip o e (ip_count t)
                                      | None => ip_track (ip (endpoint e)) (ip_count t) end) t))
    (fun t' => table_ok t' /\ grows e t t' /\ zlen (buckets t') = zlen (buckets t)
               /\ updated t i b' t').
Proof.
  intros [Ht Hw] He Hi Hb E E' H1 H2. eapply returns_mono; [eapply put; [done|done| |]|].
  - by eapply bucket_sound_swap.
  - intros ns Hx. rewrite E'. rewrite E in Hx.
    destruct old; [by apply indexed_assign|by apply indexed_track].
  - intros t' [Ht' Hu]. split_and!; [split; [done|by eapply put_within]|by eapply swap_grows|apply Hu|done].
Qed.

(** ** The spread slots *)

Lemma id_bit_range i k : 0 <= id_bit i k < 2.
Proof.
  unfold id_bit. case_match; [|lia]. case_match; [|lia].
  change 1 with (Z.ones 1). rewrite Z.land_ones by lia. apply Z.mod_pos_bound. lia.
Qed.

Lemma bits_loop_bound i n : forall k p v,
  0 <= p -> 0 <= v < 2 ^ p -> p + Z.of_nat n <= 31 ->
  0 <= bits_loop i k n v < 2 ^ (p + Z.of_nat n).
Proof.
  induction n as [|n IH]; intros k p v Hp Hv Hn; cbn [bits_loop].
  { by rewrite Z.add_0_r. }
  replace (p + Z.of_nat (S n)) with ((p + 1) + Z.of_nat n) by lia.
  pose proof (id_bit_range i k). rewrite Z.shiftl_mul_pow2 by lia.
  pose proof (Z.pow_le_mono_r 2 (p + 1) 31 ltac:(lia) ltac:(lia)) as Hb.
  rewrite Z.pow_add_r in Hb by lia. rewrite u32_small by lia. rewrite <- Z.shiftl_mul_pow2, lor_shiftl_add by lia.
  apply IH; [lia| |lia]. rewrite Z.pow_add_r by lia. lia.
Qed.

Lemma classify_bound idx last limit i :
  0 < limit <= kMaxBucketLimit -> classify_prefix idx last limit i < kMaxSlots.
Proof.
  intros Hl. unfold classify_prefix, bits_at, prefix_bits_for.
  pose proof (Z.log2_up_le_mono limit kMaxBucketLimit ltac:(lia)) as Hm.
  change (Z.log2_up kMaxBucketLimit) with 7 in Hm. pose proof (Z.log2_up_nonneg limit).
  destruct (bits_loop_bound i (Z.to_nat (Z.log2_up limit)) (idx + (if last then 0 else 1)) 0 0)
    as [H1 H2]; [lia..|].
  pose proof (Z.pow_le_mono_r 2 (0 + Z.of_nat (Z.to_nat (Z.log2_up limit))) 7 ltac:(lia) ltac:(lia)).
  change kMaxSlots with (2 ^ 7). rewrite Z.mod_small; lia.
Qed.

Lemma displaced_spec idx limit last e v :
  0 < limit <= kMaxBucketLimit ->
  returns (displaced idx limit last e v) (fun found =>
    forall k n, found = Some (k, n) -> v !! k = Some n).
Proof.
  intros Hl. unfold displaced. destruct (stale_from None 0 v) as [[k n]|] eqn:Es.
  { cbn. intros k' n' [= <- <-]. by apply (stale_from_Some v v 0 None). }
  set (slot := fun n => classify_prefix idx last limit (id n)).
  replace (forallb _ (e :: v)) with true.
  2: { symmetry. apply forallb_forall. intros x _. apply Z.ltb_lt. by apply classify_bound. }
  destruct (worst_in (in_slot slot (classify_prefix idx last limit (id e)) v)) as [[k n]|] eqn:Ew; cbn [returns].
  - intros k' n'. case_match; [|done]. intros [= <- <-].
    by apply worst_in_elem, in_slot_Some in Ew.
  - intros k' n' (s & (j & -> & _)%list_elem_of_fmap & Hp)%victim_of_elem. by apply in_slot_Some in Hp.
Qed.

Lemma zlen_delete {A} (l : list A) k x : l !! k = Some x -> zlen (delete k l) = zlen l - 1.
Proof.
  intros H. pose proof (delete_Permutation _ _ _ H) as P. apply Permutation_length in P.
  unfold zlen. cbn in P. lia.
Qed.

(** Contacts of a bucket with one entry of the live set, or of the cache, changed. *)
Lemma contacts_live b k x y :
  live b !! k = Some x ->
  contacts b ≡ₚ x :: delete k (live b) ++ replacements b
  /\ contacts (mkBucket (<[k := y]> (live b)) (replacements b)) ≡ₚ y :: delete k (live b) ++ replacements b.
Proof.
  intros H. unfold contacts. cbn [live replacements].
  rewrite (insert_perm _ _ _ y H). split; [|done].
  pose proof (delete_Permutation _ _ _ H) as P. remember (delete k (live b)) as d. by rewrite P.
Qed.

Lemma contacts_repl b k x y :
  replacements b !! k = Some x ->
  contacts b ≡ₚ x :: live b ++ delete k (replacements b)
  /\ contacts (mkBucket (live b) (<[k := y]> (replacements b))) ≡ₚ y :: live b ++ delete k (replacements b).
Proof.
  intros H. unfold contacts. cbn [live replacements].
  rewrite (insert_perm _ _ _ y H). split; [|by rewrite <- Permutation_middle].
  pose proof (delete_Permutation _ _ _ H) as P. remember (delete k (replacements b)) as d.
  rewrite P. by rewrite <- Permutation_middle.
Qed.

(** What placing [e] leaves. *)
Definition placed (e : NodeEntry) (t t' : RoutingTable) : Prop :=
  table_ok t' /\ grows e t t' /\ zlen (buckets t) <= zlen (buckets t').

Lemma placed_refl e t : table_ok t -> placed e t t.
Proof. intros. split_and!; [done| |done]. split; [done|]. by right. Qed.

Lemma replace_ok t e i b limit :
  table_ok t -> newcomer e t -> i = bucket_index (id e) t -> zlookup (buckets t) i = Some b ->
  0 < limit <= kMaxBucketLimit ->
  returns (replace_for_spread i limit e t) (fun '(r, t') =>
    placed e t t' /\ (r = false -> t' = t)).
Proof.
  intros Ht He Hi Hb Hl. unfold replace_for_spread. rewrite (bucket_at_lookup _ _ _ Hb).
  cbn [mbind outcome_bind]. eapply returns_bind; [by apply displaced_spec|].
  intros [[k n]|] Hk; [|cbn; split; [by apply placed_refl|done]].
  specialize (Hk k n eq_refl). destruct (contacts_live b k n e Hk) as [P P'].
  destruct (proj2 Ht _ _ Hb).
  eapply returns_bind; [apply (swap_ok t e i b _ (Some n) _ Ht He Hi Hb P P'); [|done]|].
  - cbn [live]. by rewrite zlen_insert.
  - intros t' (? & ? & Lt & _). cbn. split; [|done]. split_and!; [done..|lia].
Qed.

Lemma stash_ok t e i b :
  table_ok t -> newcomer e t -> i = bucket_index (id e) t -> zlookup (buckets t) i = Some b ->
  returns (stash_replacement i e t) (fun t' =>
    placed e t t' /\ exists r, t' = t \/ updated t i (mkBucket (live b) r) t').
Proof.
  intros Ht He Hi Hb. unfold stash_replacement. rewrite (bucket_at_lookup _ _ _ Hb).
  cbn [mbind outcome_bind]. pose proof Ht as [Hs Hw]. destruct (Hw _ _ Hb) as [W1 W2].
  assert (forall k n, replacements b !! k = Some n ->
    returns (set_bucket i (mkBucket (live b) (<[k := e]> (replacements b)))
               (with_ips (assign_ip n e (ip_count t)) t))
      (fun t' => placed e t t' /\ exists r, t' = t \/ updated t i (mkBucket (live b) r) t')) as Hswap.
  { intros k n Hk. destruct (contacts_repl b k n e Hk) as [P P'].
    eapply returns_mono; [apply (swap_ok t e i b _ (Some n) _ Ht He Hi Hb P P'); [done|]|].
    - cbn [replacements]. by rewrite zlen_insert.
    - intros t' (? & ? & Lt & ?). split; [split_and!; [done..|lia]|eauto]. }
  destruct (find_by_id (replacements b) (id e)) as [[k n]|] eqn:Ef.
  { apply find_by_id_Some in Ef as [? _]. by apply Hswap. }
  destruct (Z.ltb_spec (zlen (replacements b)) kBucketSize) as [Hr|Hr].
  - eapply returns_mono; [apply (swap_ok t e i b _ None (contacts b)); try done|].
    + unfold contacts. cbn [live replacements]. rewrite (assoc_L (++)). by rewrite (comm (++) _ [e]).
    + cbn [replacements]. rewrite zlen_app. change (zlen [e]) with 1. lia.
    + intros t' (? & ? & Lt & ?). split; [split_and!; [done..|lia]|eauto].
  - assert (returns (Ret t) (fun t' => placed e t t' /\ exists r, t' = t \/ updated t i (mkBucket (live b) r) t'))
      by (cbn; split; [by apply placed_refl|exists []; by left]).
    destruct (worst_of (replacements b)) as [[k w]|] eqn:Ew; [|done].
    case_match; [|done]. by apply Hswap, worst_of_Some.
Qed.

(** * Dropping and renewing contacts *)

Lemma drop_ok t i b b' n :
  table_ok t -> zlookup (buckets t) i = Some b -> contacts b ≡ₚ n :: contacts b' ->
  zlen (live b') <= zlen (live b) -> zlen (replacements b') <= zlen (replacements b) ->
  returns (set_bucket i b' (with_ips (ip_untrack (ip (endpoint n)) (ip_count t)) t)) (fun t' =>
    table_ok t' /\ shrinks t t' /\ zlen (buckets t') = zlen (buckets t) /\ updated t i b' t').
Proof.
  intros [Ht Hw] Hb P L1 L2. destruct (Hw _ _ Hb). eapply returns_mono; [eapply put; [done|done| |]|].
  - apply (bucket_sound_sub _ _ _ b); [|by apply sound_bucket]. rewrite P. by apply submseteq_cons.
  - intros ns Hx. apply indexed_untrack. by rewrite P in Hx.
  - intros t' [Ht' Hu]. split_and!; [split; [done|]| |apply Hu|done].
    + eapply put_within; [done..|lia|lia].
    + split; [apply Hu|]. intros x. eapply updated_sub; [done..|]. intros y Hy. rewrite P. by right.
Qed.

Lemma indexed_same_ip m n n' ns :
  ip (endpoint n) = ip (endpoint n') -> indexed m (n :: ns) -> indexed m (n' :: ns).
Proof. intros E H a. rewrite H, !tally_cons. by rewrite E. Qed.

Lemma renew_ok t i b b' n n' rest m :
  table_ok t -> zlookup (buckets t) i = Some b ->
  contacts b ≡ₚ n :: rest -> contacts b' ≡ₚ n' :: rest -> id n' = id n ->
  zlen (live b') = zlen (live b) -> zlen (replacements b') = zlen (replacements b) ->
  (forall ns, indexed (ip_count t) (n :: ns) -> indexed m (n' :: ns)) ->
  returns (set_bucket i b' (with_ips m t)) (fun t' =>
    table_ok t' /\ grows n' t t' /\ zlen (buckets t') = zlen (buckets t) /\ updated t i b' t').
Proof.
  intros [Ht Hw] Hb P P' Hid L1 L2 Hm. destruct (Hw _ _ Hb).
  eapply returns_mono; [eapply put; [done|done| |]|].
  - destruct (sound_bucket _ _ _ Ht Hb) as [Hc Hd]. split.
    + intros x. rewrite P', elem_of_cons. intros [->|Hx].
      * destruct (Hc n) as (? & ? & ?); [rewrite P; left|]. split_and!; by rewrite Hid.
      * apply Hc. rewrite P. by right.
    + rewrite P in Hd. rewrite P'. cbn. by rewrite Hid.
  - intros ns Hx. rewrite P'. rewrite P in Hx. by apply Hm.
  - intros t' [Ht' Hu]. split_and!; [split; [done|]| |apply Hu|done].
    + eapply put_within; [done..|lia|lia].
    + by apply (swap_grows t n' i b b' [n] rest).
Qed.

(** The same without a change of address, the index as it is. *)
Lemma renew_same t i b b' n n' rest :
  table_ok t -> zlookup (buckets t) i = Some b ->
  contacts b ≡ₚ n :: rest -> contacts b' ≡ₚ n' :: rest -> id n' = id n ->
  ip (endpoint n') = ip (endpoint n) ->
  zlen (live b') = zlen (live b) -> zlen (replacements b') = zlen (replacements b) ->
  returns (set_bucket i b' t) (fun t' =>
    table_ok t' /\ grows n' t t' /\ zlen (buckets t') = zlen (buckets t) /\ updated t i b' t').
Proof.
  intros Ht Hb P P' Hid Hip L1 L2. assert (t = with_ips (ip_count t) t) as Et by by destruct t.
  rewrite Et at 1. eapply renew_ok; try done. intros ns. by apply indexed_same_ip.
Qed.

(** * The gate *)

Definition fresh_ip (e : NodeEntry) (t : RoutingTable) : Prop := ip_count t !! ip (endpoint e) = None.

Lemma fresh_shrinks e t t' : table_ok t -> table_ok t' -> shrinks t t' -> fresh_ip e t -> fresh_ip e t'.
Proof.
  intros [(_ & _ & _ & Hx) _] [(_ & _ & _ & Hx') _] [_ Hs]. unfold fresh_ip.
  rewrite (indexed_none _ _ _ Hx), (indexed_none _ _ _ Hx'). naive_solver.
Qed.

Lemma newcomer_shrinks e t t' : shrinks t t' -> newcomer e t -> newcomer e t'.
Proof. intros [Es Hs] (? & ? & Hn). split_and!; [done|congruence|naive_solver]. Qed.

Lemma find_by_endpoint_spec ep t i fl k n :
  find_by_endpoint ep t = Some (i, fl, k, n) ->
  endpoint n = ep /\ exists b, zlookup (buckets t) i = Some b
    /\ (if fl then live b else replacements b) !! k = Some n.
Proof.
  unfold find_by_endpoint, zlookup.
  assert (forall bs j, 0 <= j -> locate ep j bs = Some (i, fl, k, n) ->
    endpoint n = ep /\ j <= i /\ exists b, bs !! Z.to_nat (i - j) = Some b
      /\ (if fl then live b else replacements b) !! k = Some n) as H.
  { induction bs as [|b bs IH]; intros j Hj; [done|]. cbn [locate].
    destruct (list_find _ (live b)) as [[k1 n1]|] eqn:E1.
    { intros [= <- <- <- <-]. apply list_find_Some in E1 as (? & ? & _).
      rewrite Z.sub_diag. split_and!; [done|lia|]. by exists b. }
    destruct (list_find _ (replacements b)) as [[k2 n2]|] eqn:E2.
    { intros [= <- <- <- <-]. apply list_find_Some in E2 as (? & ? & _).
      rewrite Z.sub_diag. split_and!; [done|lia|]. by exists b. }
    intros (? & ? & b' & Hb' & ?)%IH; [|lia]. split_and!; [done|lia|]. exists b'.
    by replace (Z.to_nat (i - j)) with (S (Z.to_nat (i - (j + 1)))) by lia. }
  intros (? & ? & b & ? & ?)%H; [|done]. split; [done|]. exists b.
  rewrite Z.sub_0_r in *. by destruct (Z.leb_spec 0 i); [|lia].
Qed.

Lemma contacts_delete b (fl : bool) k n :
  (if fl then live b else replacements b) !! k = Some n ->
  contacts b ≡ₚ n :: contacts (if fl then mkBucket (delete k (live b)) (replacements b)
                              else mkBucket (live b) (delete k (replacements b))).
Proof.
  destruct fl; intros H; [apply (contacts_live b k n n H)|apply (contacts_repl b k n n H)].
Qed.

Lemma zlen_delete_le {A} (l : list A) k x : l !! k = Some x -> zlen (delete k l) <= zlen l.
Proof. intros H. rewrite (zlen_delete _ _ _ H). lia. Qed.

Lemma shrinks_trans t1 t2 t3 : shrinks t1 t2 -> shrinks t2 t3 -> shrinks t1 t3.
Proof. intros [E1 H1] [E2 H2]. split; [congruence|naive_solver]. Qed.

(** Dropping a live contact or a standby, refilling the live set, pruning. *)
Lemma evict_ok t i b (fl : bool) k n :
  table_ok t -> zlookup (buckets t) i = Some b ->
  (if fl then live b else replacements b) !! k = Some n ->
  returns (t ← set_bucket i (if fl then mkBucket (delete k (live b)) (replacements b)
                             else mkBucket (live b) (delete k (replacements b)))
                 (with_ips (ip_untrack (ip (endpoint n)) (ip_count t)) t);
           if fl then fill_from_replacements i t else Ret t)
    (fun t' => table_ok t' /\ shrinks t t').
Proof.
  intros Ht Hb Hk. pose proof (contacts_delete _ _ _ _ Hk) as P.
  pose proof (zlookup_range _ _ _ Hb).
  eapply returns_bind; [eapply drop_ok; [done..| |]|].
  1,2: destruct fl; cbn [live replacements]; try done; by eapply zlen_delete_le.
  intros t1 (Ht1 & Hs1 & L1 & _). destruct fl; [|done].
  eapply returns_mono; [apply fill_ok; [done|lia]|]. intros t2 (? & ? & ? & ?).
  split; [done|]. by eapply shrinks_trans.
Qed.

Lemma gate_ok b e t :
  table_ok t ->
  returns (passes_ip_diversity b e t) (fun '(r, t') =>
    table_ok t' /\ shrinks t t' /\ (r = true -> t' = t /\ fresh_ip e t)
    /\ (fresh_ip e t \/ pinged e = false -> t' = t)).
Proof.
  intros Ht. assert (shrinks t t) as Hrefl by done. unfold passes_ip_diversity, fresh_ip.
  destruct (is_public_address (ip (endpoint e))) eqn:Hp; cbn [negb].
  2: { cbn. split_and!; try done. intros _. split; [done|]. destruct Ht as [(_ & _ & _ & Hx) _].
       rewrite (indexed_none _ _ _ Hx). by rewrite Hp. }
  destruct (ip_count t !! ip (endpoint e)) as [c|] eqn:Ec.
  2: { rewrite bool_decide_eq_false_2 by (by intros [? ?]). by cbn. }
  rewrite bool_decide_eq_true_2 by eauto.
  destruct (find_by_endpoint _ t) as [[[[fb fl] k] n]|] eqn:Ef; [|by cbn].
  destruct (pinged e); cbn [negb]; [|by cbn].
  apply find_by_endpoint_spec in Ef as (_ & eb & Hb & Hk).
  rewrite (bucket_at_lookup _ _ _ Hb). cbn [mbind outcome_bind].
  pose proof (evict_ok _ _ _ _ _ _ Ht Hb Hk) as He.
  destruct (set_bucket _ _ _) as [t1| |]; cbn [mbind outcome_bind] in *; [|done..].
  eapply returns_bind; [exact He|]. intros t2 [Ht2 Hs2]. cbn [returns].
  destruct (prune_ok t2 Ht2) as (Ht3 & Es & _ & Ea). split_and!; [done| |done|by intros [|]].
  eapply shrinks_trans; [exact Hs2|]. split; [done|]. by rewrite Ea.
Qed.

(** * Adding a contact *)

Lemma index_range t x : sound t -> id_ok x -> 0 <= bucket_index x t < zlen (buckets t).
Proof.
  intros (Hs & Hn & _) Hx. rewrite bucket_index_eq. unfold index.
  pose proof (proj1 (shared_prefix_range (self t) x Hs Hx)). lia.
Qed.

Lemma can_split_spec t e i b :
  zlookup (buckets t) i = Some b ->
  returns (can_split i e t) (fun s => s = true ->
    i + 1 = zlen (buckets t) /\ zlen (buckets t) < kBucketCount - 1).
Proof.
  intros Hb. pose proof (zlookup_range _ _ _ Hb). unfold can_split.
  destruct (Z.eqb_spec (i + 1) (zlen (buckets t))) as [E|]; [|by cbn].
  destruct (Z.ltb_spec (zlen (buckets t)) (kBucketCount - 1)); [|by cbn].
  destruct (confirmed e); [|by cbn]. cbn [andb].
  eapply (returns_bind _ _ (fun _ => True)).
  - destruct (Z.eqb_spec i 0); [done|]. destruct (zlookup_is t (i - 1)) as [p Hp]; [lia|].
    by rewrite (bucket_at_lookup _ _ _ Hp).
  - intros deep _. by rewrite (bucket_at_lookup _ _ _ Hb).
Qed.

Lemma placed_shrinks e t t1 t2 t3 :
  shrinks t t1 -> placed e t1 t2 -> table_ok t3 -> shrinks t2 t3 ->
  zlen (buckets t) <= zlen (buckets t3) -> placed e t t3.
Proof.
  intros [E1 H1] (_ & [E2 H2] & _) H3 [E4 H4] ?. split_and!; [done| |done].
  split; [congruence|]. intros n Hn. destruct (H2 n (H4 n Hn)); [by left|right; by apply H1].
Qed.

(** Both halves of a split bucket are still there, and refilled. *)
Lemma refill_ok e t t1 t2 i :
  shrinks t t1 -> placed e t1 t2 -> 0 <= i -> i + 1 = zlen (buckets t) ->
  zlen (buckets t1) = zlen (buckets t) + 1 ->
  returns (t3 ← fill_from_replacements i t2; fill_from_replacements (i + 1) t3) (placed e t).
Proof.
  intros Hs Hp Hi El L1. pose proof Hp as (Ht2 & _ & L2).
  eapply returns_bind; [apply fill_ok; [done|lia]|]. intros t3 (Ht3 & E3 & L3 & H3).
  eapply returns_mono; [apply fill_ok; [done|lia]|]. intros t4 (Ht4 & E4 & L4 & H4).
  eapply placed_shrinks; try done; [|lia]. by apply (shrinks_trans t2 t3).
Qed.

Lemma place_ok again t e i :
  table_ok t -> newcomer e t -> fresh_ip e t -> i = bucket_index (id e) t ->
  (forall t', table_ok t' -> newcomer e t' -> fresh_ip e t' -> zlen (buckets t') = zlen (buckets t) + 1 ->
     returns (again e t') (fun '(_, t'') => placed e t' t'')) ->
  returns (place again i e t) (fun '(_, t') => placed e t t').
Proof.
  intros Ht He Hf Hi Hagain. pose proof (index_range t (id e) (proj1 Ht) (proj1 He)) as Ri.
  rewrite <- Hi in Ri. destruct (zlookup_is t i Ri) as [b Hb]. unfold place.
  rewrite (bucket_at_lookup _ _ _ Hb). cbn [mbind outcome_bind].
  destruct (proj2 Ht _ _ Hb) as [W1 W2]. pose proof (bucket_limit_nonneg i t).
  destruct (Z.ltb_spec (zlen (live b)) (bucket_limit i t)) as [Hl|Hl].
  { eapply returns_bind; [apply (swap_ok t e i b _ None (contacts b)); try done|].
    - unfold contacts. cbn [live replacements]. rewrite <- (assoc_L (++)).
      apply Permutation_app_swap_app.
    - cbn [live]. rewrite zlen_app. change (zlen [e]) with 1. lia.
    - intros t' (? & ? & ? & _). cbn. split_and!; [done..|lia]. }
  eapply returns_bind with (P := fun s => s = true ->
    i + 1 = zlen (buckets t) /\ zlen (buckets t) < kBucketCount - 1).
  { destruct (confirmed e); [by eapply can_split_spec|done]. }
  intros [] Hs.
  - destruct (Hs eq_refl) as [Hs1 Hs2].
    eapply returns_bind; [by apply split_ok|]. intros t1 (Ht1 & Hsh & L1).
    eapply returns_bind; [apply Hagain; [done|by eapply newcomer_shrinks| |done]|].
    { by apply (fresh_shrinks e t t1). }
    intros [added t2] Hp. pose proof (refill_ok e t t1 t2 i Hsh Hp) as Hr.
    destruct (fill_from_replacements i t2) as [t3| |]; cbn [mbind outcome_bind] in *;
      [|exfalso; apply Hr; lia..].
    eapply returns_bind; [apply Hr; lia|]. by intros t4 ?.
  - eapply returns_bind with (P := fun '(r, t') => placed e t t' /\ (r = false -> t' = t)).
    { destruct (confirmed e); [|cbn; split; [by apply placed_refl|done]].
      eapply replace_ok; try done. unfold kBucketSize in *. lia. }
    intros [[] t1] [Hp E]; [done|]. rewrite (E eq_refl).
    eapply returns_bind; [by eapply stash_ok|]. by intros t2 [? _].
Qed.

(** Newcomers from an address the table does not know. *)
Lemma add_fresh now e fuel : forall t,
  table_ok t -> newcomer e t -> fresh_ip e t -> kBucketCount - zlen (buckets t) <= Z.of_nat fuel ->
  returns (add_node fuel now e t) (fun '(_, t') => placed e t t').
Proof.
  induction fuel as [|fuel IH]; intros t Ht He Hf Hfuel.
  { destruct Ht as [(_ & ? & _) _]. lia. }
  cbn [add_node]. rewrite bool_decide_eq_false_2 by apply He.
  destruct (zlookup_is t (bucket_index (id e) t)) as [b Hb];
    [apply index_range; [apply Ht|apply He]|].
  rewrite (bucket_at_lookup _ _ _ Hb). cbn [mbind outcome_bind].
  pose proof (newcomer_not_in _ _ _ _ He Hb) as Hne.
  assert (forall v, (forall n, n ∈ v -> n ∈ contacts b) -> find_by_id v (id e) = None) as Hnone.
  { intros v Hv. apply list_find_None, Forall_forall. intros n Hn E.
    apply Hne, list_elem_of_fmap. eauto. }
  rewrite !Hnone by (unfold contacts; set_solver).
  rewrite bool_decide_eq_false_2 by (by intros [? ?]). cbn [andb mbind outcome_bind].
  eapply returns_bind; [by apply gate_ok|]. intros [r t'] (Ht' & Hs & Hr & Hfr).
  rewrite (Hfr (or_introl Hf)) in *. destruct r; cbn [negb]; [|by apply placed_refl].
  apply place_ok; try done. intros t2 Ht2 He2 Hf2 L2. apply IH; try done. lia.
Qed.

(** A contact with the id of [e] can only be in its bucket. *)
Lemma newcomer_bucket t e i b b' t' :
  sound t -> sound t' -> id_ok (id e) -> id e <> self t -> i = bucket_index (id e) t ->
  zlookup (buckets t) i = Some b -> updated t i b' t' -> id e ∉ (id <$> contacts b') -> newcomer e t'.
Proof.
  intros Ht Ht' Hid Hself Hi Hb Hu Hne. pose proof Hu as (Es & _). split_and!; [done|congruence|].
  intros n [Hn|(j & bj & Hj & Hbj & Hn)]%(updated_elem _ _ _ _ _ Hu) E.
  - apply Hne, list_elem_of_fmap. eauto.
  - destruct (proj1 (sound_bucket _ _ _ Ht Hbj) n Hn) as (_ & _ & Hji).
    rewrite bucket_index_eq, <- E in Hi. congruence.
Qed.

Lemma updated_refl t i b : zlookup (buckets t) i = Some b -> updated t i b t.
Proof. intros Hb. split_and!; try done. intros j. by destruct (Z.eqb_spec j i) as [->|]. Qed.

Lemma carry_endpoint now n e :
  endpoint (carry now n e) = endpoint e /\ id (carry now n e) = id n.
Proof. unfold carry, record_success, update_rtt. by case_match. Qed.

Lemma refresh_fields now n e :
  id (refresh now n e) = id n
  /\ endpoint (refresh now n e) = if pinged e then endpoint e else endpoint n.
Proof. unfold refresh, record_success, update_rtt. case_match; [|done]. by case_match. Qed.

(** The id of [e] is parked in a standby cache. *)
Definition parked (e : NodeEntry) (t : RoutingTable) : Prop :=
  exists i b n, zlookup (buckets t) i = Some b /\ n ∈ replacements b /\ id n = id e.

(** Not the confirmed sighting of a standby at the public address of another contact. *)
Definition calm (e : NodeEntry) (t : RoutingTable) : Prop :=
  pinged e = true -> parked e t -> is_public_address (ip (endpoint e)) = true ->
  forall n, n ∈ all_contacts t -> id n <> id e -> ip (endpoint n) <> ip (endpoint e).

(** Every contact of the table is at an address with [P]. *)
Definition housed (P : Address -> Prop) (t : RoutingTable) : Prop := forall n, n ∈ all_contacts t -> P (endpoint n).

Definition takes (e : NodeEntry) (t t' : RoutingTable) : Prop :=
  table_ok t' /\ self t' = self t /\ (forall n, n ∈ all_contacts t' -> id n = id e \/ n ∈ all_contacts t)
  /\ forall P, P (endpoint e) -> housed P t -> housed P t'.

Lemma placed_takes e e' t t1 t2 :
  id e' = id e -> endpoint e' = endpoint e -> shrinks t t1 -> placed e' t1 t2 -> takes e t t2.
Proof.
  intros E Ee [E1 H1] (Ht & [E2 H2] & _). split_and!; [done|congruence|..].
  - intros n Hn. destruct (H2 n Hn) as [->|]; auto.
  - intros P He Hp n Hn. destruct (H2 n Hn) as [->|]; [by rewrite Ee|auto].
Qed.

(** A contact seen again, in place. *)
Lemma refresh_ok now e t i b k n :
  table_ok t -> zlookup (buckets t) i = Some b -> live b !! k = Some n -> id n = id e ->
  returns (set_bucket i (mkBucket (<[k := refresh now n e]> (live b)) (replacements b))
             (with_ips (if pinged e && negb (bool_decide (ip (endpoint n) = ip (endpoint e)))
                        then assign_ip n e (ip_count t) else ip_count t) t)) (takes e t).
Proof.
  intros Ht Hb Hk Hid. destruct (contacts_live b k n (refresh now n e) Hk) as [P P'].
  destruct (refresh_fields now n e) as [Ei Ee].
  eapply returns_mono; [eapply (renew_ok _ _ _ _ _ _ _ _ Ht Hb P P' Ei)|].
  - apply zlen_insert.
  - done.
  - intros ns Hx. destruct (pinged e); cbn [andb].
    + case_bool_decide as Hip; cbn [negb].
      * apply (indexed_same_ip _ n); [by rewrite Ee|done].
      * apply (indexed_same_ip _ e); [by rewrite Ee|by apply indexed_assign].
    + apply (indexed_same_ip _ n); [by rewrite Ee|done].
  - intros t' (Ht' & [Es Hg] & _). split_and!; [done..| |].
    + intros x Hx. destruct (Hg x Hx) as [->|]; [left; congruence|by right].
    + intros Q He Hq x Hx. destruct (Hg x Hx) as [->|]; [|auto]. rewrite Ee. destruct (pinged e); [done|].
      apply Hq. apply elem_all. exists i, b. split; [done|]. apply elem_of_app. left. by eapply list_elem_of_lookup_2.
Qed.

(** A standby pulled out of the cache. *)
Lemma promote_ok now e t b k n fuel :
  table_ok t -> id_ok (id e) -> id e <> self t -> pinged e = true -> calm e t ->
  kBucketCount - zlen (buckets t) <= Z.of_nat (S fuel) ->
  zlookup (buckets t) (bucket_index (id e) t) = Some b ->
  replacements b !! k = Some n -> id n = id e ->
  returns (t' ← set_bucket (bucket_index (id e) t) (mkBucket (live b) (delete k (replacements b)))
                  (with_ips (ip_untrack (ip (endpoint n)) (ip_count t)) t);
           place (add_node fuel now) (bucket_index (id e) t) (carry now n e) t')
    (fun '(_, t') => takes e t t').
Proof.
  intros Ht Hid Hself Hping Hcalm Hfuel Hb Hk En. destruct (carry_endpoint now n e) as [Ee Ei].
  pose proof (contacts_delete b false k n Hk) as P.
  eapply returns_bind; [apply (drop_ok _ _ b _ n Ht Hb P); [done|by eapply zlen_delete_le]|].
  intros t1 (Ht1 & Hs1 & L1 & Hu1).
  assert (newcomer (carry now n e) t1) as Hnew.
  { eapply (newcomer_bucket t _ (bucket_index (id e) t) b _ _ (proj1 Ht) (proj1 Ht1));
      rewrite ?Ei, ?En; try done.
    pose proof (proj2 (sound_bucket _ _ _ (proj1 Ht) Hb)) as Hd. rewrite P in Hd. cbn in Hd.
    apply NoDup_cons in Hd as [Hd _]. by rewrite En in Hd. }
  assert (fresh_ip (carry now n e) t1) as Hfr.
  { unfold fresh_ip. destruct Ht1 as [(_ & _ & _ & Hx) _]. rewrite (indexed_none _ _ _ Hx), Ee.
    intros Hpub x Hin. apply Hcalm; try done; [|by apply Hs1|].
    - exists (bucket_index (id e) t), b, n. split_and!; [done| |done]. by eapply list_elem_of_lookup_2.
    - rewrite <- En, <- Ei. by apply Hnew. }
  eapply returns_mono; [apply place_ok; try done|].
  - rewrite Ei, En, !bucket_index_eq, L1. by rewrite (proj1 Hs1).
  - intros t2 Ht2 He2 Hf2 L2. apply add_fresh; try done. lia.
  - intros [r t3] Hp. eapply placed_takes; [|exact Ee|exact Hs1|exact Hp]. congruence.
Qed.

Lemma add_ok now e t :
  table_ok t -> id_ok (id e) -> calm e t -> returns (add now e t) (fun '(_, t') => takes e t t').
Proof.
  intros Ht Hid Hcalm. unfold add. change (Z.to_nat kBucketCount) with (S 159).
  remember 159%nat as fuel eqn:Efuel. cbn [add_node].
  assert (takes e t t) as Hrefl by (split_and!; auto).
  case_bool_decide as Hself; [done|].
  destruct (zlookup_is t (bucket_index (id e) t)) as [b Hb]; [by apply index_range; [apply Ht|]|].
  rewrite (bucket_at_lookup _ _ _ Hb). cbn [mbind outcome_bind].
  destruct (find_by_id (live b) (id e)) as [[k n]|] eqn:El.
  { apply find_by_id_Some in El as [Hk En].
    eapply returns_bind; [by eapply refresh_ok|]. by intros t' ?. }
  destruct (find_by_id (replacements b) (id e)) as [[k n]|] eqn:Er.
  - rewrite bool_decide_eq_true_2 by eauto. apply find_by_id_Some in Er as [Hk En].
    destruct (pinged e) eqn:Hp; cbn [andb negb]; [|done].
    pose proof (promote_ok now e t b k n fuel Ht Hid Hself Hp Hcalm) as Hpr.
    assert (1 <= zlen (buckets t)) by apply Ht. unfold kBucketCount in *.
    destruct (set_bucket _ _ _); cbn [mbind outcome_bind negb] in *; apply Hpr; try done; lia.
  - rewrite bool_decide_eq_false_2 by (by intros [? ?]). cbn [andb mbind outcome_bind].
    assert (newcomer e t) as Hnew.
    { eapply (newcomer_bucket t e _ b b t (proj1 Ht) (proj1 Ht)); try done; [by apply updated_refl|].
      intros (n & E & Hn)%list_elem_of_fmap. apply elem_of_app in Hn as [Hn|Hn].
      - by apply (find_by_id_None _ _ _ El Hn).
      - by apply (find_by_id_None _ _ _ Er Hn). }
    eapply returns_bind; [by apply gate_ok|]. intros [r t'] (Ht' & [Es Hs] & Hr & _).
    destruct r; cbn [negb returns]; [|split_and!; [done|done|by auto|by intros P _ Hp n Hn; apply Hp, Hs]]. destruct (Hr eq_refl) as [-> Hfr].
    eapply returns_mono; [apply place_ok; try done|].
    + intros t2 Ht2 He2 Hf2 L2. apply add_fresh; try done.
      assert (1 <= zlen (buckets t)) by apply Ht. unfold kBucketCount. lia.
    + intros [r t3] Hp. by eapply placed_takes.
Qed.
