(* ===== verification/TableOps.v ===== *)
(** The operations of the routing table: that each keeps the invariant and returns, over
    any history of calls; what hearsay cannot do; and the one call that is undefined. *)

From S2P Require Import Prelude Text PeerId Address DhtId RoutingTable TableInvariant.
Import dht_id node_entry bep42 routing_table.

(** * The remaining operations *)

Lemma new_table_ok i ext : id_ok i -> table_ok (new_table i ext).
Proof.
  intros Hi. split.
  - split_and!; [done|done|done| |].
    + intros j b Hb. pose proof (zlookup_range _ _ _ Hb) as Hr. change (zlen _) with 1 in Hr.
      assert (j = 0) as -> by lia. injection Hb as <-. split; [|constructor].
      intros n Hn. by apply elem_of_nil in Hn.
    + intros a. unfold tally. change (zlen _) with 0. by rewrite andb_false_r.
  - intros j b Hb. pose proof (zlookup_range _ _ _ Hb) as Hr. change (zlen _) with 1 in Hr.
    assert (j = 0) as -> by lia. injection Hb as <-. change (zlen _) with 0 at 1. change (zlen _) with 0.
    pose proof (bucket_limit_nonneg 0 (new_table i ext)). unfold kBucketSize in *. lia.
Qed.

Lemma record_failure_fields n : id (record_failure n) = id n /\ endpoint (record_failure n) = endpoint n.
Proof. unfold record_failure. by case_match. Qed.

(** The table stays well-formed and no contact moves. *)
Definition settled (t t' : RoutingTable) : Prop :=
  table_ok t' /\ self t' = self t /\ forall P, housed P t -> housed P t'.

Lemma shrinks_settled t t' : table_ok t' -> shrinks t t' -> settled t t'.
Proof. intros Ht [Es Hs]. split_and!; try done. intros P Hp n Hn. by apply Hp, Hs. Qed.

Lemma settled_trans t t1 t2 : settled t t1 -> settled t1 t2 -> settled t t2.
Proof. intros (_ & E1 & H1) (Ht & E2 & H2). split_and!; [done|congruence|auto]. Qed.

Lemma grows_settled n n' t t' :
  table_ok t' -> grows n' t t' -> n ∈ all_contacts t -> endpoint n' = endpoint n -> settled t t'.
Proof.
  intros Ht [Es Hg] Hn Ee. split_and!; try done. intros P Hp m Hm. destruct (Hg m Hm) as [->|]; [rewrite Ee|]; auto.
Qed.

Lemma prune_settled t : table_ok t -> settled t (prune_empty_back t).
Proof. intros Ht. destruct (prune_ok t Ht) as (? & ? & _ & E). split_and!; try done. intros P Hp n. rewrite E. apply Hp. Qed.

Lemma contact_in t i b n : zlookup (buckets t) i = Some b -> n ∈ contacts b -> n ∈ all_contacts t.
Proof. intros Hb Hn. apply elem_all. by exists i, b. Qed.

Lemma failed_ok t i ep :
  table_ok t -> id_ok i -> returns (node_failed i ep t) (settled t).
Proof.
  intros Ht Hi. assert (settled t t) as Hrefl by (split_and!; auto).
  destruct (zlookup_is t (bucket_index i t)) as [b Hb]; [by apply index_range; [apply Ht|]|].
  pose proof (zlookup_range _ _ _ Hb) as R.
  unfold node_failed. rewrite (bucket_at_lookup _ _ _ Hb). cbn [mbind outcome_bind].
  assert (forall t1, settled t t1 -> returns (Ret (prune_empty_back t1)) (settled t)) as Hprune.
  { intros t1 H1. cbn. eapply settled_trans; [done|apply prune_settled, H1]. }
  destruct (find_by_id (live b) i) as [[k n]|] eqn:El.
  - apply find_by_id_Some in El as [Hk _]. destruct (record_failure_fields n) as [Ei Ee].
    destruct (contacts_live b k n (record_failure n) Hk) as [P P'].
    case_bool_decide; cbn [negb]; [|done].
    pose proof (drop_ok t _ b _ n Ht Hb (contacts_delete b true k n Hk)
      ltac:(by eapply zlen_delete_le) ltac:(done)) as Hdrop. cbn iota in Hdrop.
    assert (n ∈ all_contacts t) as Hn by (eapply contact_in; [done|]; rewrite P; left).
    destruct (replacements b) as [|r0 rs] eqn:Er.
    + eapply returns_bind; [|apply Hprune]. destruct (spent (record_failure n)).
      * eapply returns_mono; [exact Hdrop|]. intros t1 (? & ? & _). by apply shrinks_settled.
      * eapply returns_mono; [eapply (renew_same t _ b); try done|].
        -- by rewrite Ee.
        -- apply zlen_insert.
        -- by rewrite Er.
        -- intros t1 (? & ? & _). by eapply grows_settled.
    + eapply returns_bind; [exact Hdrop|]. intros t1 (Ht1 & S1 & L1 & _).
      eapply returns_bind; [apply fill_ok; [done|lia]|]. intros t2 (Ht2 & Es2 & _ & H2).
      apply Hprune. eapply settled_trans; [by apply (shrinks_settled t t1)|by apply (shrinks_settled t1 t2 Ht2 (conj Es2 H2))].
  - destruct (find_by_id (replacements b) i) as [[k n]|] eqn:Er; [|done].
    apply find_by_id_Some in Er as [Hk _]. destruct (record_failure_fields n) as [Ei Ee].
    destruct (contacts_repl b k n (record_failure n) Hk) as [P P'].
    assert (n ∈ all_contacts t) as Hn by (eapply contact_in; [done|]; rewrite P; left).
    case_bool_decide; [|done]. destruct (spent (record_failure n)).
    + eapply returns_mono; [apply (drop_ok t _ b _ n Ht Hb (contacts_delete b false k n Hk));
        [done|by eapply zlen_delete_le]|]. intros t1 (? & ? & _). by apply shrinks_settled.
    + eapply returns_mono; [eapply (renew_same t _ b); try done|].
      * by rewrite Ee.
      * apply zlen_insert.
      * intros t1 (? & ? & _). by eapply grows_settled.
Qed.

(** ** Refreshing *)

Definition live_contacts (t : RoutingTable) : list NodeEntry := concat (live <$> buckets t).

Lemma elem_live t n :
  n ∈ live_contacts t <-> exists i b, zlookup (buckets t) i = Some b /\ n ∈ live b.
Proof. apply elem_buckets. Qed.

Lemma elem_positions t i k n :
  (i, k, n) ∈ positions t <-> exists b, zlookup (buckets t) (Z.of_nat i) = Some b /\ live b !! k = Some n.
Proof.
  unfold positions. rewrite list_elem_of_In, in_concat.
  assert (zlookup (buckets t) (Z.of_nat i) = buckets t !! i) as ->.
  { unfold zlookup. destruct (Z.leb_spec 0 (Z.of_nat i)); [|lia]. by rewrite Nat2Z.id. }
  split.
  - intros (l & (j & b & -> & Hb)%list_elem_of_In%elem_of_lookup_imap & Hp).
    apply list_elem_of_In, elem_of_lookup_imap in Hp as (k' & n' & [= -> -> ->] & Hk). eauto.
  - intros (b & Hb & Hk). exists (imap (fun k n => (i, k, n)) (live b)).
    rewrite <- !list_elem_of_In. split; apply elem_of_lookup_imap; eauto.
Qed.

Lemma foldl_older l : forall best,
  match foldl older best l with
  | None => best = None /\ l = []
  | Some p => (best = Some p \/ p ∈ l)
      /\ (forall q, q ∈ l -> last_seen p.2 <= last_seen q.2)
      /\ (forall q, best = Some q -> last_seen p.2 <= last_seen q.2)
  end.
Proof.
  induction l as [|x l IH]; intros best; cbn [foldl].
  { destruct best; [|done]. split_and!; [by left|set_solver|]. by intros q [= <-]. }
  specialize (IH (older best x)). destruct (foldl older (older best x) l) as [p|].
  - destruct IH as (H1 & H2 & H3). unfold older in *. destruct best as [m|].
    + destruct (Z.ltb_spec (last_seen x.2) (last_seen m.2)); specialize (H3 _ eq_refl); split_and!.
      * destruct H1 as [[= <-]|]; right; [left|by right].
      * intros q [->|]%elem_of_cons; auto.
      * intros q [= <-]. lia.
      * destruct H1 as [|]; [by left|right; by right].
      * intros q [->|]%elem_of_cons; [lia|auto].
      * by intros q [= <-].
    + specialize (H3 _ eq_refl). split_and!; [|intros q [->|]%elem_of_cons; auto|done].
      destruct H1 as [[= <-]|]; right; [left|by right].
  - destruct IH as [H _]. unfold older in H. repeat case_match; done.
Qed.

Lemma refresh_next_ok now t :
  table_ok t ->
  returns (next_to_refresh now t) (fun '(r, t') =>
    settled t t'
    /\ match r with
       | None => t' = t /\ live_contacts t = []
       | Some n' =>
           n' ∈ live_contacts t'
           /\ exists n, n ∈ live_contacts t /\ n' = set_last_seen now n
                /\ forall m, m ∈ live_contacts t -> last_seen n <= last_seen m
       end).
Proof.
  intros Ht. unfold next_to_refresh. pose proof (foldl_older (positions t) None) as H.
  destruct (foldl older None (positions t)) as [[[i k] n]|].
  - destruct H as ([|Hin] & Hmin & _); [done|]. apply elem_positions in Hin as (b & Hb & Hk).
    rewrite (bucket_at_lookup _ _ _ Hb). cbn [mbind outcome_bind].
    destruct (contacts_live b k n (set_last_seen now n) Hk) as [P P'].
    eapply returns_bind; [eapply (renew_same t _ b); try done; apply zlen_insert|].
    intros t' (Ht' & Hg & _ & (_ & _ & _ & Hl)). cbn [returns]. split; [|split].
    + eapply (grows_settled n); [done..| |done]. eapply contact_in; [done|]. rewrite P. left.
    + apply elem_live. exists (Z.of_nat i), (mkBucket (<[k := set_last_seen now n]> (live b)) (replacements b)).
      rewrite Hl, Z.eqb_refl. split; [done|]. cbn [live].
      apply (list_elem_of_lookup_2 _ k), list_lookup_insert_eq. by eapply lookup_lt_Some.
    + exists n. split_and!; [apply elem_live; eauto using list_elem_of_lookup_2|done|].
      intros m (j & bj & Hj & [q Hq]%list_elem_of_lookup)%elem_live.
      apply (Hmin (Z.to_nat j, q, m)), elem_positions. exists bj.
      pose proof (zlookup_range _ _ _ Hj). by rewrite Z2Nat.id by lia.
  - destruct H as [_ H]. cbn. split; [by split_and!|]. split; [done|].
    destruct (live_contacts t) as [|n l] eqn:E; [done|].
    assert (n ∈ live_contacts t) as (j & bj & Hj & [q Hq]%list_elem_of_lookup)%elem_live
      by (rewrite E; left).
    pose proof (zlookup_range _ _ _ Hj).
    assert ((Z.to_nat j, q, n) ∈ positions t) as Hp
      by (apply elem_positions; exists bj; by rewrite Z2Nat.id by lia).
    rewrite H in Hp. by apply elem_of_nil in Hp.
Qed.

(** ** Loading and re-rooting *)

Lemma newcomer_calm e t : (forall n, n ∈ all_contacts t -> id n <> id e) -> calm e t.
Proof.
  intros H _ (i & b & n & Hb & Hn & E). exfalso. apply (H n); [|done].
  apply elem_all. exists i, b. split; [done|]. apply elem_of_app. by right.
Qed.

Lemma load_ok now cs : forall t,
  table_ok t -> Forall (fun n => id_ok (id n)) cs -> NoDup (id <$> cs) ->
  (forall n m, n ∈ cs -> m ∈ all_contacts t -> id m <> id n) ->
  returns (load_contacts now cs t) (fun t' => table_ok t' /\ self t' = self t
    /\ forall P, Forall (fun n => P (endpoint n)) cs -> housed P t -> housed P t').
Proof.
  induction cs as [|n cs IH]; intros t Ht Hids Hnd Hnew; cbn [load_contacts]; [done|].
  inversion Hids as [|? ? Hid Hids']; subst. cbn in Hnd. apply NoDup_cons in Hnd as [Hn Hnd].
  eapply returns_bind; [apply add_ok; [done..|]|].
  { apply newcomer_calm. intros m. apply Hnew. left. }
  intros [r t1] (Ht1 & Es & Hs & Hh). eapply returns_mono; [apply IH; try done|].
  - intros x m Hx Hm. destruct (Hs m Hm) as [->|]; [|apply Hnew; [by right|done]].
    intros E. apply Hn. apply list_elem_of_fmap. eauto.
  - intros t2 (? & ? & H2). split_and!; [done|congruence|]. intros P [Hp Hps]%Forall_cons Hq. by apply H2, Hh.
Qed.

Lemma all_ids_NoDup t : sound t -> NoDup (id <$> all_contacts t).
Proof.
  intros (_ & _ & Hb & _). unfold all_contacts.
  assert (forall bs s nb j, 0 <= j ->
    (forall i b, zlookup bs i = Some b -> bucket_sound s nb (j + i) b) ->
    NoDup (id <$> concat (contacts <$> bs))
    /\ forall n, n ∈ concat (contacts <$> bs) -> j <= index s nb (id n)) as H.
  { induction bs as [|b bs IH]; intros s nb j Hj Hs; cbn; [split; [constructor|set_solver]|].
    destruct (IH s nb (j + 1)) as [H1 H2]; [lia| |].
    { intros i b' Hi. rewrite <- Z.add_assoc. apply Hs. unfold zlookup in *.
      destruct (Z.leb_spec 0 i); [|done]. destruct (Z.leb_spec 0 (1 + i)); [|lia].
      by replace (Z.to_nat (1 + i)) with (S (Z.to_nat i)) by lia. }
    destruct (Hs 0 b eq_refl) as [Hc Hd]. rewrite Z.add_0_r in Hc. rewrite fmap_app. split.
    - apply NoDup_app. split_and!; [done| |done].
      intros x (n & -> & Hn)%list_elem_of_fmap (m & E & Hm)%list_elem_of_fmap.
      destruct (Hc n Hn) as (_ & _ & Hin). specialize (H2 m Hm). rewrite E in Hin. lia.
    - intros n [Hn|Hn]%elem_of_app; [destruct (Hc n Hn) as (_ & _ & ?); lia|].
      specialize (H2 n Hn). lia. }
  apply (H (buckets t) (self t) (zlen (buckets t)) 0); [done|]. intros i b. apply Hb.
Qed.

Lemma set_self_ok now i t :
  table_ok t -> id_ok i ->
  returns (set_self now i t) (fun t' => table_ok t' /\ self t' = i /\ forall P, housed P t -> housed P t').
Proof.
  intros Ht Hi. unfold set_self. case_bool_decide as E; [by cbn|].
  eapply returns_mono; [apply (load_ok now (all_contacts t) (new_table i (extended t))); [by apply new_table_ok|..]|].
  - apply Forall_forall. intros n (j & b & Hb & Hn)%elem_all.
    apply (proj1 (sound_bucket _ _ _ (proj1 Ht) Hb) n Hn).
  - apply all_ids_NoDup, Ht.
  - intros n m _ Hm. by apply elem_of_nil in Hm.
  - intros t' (? & ? & Hh). split_and!; [done|done|]. intros P Hp. apply Hh; [by apply Forall_forall|].
    intros n Hn. by apply elem_of_nil in Hn.
Qed.

(** * Histories *)

Inductive Op :=
| HeardAbout (i : NodeId) (ep : Address) (v : bool)
| NodeSeen (i : NodeId) (ep : Address) (sample : Z) (v : bool)
| NodeFailed (i : NodeId) (ep : Address)
| NextToRefresh
| SetSelf (i : NodeId)
| LoadContacts (cs : list NodeEntry).

Definition apply_op (now : Z) (op : Op) (t : RoutingTable) : outcome RoutingTable :=
  match op with
  | HeardAbout i ep v => heard_about now i ep v t
  | NodeSeen i ep sample v => '(_, t) ← node_seen now i ep sample v t; Ret t
  | NodeFailed i ep => node_failed i ep t
  | NextToRefresh => '(_, t) ← next_to_refresh now t; Ret t
  | SetSelf i => set_self now i t
  | LoadContacts cs => load_contacts now cs t
  end.

Definition sighting (now : Z) (i : NodeId) (ep : Address) (sample : Z) (v : bool) : NodeEntry :=
  record_success now sample (set_verified v (new_entry i ep)).

(** Ids have their twenty bytes; a sighting is [calm]; loaded contacts are new. *)
Definition op_ok (now : Z) (op : Op) (t : RoutingTable) : Prop :=
  match op with
  | HeardAbout i _ _ | NodeFailed i _ | SetSelf i => id_ok i
  | NodeSeen i ep sample v => id_ok i /\ calm (sighting now i ep sample v) t
  | NextToRefresh => True
  | LoadContacts cs =>
      Forall (fun n => id_ok (id n)) cs /\ NoDup (id <$> cs)
      /\ (forall n m, n ∈ cs -> m ∈ all_contacts t -> id m <> id n)
  end.

(** The tables of a history of calls. *)
Inductive reachable : RoutingTable -> Prop :=
| reach_new i ext : id_ok i -> reachable (new_table i ext)
| reach_op t now op t' :
    reachable t -> op_ok now op t -> apply_op now op t = Ret t' -> reachable t'.

Lemma sighting_id now i ep sample v :
  id (sighting now i ep sample v) = i /\ endpoint (sighting now i ep sample v) = ep.
Proof. unfold sighting, record_success, update_rtt. by case_match. Qed.

Lemma heard_ok now i ep v t :
  table_ok t -> id_ok i ->
  returns (heard_about now i ep v t) (fun t' =>
    table_ok t' /\ self t' = self t /\ forall P, P ep -> housed P t -> housed P t').
Proof.
  intros Ht Hi. unfold heard_about. case_bool_decide; [by cbn|].
  eapply returns_bind; [by apply add_ok|]. intros [r t'] (? & ? & _ & ?). done.
Qed.

Lemma apply_ok now op t : table_ok t -> op_ok now op t -> returns (apply_op now op t) table_ok.
Proof.
  intros Ht Hop. destruct op as [i ep v|i ep sample v|i ep| |i|cs]; cbn [apply_op op_ok] in *.
  - eapply returns_mono; [by apply heard_ok|]. by intros t' [? _].
  - destruct Hop as [Hi Hc]. unfold node_seen. case_bool_decide; [by cbn|].
    change (record_success now sample _) with (sighting now i ep sample v).
    destruct (sighting_id now i ep sample v) as [Ei _].
    eapply returns_bind; [apply add_ok; [done|by rewrite Ei|done]|]. by intros [r t'] [? _].
  - eapply returns_mono; [by apply failed_ok|]. by intros t' [? _].
  - eapply returns_bind; [by apply refresh_next_ok|]. by intros [r t'] [[? _] _].
  - eapply returns_mono; [by apply set_self_ok|]. by intros t' [? _].
  - destruct Hop as (H1 & H2 & H3). eapply returns_mono; [by apply load_ok|]. by intros t' [? _].
Qed.

Lemma count_public_indexed ns m l :
  indexed m l ->
  indexed (foldl (fun m n => if is_public_address (ip (endpoint n))
                    then <[ip (endpoint n) := default 0 (m !! ip (endpoint n)) + 1]> m else m) m ns)
    (ns ++ l).
Proof.
  revert m l. induction ns as [|n ns IH]; intros m l H; [done|]. cbn [foldl app].
  rewrite Permutation_middle. apply IH. by apply indexed_track.
Qed.

Lemma ok_consistent t : table_ok t -> ip_index_consistent t = true.
Proof.
  intros [(_ & _ & _ & Hx) _]. apply bool_decide_eq_true_2, map_eq. intros a. rewrite Hx.
  rewrite <- (app_nil_r (all_contacts t)) at 2. apply count_public_indexed.
  intros b. unfold tally. cbn. by rewrite andb_false_r.
Qed.

Lemma reachable_ok t : reachable t -> table_ok t.
Proof.
  induction 1 as [i ext Hi|t now op t' _ IH Hop E]; [by apply new_table_ok|].
  pose proof (apply_ok now op t IH Hop) as H. by rewrite E in H.
Qed.


(** * Hearsay *)

Lemma updated_live t i b b' t' n :
  updated t i b' t' -> zlookup (buckets t) i = Some b ->
  (forall n, n ∈ live b -> n ∈ live b') -> n ∈ live_contacts t -> n ∈ live_contacts t'.
Proof.
  intros (_ & _ & _ & Hl) Hb Hs (j & bj & Hj & Hn)%elem_live. apply elem_live.
  destruct (decide (j = i)) as [->|Hne].
  - exists i, b'. rewrite Hl, Z.eqb_refl. split; [done|]. apply Hs. congruence.
  - exists j, bj. by rewrite Hl, (proj2 (Z.eqb_neq j i) Hne).
Qed.

(** An entry that is not confirmed takes a free slot or waits in the cache. *)
Lemma place_hearsay again t e i :
  table_ok t -> newcomer e t -> i = bucket_index (id e) t -> confirmed e = false ->
  returns (place again i e t) (fun '(_, t') => forall n, n ∈ live_contacts t -> n ∈ live_contacts t').
Proof.
  intros Ht He Hi Hc. pose proof (index_range t (id e) (proj1 Ht) (proj1 He)) as Ri.
  rewrite <- Hi in Ri. destruct (zlookup_is t i Ri) as [b Hb]. unfold place.
  rewrite (bucket_at_lookup _ _ _ Hb), Hc. cbn [mbind outcome_bind].
  destruct (proj2 Ht _ _ Hb) as [W1 W2].
  destruct (Z.ltb_spec (zlen (live b)) (bucket_limit i t)) as [Hl|Hl].
  - eapply returns_bind; [apply (swap_ok t e i b _ None (contacts b)); try done|].
    + unfold contacts. cbn [live replacements]. rewrite <- (assoc_L (++)).
      apply Permutation_app_swap_app.
    + cbn [live]. rewrite zlen_app. change (zlen [e]) with 1. lia.
    + intros t' (_ & _ & _ & Hu). cbn [returns]. intros n. eapply updated_live; [done..|].
      intros m Hm. apply elem_of_app. by left.
  - eapply returns_bind; [by eapply stash_ok|]. intros t' [_ [r [->|Hu]]]; [by cbn|].
    cbn [returns]. intros n. by eapply updated_live.
Qed.

Lemma absent_newcomer t e b :
  table_ok t -> id_ok (id e) -> id e <> self t ->
  zlookup (buckets t) (bucket_index (id e) t) = Some b ->
  find_by_id (live b) (id e) = None -> find_by_id (replacements b) (id e) = None -> newcomer e t.
Proof.
  intros Ht Hid Hself Hb El Er.
  eapply (newcomer_bucket t e _ b b t (proj1 Ht) (proj1 Ht)); try done; [by apply updated_refl|].
  intros (n & E & Hn)%list_elem_of_fmap. apply elem_of_app in Hn as [Hn|Hn].
  - by apply (find_by_id_None _ _ _ El Hn).
  - by apply (find_by_id_None _ _ _ Er Hn).
Qed.

(** A contact up to its BEP 42 mark, which hearsay may set and not clear. *)
Definition same_contact (n n' : NodeEntry) : Prop :=
  n' = set_verified (verified n') n /\ (verified n = true -> verified n' = true).

Lemma same_contact_refl n : same_contact n n.
Proof. by destruct n. Qed.

Lemma renewed_live t i b k n n' t' :
  updated t i (mkBucket (<[k := n']> (live b)) (replacements b)) t' ->
  zlookup (buckets t) i = Some b -> live b !! k = Some n -> same_contact n n' ->
  forall m, m ∈ live_contacts t -> exists m', m' ∈ live_contacts t' /\ same_contact m m'.
Proof.
  intros (_ & _ & _ & Hl) Hb Hk Hn m (j & bj & Hj & Hm)%elem_live.
  assert (forall x q, <[k := n']> (live b) !! q = Some x -> x ∈ live_contacts t') as Hin.
  { intros x q Hq. apply elem_live. exists i. eexists. rewrite Hl, Z.eqb_refl. split; [done|].
    by apply (list_elem_of_lookup_2 _ q). }
  destruct (decide (j = i)) as [->|Hne].
  - apply list_elem_of_lookup in Hm as [q Hq]. assert (bj = b) as -> by congruence.
    destruct (decide (q = k)) as [->|Hqk].
    + exists n'. assert (m = n) as -> by congruence. split; [|done].
      apply (Hin _ k), list_lookup_insert_eq. by eapply lookup_lt_Some.
    + exists m. split; [|apply same_contact_refl]. apply (Hin _ q). by rewrite list_lookup_insert_ne.
  - exists m. split; [|apply same_contact_refl].
    apply elem_live. exists j, bj. by rewrite Hl, (proj2 (Z.eqb_neq j i) Hne).
Qed.

(** Hearsay is harmless: [heard_about] returns, and every live contact is still live
    with its endpoint, failures, round-trip time and last sighting as they were; the
    only field that may change is the verification mark, from unset to set. *)
Theorem heard_about_harmless now i ep v t (Ht : reachable t) (Hi : id_ok i) :
  returns (heard_about now i ep v t) (fun t' =>
    forall n, n ∈ live_contacts t -> exists n', n' ∈ live_contacts t' /\ same_contact n n').
Proof.
  apply reachable_ok in Ht. unfold heard_about. case_bool_decide as Hself.
  { cbn. eauto using same_contact_refl. }
  set (e := set_verified v (new_entry i ep)). assert (id e = i) as Ei by done.
  unfold add. change (Z.to_nat kBucketCount) with (S 159). remember 159%nat as fuel. cbn [add_node].
  rewrite Ei, bool_decide_eq_false_2 by done.
  destruct (zlookup_is t (bucket_index i t)) as [b Hb]; [by apply index_range; [apply Ht|]|].
  rewrite (bucket_at_lookup _ _ _ Hb). cbn [mbind outcome_bind].
  destruct (find_by_id (live b) i) as [[k n]|] eqn:El.
  { apply find_by_id_Some in El as [Hk En]. change (pinged e) with false. cbn [andb].
    destruct (contacts_live b k n (refresh now n e) Hk) as [P P'].
    destruct (refresh_fields now n e) as [Fi Fe].
    eapply (returns_bind _ _ (fun '(_, t1) => updated t (bucket_index i t)
      (mkBucket (<[k := refresh now n e]> (live b)) (replacements b)) t1));
      [eapply returns_bind; [eapply (renew_ok _ _ _ _ _ _ _ _ Ht Hb P P' Fi)|]|].
    - apply zlen_insert.
    - done.
    - intros ns Hx. apply (indexed_same_ip _ n); [by rewrite Fe|done].
    - intros t1 (_ & _ & _ & Hu). apply returns_Ret. exact Hu.
    - intros [r t1] Hu. cbn in Hu |- *. eapply renewed_live; [exact Hu|done..|].
      split; [done|]. unfold refresh. cbn. by intros ->. }
  destruct (find_by_id (replacements b) i) as [[k n]|] eqn:Er.
  { rewrite bool_decide_eq_true_2 by eauto. cbn. eauto using same_contact_refl. }
  rewrite bool_decide_eq_false_2 by (by intros [? ?]). cbn [andb mbind outcome_bind].
  pose proof (absent_newcomer t e b Ht Hi Hself Hb El Er) as Hnew.
  pose proof (gate_ok b e t Ht) as Hg. destruct (passes_ip_diversity b e t) as [[r t']| |]; [|done..].
  cbn [mbind outcome_bind]. destruct Hg as (_ & _ & _ & Hg). rewrite (Hg (or_intror eq_refl)).
  destruct r; cbn [negb]; [|cbn; eauto using same_contact_refl].
  eapply returns_bind; [by apply place_hearsay|]. intros [r t2] Hl. cbn [returns].
  eauto using same_contact_refl.
Qed.

(** * Sightings *)

Lemma bind_Ret {A B} (m : outcome A) (f : A -> outcome B) y :
  m ≫= f = Ret y -> exists x, m = Ret x /\ f x = Ret y.
Proof. destruct m; cbn; naive_solver. Qed.

Lemma set_bucket_Ret i b t t' :
  set_bucket i b t = Ret t' ->
  0 <= i < zlen (buckets t) /\ buckets t' = <[Z.to_nat i := b]> (buckets t).
Proof.
  unfold set_bucket, zupdate. destruct (Z.leb_spec 0 i), (Z.ltb_spec i (zlen (buckets t))); cbn; try done.
  intros [= <-]. split; [lia|done].
Qed.

Definition is_live (x : NodeId) (t : RoutingTable) : Prop := exists n, n ∈ live_contacts t /\ id n = x.

Lemma set_bucket_live i b t t' n :
  set_bucket i b t = Ret t' -> n ∈ live b -> is_live (id n) t'.
Proof.
  intros [Hi E]%set_bucket_Ret Hn. exists n. split; [|done]. apply elem_live. exists i, b.
  rewrite E, zlookup_update by done. by rewrite Z.eqb_refl.
Qed.

Lemma fill_live i t t' x : fill_from_replacements i t = Ret t' -> is_live x t -> is_live x t'.
Proof.
  unfold fill_from_replacements, bucket_at. destruct (zlookup (buckets t) i) as [b|] eqn:Hb; [|done].
  cbn [mbind outcome_bind]. intros [Hi E]%set_bucket_Ret (n & Hn & Ex). exists n. split; [|done].
  destruct (fill_loop_spec (length (replacements b)) (bucket_limit i t) b) as (_ & _ & _ & Hp).
  destruct Hp as [k Hp]. apply elem_live in Hn as (j & bj & Hj & Hn). apply elem_live.
  rewrite E. destruct (decide (j = i)) as [->|Hne].
  - eexists i, _. rewrite zlookup_update, Z.eqb_refl by done. split; [done|].
    rewrite Hp. apply elem_of_app. left. congruence.
  - exists j, bj. by rewrite zlookup_update, (proj2 (Z.eqb_neq j i) Hne) by done.
Qed.

Lemma place_live again i e t t' :
  place again i e t = Ret (true, t') ->
  (forall t1 t2, again e t1 = Ret (true, t2) -> is_live (id e) t2) -> is_live (id e) t'.
Proof.
  intros H Hagain. unfold place in H. apply bind_Ret in H as (b & _ & H).
  destruct (_ <? _).
  { apply bind_Ret in H as (t1 & H1 & [= <-]). eapply set_bucket_live; [exact H1|].
    cbn [live]. apply elem_of_app. right. left. }
  apply bind_Ret in H as ([] & _ & H).
  - apply bind_Ret in H as (t1 & _ & H). apply bind_Ret in H as ([added t2] & H2 & H).
    apply bind_Ret in H as (t3 & H3 & H). apply bind_Ret in H as (t4 & H4 & [= -> <-]).
    eapply fill_live, fill_live; eauto.
  - apply bind_Ret in H as ([r t1] & H1 & H). destruct r.
    2: { by apply bind_Ret in H as (t2 & _ & [=]). }
    injection H as <-. destruct (confirmed e); [|done]. unfold replace_for_spread in H1.
    apply bind_Ret in H1 as (b1 & _ & H1). apply bind_Ret in H1 as (found & Hf & H1).
    destruct found as [[k old]|]; [|done]. apply bind_Ret in H1 as (t2 & H2 & [= <-]).
    pose proof (bucket_limit_nonneg i t) as Hl. unfold kBucketSize in Hl.
    pose proof (displaced_spec i (bucket_limit i t) (i + 1 =? zlen (buckets t)) e (live b1)
      ltac:(lia)) as Hd. rewrite Hf in Hd. specialize (Hd k old eq_refl).
    eapply set_bucket_live; [exact H2|]. cbn [live].
    apply (list_elem_of_lookup_2 _ k), list_lookup_insert_eq. by eapply lookup_lt_Some.
Qed.

Lemma add_live now fuel : forall e t t',
  add_node fuel now e t = Ret (true, t') -> is_live (id e) t'.
Proof.
  induction fuel as [|fuel IH]; intros e t t' H; cbn [add_node] in H; [done|].
  case_bool_decide; [done|]. apply bind_Ret in H as (b & _ & H).
  destruct (find_by_id (live b) (id e)) as [[k n]|] eqn:El.
  { apply find_by_id_Some in El as [Hk En]. apply bind_Ret in H as (t1 & H1 & [= <-]).
    destruct (refresh_fields now n e) as [Ei _]. rewrite <- En, <- Ei.
    eapply set_bucket_live; [exact H1|]. cbn [live].
    apply (list_elem_of_lookup_2 _ k), list_lookup_insert_eq. by eapply lookup_lt_Some. }
  destruct (_ && _) in H; [done|].
  apply bind_Ret in H as ([[e1 promoted] t1] & H1 & H).
  assert (id e1 = id e) as <-.
  { destruct (find_by_id (replacements b) (id e)) as [[k n]|] eqn:Er; [|by injection H1 as <-].
    apply find_by_id_Some in Er as [_ En]. apply bind_Ret in H1 as (t2 & _ & [= <- _ _]).
    by rewrite (proj2 (carry_endpoint now n e)). }
  apply bind_Ret in H as ([pass t2] & _ & H). destruct (negb pass); [done|].
  eapply place_live; [exact H|]. intros t3 t4. apply IH.
Qed.

(** A sighting that reports success is live: when [node_seen] returns true, the node
    is in a live set of the table; and it returns, [calm] sightings being those that do
    not move a standby to the public address of another contact. *)
Theorem node_seen_live now i ep sample v t (Ht : reachable t) (Hi : id_ok i)
    (Hc : calm (sighting now i ep sample v) t) :
  returns (node_seen now i ep sample v t) (fun '(r, t') => r = true -> is_live i t').
Proof.
  apply reachable_ok in Ht. unfold node_seen. case_bool_decide; [by cbn|].
  change (record_success now sample _) with (sighting now i ep sample v).
  destruct (sighting_id now i ep sample v) as [Ei _].
  pose proof (add_ok now (sighting now i ep sample v) t Ht ltac:(by rewrite Ei) Hc) as Hadd.
  destruct (add now (sighting now i ep sample v) t) as [[r t']| |] eqn:E; [|done..].
  cbn [returns]. intros ->. rewrite <- Ei. by eapply add_live.
Qed.

(** * Concrete histories *)

Fixpoint run_ops (ops : list (Z * Op)) (t : RoutingTable) : outcome RoutingTable :=
  match ops with
  | [] => Ret t
  | (now, op) :: ops => t ← apply_op now op t; run_ops ops t
  end.

Definition demo_id (b : byte) : NodeId := b :: replicate 19 x00.
Definition v4 (a b c d : byte) : Address := mkAddress (ip_address.from_v4 [a; b; c; d]) 6881.

(** Eight confirmed contacts on the far side, the first at a public address, and a
    standby on the near side. *)
Definition demo_ops : list (Z * Op) :=
  [(1, NodeSeen (demo_id x80) (v4 x08 x08 x08 x08) 10 false);
   (2, NodeSeen (demo_id x81) (v4 x0a x00 x00 x01) 10 false);
   (3, NodeSeen (demo_id x82) (v4 x0a x00 x00 x02) 10 false);
   (4, NodeSeen (demo_id x83) (v4 x0a x00 x00 x03) 10 false);
   (5, NodeSeen (demo_id x84) (v4 x0a x00 x00 x04) 10 false);
   (6, NodeSeen (demo_id x85) (v4 x0a x00 x00 x05) 10 false);
   (7, NodeSeen (demo_id x86) (v4 x0a x00 x00 x06) 10 false);
   (8, NodeSeen (demo_id x87) (v4 x0a x00 x00 x07) 10 false);
   (9, HeardAbout (demo_id x01) (v4 x0a x00 x00 x08) false)].

(** A check that a run keeps to [op_ok], for histories in which every sighting is new. *)
Definition op_fresh (op : Op) (t : RoutingTable) : bool :=
  match op with
  | HeardAbout i _ _ | NodeFailed i _ | SetSelf i => bool_decide (id_ok i)
  | NodeSeen i _ _ _ => bool_decide (id_ok i) && bool_decide (i ∉ (id <$> all_contacts t))
  | NextToRefresh => true
  | LoadContacts _ => false
  end.

Fixpoint fresh_run (ops : list (Z * Op)) (t : RoutingTable) : bool :=
  match ops with
  | [] => true
  | (now, op) :: ops =>
      op_fresh op t && match apply_op now op t with Ret t => fresh_run ops t | _ => false end
  end.

Lemma op_fresh_ok now op t : op_fresh op t = true -> op_ok now op t.
Proof.
  destruct op as [i ep v|i ep sample v|i ep| |i|cs]; cbn [op_fresh op_ok]; try done.
  1,3,4: apply bool_decide_eq_true.
  intros [Hi%bool_decide_eq_true Hn%bool_decide_eq_true]%andb_true_iff. split; [done|].
  apply newcomer_calm. rewrite (proj1 (sighting_id now i ep sample v)).
  intros n Hin E. apply Hn, list_elem_of_fmap. eauto.
Qed.

Lemma fresh_run_reachable ops : forall t t',
  reachable t -> fresh_run ops t = true -> run_ops ops t = Ret t' -> reachable t'.
Proof.
  induction ops as [|[now op] ops IH]; intros t t' Hr Hf Hrun; cbn [fresh_run run_ops] in *.
  { by injection Hrun as <-. }
  apply andb_true_iff in Hf as [Hop Hf]. apply bind_Ret in Hrun as (t1 & E & Hrun).
  rewrite E in Hf. apply (IH t1); try done. eapply reach_op; [done| |exact E]. by apply op_fresh_ok.
Qed.

Definition demo_table : RoutingTable :=
  match run_ops demo_ops (new_table zero_id false) with Ret t => t | _ => new_table zero_id false end.

Lemma demo_reachable : reachable demo_table.
Proof.
  apply (fresh_run_reachable demo_ops (new_table zero_id false)).
  - by apply reach_new.
  - by vm_compute.
  - by vm_compute.
Qed.

(** A confirmed sighting of the standby at the public address of the first contact: the
    split moves no standby to the new bucket, the recursive call evicts the other
    contact and prunes the empty new bucket, and [fill_from_replacements(idx + 1)]
    indexes past the end of the vector. *)
Lemma standby_moved_ub :
  reachable demo_table
  /\ node_seen 10 (demo_id x01) (v4 x08 x08 x08 x08) 10 false demo_table = UB.
Proof. split; [exact demo_reachable|vm_compute; reflexivity]. Qed.

(** Two contacts at one public address: a live contact that moves is not checked against
    the others. *)
Lemma refresh_skips_gate :
  exists t n m,
    run_ops [(1, NodeSeen (demo_id x80) (v4 x08 x08 x08 x08) 10 false);
             (2, NodeSeen (demo_id x81) (v4 x09 x09 x09 x09) 10 false);
             (3, NodeSeen (demo_id x81) (v4 x08 x08 x08 x08) 10 false)] (new_table zero_id false) = Ret t
    /\ live_contacts t = [n; m] /\ endpoint n = v4 x08 x08 x08 x08 /\ endpoint m = v4 x08 x08 x08 x08.
Proof. do 3 eexists. split_and!; [vm_compute; reflexivity|vm_compute; reflexivity|done|done]. Qed.


Lemma heard_about_harmless_witness :
  returns (heard_about 10 (demo_id x02) (v4 x0a x00 x00 x09) true demo_table) (fun t' =>
    forall n, n ∈ live_contacts demo_table -> exists n', n' ∈ live_contacts t' /\ same_contact n n').
Proof. by apply (heard_about_harmless _ _ _ _ _ demo_reachable). Defined.

Lemma node_seen_live_witness :
  returns (node_seen 10 (demo_id x01) (v4 x0a x00 x00 x08) 10 false demo_table) (fun '(r, t') =>
    r = true -> is_live (demo_id x01) t').
Proof.
  apply (node_seen_live _ _ _ _ _ _ demo_reachable); [done|].
  intros _ _. rewrite (proj2 (sighting_id _ _ _ _ _)). intros Hpub. exfalso.
  assert (is_public_address (ip (v4 x0a x00 x00 x08)) = false) as E by (vm_compute; reflexivity).
  by rewrite E in Hpub.
Defined.

(** Refreshing rotates: [next_to_refresh] picks the live contact touched the longest
    ago, stamps it with the current time in the table, and gives none only when there
    is no live contact. *)
Theorem next_to_refresh_oldest now t (Ht : reachable t) :
  returns (next_to_refresh now t) (fun '(r, t') =>
    match r with
    | None => t' = t /\ live_contacts t = []
    | Some n' =>
        n' ∈ live_contacts t'
        /\ exists n, n ∈ live_contacts t /\ n' = set_last_seen now n
             /\ forall m, m ∈ live_contacts t -> last_seen n <= last_seen m
    end).
Proof.
  eapply returns_mono; [by apply refresh_next_ok, reachable_ok|]. by intros [r t'] (_ & H).
Qed.

Lemma next_to_refresh_oldest_witness :
  returns (next_to_refresh 10 demo_table) (fun '(r, t') =>
    match r with
    | None => t' = demo_table /\ live_contacts demo_table = []
    | Some n' =>
        n' ∈ live_contacts t'
        /\ exists n, n ∈ live_contacts demo_table /\ n' = set_last_seen 10 n
             /\ forall m, m ∈ live_contacts demo_table -> last_seen n <= last_seen m
    end).
Proof. exact (next_to_refresh_oldest 10 demo_table demo_reachable). Defined.
