(* ===== verification/TableClosest.v ===== *)
(** [RoutingTable::find_closest]: the walk over the distance tiers around the target's
    bucket yields exactly the nearest contacts of the whole table, in order; and the
    BEP 42 ids. *)

From stdpp Require Import sorting.
From S2P Require Import Prelude Text PeerId Address DhtId RoutingTable TableInvariant TableOps.
Import dht_id node_entry bep42 routing_table.

(** * Sorting by distance *)

Definition nearer (target : NodeId) (a b : NodeEntry) : Prop :=
  dist (id a) target <= dist (id b) target.

#[global] Instance nearer_trans target : Transitive (nearer target).
Proof. unfold nearer. intros a b c. lia. Qed.

Lemma closer_to_asym a b t : closer_to a b t = true -> closer_to b a t = false.
Proof.
  revert a b. induction t as [|z t IH]; intros [|x a] [|y b]; cbn; try done.
  rewrite (Z.eqb_sym (Z.lxor (u8 y) _)).
  destruct (Z.eqb_spec (Z.lxor (u8 x) (u8 z)) (Z.lxor (u8 y) (u8 z))); cbn; [apply IH|].
  rewrite Z.ltb_lt, Z.ltb_ge. lia.
Qed.

#[global] Instance near_rel_total target : Total (near_rel target).
Proof.
  intros a b. unfold near_rel. destruct (closer_to (id b) (id a) target) eqn:E; [right|by left].
  by apply closer_to_asym.
Qed.

Lemma sort_sorted target l :
  id_ok target -> (forall n, n ∈ l -> id_ok (id n)) ->
  StronglySorted (nearer target) (merge_sort (near_rel target) l).
Proof.
  intros Ht Hl. apply Sorted_StronglySorted; [apply _|].
  pose proof (Sorted_merge_sort (near_rel target) l) as Hs.
  assert (forall n, n ∈ merge_sort (near_rel target) l -> id_ok (id n)) as Hok
    by (intros n; rewrite merge_sort_Permutation; apply Hl).
  revert Hok. induction Hs as [|x l' Hl' IH Hx]; intros Hok; constructor.
  - apply IH. intros n Hn. apply Hok. by right.
  - destruct Hx as [|y l'' Hxy]; constructor. unfold near_rel, nearer in *.
    rewrite closer_to_dist, Z.ltb_ge in Hxy; [done|apply Hok; right; left|apply Hok; left|done].
Qed.

(** Sorting a tier and what is farther is sorting the whole. *)
Lemma sort_tiers target near far all :
  id_ok target -> (forall n, n ∈ all -> id_ok (id n)) -> NoDup (id <$> all) -> near ++ far ≡ₚ all ->
  (forall x y, x ∈ near -> y ∈ far -> dist (id x) target < dist (id y) target) ->
  merge_sort (near_rel target) all
  = merge_sort (near_rel target) near ++ merge_sort (near_rel target) far.
Proof.
  intros Ht Hok Hnd P Hlt.
  apply (StronglySorted_unique_strong (nearer target)).
  - intros x y. rewrite merge_sort_Permutation, elem_of_app, !merge_sort_Permutation, <- elem_of_app, P.
    unfold nearer. intros Hx Hy H1 H2.
    assert (id x = id y) as E.
    { apply (id_val_inj _ _ (Hok x Hx) (Hok y Hy)).
      assert (dist (id x) target = dist (id y) target) as E by lia. unfold dist in E.
      rewrite <- (Z.lxor_0_r (id_val (id x))), <- (Z.lxor_nilpotent (id_val target)).
      by rewrite <- Z.lxor_assoc, E, Z.lxor_assoc, Z.lxor_nilpotent, Z.lxor_0_r. }
    apply list_elem_of_lookup in Hx as [i Hi], Hy as [j Hj].
    assert (i = j) as ->; [|congruence].
    eapply (NoDup_lookup (id <$> all)); [done| |];
      rewrite list_lookup_fmap; [rewrite Hi|rewrite Hj; cbn; rewrite <- E]; done.
  - by apply sort_sorted.
  - apply StronglySorted_app. split_and!.
    + intros x y. rewrite !merge_sort_Permutation. intros Hx Hy. unfold nearer.
      specialize (Hlt x y Hx Hy). lia.
    + apply sort_sorted; [done|]. intros n Hn. apply Hok. rewrite <- P. apply elem_of_app. by left.
    + apply sort_sorted; [done|]. intros n Hn. apply Hok. rewrite <- P. apply elem_of_app. by right.
  - by rewrite !merge_sort_Permutation.
Qed.

(** * The tiers *)

(** Of two contacts in different buckets, the one in the target's bucket is nearer, and
    so is the one in the deeper bucket when the other is shallower than the target's. *)
Lemma tier_lt s nb target i j x y :
  id_ok s -> id_ok target -> 1 <= nb < kBucketCount ->
  contact_ok s nb i x -> contact_ok s nb j y ->
  let start := index s nb target in
  (i = start /\ j <> start) \/ (j < i /\ j < start) ->
  dist (id x) target < dist (id y) target.
Proof.
  intros Hs Ht Hnb (Hx & Hxs & Hi) (Hy & Hys & Hj) start Hij.
  apply prefix_closer; [done..|]. subst start. unfold index, kBucketCount in *.
  pose proof (prefix_tiers s target (id x) Hs Ht Hx) as Tx.
  pose proof (prefix_tiers s target (id y) Hs Ht Hy) as Ty. cbv zeta in Tx, Ty.
  destruct (shared_prefix_range s (id x) Hs Hx) as [Rx Ex].
  destruct (shared_prefix_range s (id y) Hs Hy) as [Ry Ey].
  destruct (shared_prefix_range s target Hs Ht) as [Rt _].
  assert (shared_prefix_bits s (id x) <> 160) by (intros E; apply Hxs; symmetry; by apply Ex).
  assert (shared_prefix_bits s (id y) <> 160) by (intros E; apply Hys; symmetry; by apply Ey).
  destruct (Z.ltb_spec (shared_prefix_bits s (id x)) (shared_prefix_bits s target));
    destruct (Z.ltb_spec (shared_prefix_bits s (id y)) (shared_prefix_bits s target));
    try (destruct (Z.ltb_spec (shared_prefix_bits s target) (shared_prefix_bits s (id x))));
    try (destruct (Z.ltb_spec (shared_prefix_bits s target) (shared_prefix_bits s (id y)))); lia.
Qed.

Lemma elem_eligible inc b n : n ∈ eligible inc b -> n ∈ live b.
Proof. unfold eligible. rewrite !list_elem_of_In, filter_In. tauto. Qed.

(** The contacts of a run of consecutive buckets. *)
Lemma elem_range t inc p l q x :
  sound t -> buckets t = p ++ l ++ q -> x ∈ concat (eligible inc <$> l) ->
  exists i, zlen p <= i < zlen p + zlen l /\ contact_ok (self t) (zlen (buckets t)) i x.
Proof.
  intros Hs E (i & b & Hb & Hx)%elem_buckets. pose proof (zlookup_range _ _ _ Hb) as R.
  exists (zlen p + i). split; [lia|].
  assert (zlookup (buckets t) (zlen p + i) = Some b) as Hb'.
  { rewrite E. unfold zlookup, zlen in *. destruct (Z.leb_spec 0 i); [|lia].
    destruct (Z.leb_spec 0 (Z.of_nat (length p) + i)); [|lia].
    rewrite lookup_app_r by lia.
    replace (Z.to_nat (Z.of_nat (length p) + i) - length p)%nat with (Z.to_nat i) by lia.
    by apply lookup_app_l_Some. }
  apply (proj1 (sound_bucket _ _ _ Hs Hb')). apply elem_of_app. left. by eapply elem_eligible.
Qed.

Lemma gather_shallow_spec count inc bs : forall result,
  exists taken left, bs = taken ++ left
    /\ gather_shallow count inc result bs = result ++ concat (eligible inc <$> taken)
    /\ (left = [] \/ count <= zlen (gather_shallow count inc result bs))
    /\ (count <= zlen result -> taken = []).
Proof.
  induction bs as [|b bs IH]; intros result; cbn [gather_shallow].
  { exists [], []. cbn. rewrite app_nil_r. auto. }
  destruct (Z.ltb_spec (zlen result) count).
  - destruct (IH (result ++ eligible inc b)) as (taken & left & -> & E & H1 & _).
    exists (b :: taken), left. split_and!; [done| |done|lia].
    rewrite E. cbn. by rewrite (assoc_L (++)).
  - exists [], (b :: bs). cbn. rewrite app_nil_r. auto.
Qed.

Definition all_eligible (inc : bool) (t : RoutingTable) : list NodeEntry :=
  List.filter (fun n => inc || confirmed n) (live_contacts t).

Lemma all_eligible_concat inc t : all_eligible inc t = concat (eligible inc <$> buckets t).
Proof.
  unfold all_eligible, live_contacts, eligible. induction (buckets t) as [|b bs IH]; [done|].
  cbn. by rewrite List.filter_app, IH.
Qed.

Lemma all_eligible_ok inc t :
  sound t -> (forall n, n ∈ all_eligible inc t -> id_ok (id n)) /\ NoDup (id <$> all_eligible inc t).
Proof.
  intros Hs. split.
  - intros n. unfold all_eligible. rewrite list_elem_of_In, filter_In, <- list_elem_of_In.
    intros [(i & b & Hb & Hn)%elem_live _].
    apply (proj1 (sound_bucket _ _ _ Hs Hb)). apply elem_of_app. by left.
  - apply (sublist_NoDup _ (id <$> all_contacts t)); [by apply all_ids_NoDup|].
    apply fmap_sublist. rewrite all_eligible_concat. unfold all_contacts.
    induction (buckets t) as [|b bs IH]; [done|]. cbn. apply sublist_app; [|done].
    apply sublist_inserts_r. unfold eligible. induction (live b) as [|n l IHl]; [done|].
    cbn. destruct (_ || _); by constructor.
Qed.

(** The walk over the buckets [pre ++ [b] ++ post], where [b] is the target's. *)
Section Walk.
Context (t : RoutingTable) (target : NodeId) (inc : bool) (pre : list Bucket) (b : Bucket) (post : list Bucket).
Context (Hs : sound t) (Ht : id_ok target).
Context (E : buckets t = pre ++ [b] ++ post) (Hp : zlen pre = bucket_index target t).

Let elig (l : list Bucket) : list NodeEntry := concat (eligible inc <$> l).
Let homed (i : Z) (x : NodeEntry) : Prop := contact_ok (self t) (zlen (buckets t)) i x.

Lemma elig_rev l : elig (rev l) ≡ₚ elig l.
Proof.
  unfold elig. induction l as [|x l IH]; [done|]. cbn. rewrite fmap_app, concat_app, IH. cbn.
  rewrite app_nil_r. apply Permutation_app_comm.
Qed.

Lemma elig_app l k : elig (l ++ k) = elig l ++ elig k.
Proof. unfold elig. by rewrite fmap_app, concat_app. Qed.

Lemma elem_first x : x ∈ eligible inc b -> homed (zlen pre) x.
Proof.
  intros Hx. destruct (elem_range t inc pre [b] post x Hs E) as (i & R & Hi);
    [cbn; by rewrite app_nil_r|]. change (zlen [b]) with 1 in R. by replace (zlen pre) with i by lia.
Qed.

Lemma elem_post x : x ∈ elig post -> exists i, zlen pre < i /\ homed i x.
Proof.
  intros Hx. destruct (elem_range t inc (pre ++ [b]) post [] x Hs) as (i & R & Hi); [|done|].
  - by rewrite E, app_nil_r, (assoc_L (++)).
  - exists i. split; [|done]. rewrite zlen_app in R. change (zlen [b]) with 1 in R. lia.
Qed.

(** A contact of the target's bucket against any other. *)
Lemma first_nearer x y :
  x ∈ eligible inc b -> y ∈ elig post ++ elig pre -> dist (id x) target < dist (id y) target.
Proof.
  intros Hx Hy.
  assert (exists j, j <> zlen pre /\ homed j y) as (j & Hne & Hj).
  { apply elem_of_app in Hy as [(j & ? & ?)%elem_post|Hy]; [exists j; split; [lia|done]|].
    destruct (elem_range t inc [] pre ([b] ++ post) y Hs E Hy) as (j & R & ?).
    rewrite zlen_nil in R. exists j. split; [lia|done]. }
  eapply (tier_lt (self t) (zlen (buckets t)) target (zlen pre) j); try done; try apply Hs.
  - by apply elem_first.
  - left. by rewrite <- bucket_index_eq, <- Hp.
Qed.

(** A contact of the shallow buckets [left] against any of a deeper bucket. *)
Lemma deeper_nearer left mid x y :
  pre = left ++ mid -> x ∈ eligible inc b ++ elig post ++ elig mid -> y ∈ elig left ->
  dist (id x) target < dist (id y) target.
Proof.
  intros Epre Hx Hy.
  destruct (elem_range t inc [] left (mid ++ [b] ++ post) y Hs) as (j & Rj & Hj); [|done|].
  { by rewrite E, Epre, <- !(assoc_L (++)). }
  assert (zlen pre = zlen left + zlen mid) as L by (by rewrite Epre, zlen_app).
  assert (exists i, zlen left <= i /\ homed i x) as (i & Ri & Hi).
  { apply elem_of_app in Hx as [Hx|[(i & ? & ?)%elem_post|Hx]%elem_of_app].
    - exists (zlen pre). split; [zlen_facts; lia|by apply elem_first].
    - exists i. split; [zlen_facts; lia|done].
    - destruct (elem_range t inc left mid ([b] ++ post) x Hs) as (i & Ri & Hi); [|done|].
      { by rewrite E, Epre, <- (assoc_L (++)). }
      exists i. split; [lia|done]. }
  rewrite zlen_nil in Rj.
  eapply (tier_lt (self t) (zlen (buckets t)) target i j); try done; try apply Hs.
  right. rewrite <- bucket_index_eq, <- Hp, L. zlen_facts. lia.
Qed.

Lemma all_eligible_split : all_eligible inc t ≡ₚ eligible inc b ++ elig post ++ elig pre.
Proof.
  rewrite all_eligible_concat. fold (elig (buckets t)). rewrite E, !elig_app.
  unfold elig at 2. cbn. rewrite app_nil_r. rewrite (Permutation_app_swap_app (elig pre)).
  by rewrite (Permutation_app_comm (elig pre)).
Qed.

(** What the walk gathers, and what it leaves out: nothing, or only farther contacts
    once it has enough. *)
Lemma gathered count :
  let first := eligible inc b in
  let near := if zlen first <? count then first ++ elig post else first in
  let result := gather_shallow count inc near (rev pre) in
  exists far, result ++ far ≡ₚ all_eligible inc t
    /\ (far = [] \/ count <= zlen result
        /\ forall x y, x ∈ result -> y ∈ far -> dist (id x) target < dist (id y) target).
Proof.
  intros first near result.
  destruct (gather_shallow_spec count inc (rev pre) near) as (taken & left & Er & Eg & Hg & Hn).
  fold result in Eg, Hg.
  assert (pre = rev left ++ rev taken) as Epre by (by rewrite <- rev_app_distr, <- Er, rev_involutive).
  pose proof all_eligible_split as Hall. subst near.
  destruct (Z.ltb_spec (zlen first) count) as [Hlt|Hge].
  - exists (elig (rev left)). fold (elig taken) in Eg. split.
    { rewrite Hall, Eg, Epre, elig_app. rewrite !elig_rev, <- !(assoc_L (++)).
      apply Permutation_app_head, Permutation_app_head, Permutation_app_comm. }
    destruct Hg as [->|Hg]; [by left|right]. split; [done|]. intros x y.
    rewrite Eg, <- (elig_rev taken), <- (assoc_L (++)). by apply deeper_nearer.
  - exists (elig post ++ elig pre). rewrite (Hn Hge) in Eg. cbn in Eg. rewrite app_nil_r in Eg.
    split; [by rewrite Eg, Hall|]. right. rewrite Eg. split; [done|]. apply first_nearer.
Qed.

End Walk.

Lemma buckets_around t i b :
  zlookup (buckets t) i = Some b ->
  buckets t = ztake i (buckets t) ++ [b] ++ zdrop (i + 1) (buckets t) /\ zlen (ztake i (buckets t)) = i.
Proof.
  intros Hb. pose proof (zlookup_range _ _ _ Hb). split; [|apply zlen_ztake; lia].
  unfold zlookup, ztake, zdrop in *. destruct (Z.leb_spec 0 i); [|lia].
  replace (Z.to_nat (i + 1)) with (S (Z.to_nat i)) by lia. symmetry. by apply take_drop_middle.
Qed.

Lemma closest_spec target count inc t (Hok : table_ok t) (Ht : id_ok target) (Hc : 0 <= count) :
  find_closest target count inc t
  = Ret (ztake count (merge_sort (near_rel target)
           (List.filter (fun n => inc || confirmed n) (live_contacts t)))).
Proof.
  destruct Hok as [Hs _]. unfold find_closest.
  destruct (Z.eqb_spec count 0) as [->|Hnz]; [by rewrite ztake_0|].
  destruct (zlookup_is t (bucket_index target t)) as [b Hb]; [by apply index_range|].
  rewrite (bucket_at_lookup _ _ _ Hb). cbn [mbind outcome_bind].
  destruct (buckets_around t _ b Hb) as [E Hp].
  destruct (gathered t target inc _ b _ Hs Ht E Hp count) as (far & P & H).
  set (result := gather_shallow _ _ _ _) in *. fold (all_eligible inc t). f_equal.
  destruct (all_eligible_ok inc t Hs) as [Hids Hnd].
  rewrite (sort_tiers target result far (all_eligible inc t) Ht Hids Hnd P).
  2: { intros x y Hx Hy. destruct H as [->|[_ H]]; [by apply elem_of_nil in Hy|by apply H]. }
  assert (zlen (merge_sort (near_rel target) result) = zlen result) as L
    by (unfold zlen; by rewrite merge_sort_Permutation).
  destruct (Z.min_spec count (zlen result)) as [[? ->]|[? ->]].
  - rewrite ztake_app_le by lia. done.
  - destruct H as [->|[? _]].
    + change (merge_sort (near_rel target) []) with (@nil NodeEntry). rewrite app_nil_r.
      by rewrite !ztake_all by lia.
    + rewrite ztake_app_le by lia. f_equal. lia.
Qed.

(** C7. [find_closest] is exact: it returns the [count] contacts nearest to the target by
    XOR distance, nearest first, of all live contacts of the table (of the confirmed
    ones unless unconfirmed ones are asked for), though it only visits the buckets its
    tiers need. *)
Theorem find_closest_exact target count inc t (Hr : reachable t) (Ht : id_ok target) (Hc : 0 <= count) :
  find_closest target count inc t
  = Ret (ztake count (merge_sort (near_rel target)
           (List.filter (fun n => inc || confirmed n) (live_contacts t)))).
Proof. apply closest_spec; [by apply reachable_ok|done..]. Qed.

Lemma find_closest_exact_witness :
  find_closest (demo_id x81) 2 true demo_table
  = Ret (ztake 2 (merge_sort (near_rel (demo_id x81))
           (List.filter (fun n => true || confirmed n) (live_contacts demo_table)))).
Proof. by apply (find_closest_exact _ _ _ _ demo_reachable). Defined.

(** * BEP 42 *)

Lemma or_and_bytes p r :
  Z.land (u8 p) 248 = u8 p -> and_byte (or_byte p (and_byte r x07)) xf8 = p.
Proof.
  intros Hp. apply u8_inj. unfold and_byte, or_byte. change (u8 xf8) with 248. change (u8 x07) with 7.
  rewrite !u8_byte_of. pose proof (u8_range p). pose proof (u8_range r).
  replace (u8 p) with (u8 p mod 256) at 2 by (apply Z.mod_small; lia).
  change 256 with (2 ^ 8). rewrite <- !Z.land_ones by lia. rewrite <- Hp at 2.
  apply Z.bits_inj'. intros k Hk. rewrite !Z.land_spec, Z.lor_spec, !Z.land_spec.
  destruct (Z.testbit (Z.ones 8) k), (Z.testbit 248 k) eqn:E8, (Z.testbit 7 k) eqn:E7;
    rewrite ?andb_true_r, ?andb_false_r, ?orb_false_r; try done.
  exfalso. assert (Z.testbit (Z.land 248 7) k = true) as Hb by (by rewrite Z.land_spec, E8, E7).
  change (Z.land 248 7) with 0 in Hb. by rewrite Z.bits_0 in Hb.
Qed.

Lemma prefix_low_bits a seed p0 p1 p2 :
  bep42_prefix a seed = Some (p0, p1, p2) -> Z.land (u8 p2) 248 = u8 p2.
Proof.
  unfold bep42_prefix. destruct (masked_octets a); [done|]. intros [= _ _ <-].
  rewrite u8_byte_of. change 256 with (2 ^ 8). rewrite <- Z.land_ones by lia.
  rewrite <- !Z.land_assoc. f_equal.
Qed.

Lemma masked_nonempty a :
  ip_address.ip_ok a -> family a <> FNone -> exists o octets, masked_octets a = o :: octets.
Proof.
  intros [Hl _] Hf. unfold masked_octets, ip_address.bytes, ip_address.size.
  destruct (bytes_ a) as [|x l]; [rewrite zlen_nil in Hl; lia|].
  destruct (family a); [done|by eexists _, _..].
Qed.

(** A generated id verifies: for every address that is not the unspecified one
    [generate_node_id_from_ip] yields an id, and [verify_node_id_for_ip] accepts that id
    for that address. *)
Theorem bep42_generate_verifies a rand (Hr : (18 <= length rand)%nat)
    (Ha : ip_address.ip_ok a) (Hf : family a <> FNone) :
  exists i, generate_node_id_from_ip a rand = Some i /\ id_ok i /\ verify_node_id_for_ip i a = true.
Proof.
  destruct rand as [|seed [|r2 rest]]; [cbn in Hr; lia..|]. cbn in Hr.
  destruct (masked_nonempty a Ha Hf) as (o & octets & Eo).
  destruct (bep42_prefix a seed) as [[[p0 p1] p2]|] eqn:Ep;
    [|unfold bep42_prefix in Ep; by rewrite Eo in Ep].
  unfold generate_node_id_from_ip. rewrite Ep. cbn [mbind option_bind]. eexists. split; [done|].
  assert (length (take 16 rest) = 16%nat) as L by (rewrite length_take; lia). split.
  { unfold id_ok. rewrite !length_app, L. done. }
  unfold verify_node_id_for_ip. destruct (is_public_address a); [|done]. cbn [negb].
  replace (_ !! 19%nat) with (Some seed).
  2: { symmetry. change ((take 16 rest ++ [seed]) !! 16%nat = Some seed).
       rewrite lookup_app_r by lia. by rewrite L. }
  change (default x00 (Some seed)) with seed. rewrite Ep. cbn -[and_byte or_byte].
  rewrite (or_and_bytes p2 r2) by (by eapply prefix_low_bits).
  by rewrite !bool_decide_eq_true_2.
Qed.

Lemma bep42_generate_verifies_witness :
  exists i, generate_node_id_from_ip (ip_address.from_v4 [x08; x08; x08; x08]) (replicate 18 x2a) = Some i
    /\ id_ok i /\ verify_node_id_for_ip i (ip_address.from_v4 [x08; x08; x08; x08]) = true.
Proof. by apply bep42_generate_verifies. Defined.
