(* ===== verification/Bitfield.v ===== *)
(** Bitfields ([bittorrent/bitfield.{h,cpp}]): a vector of bytes, most significant bit
    first, with the spare bits of the last byte kept zero. The abstract view is the list
    of its bits ([bits]); every operation is the corresponding operation on that list. *)

From S2P Require Import Prelude.

Record Bitfield := mkBitfield { bytes_ : list byte; bits_ : Z }.

Module bitfield.

Definition empty_bitfield : Bitfield := mkBitfield [] 0.

Definition num_bytes_for (bits : Z) : Z := (bits + 7) / 8.

(** [0x80u >> (i & 7)]. *)
Definition bit_mask (i : Z) : Z := Z.shiftr 128 (Z.land i 7).

Definition byte_at (i : Z) (b : Bitfield) : outcome byte :=
  match zlookup (bytes_ b) i with Some x => Ret x | None => UB end.
Definition set_byte (i : Z) (x : byte) (b : Bitfield) : outcome Bitfield :=
  match zupdate i x (bytes_ b) with Some l => Ret (mkBitfield l (bits_ b)) | None => UB end.

Definition get (i : Z) (b : Bitfield) : outcome bool :=
  x ← byte_at (Z.shiftr i 3) b; Ret (negb (Z.land (u8 x) (bit_mask i) =? 0)).

Definition set (i : Z) (b : Bitfield) : outcome Bitfield :=
  x ← byte_at (Z.shiftr i 3) b;
  set_byte (Z.shiftr i 3) (byte_of (Z.lor (u8 x) (bit_mask i))) b.

Definition reset (i : Z) (b : Bitfield) : outcome Bitfield :=
  x ← byte_at (Z.shiftr i 3) b;
  set_byte (Z.shiftr i 3) (byte_of (Z.land (u8 x) (Z.lxor (bit_mask i) 255))) b.

Definition set_to (i : Z) (v : bool) (b : Bitfield) : outcome Bitfield :=
  if v then set i b else reset i b.

(** [vector::resize] with a fill value. *)
Definition vec_resize (n : Z) (x : byte) (l : list byte) : list byte := resize (Z.to_nat n) x l.

Definition clear_trailing_bits (b : Bitfield) : Bitfield :=
  let rem := Z.land (bits_ b) 7 in
  match last (bytes_ b) with
  | Some x =>
      if negb (rem =? 0)
      then mkBitfield (removelast (bytes_ b) ++ [byte_of (Z.land (u8 x) (Z.shiftl 255 (8 - rem) mod 256))])
                      (bits_ b)
      else b
  | None => b
  end.

(** The loop that sets the bits from [i] on, [n] of them. *)
Fixpoint set_range (n : nat) (i : Z) (b : Bitfield) : outcome Bitfield :=
  match n with
  | O => Ret b
  | S n => b ← set i b; set_range n (i + 1) b
  end.

Definition resize (bits : Z) (value : bool) (b : Bitfield) : outcome Bitfield :=
  let old_bits := bits_ b in
  let b := mkBitfield (vec_resize (num_bytes_for bits) (if value then xff else x00) (bytes_ b)) bits in
  b ← (if value && (old_bits <? bits)
       then set_range (Z.to_nat (Z.min bits ((old_bits + 7) / 8 * 8) - old_bits)) old_bits b
       else Ret b);
  Ret (clear_trailing_bits b).

Definition assign (data : list byte) (bits : Z) : Bitfield :=
  clear_trailing_bits (mkBitfield (vec_resize (num_bytes_for bits) x00 data) bits).

(** An entry of the table: the loop [for (b = i; b; b >>= 1) bits += b & 1]. *)
Fixpoint popcount_loop (fuel : nat) (b bits : Z) : Z :=
  match fuel with
  | O => bits
  | S fuel => if b =? 0 then bits else popcount_loop fuel (Z.shiftr b 1) (bits + Z.land b 1)
  end.
Definition popcount (x : byte) : Z := popcount_loop 8 (u8 x) 0.

Definition count (b : Bitfield) : Z := foldl (fun n x => n + popcount x) 0 (bytes_ b).

(** The inner loop of [find_first_unset], [k] bits left of the byte: an index found,
    or none in this byte. *)
Fixpoint scan_byte (k : nat) (idx : Z) (b : Bitfield) : outcome (option Z) :=
  match k with
  | O => Ret None
  | S k =>
      if bits_ b <=? idx then Ret (Some (bits_ b))
      else v ← get idx b;
           if (v : bool) then scan_byte k (idx + 1) b else Ret (Some idx)
  end.

Fixpoint scan_bytes (l : list byte) (bi : Z) (b : Bitfield) : outcome Z :=
  match l with
  | [] => Ret (bits_ b)
  | x :: l =>
      if u8 x =? 255 then scan_bytes l (bi + 1) b
      else r ← scan_byte 8 (bi * 8) b;
           match r with Some i => Ret i | None => scan_bytes l (bi + 1) b end
  end.

Definition find_first_unset (b : Bitfield) : outcome Z := scan_bytes (bytes_ b) 0 b.

Definition all_set (b : Bitfield) : outcome bool := i ← find_first_unset b; Ret (i =? bits_ b).

Definition none_set (b : Bitfield) : bool := forallb (fun x => u8 x =? 0) (bytes_ b).

Definition set_all (b : Bitfield) : Bitfield :=
  clear_trailing_bits (mkBitfield (replicate (length (bytes_ b)) xff) (bits_ b)).

Definition clear_all (b : Bitfield) : Bitfield :=
  mkBitfield (replicate (length (bytes_ b)) x00) (bits_ b).

(** * The abstract view *)

Definition byte_bits (x : byte) : list bool :=
  (fun k => Z.testbit (u8 x) (7 - Z.of_nat k)) <$> seq 0 8.

Definition all_bits (l : list byte) : list bool := concat (byte_bits <$> l).

Definition bits (b : Bitfield) : list bool := ztake (bits_ b) (all_bits (bytes_ b)).

Definition bf_ok (b : Bitfield) : Prop :=
  0 <= bits_ b /\ zlen (bytes_ b) = num_bytes_for (bits_ b)
  /\ Forall (eq false) (zdrop (bits_ b) (all_bits (bytes_ b))).

(** ** Bytes *)

(** A property of bytes, checked on all of them. *)
Lemma byte_forall (P : byte -> bool) :
  forallb P (byte_of ∘ Z.of_nat <$> seq 0 256) = true -> forall x, P x = true.
Proof.
  intros H x. rewrite forallb_forall in H. apply H, list_elem_of_In, list_elem_of_fmap.
  exists (Z.to_nat (u8 x)). pose proof (u8_range x). unfold compose. cbn beta.
  rewrite Z2Nat.id, byte_of_u8 by lia.
  split; [done|]. apply elem_of_seq. lia.
Qed.

Lemma byte_bits_length x : length (byte_bits x) = 8%nat.
Proof. done. Qed.

Lemma byte_bits_inj x y : byte_bits x = byte_bits y -> x = y.
Proof.
  intros E. apply u8_inj, Z.bits_inj'. intros k Hk.
  pose proof (u8_range x). pose proof (u8_range y). destruct (Z.lt_ge_cases k 8).
  - assert (byte_bits x !! Z.to_nat (7 - k) = byte_bits y !! Z.to_nat (7 - k)) as E' by (by rewrite E).
    unfold byte_bits in E'. rewrite !list_lookup_fmap, !lookup_seq_lt in E' by lia. cbn in E'.
    injection E' as E'. by replace (7 - Z.of_nat (Z.to_nat (7 - k))) with k in E' by lia.
  - by rewrite !(testbit_high _ 8) by lia.
Qed.

Lemma popcount_spec x : popcount x = zlen (filter (eq true) (byte_bits x)).
Proof.
  apply Z.eqb_eq. revert x. apply byte_forall. vm_compute. reflexivity.
Qed.

Lemma byte_bit_forall (P : byte -> nat -> bool) :
  forallb (fun x => forallb (P x) (seq 0 8)) (byte_of ∘ Z.of_nat <$> seq 0 256) = true ->
  forall x k, (k < 8)%nat -> P x k = true.
Proof.
  intros H x k Hk. pose proof (byte_forall _ H x) as Hx. rewrite forallb_forall in Hx.
  apply Hx, in_seq. lia.
Qed.

Lemma get_byte x k :
  (k < 8)%nat -> byte_bits x !! k = Some (negb (Z.land (u8 x) (Z.shiftr 128 (Z.of_nat k)) =? 0)).
Proof.
  intros Hk. eapply bool_decide_eq_true. revert x k Hk.
  apply (byte_bit_forall (fun x k => bool_decide (_ = _))). vm_compute. reflexivity.
Qed.

Lemma set_bit_byte x k :
  (k < 8)%nat -> byte_bits (byte_of (Z.lor (u8 x) (Z.shiftr 128 (Z.of_nat k)))) = <[k := true]> (byte_bits x).
Proof.
  intros Hk. eapply bool_decide_eq_true. revert x k Hk.
  apply (byte_bit_forall (fun x k => bool_decide (_ = _))). vm_compute. reflexivity.
Qed.

Lemma reset_bit_byte x k :
  (k < 8)%nat ->
  byte_bits (byte_of (Z.land (u8 x) (Z.lxor (Z.shiftr 128 (Z.of_nat k)) 255))) = <[k := false]> (byte_bits x).
Proof.
  intros Hk. eapply bool_decide_eq_true. revert x k Hk.
  apply (byte_bit_forall (fun x k => bool_decide (_ = _))). vm_compute. reflexivity.
Qed.

Lemma mask_byte x rem :
  (rem < 8)%nat ->
  byte_bits (byte_of (Z.land (u8 x) (Z.shiftl 255 (8 - Z.of_nat rem) mod 256)))
  = take rem (byte_bits x) ++ replicate (8 - rem) false.
Proof.
  intros Hk. eapply bool_decide_eq_true. revert x rem Hk.
  apply (byte_bit_forall (fun x rem => bool_decide (_ = _))). vm_compute. reflexivity.
Qed.

(** ** Runs of bytes *)

Lemma all_bits_app l k : all_bits (l ++ k) = all_bits l ++ all_bits k.
Proof. unfold all_bits. by rewrite fmap_app, concat_app. Qed.

Lemma all_bits_cons x l : all_bits (x :: l) = byte_bits x ++ all_bits l.
Proof. done. Qed.

Lemma zlen_all_bits l : zlen (all_bits l) = 8 * zlen l.
Proof.
  induction l as [|x l IH]; [done|]. rewrite all_bits_cons, zlen_app, zlen_cons, IH.
  change (zlen (byte_bits x)) with 8. lia.
Qed.

Lemma all_bits_replicate n x v :
  byte_bits x = replicate 8 v -> all_bits (replicate n x) = replicate (8 * n) v.
Proof.
  intros E. induction n as [|n IH]; [done|]. rewrite replicate_S, all_bits_cons, E, IH.
  rewrite <- replicate_add. f_equal. lia.
Qed.

Lemma all_bits_inj l k : all_bits l = all_bits k -> l = k.
Proof.
  revert k. induction l as [|x l IH]; intros [|y k]; try done.
  rewrite !all_bits_cons. intros E. apply app_inj_1 in E as [E1 E2]; [|done].
  f_equal; [by apply byte_bits_inj|by apply IH].
Qed.

Lemma zlookup_app_r {A} (l k : list A) i : zlen l <= i -> zlookup (l ++ k) i = zlookup k (i - zlen l).
Proof.
  unfold zlookup, zlen. intros H.
  destruct (Z.leb_spec 0 i), (Z.leb_spec 0 (i - Z.of_nat (length l))); try lia.
  rewrite lookup_app_r by lia. f_equal. lia.
Qed.

Lemma zlookup_app_lt {A} (l k : list A) i : i < zlen l -> zlookup (l ++ k) i = zlookup l i.
Proof. unfold zlookup, zlen. case_match; [|done]. intros. apply lookup_app_l. lia. Qed.

(** A bit is a bit of its byte. *)
Lemma all_bits_split (l : list byte) i :
  0 <= i < 8 * zlen l ->
  exists pre x post k, l = pre ++ x :: post /\ zlen pre = Z.shiftr i 3 /\ (k < 8)%nat
    /\ Z.of_nat k = Z.land i 7 /\ i = 8 * zlen pre + Z.of_nat k.
Proof.
  intros Hi. rewrite Z.shiftr_div_pow2 by lia. change 7 with (Z.ones 3). rewrite Z.land_ones by lia.
  change (2 ^ 3) with 8.
  pose proof (Z.div_mod i 8 ltac:(lia)). pose proof (Z.mod_pos_bound i 8 ltac:(lia)).
  assert (0 <= i / 8 < zlen l) as Hq by lia.
  destruct (zlookup_lt l (i / 8) Hq) as [x Hx]. unfold zlookup in Hx.
  destruct (Z.leb_spec 0 (i / 8)); [|lia].
  exists (ztake (i / 8) l), x, (drop (S (Z.to_nat (i / 8))) l), (Z.to_nat (i mod 8)).
  rewrite zlen_ztake by lia. split_and!; [|lia..]. symmetry. by apply take_drop_middle.
Qed.

Lemma byte_at_mid pre x post n i : zlen pre = i -> byte_at i (mkBitfield (pre ++ x :: post) n) = Ret x.
Proof.
  intros H. unfold byte_at, zlookup, zlen in *. cbn [bytes_].
  destruct (Z.leb_spec 0 i); [|lia]. by rewrite list_lookup_middle by lia.
Qed.

Lemma set_byte_mid pre x y post n i :
  zlen pre = i ->
  set_byte i y (mkBitfield (pre ++ x :: post) n) = Ret (mkBitfield (pre ++ y :: post) n).
Proof.
  intros H. unfold set_byte, zupdate. cbn [bytes_ bits_]. rewrite zlen_app, zlen_cons.
  pose proof (zlen_nonneg pre). pose proof (zlen_nonneg post).
  destruct (Z.leb_spec 0 i), (Z.ltb_spec i (zlen pre + (1 + zlen post))); try lia. cbn [andb].
  unfold zlen in *. do 2 f_equal. by rewrite insert_app_r_alt, <- H, Nat2Z.id, Nat.sub_diag by lia.
Qed.

Lemma insert_mid {A} (pre mid post : list A) k v :
  (k < length mid)%nat ->
  <[(length pre + k)%nat := v]> (pre ++ mid ++ post) = pre ++ <[k := v]> mid ++ post.
Proof. intros H. rewrite insert_app_r, insert_app_l by done. done. Qed.

(** ** Single bits *)

Lemma get_raw l n i :
  0 <= i < 8 * zlen l -> exists v, get i (mkBitfield l n) = Ret v /\ zlookup (all_bits l) i = Some v.
Proof.
  intros Hi. destruct (all_bits_split l i Hi) as (pre & x & post & k & -> & Hp & Hk & Ek & Ei).
  unfold get. rewrite byte_at_mid by done. cbn [mbind outcome_bind]. eexists. split; [done|].
  unfold bit_mask. rewrite <- Ek, Ei, all_bits_app, all_bits_cons.
  rewrite zlookup_app_r by (rewrite zlen_all_bits; lia). rewrite zlen_all_bits.
  rewrite zlookup_app_lt by (change (zlen (byte_bits x)) with 8; lia).
  replace (8 * zlen pre + Z.of_nat k - 8 * zlen pre) with (Z.of_nat k) by lia.
  unfold zlookup. destruct (Z.leb_spec 0 (Z.of_nat k)); [|lia]. by rewrite Nat2Z.id, get_byte.
Qed.

Lemma set_to_raw l n i v :
  0 <= i < 8 * zlen l ->
  exists l', set_to i v (mkBitfield l n) = Ret (mkBitfield l' n) /\ zlen l' = zlen l
    /\ all_bits l' = <[Z.to_nat i := v]> (all_bits l).
Proof.
  intros Hi. destruct (all_bits_split l i Hi) as (pre & x & post & k & -> & Hp & Hk & Ek & Ei).
  assert (exists y, set_to i v (mkBitfield (pre ++ x :: post) n) = Ret (mkBitfield (pre ++ y :: post) n)
    /\ byte_bits y = <[k := v]> (byte_bits x)) as (y & -> & Hy).
  { unfold set_to, set, reset, bit_mask. rewrite <- Ek. destruct v; rewrite byte_at_mid by done;
      cbn [mbind outcome_bind]; rewrite set_byte_mid by done; eexists; (split; [done|]).
    - by apply set_bit_byte.
    - by apply reset_bit_byte. }
  exists (pre ++ y :: post). split_and!; [done|by rewrite !zlen_app, !zlen_cons|].
  rewrite !all_bits_app, !all_bits_cons, Hy.
  replace (Z.to_nat i) with (length (all_bits pre) + k)%nat
    by (pose proof (zlen_all_bits pre) as L; unfold zlen in *; lia).
  by rewrite insert_mid.
Qed.

(** ** The invariant *)

Lemma bf_ok_bits b :
  bf_ok b ->
  zlen (bits b) = bits_ b /\ exists pad, all_bits (bytes_ b) = bits b ++ replicate pad false
    /\ 8 * zlen (bytes_ b) = bits_ b + Z.of_nat pad /\ Z.of_nat pad < 8.
Proof.
  intros (H0 & Hl & Hz). unfold bits, num_bytes_for in *.
  pose proof (Z.div_mod (bits_ b + 7) 8 ltac:(lia)). pose proof (Z.mod_pos_bound (bits_ b + 7) 8 ltac:(lia)).
  assert (zlen (ztake (bits_ b) (all_bits (bytes_ b))) = bits_ b) as L
    by (apply zlen_ztake; rewrite zlen_all_bits; lia).
  split; [done|]. exists (length (zdrop (bits_ b) (all_bits (bytes_ b)))). split.
  - rewrite <- (ztake_zdrop (bits_ b) (all_bits (bytes_ b))) at 1. f_equal.
    symmetry. apply replicate_as_elem_of. split; [done|]. intros x Hx. rewrite Forall_forall in Hz. symmetry. by apply Hz.
  - pose proof (zlen_zdrop (bits_ b) (all_bits (bytes_ b)) ltac:(rewrite zlen_all_bits; lia)) as D.
    rewrite zlen_all_bits in D. unfold zlen in D at 1. lia.
Qed.

Lemma bf_ok_intro l n bs pad :
  zlen bs = n -> zlen l = num_bytes_for n -> all_bits l = bs ++ replicate pad false ->
  bf_ok (mkBitfield l n) /\ bits (mkBitfield l n) = bs.
Proof.
  intros Hn Hl E. unfold bf_ok, bits. cbn [bytes_ bits_]. rewrite E.
  pose proof (zlen_nonneg bs). split_and!; [lia|done| |].
  - rewrite zdrop_app by done. apply Forall_forall. intros x Hx.
    by apply elem_of_replicate in Hx as [-> _].
  - by rewrite ztake_app.
Qed.

(** Two bitfields with the same bits are the same. *)
Lemma bits_inj a b : bf_ok a -> bf_ok b -> bits a = bits b -> a = b.
Proof.
  intros Ha Hb E. destruct (bf_ok_bits a Ha) as (La & pa & Ea & Pa & Qa).
  destruct (bf_ok_bits b Hb) as (Lb & pb & Eb & Pb & Qb).
  assert (bits_ a = bits_ b) as En by congruence.
  assert (pa = pb) as -> by lia.
  assert (bytes_ a = bytes_ b) as El by (apply all_bits_inj; congruence).
  destruct a, b. cbn in *. congruence.
Qed.

Lemma clear_trailing_spec l n :
  0 <= n -> zlen l = num_bytes_for n ->
  let b' := clear_trailing_bits (mkBitfield l n) in
  bf_ok b' /\ bits_ b' = n /\ bits b' = ztake n (all_bits l).
Proof.
  intros Hn Hl b'. subst b'. unfold clear_trailing_bits. cbn [bytes_ bits_].
  change 7 with (Z.ones 3). rewrite Z.land_ones by lia. change (2 ^ 3) with 8.
  unfold num_bytes_for in Hl.
  pose proof (Z.div_mod (n + 7) 8 ltac:(lia)). pose proof (Z.mod_pos_bound (n + 7) 8 ltac:(lia)).
  pose proof (Z.div_mod n 8 ltac:(lia)). pose proof (Z.mod_pos_bound n 8 ltac:(lia)).
  destruct (last l) as [x|] eqn:E.
  - apply last_Some in E as [pre ->]. rewrite removelast_last.
    rewrite zlen_app, zlen_cons, zlen_nil in Hl.
    destruct (Z.eqb_spec (n mod 8) 0) as [E0|E0]; cbn [negb bits_].
    + split_and!; [|done|done]. unfold bf_ok. cbn [bytes_ bits_]. unfold num_bytes_for.
      split_and!; [lia|rewrite zlen_app, zlen_cons, zlen_nil; lia|].
      rewrite zdrop_all; [constructor|]. rewrite zlen_all_bits, zlen_app, zlen_cons, zlen_nil. lia.
    + set (rem := Z.to_nat (n mod 8)).
      pose proof (mask_byte x rem ltac:(lia)) as M. replace (Z.of_nat rem) with (n mod 8) in M by lia.
      assert (ztake n (all_bits (pre ++ [x])) = all_bits pre ++ take rem (byte_bits x)) as Et.
      { rewrite all_bits_app, all_bits_cons. unfold all_bits at 2. cbn [fmap list_fmap concat].
        rewrite app_nil_r. unfold ztake. pose proof (zlen_all_bits pre) as Lp. unfold zlen in *.
        rewrite take_app_ge by lia. do 2 f_equal. lia. }
      rewrite Et. edestruct (bf_ok_intro (pre ++ [byte_of (Z.land (u8 x) (Z.shiftl 255 (8 - n mod 8) mod 256))]) n
        (all_bits pre ++ take rem (byte_bits x)) (8 - rem)) as [? ?]; [| | |by split_and!].
      * rewrite zlen_app, zlen_all_bits. unfold zlen at 2. rewrite length_take, byte_bits_length. lia.
      * unfold num_bytes_for. rewrite zlen_app, zlen_cons, zlen_nil. lia.
      * rewrite all_bits_app, all_bits_cons, M. unfold all_bits at 2. cbn [fmap list_fmap concat].
        by rewrite app_nil_r, (assoc_L (++)).
  - apply last_None in E as ->. rewrite zlen_nil in Hl. split_and!; [|done|done].
    split_and!; [done|cbn [bytes_ bits_]; unfold num_bytes_for; rewrite zlen_nil; lia|].
    cbn [bytes_ bits_]. rewrite zdrop_all; [constructor|]. cbn. rewrite zlen_nil. lia.
Qed.

(** * The operations on bits *)

Lemma get_spec b i :
  bf_ok b -> 0 <= i < bits_ b -> exists v, get i b = Ret v /\ zlookup (bits b) i = Some v.
Proof.
  intros Hb Hi. destruct (bf_ok_bits b Hb) as (L & pad & E & P & _).
  destruct (get_raw (bytes_ b) (bits_ b) i ltac:(lia)) as (v & Hg & Hv).
  exists v. split; [by destruct b|]. rewrite E, zlookup_app_lt in Hv by lia. done.
Qed.

Lemma set_to_spec b i v :
  bf_ok b -> 0 <= i < bits_ b ->
  returns (set_to i v b) (fun b' =>
    bf_ok b' /\ bits_ b' = bits_ b /\ bits b' = <[Z.to_nat i := v]> (bits b)).
Proof.
  intros Hb Hi. destruct (bf_ok_bits b Hb) as (L & pad & E & P & _).
  destruct (set_to_raw (bytes_ b) (bits_ b) i v ltac:(lia)) as (l' & Hs & Hl & Ha).
  replace b with (mkBitfield (bytes_ b) (bits_ b)) at 1 by (by destruct b). rewrite Hs. cbn [returns bits_].
  rewrite E, insert_app_l in Ha by (unfold zlen in L; lia).
  destruct (bf_ok_intro l' (bits_ b) (<[Z.to_nat i := v]> (bits b)) pad) as [H1 H2]; [| |done|done].
  - unfold zlen in *. by rewrite length_insert.
  - rewrite Hl. apply Hb.
Qed.

Lemma set_range_spec n : forall l m i,
  0 <= i -> i + Z.of_nat n <= 8 * zlen l ->
  exists l', set_range n i (mkBitfield l m) = Ret (mkBitfield l' m) /\ zlen l' = zlen l
    /\ all_bits l' = ztake i (all_bits l) ++ replicate n true ++ zdrop (i + Z.of_nat n) (all_bits l).
Proof.
  induction n as [|n IH]; intros l m i Hi Hn; cbn [set_range].
  { exists l. rewrite Z.add_0_r. cbn. by rewrite ztake_zdrop. }
  destruct (set_to_raw l m i true) as (l1 & Hs & L1 & E1); [lia|]. cbn [set_to] in Hs. rewrite Hs.
  cbn [mbind outcome_bind].
  destruct (IH l1 m (i + 1)) as (l2 & Hr & L2 & E2); [lia|lia|]. exists l2.
  split_and!; [done|lia|]. rewrite E2, E1.
  pose proof (zlen_all_bits l) as L. unfold ztake, zdrop, zlen in *.
  rewrite drop_insert_lt by lia.
  replace (Z.to_nat (i + 1)) with (S (Z.to_nat i)) by lia.
  rewrite (take_S_r _ _ true) by (apply list_lookup_insert_eq; lia).
  rewrite take_insert_ge by lia. rewrite <- (assoc_L (++)). cbn.
  replace (Z.to_nat (i + 1 + Z.of_nat n)) with (Z.to_nat (i + Z.of_nat (S n))) by lia. done.
Qed.

(** The list of bits cut or extended to [n] with [v]. *)
Definition resize_bits (n : Z) (v : bool) (l : list bool) : list bool :=
  ztake n l ++ replicate (Z.to_nat (n - zlen l)) v.

Lemma vec_resize_bits n x v l :
  0 <= n -> byte_bits x = replicate 8 v ->
  zlen (vec_resize n x l) = n
  /\ all_bits (vec_resize n x l) = ztake (8 * n) (all_bits l) ++ replicate (8 * (Z.to_nat n - length l)) v.
Proof.
  intros Hn Hx. unfold vec_resize. split; [unfold zlen; rewrite length_resize; lia|].
  rewrite resize_spec, all_bits_app, (all_bits_replicate _ _ v Hx). f_equal.
  pose proof (zlen_all_bits l) as L. destruct (Z.le_gt_cases (zlen l) n).
  - rewrite take_ge, ztake_all by (rewrite ?L; unfold zlen in *; lia). done.
  - rewrite <- (take_drop (Z.to_nat n) l) at 2. rewrite all_bits_app, ztake_app; [done|].
    rewrite zlen_all_bits. unfold zlen in *. rewrite length_take. lia.
Qed.

Lemma ztake_pad {A} n (l : list A) j v k :
  zlen l <= n -> n <= zlen l + Z.of_nat j ->
  ztake n (l ++ replicate j v ++ k) = l ++ replicate (Z.to_nat (n - zlen l)) v.
Proof.
  intros H1 H2. unfold ztake, zlen in *. rewrite take_app_ge by lia. f_equal.
  rewrite take_app_le by (rewrite length_replicate; lia). rewrite take_replicate. f_equal. lia.
Qed.

(** The bits after the bytes were resized and the gap was filled. *)
Lemma resize_gap b n v N l :
  bf_ok b -> bits_ b < n -> N = num_bytes_for n -> zlen l = N ->
  all_bits l = ztake (8 * N) (all_bits (bytes_ b)) ++ replicate (8 * (Z.to_nat N - length (bytes_ b))) v ->
  exists l', (if v && (bits_ b <? n)
              then set_range (Z.to_nat (Z.min n ((bits_ b + 7) / 8 * 8) - bits_ b)) (bits_ b) (mkBitfield l n)
              else Ret (mkBitfield l n)) = Ret (mkBitfield l' n)
    /\ zlen l' = N /\ ztake n (all_bits l') = resize_bits n v (bits b).
Proof.
  intros Hb Hn EN HN E. destruct (bf_ok_bits b Hb) as (L & pad & Eb & P & Q).
  unfold num_bytes_for in *. pose proof (Z.div_mod (n + 7) 8 ltac:(lia)).
  pose proof (Z.mod_pos_bound (n + 7) 8 ltac:(lia)).
  assert ((bits_ b + 7) / 8 * 8 = bits_ b + Z.of_nat pad) as Er.
  { destruct Hb as (_ & Hl & _). unfold num_bytes_for in Hl. lia. }
  assert (zlen (bytes_ b) <= N) as HL by lia. assert (0 <= bits_ b) by apply Hb.
  rewrite ztake_all, Eb in E by (rewrite zlen_all_bits; lia).
  unfold resize_bits. rewrite (ztake_all n (bits b)) by lia.
  destruct (Z.ltb_spec (bits_ b) n); [|lia]. destruct v; cbn [andb].
  - set (k := Z.to_nat (Z.min n ((bits_ b + 7) / 8 * 8) - bits_ b)).
    destruct (set_range_spec k l n (bits_ b)) as (l' & Hs & L' & E'); [lia|lia|].
    exists l'. split_and!; [done|lia|]. rewrite E', E.
    rewrite (ztake_app_le (bits_ b)) by (rewrite zlen_app, zlen_replicate; lia).
    rewrite (ztake_app (bits_ b)) by lia.
    destruct (Z.le_gt_cases n (bits_ b + Z.of_nat pad)).
    + by rewrite ztake_pad by lia.
    + assert (k = pad) as -> by lia.
      rewrite zdrop_app by (rewrite zlen_app, zlen_replicate; lia).
      rewrite <- replicate_add, <- (app_nil_r (replicate (pad + _) true)).
      apply ztake_pad; unfold zlen in *; lia.
  - exists l. split_and!; [done|done|]. rewrite E, <- (assoc_L (++)), <- replicate_add.
    rewrite <- (app_nil_r (replicate (pad + _) false)). apply ztake_pad; unfold zlen in *; lia.
Qed.

Lemma resize_ok b n v :
  bf_ok b -> 0 <= n ->
  returns (resize n v b) (fun b' => bf_ok b' /\ bits_ b' = n /\ bits b' = resize_bits n v (bits b)).
Proof.
  intros Hb Hn. destruct (bf_ok_bits b Hb) as (L & pad & Eb & P & Q). unfold resize.
  assert (0 <= num_bytes_for n) as HN by (unfold num_bytes_for; apply Z.div_pos; lia).
  assert (n <= 8 * num_bytes_for n) as HN8.
  { unfold num_bytes_for. pose proof (Z.div_mod (n + 7) 8 ltac:(lia)).
    pose proof (Z.mod_pos_bound (n + 7) 8 ltac:(lia)). lia. }
  destruct (vec_resize_bits (num_bytes_for n) (if v then xff else x00) v (bytes_ b)) as [LN EN];
    [done|by destruct v|].
  set (l := vec_resize _ _ (bytes_ b)) in *.
  assert (exists l', (if v && (bits_ b <? n)
              then set_range (Z.to_nat (Z.min n ((bits_ b + 7) / 8 * 8) - bits_ b)) (bits_ b) (mkBitfield l n)
              else Ret (mkBitfield l n)) = Ret (mkBitfield l' n)
    /\ zlen l' = num_bytes_for n /\ ztake n (all_bits l') = resize_bits n v (bits b)) as (l' & -> & L' & E').
  { destruct (Z.lt_ge_cases (bits_ b) n) as [Hlt|Hge]; [by eapply resize_gap|].
    exists l. destruct (Z.ltb_spec (bits_ b) n); [lia|]. rewrite andb_false_r. split_and!; [done..|].
    unfold resize_bits. replace (Z.to_nat (n - zlen (bits b))) with 0%nat by lia. rewrite app_nil_r, EN, Eb.
    assert (8 * num_bytes_for n <= bits_ b + Z.of_nat pad).
    { destruct Hb as (_ & Hl & _). assert (num_bytes_for n <= zlen (bytes_ b)); [|lia].
      rewrite Hl. unfold num_bytes_for. apply Z.div_le_mono; lia. }
    rewrite ztake_app_le by (rewrite zlen_ztake; rewrite ?zlen_app, ?zlen_replicate; lia).
    unfold ztake. rewrite take_take. rewrite Nat.min_l by lia.
    apply take_app_le. unfold zlen in L. lia. }
  cbn [mbind outcome_bind returns]. rewrite <- E'. by apply clear_trailing_spec.
Qed.

Lemma assign_spec data n :
  0 <= n ->
  let b' := assign data n in
  bf_ok b' /\ bits_ b' = n /\ bits b' = resize_bits n false (all_bits data).
Proof.
  intros Hn. unfold assign.
  assert (0 <= num_bytes_for n) as HN by (unfold num_bytes_for; apply Z.div_pos; lia).
  destruct (vec_resize_bits (num_bytes_for n) x00 false data HN eq_refl) as [LN EN].
  destruct (clear_trailing_spec (vec_resize (num_bytes_for n) x00 data) n Hn LN) as (H1 & H2 & H3).
  split_and!; [done..|]. rewrite H3, EN. unfold resize_bits. rewrite zlen_all_bits.
  pose proof (zlen_all_bits data) as L. unfold num_bytes_for in *.
  pose proof (Z.div_mod (n + 7) 8 ltac:(lia)). pose proof (Z.mod_pos_bound (n + 7) 8 ltac:(lia)).
  destruct (Z.le_gt_cases (8 * zlen data) n) as [Hle|Hgt].
  - rewrite (ztake_all _ (all_bits data)), (ztake_all n (all_bits data)) by lia.
    rewrite <- (app_nil_r (replicate (8 * _) false)). rewrite ztake_pad by (unfold zlen in *; lia).
    by rewrite L.
  - replace (Z.to_nat (n - 8 * zlen data)) with 0%nat by lia. rewrite app_nil_r.
    destruct (Z.le_gt_cases (8 * ((n + 7) / 8)) (8 * zlen data)).
    + rewrite ztake_app_le by (rewrite zlen_ztake; lia). unfold ztake. rewrite take_take. f_equal. lia.
    + lia.
Qed.

(** * Queries *)

Definition ones (l : list bool) : Z := zlen (filter (eq true) l).

Lemma ones_app l k : ones (l ++ k) = ones l + ones k.
Proof. unfold ones. by rewrite filter_app, zlen_app. Qed.

Lemma ones_false n : ones (replicate n false) = 0.
Proof. induction n as [|n IH]; [done|]. cbn. done. Qed.

Lemma count_spec b : bf_ok b -> count b = ones (bits b).
Proof.
  intros Hb. destruct (bf_ok_bits b Hb) as (_ & pad & E & _).
  assert (ones (all_bits (bytes_ b)) = ones (bits b)) as <- by (rewrite E, ones_app, ones_false; lia).
  unfold count. assert (forall l n, foldl (fun n x => n + popcount x) n l = n + ones (all_bits l)) as H.
  { induction l as [|x l IH]; intros n; cbn [foldl]; [change (ones (all_bits [])) with 0; lia|].
    rewrite IH, all_bits_cons, ones_app, popcount_spec. unfold ones at 2. lia. }
  rewrite H. lia.
Qed.

(** [i] is the first unset bit of [l], or its length. *)
Definition first_unset (l : list bool) (i : Z) : Prop :=
  0 <= i <= zlen l /\ (forall j, 0 <= j < i -> zlookup l j = Some true)
  /\ (i < zlen l -> zlookup l i = Some false).

Lemma scan_byte_spec b k : forall idx,
  bf_ok b -> 0 <= idx -> idx + Z.of_nat k <= 8 * zlen (bytes_ b) ->
  (forall j, 0 <= j < idx -> j < bits_ b -> zlookup (bits b) j = Some true) ->
  returns (scan_byte k idx b) (fun r =>
    match r with
    | Some i => first_unset (bits b) i
    | None => forall j, 0 <= j < idx + Z.of_nat k -> j < bits_ b -> zlookup (bits b) j = Some true
    end).
Proof.
  induction k as [|k IH]; intros idx Hb Hi Hk Hpre; cbn [scan_byte].
  { cbn. rewrite Z.add_0_r. done. }
  destruct (bf_ok_bits b Hb) as (L & _). assert (0 <= bits_ b) by apply Hb. destruct (Z.leb_spec (bits_ b) idx).
  - cbn. split_and!; [lia..| |lia]. intros j Hj. apply Hpre; lia.
  - destruct (get_spec b idx Hb ltac:(lia)) as (v & -> & Hv). cbn [mbind outcome_bind].
    destruct v.
    + replace (idx + Z.of_nat (S k)) with (idx + 1 + Z.of_nat k) by lia. apply IH; [done|lia|lia|].
      intros j Hj Hjb. destruct (Z.eq_dec j idx) as [->|]; [done|apply Hpre; lia].
    + cbn. split_and!; [lia..| |done]. intros j Hj. apply Hpre; lia.
Qed.

Lemma full_byte x : u8 x = 255 -> byte_bits x = replicate 8 true.
Proof. intros H. by rewrite <- (byte_of_u8 x), H. Qed.

Lemma scan_bytes_spec b l : forall pre,
  bf_ok b -> bytes_ b = pre ++ l ->
  (forall j, 0 <= j < 8 * zlen pre -> j < bits_ b -> zlookup (bits b) j = Some true) ->
  returns (scan_bytes l (zlen pre) b) (first_unset (bits b)).
Proof.
  induction l as [|x l IH]; intros pre Hb E Hpre; cbn [scan_bytes];
    destruct (bf_ok_bits b Hb) as (L & pad & Eb & P & _).
  { assert (0 <= bits_ b) by apply Hb. rewrite app_nil_r in E. cbn. split_and!; [lia..| |lia].
    rewrite E in P. intros j Hj. apply Hpre; lia. }
  assert (zlen (pre ++ [x]) = zlen pre + 1) as Lp by (rewrite zlen_app; reflexivity).
  assert (zlen (bytes_ b) = zlen pre + (1 + zlen l)) as Lb by (by rewrite E, zlen_app, zlen_cons).
  assert ((forall j, 0 <= j < 8 * zlen (pre ++ [x]) -> j < bits_ b -> zlookup (bits b) j = Some true) ->
    returns (scan_bytes l (zlen pre + 1) b) (first_unset (bits b))) as Hnext.
  { intros H. rewrite <- Lp. apply IH; [done| |done]. by rewrite E, <- (assoc_L (++)). }
  destruct (Z.eqb_spec (u8 x) 255) as [Hx|Hx].
  - apply Hnext. intros j Hj Hjb. destruct (Z.lt_ge_cases j (8 * zlen pre)); [apply Hpre; lia|].
    rewrite <- (zlookup_app_lt (bits b) (replicate pad false)) by lia. rewrite <- Eb, E.
    rewrite all_bits_app, all_bits_cons, zlookup_app_r, zlen_all_bits by (rewrite zlen_all_bits; lia).
    rewrite full_byte by done. rewrite zlookup_app_lt by (rewrite zlen_replicate; lia).
    unfold zlookup. destruct (Z.leb_spec 0 (j - 8 * zlen pre)); [|lia]. apply lookup_replicate_2. lia.
  - pose proof (zlen_nonneg l). pose proof (zlen_nonneg pre).
    eapply returns_bind; [apply scan_byte_spec; [done|lia|lia|]|].
    { intros j Hj. apply Hpre. lia. }
    intros [i|] Hr; [done|]. apply Hnext. intros j Hj. apply Hr. lia.
Qed.

Lemma find_first_unset_spec b : bf_ok b -> returns (find_first_unset b) (first_unset (bits b)).
Proof.
  intros Hb. apply (scan_bytes_spec b (bytes_ b) []); [done|done|].
  intros j Hj. change (8 * zlen []) with 0 in Hj. lia.
Qed.

Lemma all_set_spec b :
  bf_ok b -> returns (all_set b) (fun r => r = true <-> forall j, 0 <= j < bits_ b -> zlookup (bits b) j = Some true).
Proof.
  intros Hb. destruct (bf_ok_bits b Hb) as (L & _).
  eapply returns_bind; [by apply find_first_unset_spec|]. intros i (Hi & Hpre & Hf). cbn [returns].
  rewrite Z.eqb_eq. split; [intros ->; done|]. intros H. destruct (Z.eq_dec i (bits_ b)); [done|].
  rewrite H in Hf by lia. specialize (Hf ltac:(lia)). done.
Qed.

Lemma none_set_spec b : bf_ok b -> none_set b = true <-> Forall (eq false) (bits b).
Proof.
  intros Hb. destruct (bf_ok_bits b Hb) as (_ & pad & E & _). unfold none_set.
  assert (Forall (eq false) (bits b) <-> Forall (eq false) (all_bits (bytes_ b))) as ->.
  { rewrite E, Forall_app. split; [|tauto]. intros H. split; [done|].
    apply Forall_forall. intros x Hx. by apply elem_of_replicate in Hx as [-> _]. }
  clear E. induction (bytes_ b) as [|x l IH]; [done|]. cbn [forallb].
  rewrite all_bits_cons, Forall_app, andb_true_iff, IH, Z.eqb_eq.
  assert (u8 x = 0 <-> Forall (eq false) (byte_bits x)) as ->; [|done].
  split.
  - intros H. rewrite <- (byte_of_u8 x), H. repeat constructor.
  - intros H. assert (x = x00) as ->; [|done]. apply byte_bits_inj.
    apply list_eq_same_length with 8%nat; [done..|]. intros i v w Hi Hv Hw.
    rewrite Forall_lookup in H. rewrite <- (H i v Hv).
    assert (Forall (eq false) (byte_bits x00)) as H0 by repeat constructor.
    rewrite Forall_lookup in H0. by apply (H0 i).
Qed.

Lemma fill_bits_spec b (v : bool) :
  bf_ok b ->
  let b' := clear_trailing_bits (mkBitfield (replicate (length (bytes_ b)) (if v then xff else x00)) (bits_ b)) in
  bf_ok b' /\ bits_ b' = bits_ b /\ bits b' = replicate (length (bits b)) v.
Proof.
  intros Hb b'. destruct (bf_ok_bits b Hb) as (L & pad & E & P & _).
  destruct (clear_trailing_spec (replicate (length (bytes_ b)) (if v then xff else x00)) (bits_ b))
    as (H1 & H2 & H3).
  - apply Hb.
  - rewrite zlen_replicate. apply Hb.
  - split_and!; [done..|]. fold b' in H3. rewrite H3, (all_bits_replicate _ _ v) by (by destruct v).
    unfold ztake, zlen in *. rewrite take_replicate. f_equal. lia.
Qed.

Lemma clear_all_spec b :
  bf_ok b -> bf_ok (clear_all b) /\ bits (clear_all b) = replicate (length (bits b)) false.
Proof.
  intros Hb. destruct (bf_ok_bits b Hb) as (L & pad & E & P & _).
  apply (bf_ok_intro _ _ _ pad).
  - by rewrite zlen_replicate.
  - rewrite zlen_replicate. apply Hb.
  - rewrite (all_bits_replicate _ _ false) by done. rewrite <- replicate_add. f_equal.
    unfold zlen in *. lia.
Qed.

(** * Refinement *)

Inductive BitOp :=
| BResize (n : Z) (v : bool)
| BAssign (data : list byte) (n : Z)
| BSet (i : Z) (v : bool)
| BSetAll
| BClearAll
| BClear.

Definition bit_step (op : BitOp) (b : Bitfield) : outcome Bitfield :=
  match op with
  | BResize n v => resize n v b
  | BAssign data n => Ret (assign data n)
  | BSet i v => set_to i v b
  | BSetAll => Ret (set_all b)
  | BClearAll => Ret (clear_all b)
  | BClear => Ret empty_bitfield
  end.

(** The same operations on a list of bits; setting needs an index in range. *)
Definition list_step (op : BitOp) (l : list bool) : option (list bool) :=
  match op with
  | BResize n v => if 0 <=? n then Some (resize_bits n v l) else None
  | BAssign data n => if 0 <=? n then Some (resize_bits n false (all_bits data)) else None
  | BSet i v => if (0 <=? i) && (i <? zlen l) then Some (<[Z.to_nat i := v]> l) else None
  | BSetAll => Some (replicate (length l) true)
  | BClearAll => Some (replicate (length l) false)
  | BClear => Some []
  end.

Fixpoint bit_run (ops : list BitOp) (b : Bitfield) : outcome Bitfield :=
  match ops with [] => Ret b | op :: ops => b ← bit_step op b; bit_run ops b end.
Fixpoint list_run (ops : list BitOp) (l : list bool) : option (list bool) :=
  match ops with [] => Some l | op :: ops => l ← list_step op l; list_run ops l end.

Lemma bit_step_refines op b l :
  bf_ok b -> list_step op (bits b) = Some l ->
  returns (bit_step op b) (fun b' => bf_ok b' /\ bits b' = l).
Proof.
  intros Hb. destruct (bf_ok_bits b Hb) as (L & _). destruct op as [n v|data n|i v| | |]; cbn [list_step bit_step].
  - destruct (Z.leb_spec 0 n); [|done]. intros [= <-].
    eapply returns_mono; [by apply resize_ok|]. by intros b' (? & _ & ?).
  - destruct (Z.leb_spec 0 n); [|done]. intros [= <-].
    destruct (assign_spec data n) as (? & _ & ?); [done|]. by cbn.
  - destruct (Z.leb_spec 0 i), (Z.ltb_spec i (zlen (bits b))); cbn [andb]; try done. intros [= <-].
    eapply returns_mono; [apply set_to_spec; [done|lia]|]. by intros b' (? & _ & ?).
  - intros [= <-]. destruct (fill_bits_spec b true Hb) as (? & _ & ?). by cbn.
  - intros [= <-]. by apply clear_all_spec.
  - intros [= <-]. by apply (bf_ok_intro [] 0 [] 0).
Qed.

(** C39. A bitfield is its list of bits: after any sequence of operations whose indices are
    in range, the bytes represent exactly the bits the same operations give on a list,
    and [size], [get], [count], [find_first_unset], [all_set] and [none_set] answer for
    that list, without reading out of range. *)
Theorem bitfield_refines ops l (Hrun : list_run ops [] = Some l) :
  returns (bit_run ops empty_bitfield) (fun b =>
    bits b = l /\ bits_ b = zlen l
    /\ (forall i v, zlookup l i = Some v -> get i b = Ret v)
    /\ count b = ones l
    /\ returns (find_first_unset b) (first_unset l)
    /\ returns (all_set b) (fun r => r = true <-> forall j, 0 <= j < zlen l -> zlookup l j = Some true)
    /\ (none_set b = true <-> Forall (eq false) l)).
Proof.
  assert (forall b, bf_ok b -> list_run ops (bits b) = Some l ->
    returns (bit_run ops b) (fun b' => bf_ok b' /\ bits b' = l)) as H.
  { clear. induction ops as [|op ops IH]; intros b Hb; cbn [list_run bit_run].
    - intros [= <-]. done.
    - intros (l1 & H1 & H2)%bind_Some. eapply returns_bind; [by eapply bit_step_refines|].
      intros b1 [Hb1 E1]. apply IH; [done|]. by rewrite E1. }
  eapply returns_mono; [apply H; [|exact Hrun]; by apply (bf_ok_intro [] 0 [] 0)|].
  intros b [Hb <-]. destruct (bf_ok_bits b Hb) as (L & _). split_and!; [done|done| | | | |].
  - intros i v Hv. assert (0 <= i < zlen (bits b)) as Hi.
    { unfold zlookup, zlen in *. destruct (Z.leb_spec 0 i); [|done]. apply lookup_lt_Some in Hv. lia. }
    destruct (get_spec b i Hb ltac:(lia)) as (w & -> & Hw). congruence.
  - by apply count_spec.
  - by apply find_first_unset_spec.
  - rewrite L. by apply all_set_spec.
  - by apply none_set_spec.
Qed.

Lemma bitfield_refines_witness :
  exists l, list_run [BResize 10 true; BSet 3 false; BResize 13 false] [] = Some l
    /\ returns (bit_run [BResize 10 true; BSet 3 false; BResize 13 false] empty_bitfield) (fun b =>
         bits b = l /\ count b = 9).
Proof.
  exists [true; true; true; false; true; true; true; true; true; true; false; false; false].
  split; [vm_compute; reflexivity|].
  eapply returns_mono; [apply bitfield_refines; vm_compute; reflexivity|].
  intros b (H1 & _ & _ & H2 & _). split; [exact H1|]. rewrite H2. reflexivity.
Defined.

End bitfield.
