(* ===== verification/PiecePicker.v ===== *)
(** The piece picker ([bittorrent/piece_picker.{h,cpp}]).

    Every vector index of the code is a [vat] or [vput], undefined out of range. Peers
    are numbers. [downloading_] is a finite map; where the code iterates over it, or
    draws random numbers, the order and the numbers are arguments of [pick_blocks]. *)

From stdpp Require Import sorting.
From S2P Require Import Prelude Bitfield.

Inductive PiecePriority := DontDownload | Normal | High.
Inductive PickMode := RarestFirst | Sequential | Random.
Inductive BlockState := SNone | Requested | Writing | Finished.

#[global] Instance PiecePriority_eq_dec : EqDecision PiecePriority.
Proof. solve_decision. Defined.
#[global] Instance BlockState_eq_dec : EqDecision BlockState.
Proof. solve_decision. Defined.

Record PieceBlock := mkPieceBlock { piece : Z; block : Z }.
#[global] Instance PieceBlock_eq_dec : EqDecision PieceBlock.
Proof. solve_decision. Defined.

Record Blk := mkBlk { state : BlockState; peers : list Z }.

Record DownloadingPiece := mkDp {
  blocks : list Blk;
  num_requested : Z;   (* uint16_t *)
  num_writing : Z;     (* uint16_t *)
  num_finished : Z;    (* uint16_t *)
}.

Record PiecePicker := mkPicker {
  num_pieces : Z;
  piece_length : Z;
  total_size : Z;
  availability : list Z;
  priority : list PiecePriority;
  have_ : Bitfield;
  num_have : Z;
  pieces_left : Z;
  mode : PickMode;
  endgame : bool;
  seq_cursor : Z;
  seeds : Z;
  downloading : gmap Z DownloadingPiece;
  buckets : list (list (list Z));
  order_pos : list Z;
  in_order : list bool;
}.

Module piece_picker.

(** ** Field updates *)

Definition with_order (bk : list (list (list Z))) (op : list Z) (io : list bool) (s : PiecePicker) : PiecePicker :=
  mkPicker (num_pieces s) (piece_length s) (total_size s) (availability s) (priority s) (have_ s)
    (num_have s) (pieces_left s) (mode s) (endgame s) (seq_cursor s) (seeds s) (downloading s) bk op io.
Definition with_availability (av : list Z) (s : PiecePicker) : PiecePicker :=
  mkPicker (num_pieces s) (piece_length s) (total_size s) av (priority s) (have_ s)
    (num_have s) (pieces_left s) (mode s) (endgame s) (seq_cursor s) (seeds s) (downloading s)
    (buckets s) (order_pos s) (in_order s).
Definition with_priority (pr : list PiecePriority) (left : Z) (d : gmap Z DownloadingPiece) (s : PiecePicker)
    : PiecePicker :=
  mkPicker (num_pieces s) (piece_length s) (total_size s) (availability s) pr (have_ s)
    (num_have s) left (mode s) (endgame s) (seq_cursor s) (seeds s) d
    (buckets s) (order_pos s) (in_order s).
Definition with_have (h : Bitfield) (n left cur : Z) (d : gmap Z DownloadingPiece) (s : PiecePicker) : PiecePicker :=
  mkPicker (num_pieces s) (piece_length s) (total_size s) (availability s) (priority s) h
    n left (mode s) (endgame s) cur (seeds s) d (buckets s) (order_pos s) (in_order s).
Definition with_downloading (d : gmap Z DownloadingPiece) (s : PiecePicker) : PiecePicker :=
  mkPicker (num_pieces s) (piece_length s) (total_size s) (availability s) (priority s) (have_ s)
    (num_have s) (pieces_left s) (mode s) (endgame s) (seq_cursor s) (seeds s) d
    (buckets s) (order_pos s) (in_order s).
Definition with_flags (m : PickMode) (e : bool) (sd : Z) (s : PiecePicker) : PiecePicker :=
  mkPicker (num_pieces s) (piece_length s) (total_size s) (availability s) (priority s) (have_ s)
    (num_have s) (pieces_left s) m e (seq_cursor s) sd (downloading s)
    (buckets s) (order_pos s) (in_order s).

(** ** Geometry *)

Definition kBlockSize : Z := 16 * 1024.

Definition piece_size (p : Z) (s : PiecePicker) : Z :=
  if u32 (p + 1) <? num_pieces s then piece_length s
  else
    let tail := total_size s - p * piece_length s in
    if tail <=? 0 then 0 else u32 (Z.min tail (piece_length s)).

Definition blocks_in_piece (p : Z) (s : PiecePicker) : Z :=
  u32 (piece_size p s + kBlockSize - 1) / kBlockSize.

Definition block_size (p b : Z) (s : PiecePicker) : Z :=
  let ps := piece_size p s in
  let off := u32 (b * kBlockSize) in
  Z.min kBlockSize (u32 (ps - off)).

(** ** The rarest-first index *)

Definition kNumPrio : Z := 2.
Definition prio_idx (p : PiecePriority) : Z := match p with High => 0 | _ => 1 end.

Definition dont (p : PiecePriority) : bool := match p with DontDownload => true | _ => false end.

Definition wanted (p : Z) (s : PiecePicker) : outcome bool :=
  pr ← vat (priority s) p;
  if dont pr then Ret false else h ← bitfield.get p (have_ s); Ret (negb h).

(** [col.resize(av + 1)] when the column is too short. *)
Definition grow_column (av : Z) (col : list (list Z)) : list (list Z) :=
  if zlen col <=? av then resize (Z.to_nat (u32 (av + 1))) [] col else col.

Definition order_insert (p : Z) (s : PiecePicker) : outcome PiecePicker :=
  io ← vat (in_order s) p;
  if (io : bool) then Ret s
  else
    w ← wanted p s;
    if negb w then Ret s
    else
      pr ← vat (priority s) p;
      col ← vat (buckets s) (prio_idx pr);
      av ← vat (availability s) p;
      let col := grow_column av col in
      bucket ← vat col av;
      op ← vput p (u32 (zlen bucket)) (order_pos s);
      col ← vput av (bucket ++ [p]) col;
      bk ← vput (prio_idx pr) col (buckets s);
      io ← vput p true (in_order s);
      Ret (with_order bk op io s).

Definition order_remove (p : Z) (s : PiecePicker) : outcome PiecePicker :=
  io ← vat (in_order s) p;
  if negb io then Ret s
  else
    pr ← vat (priority s) p;
    av ← vat (availability s) p;
    col ← vat (buckets s) (prio_idx pr);
    bucket ← vat col av;
    pos ← vat (order_pos s) p;
    tail ← match last bucket with Some x => Ret x | None => UB end;
    bucket ← vput pos tail bucket;
    op ← vput tail pos (order_pos s);
    col ← vput av (removelast bucket) col;
    bk ← vput (prio_idx pr) col (buckets s);
    io ← vput p false (in_order s);
    Ret (with_order bk op io s).

Definition avail_add (p delta : Z) (s : PiecePicker) : outcome PiecePicker :=
  s ← order_remove p s;
  a ← vat (availability s) p;
  let a := if 0 <=? delta then u32 (a + delta)
           else let d := - delta in if d <? a then a - d else 0 in
  av ← vput p a (availability s);
  order_insert p (with_availability av s).

(** ** Our progress *)

(** [while (seq_cursor_ < num_pieces_ && have_.get(seq_cursor_)) ++seq_cursor_]. *)
Fixpoint advance (fuel : nat) (cur : Z) (s : PiecePicker) : outcome Z :=
  match fuel with
  | O => Ret cur
  | S fuel =>
      if cur <? num_pieces s then
        h ← bitfield.get cur (have_ s);
        if (h : bool) then advance fuel (cur + 1) s else Ret cur
      else Ret cur
  end.

Definition we_have (p : Z) (s : PiecePicker) : outcome PiecePicker :=
  h ← bitfield.get p (have_ s);
  if (h : bool) then Ret s
  else
    s ← order_remove p s;
    hv ← bitfield.set p (have_ s);
    pr ← vat (priority s) p;
    let left := if negb (dont pr) && (0 <? pieces_left s) then pieces_left s - 1 else pieces_left s in
    let s := with_have hv (u32 (num_have s + 1)) left (seq_cursor s) (delete p (downloading s)) s in
    cur ← advance (Z.to_nat (num_pieces s - seq_cursor s)) (seq_cursor s) s;
    Ret (with_have hv (num_have s) (pieces_left s) cur (downloading s) s).

(** A loop over all pieces that may stop them from failing. *)
Fixpoint for_pieces (n : nat) (p : Z) (body : Z -> PiecePicker -> outcome PiecePicker) (s : PiecePicker)
    : outcome PiecePicker :=
  match n with
  | O => Ret s
  | S n => s ← body p s; for_pieces n (p + 1) body s
  end.
Definition each_piece (body : Z -> PiecePicker -> outcome PiecePicker) (s : PiecePicker) : outcome PiecePicker :=
  for_pieces (Z.to_nat (num_pieces s)) 0 body s.

(** [have.size() > p && have.get(p)]. *)
Definition has (h : Bitfield) (p : Z) : outcome bool :=
  if p <? bits_ h then bitfield.get p h else Ret false.

Definition we_have_all (s : PiecePicker) : outcome PiecePicker := each_piece we_have s.

Definition set_have_bitfield (h : Bitfield) (s : PiecePicker) : outcome PiecePicker :=
  each_piece (fun p s => v ← has h p; if (v : bool) then we_have p s else Ret s) s.

(** ** Priorities and availability *)

Definition set_piece_priority (p : Z) (pr : PiecePriority) (s : PiecePicker) : outcome PiecePicker :=
  old ← vat (priority s) p;
  if bool_decide (old = pr) then Ret s
  else
    s ← order_remove p s;
    h ← bitfield.get p (have_ s);
    let '(rest, d) :=
      if (h : bool) then (pieces_left s, downloading s)
      else if negb (dont old) && dont pr then (u32 (pieces_left s - 1), delete p (downloading s))
      else if dont old && negb (dont pr) then (u32 (pieces_left s + 1), downloading s)
      else (pieces_left s, downloading s) in
    prs ← vput p pr (priority s);
    order_insert p (with_priority prs rest d s).

Definition set_mode (m : PickMode) (s : PiecePicker) : PiecePicker := with_flags m (endgame s) (seeds s) s.

Definition peer_has_piece (p : Z) (s : PiecePicker) : outcome PiecePicker := avail_add p 1 s.
Definition peer_lost_piece (p : Z) (s : PiecePicker) : outcome PiecePicker := avail_add p (-1) s.
Definition inc_availability (h : Bitfield) (s : PiecePicker) : outcome PiecePicker :=
  each_piece (fun p s => v ← has h p; if (v : bool) then avail_add p 1 s else Ret s) s.
Definition dec_availability (h : Bitfield) (s : PiecePicker) : outcome PiecePicker :=
  each_piece (fun p s => v ← has h p; if (v : bool) then avail_add p (-1) s else Ret s) s.
Definition inc_availability_all (s : PiecePicker) : PiecePicker :=
  with_flags (mode s) (endgame s) (u32 (seeds s + 1)) s.
Definition dec_availability_all (s : PiecePicker) : PiecePicker :=
  with_flags (mode s) (endgame s) (if 0 <? seeds s then seeds s - 1 else seeds s) s.

Definition available (p : Z) (s : PiecePicker) : outcome Z :=
  a ← vat (availability s) p; Ret (u32 (a + seeds s)).

(** ** Construction *)

Definition bare_picker (n plen total : Z) (h : Bitfield) : PiecePicker :=
  mkPicker n plen total (replicate (Z.to_nat n) 0) (replicate (Z.to_nat n) Normal) h
    0 n RarestFirst false 0 0 ∅ [[]; []] (replicate (Z.to_nat n) 0) (replicate (Z.to_nat n) false).

Definition new_picker (n plen total : Z) : outcome PiecePicker :=
  h ← bitfield.resize n false bitfield.empty_bitfield;
  each_piece order_insert (bare_picker n plen total h).

(** ** The block state machine *)

Definition fresh_blk : Blk := mkBlk SNone [].

Definition downloading_for (p : Z) (s : PiecePicker) : DownloadingPiece :=
  match downloading s !! p with
  | Some dp => dp
  | None => mkDp (replicate (Z.to_nat (blocks_in_piece p s)) fresh_blk) 0 0 0
  end.

Definition set_dp (p : Z) (dp : DownloadingPiece) (s : PiecePicker) : PiecePicker :=
  with_downloading (<[p := dp]> (downloading s)) s.

Definition mark_requested (b : PieceBlock) (peer : Z) (s : PiecePicker) : outcome PiecePicker :=
  let dp := downloading_for (piece b) s in
  blk ← vat (blocks dp) (block b);
  let '(st, nr) := match state blk with
                   | SNone => (Requested, u16 (num_requested dp + 1))
                   | st => (st, num_requested dp)
                   end in
  let ps := if bool_decide (peer ∈ peers blk) then peers blk else peers blk ++ [peer] in
  bs ← vput (block b) (mkBlk st ps) (blocks dp);
  Ret (set_dp (piece b) (mkDp bs nr (num_writing dp) (num_finished dp)) s).

Definition mark_writing (b : PieceBlock) (peer : Z) (s : PiecePicker) : outcome (list Z * PiecePicker) :=
  match downloading s !! piece b with
  | None => Ret ([], s)
  | Some dp =>
      blk ← vat (blocks dp) (block b);
      match state blk with
      | Requested =>
          bs ← vput (block b) (mkBlk Writing []) (blocks dp);
          Ret (List.filter (fun p => negb (p =? peer)) (peers blk),
               set_dp (piece b) (mkDp bs (u16 (num_requested dp - 1)) (u16 (num_writing dp + 1))
                                      (num_finished dp)) s)
      | _ => Ret ([], s)
      end
  end.

Definition mark_finished (b : PieceBlock) (s : PiecePicker) : outcome (bool * PiecePicker) :=
  let dp := downloading_for (piece b) s in
  blk ← vat (blocks dp) (block b);
  let nr := match state blk with Requested => u16 (num_requested dp - 1) | _ => num_requested dp end in
  let nw := match state blk with Writing => u16 (num_writing dp - 1) | _ => num_writing dp end in
  let nf := match state blk with Finished => num_finished dp | _ => u16 (num_finished dp + 1) end in
  bs ← vput (block b) (mkBlk Finished []) (blocks dp);
  Ret (nf =? zlen bs, set_dp (piece b) (mkDp bs nr nw nf) s).

(** A peer leaves a block, which is freed when it was its last requester: the block, and
    whether it was freed. *)
Definition leave (peer : Z) (blk : Blk) : Blk * bool :=
  let ps := List.filter (fun p => negb (p =? peer)) (peers blk) in
  match state blk, ps with
  | Requested, [] => (mkBlk SNone [], true)
  | st, _ => (mkBlk st ps, false)
  end.

Definition abort_block (b : PieceBlock) (peer : Z) (s : PiecePicker) : outcome PiecePicker :=
  match downloading s !! piece b with
  | None => Ret s
  | Some dp =>
      blk ← vat (blocks dp) (block b);
      let '(blk, freed) := leave peer blk in
      bs ← vput (block b) blk (blocks dp);
      Ret (set_dp (piece b) (mkDp bs (if freed then u16 (num_requested dp - 1) else num_requested dp)
                                  (num_writing dp) (num_finished dp)) s)
  end.

(** The loop over the blocks of one piece in [cancel_peer]. *)
Fixpoint leave_all (peer : Z) (bs : list Blk) (nr : Z) : list Blk * Z :=
  match bs with
  | [] => ([], nr)
  | blk :: bs =>
      let '(blk, freed) := leave peer blk in
      let '(bs, nr) := leave_all peer bs (if freed then u16 (nr - 1) else nr) in
      (blk :: bs, nr)
  end.

Definition cancel_peer (peer : Z) (s : PiecePicker) : PiecePicker :=
  with_downloading
    ((fun dp => let '(bs, nr) := leave_all peer (blocks dp) (num_requested dp) in
                mkDp bs nr (num_writing dp) (num_finished dp)) <$> downloading s) s.

Definition restore_piece (p : Z) (s : PiecePicker) : PiecePicker :=
  with_downloading (delete p (downloading s)) s.

Definition block_state (p b : Z) (s : PiecePicker) : outcome BlockState :=
  h ← bitfield.get p (have_ s);
  if (h : bool) then Ret Finished
  else match downloading s !! p with
       | None => Ret SNone
       | Some dp => blk ← vat (blocks dp) b; Ret (state blk)
       end.

Fixpoint interesting_loop (n : nat) (p : Z) (h : Bitfield) (s : PiecePicker) : outcome bool :=
  match n with
  | O => Ret false
  | S n =>
      w ← wanted p s;
      v ← (if (w : bool) then has h p else Ret false);
      if (v : bool) then Ret true else interesting_loop n (p + 1) h s
  end.
Definition is_interesting (h : Bitfield) (s : PiecePicker) : outcome bool :=
  interesting_loop (Z.to_nat (num_pieces s)) 0 h s.

Definition piece_interesting (p : Z) (s : PiecePicker) : outcome bool :=
  if p <? num_pieces s then wanted p s else Ret false.

(** ** Picking *)

Fixpoint free_loop (n : nat) (b : Z) (p : Z) (count : Z) (dp : option DownloadingPiece)
    (out : list PieceBlock) : outcome (list PieceBlock) :=
  match n with
  | O => Ret out
  | S n =>
      if zlen out <? count then
        free ← match dp with
               | None => Ret true
               | Some dp => blk ← vat (blocks dp) b; Ret (bool_decide (state blk = SNone))
               end;
        free_loop n (b + 1) p count dp (if (free : bool) then out ++ [mkPieceBlock p b] else out)
      else Ret out
  end.

Definition append_free_blocks (p count : Z) (s : PiecePicker) (out : list PieceBlock)
    : outcome (list PieceBlock) :=
  free_loop (Z.to_nat (blocks_in_piece p s)) 0 p count (downloading s !! p) out.

(** [wanted(p) && peer_has(p)]. *)
Definition serves (h : Bitfield) (p : Z) (s : PiecePicker) : outcome bool :=
  w ← wanted p s; if (w : bool) then has h p else Ret false.

Definition take_partial (h : Bitfield) (count : Z) (s : PiecePicker) (p : Z) (out : list PieceBlock)
    : outcome (list PieceBlock) :=
  v ← serves h p s; if (v : bool) then append_free_blocks p count s out else Ret out.

Definition try_new_piece (h : Bitfield) (count : Z) (s : PiecePicker) (p : Z) (out : list PieceBlock)
    : outcome (list PieceBlock) :=
  v ← serves h p s;
  if (v : bool) && negb (bool_decide (is_Some (downloading s !! p)))
  then append_free_blocks p count s out else Ret out.

(** A loop over pieces that stops when there are enough blocks. *)
Fixpoint visit (f : Z -> list PieceBlock -> outcome (list PieceBlock)) (count : Z) (ps : list Z)
    (out : list PieceBlock) : outcome (list PieceBlock) :=
  match ps with
  | [] => Ret out
  | p :: ps => if count <=? zlen out then Ret out else out ← f p out; visit f count ps out
  end.

(** The random choices of a call: the order [std::shuffle] gives, and the offset at which
    a bucket of [n] pieces is entered. *)
Record Choices := mkChoices {
  iteration : gmap Z DownloadingPiece -> list Z;
  shuffle : list (list Z) -> list (list Z);
  offset : list Z -> nat;
}.

Definition new_order (ch : Choices) (s : PiecePicker) : list Z :=
  match mode s with
  | Sequential => seqZ (seq_cursor s) (num_pieces s - seq_cursor s)
  | Random =>
      concat ((fun bucket => rotate (offset ch bucket) bucket)
              <$> shuffle ch (List.filter (fun bucket => negb (bool_decide (bucket = []))) (concat (buckets s))))
  | RarestFirst =>
      concat ((fun bucket => rotate (offset ch bucket) bucket) <$> concat (buckets s))
  end.

Definition partial_order (ch : Choices) (s : PiecePicker) : list Z :=
  match mode s with
  | Sequential => merge_sort Z.le (iteration ch (downloading s))
  | _ => iteration ch (downloading s)
  end.

(** The busy block of one piece that another peer may duplicate. *)
Fixpoint busy_loop (n : nat) (b : Z) (peer : Z) (bs : list Blk) : outcome (option Z) :=
  match n with
  | O => Ret None
  | S n =>
      blk ← vat bs b;
      if bool_decide (state blk = Requested) && negb (bool_decide (peer ∈ peers blk)) then Ret (Some b)
      else busy_loop n (b + 1) peer bs
  end.

Fixpoint busy_piece (h : Bitfield) (peer : Z) (s : PiecePicker) (ps : list Z)
    : outcome (option PieceBlock) :=
  match ps with
  | [] => Ret None
  | p :: ps =>
      v ← serves h p s;
      r ← match (v : bool), downloading s !! p with
          | true, Some dp => busy_loop (Z.to_nat (blocks_in_piece p s)) 0 peer (blocks dp)
          | _, _ => Ret None
          end;
      match r with Some b => Ret (Some (mkPieceBlock p b)) | None => busy_piece h peer s ps end
  end.

Definition pick_blocks (ch : Choices) (h : Bitfield) (count peer : Z) (s : PiecePicker)
    : outcome (list PieceBlock * PiecePicker) :=
  if count <=? 0 then Ret ([], s)
  else
    out ← visit (take_partial h count s) count (partial_order ch s) [];
    if count <=? zlen out then Ret (out, s)
    else
      out ← visit (try_new_piece h count s) count (new_order ch s) out;
      if count <=? zlen out then Ret (out, s)
      else if Z.of_nat (base.size (downloading s)) <? pieces_left s then Ret (out, s)
      else
        r ← busy_piece h peer s (iteration ch (downloading s));
        match r with
        | Some b => Ret (out ++ [b], with_flags (mode s) true (seeds s) s)
        | None => Ret (out, s)
        end.

End piece_picker.
