(* ===== verification/PickerIndex.v ===== *)
(** The rarest-first index of the piece picker: buckets by priority and availability,
    with the position of every piece in its bucket, kept by [order_insert] and
    [order_remove]. *)

From S2P Require Import Prelude Bitfield PiecePicker.
Import piece_picker.

(** * The index *)

(** The pieces filed under a priority level and an availability. *)
Definition bucket_of (s : PiecePicker) (i av : Z) : list Z :=
  default [] (col ← zlookup (buckets s) i; zlookup col av).

Definition filed (s : PiecePicker) (q : Z) : Prop := zlookup (in_order s) q = Some true.

(** We still want the piece. *)
Definition want (s : PiecePicker) (q : Z) : Prop :=
  exists pr, zlookup (priority s) q = Some pr /\ pr <> DontDownload
             /\ zlookup (bitfield.bits (have_ s)) q = Some false.

Definition vecs_ok (s : PiecePicker) : Prop :=
  0 <= num_pieces s < 2 ^ 32
  /\ zlen (availability s) = num_pieces s /\ zlen (priority s) = num_pieces s
  /\ zlen (order_pos s) = num_pieces s /\ zlen (in_order s) = num_pieces s
  /\ bitfield.bf_ok (have_ s) /\ bits_ (have_ s) = num_pieces s
  /\ zlen (buckets s) = kNumPrio
  /\ (forall p a, zlookup (availability s) p = Some a -> 0 <= a < 2 ^ 32 - 1).

(** Every entry of a bucket is filed there at its recorded position, and every filed
    piece is an entry of its bucket. *)
Definition index_ok (s : PiecePicker) : Prop :=
  (forall i av k q, zlookup (bucket_of s i av) k = Some q ->
     filed s q /\ zlookup (order_pos s) q = Some k /\ zlookup (availability s) q = Some av
     /\ exists pr, zlookup (priority s) q = Some pr /\ prio_idx pr = i)
  /\ (forall q, filed s q -> exists pr av k,
        zlookup (priority s) q = Some pr /\ zlookup (availability s) q = Some av
        /\ zlookup (bucket_of s (prio_idx pr) av) k = Some q).

Lemma prio_idx_range pr : 0 <= prio_idx pr < 2.
Proof. destruct pr; cbn; lia. Qed.

(** ** Reading *)

(** A read at a known index; a write in range. *)
Ltac vread H := rewrite (vat_Some _ _ _ H); cbn [mbind outcome_bind].
Ltac vwrite := rewrite vput_in by (rewrite ?zlen_insert; lia); cbn [mbind outcome_bind].

Section Reads.
Context (s : PiecePicker) (Hv : vecs_ok s).

Lemma have_bits_len : zlen (bitfield.bits (have_ s)) = num_pieces s.
Proof.
  destruct Hv as (_ & _ & _ & _ & _ & Hb & Hn & _).
  by rewrite (proj1 (bitfield.bf_ok_bits _ Hb)).
Qed.

Lemma get_have p :
  0 <= p < num_pieces s ->
  exists h, bitfield.get p (have_ s) = Ret h /\ zlookup (bitfield.bits (have_ s)) p = Some h.
Proof.
  intros Hp. destruct Hv as (_ & _ & _ & _ & _ & Hb & Hn & _). apply bitfield.get_spec; [done|lia].
Qed.

Lemma get_prio p : 0 <= p < num_pieces s -> exists pr, zlookup (priority s) p = Some pr.
Proof. intros Hp. destruct Hv as (_ & _ & L & _). apply zlookup_lt. lia. Qed.

Lemma get_avail p : 0 <= p < num_pieces s -> exists a, zlookup (availability s) p = Some a.
Proof. intros Hp. destruct Hv as (_ & L & _). apply zlookup_lt. lia. Qed.

Lemma get_filed p : 0 <= p < num_pieces s -> exists f, zlookup (in_order s) p = Some f.
Proof. intros Hp. destruct Hv as (_ & _ & _ & _ & L & _). apply zlookup_lt. lia. Qed.

Lemma wanted_spec p :
  0 <= p < num_pieces s -> exists w, wanted p s = Ret w /\ (w = true <-> want s p).
Proof.
  intros Hp. destruct (get_prio p Hp) as [pr Epr]. destruct (get_have p Hp) as (h & Eh & Hh).
  unfold wanted, want. rewrite (vat_Some _ _ _ Epr). cbn [mbind outcome_bind].
  destruct (dont pr) eqn:Ed.
  - exists false. split; [done|]. split; [done|]. intros (pr' & E & Hne & _).
    rewrite Epr in E. injection E as <-. by destruct pr.
  - rewrite Eh. cbn [mbind outcome_bind]. exists (negb h). split; [done|]. rewrite negb_true_iff, Hh. split.
    + intros ->. exists pr. split_and!; [done| |done]. by intros ->.
    + intros (_ & _ & _ & [= ->]). done.
Qed.

End Reads.

Lemma filed_range s q : vecs_ok s -> filed s q -> 0 <= q < num_pieces s.
Proof. intros (_ & _ & _ & _ & L & _) H%zlookup_range. lia. Qed.

(** A bucket holds each piece at most once, so its size fits. *)
Lemma bucket_small s i av : vecs_ok s -> index_ok s -> zlen (bucket_of s i av) <= num_pieces s.
Proof.
  intros Hv [Hi _].
  assert (forall k q, bucket_of s i av !! k = Some q -> zlookup (bucket_of s i av) (Z.of_nat k) = Some q) as Hz.
  { intros k q Hk. unfold zlookup. destruct (Z.leb_spec 0 (Z.of_nat k)); [|lia]. by rewrite Nat2Z.id. }
  assert (NoDup (bucket_of s i av)) as Hnd.
  { apply NoDup_alt. intros j k q Hj%Hz Hk%Hz.
    destruct (Hi _ _ _ _ Hj) as (_ & Ej & _). destruct (Hi _ _ _ _ Hk) as (_ & Ek & _).
    rewrite Ej in Ek. injection Ek. lia. }
  assert (bucket_of s i av ⊆+ seqZ 0 (num_pieces s)) as Hs.
  { apply NoDup_submseteq; [done|]. intros q [k Hk%Hz]%list_elem_of_lookup.
    destruct (Hi _ _ _ _ Hk) as (Hf & _). apply elem_of_seqZ. pose proof (filed_range s q Hv Hf). lia. }
  apply submseteq_length in Hs. rewrite length_seqZ in Hs. unfold zlen.
  destruct Hv as ([? _] & _). lia.
Qed.

(** ** Writing one bucket *)

Lemma bucket_of_put s i av col b op io col' :
  0 <= i < zlen (buckets s) -> zlookup (buckets s) i = Some col ->
  0 <= av < zlen col' -> (forall a, default [] (zlookup col' a) = default [] (zlookup col a)) ->
  let s' := with_order (<[Z.to_nat i := <[Z.to_nat av := b]> col']> (buckets s)) op io s in
  forall j a, bucket_of s' j a = if (j =? i) && (a =? av) then b else bucket_of s j a.
Proof.
  intros Hi Hcol Hav Hc s' j a. unfold bucket_of, s'. cbn [with_order buckets].
  rewrite zlookup_update by done. destruct (Z.eqb_spec j i) as [->|]; [|done].
  rewrite Hcol. cbn. rewrite zlookup_update by done.
  destruct (Z.eqb_spec a av) as [->|]; [done|]. apply Hc.
Qed.

Lemma grow_column_same av col a :
  0 <= av < 2 ^ 32 - 1 ->
  default [] (zlookup (grow_column av col) a) = default [] (zlookup col a)
  /\ av < zlen (grow_column av col).
Proof.
  intros Hav. unfold grow_column. rewrite u32_small by lia.
  destruct (Z.leb_spec (zlen col) av) as [Hle|]; [|done].
  unfold zlen in *. rewrite length_resize. split; [|lia].
  unfold zlookup. destruct (Z.leb_spec 0 a); [|done].
  rewrite resize_spec, take_ge by lia. destruct (decide (Z.to_nat a < length col)%nat).
  - by rewrite lookup_app_l.
  - rewrite lookup_app_r by lia. rewrite (lookup_ge_None_2 col) by lia. cbn.
    destruct (decide (Z.to_nat a - length col < Z.to_nat (av + 1) - length col)%nat).
    + by rewrite lookup_replicate_2.
    + rewrite lookup_ge_None_2; [done|]. rewrite length_replicate. lia.
Qed.

(** * Filing and pulling out *)

(** Only the index differs. *)
Definition reordered (s s' : PiecePicker) : Prop :=
  exists bk op io, s' = with_order bk op io s.

Lemma reordered_refl s : reordered s s.
Proof. exists (buckets s), (order_pos s), (in_order s). by destruct s. Qed.

Lemma vecs_reordered s bk op io :
  vecs_ok s -> zlen op = zlen (order_pos s) -> zlen io = zlen (in_order s) -> zlen bk = zlen (buckets s) ->
  vecs_ok (with_order bk op io s).
Proof. intros (? & ? & ? & ? & ? & ? & ? & ? & ?) E1 E2 E3. split_and!; cbn; try done; congruence || lia. Qed.

(** A non-empty bucket is stored. *)
Lemma bucket_stored s i av k q :
  zlookup (bucket_of s i av) k = Some q ->
  exists col, zlookup (buckets s) i = Some col /\ zlookup col av = Some (bucket_of s i av).
Proof.
  unfold bucket_of. destruct (zlookup (buckets s) i) as [col|]; cbn.
  - destruct (zlookup col av) as [b|] eqn:E; cbn; [eauto|]. unfold zlookup. by case_match.
  - unfold zlookup. by case_match.
Qed.

(** The swap with the last entry, as lookups. *)
Lemma swap_out (b : list Z) k tail j q :
  last b = Some tail -> 0 <= k < zlen b ->
  zlookup (removelast (<[Z.to_nat k := tail]> b)) j = Some q <->
  j < zlen b - 1 /\ (if j =? k then q = tail else zlookup b j = Some q).
Proof.
  intros Hl Hk. apply last_Some in Hl as [l ->]. rewrite zlen_app, zlen_cons, zlen_nil in *.
  assert (exists l', <[Z.to_nat k := tail]> (l ++ [tail]) = l' ++ [tail] /\ zlen l' = zlen l
    /\ forall j, j < zlen l -> zlookup l' j = if j =? k then Some tail else zlookup l j) as (l' & -> & L & H).
  { destruct (Z.eq_dec k (zlen l)) as [->|Hne].
    - exists l. split_and!; [|done|].
      + rewrite insert_app_r_alt by (unfold zlen; lia). unfold zlen. by rewrite Nat2Z.id, Nat.sub_diag.
      + intros i Hi. by rewrite (proj2 (Z.eqb_neq i _)) by lia.
    - exists (<[Z.to_nat k := tail]> l). split_and!.
      + apply insert_app_l. unfold zlen in *. lia.
      + apply zlen_insert.
      + intros i Hi. apply zlookup_update. lia. }
  rewrite removelast_last. replace (zlen l + (1 + 0) - 1) with (zlen l) by lia. split.
  - intros Hj. pose proof (zlookup_range _ _ _ Hj). split; [lia|]. rewrite H in Hj by lia.
    destruct (Z.eqb_spec j k); [congruence|]. unfold zlookup in *. case_match; [|done].
    rewrite lookup_app_l; [done|]. unfold zlen in *. lia.
  - intros [Hj Hq]. rewrite H by done. destruct (Z.eqb_spec j k); [by subst|].
    unfold zlookup in *. case_match; [|done]. rewrite lookup_app_l in Hq; [done|]. unfold zlen in *. lia.
Qed.

Lemma last_lookup (b : list Z) tail : last b = Some tail -> zlookup b (zlen b - 1) = Some tail.
Proof.
  intros [l ->]%last_Some. unfold zlookup, zlen. rewrite length_app. cbn [length].
  destruct (Z.leb_spec 0 (Z.of_nat (length l + 1) - 1)); [|lia].
  replace (Z.to_nat (Z.of_nat (length l + 1) - 1)) with (length l) by lia. by rewrite list_lookup_middle.
Qed.

(** The index after [p] left its bucket [b], at position [k]. *)
Lemma index_remove s p pr av k col b tail :
  vecs_ok s -> index_ok s -> filed s p ->
  zlookup (priority s) p = Some pr -> zlookup (availability s) p = Some av ->
  zlookup (order_pos s) p = Some k ->
  zlookup (buckets s) (prio_idx pr) = Some col -> zlookup col av = Some b ->
  bucket_of s (prio_idx pr) av = b -> zlookup b k = Some p -> last b = Some tail ->
  let s' := with_order
    (<[Z.to_nat (prio_idx pr) := <[Z.to_nat av := removelast (<[Z.to_nat k := tail]> b)]> col]> (buckets s))
    (<[Z.to_nat tail := k]> (order_pos s)) (<[Z.to_nat p := false]> (in_order s)) s in
  index_ok s' /\ forall q, filed s' q <-> filed s q /\ q <> p.
Proof.
  intros Hv [H1 H2] Hf Epr Eav Ek Ecol Eb Ebk Hkp Htail s'.
  pose proof (filed_range s p Hv Hf) as Rp.
  destruct Hv as (Hn & L1 & L2 & L3 & L4 & _ & _ & L5 & _).
  assert (zlookup (bucket_of s (prio_idx pr) av) (zlen b - 1) = Some tail) as Hlast
    by (rewrite Ebk; by apply last_lookup).
  destruct (H1 _ _ _ _ Hlast) as (Ft & Et & At & prt & Pt & Qt).
  pose proof (zlookup_range _ _ _ Et) as Rt.
  assert (forall q, filed s' q <-> filed s q /\ q <> p) as Hfiled.
  { intros q. unfold filed, s'. cbn [with_order in_order]. rewrite zlookup_update by lia.
    destruct (Z.eqb_spec q p) as [->|]; split; [done|by intros [_ []]|done|by intros [? _]]. }
  pose proof (zlookup_range _ _ _ Hkp) as Rk.
  assert (forall j a, bucket_of s' j a = if (j =? prio_idx pr) && (a =? av)
            then removelast (<[Z.to_nat k := tail]> b) else bucket_of s j a) as Hb.
  { apply (bucket_of_put s _ _ col); [by eapply zlookup_range|done|by eapply zlookup_range|done]. }
  assert (forall q, zlookup (order_pos s') q = if q =? tail then Some k else zlookup (order_pos s) q) as Hpos
    by (intros q; apply zlookup_update; lia).
  split; [|done]. split.
  - intros i a j q. rewrite Hb, Hfiled, Hpos. cbn [with_order availability priority s'].
    destruct (Z.eqb_spec i (prio_idx pr)) as [->|Hi]; [destruct (Z.eqb_spec a av) as [->|Ha]|]; cbn [andb].
    + rewrite (swap_out b k tail j q Htail Rk). destruct (Z.eqb_spec j k) as [->|Hjk]; intros [Hj Hq].
      * subst q. rewrite Z.eqb_refl. split_and!; [done| |done|done|eauto].
        intros ->. rewrite Ek in Et. injection Et. lia.
      * rewrite <- Ebk in Hq. destruct (H1 _ _ _ _ Hq) as (Fq & Eq & Aq & Pq).
        destruct (Z.eqb_spec q tail) as [->|]; [rewrite Eq in Et; injection Et; lia|].
        split_and!; try done. intros ->. rewrite Ek in Eq. injection Eq. lia.
    + intros Hq. destruct (H1 _ _ _ _ Hq) as (Fq & Eq & Aq & Pq).
      destruct (Z.eqb_spec q tail) as [->|]; [congruence|]. split_and!; try done. congruence.
    + intros Hq. destruct (H1 _ _ _ _ Hq) as (Fq & Eq & Aq & (pq & Pq & Qq)).
      destruct (Z.eqb_spec q tail) as [->|]; [rewrite Pq in Pt; congruence|].
      split_and!; try done; [|eauto]. intros ->. congruence.
  - intros q [Fq Hq]%Hfiled. destruct (H2 q Fq) as (pq & aq & kq & Pq & Aq & Bq).
    destruct (H1 _ _ _ _ Bq) as (_ & Eq & _).
    exists pq, aq. cbn [with_order availability priority s'].
    destruct (decide (prio_idx pq = prio_idx pr /\ aq = av)) as [[E1 E2]|Hne].
    + subst aq. rewrite E1 in Bq |- *. rewrite Ebk in Bq.
      destruct (Z.eq_dec q tail) as [->|Hqt].
      * exists k. split_and!; try done. rewrite Hb, !Z.eqb_refl. cbn [andb].
        apply (swap_out b k tail k tail Htail Rk). rewrite Z.eqb_refl. split; [|done].
        assert (k <> zlen b - 1); [|lia]. intros ->. rewrite Ebk in Hlast. congruence.
      * exists kq. split_and!; try done. rewrite Hb, !Z.eqb_refl. cbn [andb].
        pose proof (zlookup_range _ _ _ Bq).
        assert (kq <> zlen b - 1) by (intros ->; rewrite Ebk in Hlast; congruence).
        apply (swap_out b k tail kq q Htail Rk). split; [lia|].
        destruct (Z.eqb_spec kq k) as [->|]; [congruence|done].
    + exists kq. split_and!; try done. rewrite Hb.
      destruct (Z.eqb_spec (prio_idx pq) (prio_idx pr)), (Z.eqb_spec aq av); try done. tauto.
Qed.

Lemma order_remove_spec s p :
  vecs_ok s -> index_ok s -> 0 <= p < num_pieces s ->
  returns (order_remove p s) (fun s' =>
    reordered s s' /\ vecs_ok s' /\ index_ok s' /\ forall q, filed s' q <-> filed s q /\ q <> p).
Proof.
  intros Hv Hx Hp. pose proof Hv as (Hn & L1 & L2 & L3 & L4 & _ & _ & L5 & _).
  unfold order_remove. destruct (get_filed s Hv p Hp) as [[] Ef].
  2: { rewrite (vat_Some _ _ _ Ef). cbn. split_and!; [apply reordered_refl|done|done|].
       intros q. unfold filed. split; [|tauto]. intros Hq. split; [done|]. intros ->. congruence. }
  rewrite (vat_Some _ _ _ Ef). cbn [mbind outcome_bind negb].
  destruct (proj2 Hx p Ef) as (pr & av & k & Epr & Eav & Hk).
  destruct (proj1 Hx _ _ _ _ Hk) as (_ & Ek & _).
  destruct (bucket_stored _ _ _ _ _ Hk) as (col & Ecol & Eb).
  set (b := bucket_of s (prio_idx pr) av) in *.
  assert (0 <= k < zlen b) as Rk by (by eapply zlookup_range).
  destruct (last b) as [tail|] eqn:Htail; 
    [|apply last_None in Htail; rewrite Htail in Rk; change (zlen []) with 0 in Rk; lia].
  vread Epr. vread Eav. vread Ecol. vread Eb. vread Ek. rewrite Htail. cbn [mbind outcome_bind].
  pose proof (last_lookup b tail Htail) as Hl. destruct (proj1 Hx _ _ _ _ Hl) as (_ & Et & _).
  pose proof (zlookup_range _ _ _ Et).
  pose proof (zlookup_range _ _ _ Ecol). pose proof (zlookup_range _ _ _ Eb).
  do 5 vwrite. cbn [returns].
  destruct (index_remove s p pr av k col b tail) as [Hx' Hf']; try done.
  split_and!; [by eexists _, _, _|apply vecs_reordered; rewrite ?zlen_insert; done|done|done].
Qed.

Lemma zlookup_snoc (b : list Z) p k q :
  zlookup (b ++ [p]) k = Some q <-> zlookup b k = Some q \/ k = zlen b /\ q = p.
Proof.
  unfold zlookup, zlen. destruct (Z.leb_spec 0 k).
  - rewrite lookup_snoc_Some. split.
    + intros [[_ ?]|[? ->]]; [by left|right; split; [lia|done]].
    + intros [E|[-> ->]]; [left|right; split; [lia|done]]. split; [by eapply lookup_lt_Some|done].
  - split; [done|]. intros [?|[? _]]; [done|lia].
Qed.

(** The index after [p] joined its bucket [b]. *)
Lemma index_insert s p pr av col col' b :
  vecs_ok s -> index_ok s -> ~ filed s p -> 0 <= p < num_pieces s ->
  zlookup (priority s) p = Some pr -> zlookup (availability s) p = Some av ->
  zlookup (buckets s) (prio_idx pr) = Some col -> 0 <= av < zlen col' ->
  (forall a, default [] (zlookup col' a) = default [] (zlookup col a)) ->
  bucket_of s (prio_idx pr) av = b ->
  let s' := with_order
    (<[Z.to_nat (prio_idx pr) := <[Z.to_nat av := b ++ [p]]> col']> (buckets s))
    (<[Z.to_nat p := zlen b]> (order_pos s)) (<[Z.to_nat p := true]> (in_order s)) s in
  index_ok s' /\ forall q, filed s' q <-> filed s q \/ q = p.
Proof.
  intros Hv [H1 H2] Hnf Hp Epr Eav Ecol Hav Hcol Ebk s'.
  destruct Hv as (Hn & L1 & L2 & L3 & L4 & _ & _ & L5 & _).
  assert (forall q, filed s' q <-> filed s q \/ q = p) as Hfiled.
  { intros q. unfold filed, s'. cbn [with_order in_order]. rewrite zlookup_update by lia.
    destruct (Z.eqb_spec q p) as [->|]; split; auto. by intros [|]. }
  assert (forall j a, bucket_of s' j a = if (j =? prio_idx pr) && (a =? av)
            then b ++ [p] else bucket_of s j a) as Hb.
  { apply (bucket_of_put s _ _ col); [by eapply zlookup_range|done..]. }
  assert (forall q, zlookup (order_pos s') q = if q =? p then Some (zlen b) else zlookup (order_pos s) q) as Hpos
    by (intros q; apply zlookup_update; lia).
  assert (forall i a k q, zlookup (bucket_of s i a) k = Some q -> q <> p) as Hnp.
  { intros i a k q Hq ->. by destruct (H1 _ _ _ _ Hq) as (? & _). }
  split; [|done]. split.
  - intros i a k q. rewrite Hb, Hfiled, Hpos. cbn [with_order availability priority s'].
    destruct (Z.eqb_spec i (prio_idx pr)) as [->|Hi]; [destruct (Z.eqb_spec a av) as [->|Ha]|]; cbn [andb].
    1: rewrite zlookup_snoc, <- Ebk; intros [Hq|[-> ->]]; [|rewrite Z.eqb_refl; split_and!; [by right|done|done|eauto]].
    all: try intros Hq; pose proof (Hnp _ _ _ _ Hq) as Hne; rewrite (proj2 (Z.eqb_neq _ _) Hne).
    all: destruct (H1 _ _ _ _ Hq) as (? & ? & ? & ?); split_and!; auto.
  - intros q [Fq| ->]%Hfiled.
    + destruct (H2 q Fq) as (pq & aq & kq & Pq & Aq & Bq). exists pq, aq, kq.
      cbn [with_order availability priority s']. split_and!; try done. rewrite Hb.
      destruct (Z.eqb_spec (prio_idx pq) (prio_idx pr)) as [E1|], (Z.eqb_spec aq av) as [->|];
        cbn [andb]; try done. apply zlookup_snoc. left. by rewrite <- Ebk, <- E1.
    + exists pr, av, (zlen b). cbn [with_order availability priority s']. split_and!; try done.
      rewrite Hb, !Z.eqb_refl. apply zlookup_snoc. by right.
Qed.

Lemma order_insert_spec s p :
  vecs_ok s -> index_ok s -> ~ filed s p -> 0 <= p < num_pieces s ->
  returns (order_insert p s) (fun s' =>
    reordered s s' /\ vecs_ok s' /\ index_ok s' /\ forall q, filed s' q <-> filed s q \/ q = p /\ want s p).
Proof.
  intros Hv Hx Hnf Hp. pose proof Hv as (Hn & L1 & L2 & L3 & L4 & _ & _ & L5 & Hmax).
  unfold order_insert. destruct (get_filed s Hv p Hp) as [[] Ef]; [done|]. vread Ef.
  destruct (wanted_spec s Hv p Hp) as (w & -> & Hw). cbn [mbind outcome_bind].
  destruct w; cbn [negb].
  2: { cbn. split_and!; [apply reordered_refl|done|done|]. intros q. split; [by left|].
       intros [|[_ ?%Hw]]; done. }
  destruct (get_prio s Hv p Hp) as [pr Epr]. destruct (get_avail s Hv p Hp) as [av Eav].
  pose proof (prio_idx_range pr). pose proof (Hmax _ _ Eav) as Rav. unfold kNumPrio in *.
  destruct (zlookup_lt (buckets s) (prio_idx pr)) as [col Ecol]; [lia|].
  vread Epr. vread Ecol. vread Eav.
  assert (forall a, default [] (zlookup (grow_column av col) a) = default [] (zlookup col a)) as Hg
    by (intros a; by apply grow_column_same).
  destruct (grow_column_same av col av Rav) as [_ Lg].
  destruct (zlookup_lt (grow_column av col) av) as [b Eb]; [lia|]. vread Eb.
  assert (bucket_of s (prio_idx pr) av = b) as Ebk
    by (unfold bucket_of; rewrite Ecol; cbn; specialize (Hg av); rewrite Eb in Hg; by rewrite <- Hg).
  pose proof (bucket_small s (prio_idx pr) av Hv Hx) as Hs. rewrite Ebk in Hs.
  pose proof (zlen_nonneg b). rewrite u32_small by lia. do 4 vwrite. cbn [returns].
  destruct (index_insert s p pr av col (grow_column av col) b) as [Hx' Hf']; try done; [lia|].
  split_and!; [by eexists _, _, _|apply vecs_reordered; rewrite ?zlen_insert; done|done|].
  intros q. rewrite Hf'. split; [intros [|]; auto|intros [|[? _]]; auto].
  right. split; [done|]. by apply Hw.
Qed.
