(* ===== verification/PickerInvariant.v ===== *)
(** The invariant of the piece picker and its preservation by every operation: the index
    files exactly the wanted pieces, the counters count what they name, the sequential
    cursor stands after a prefix we have, and the per-block bookkeeping is exact. *)

From S2P Require Import Prelude Bitfield PiecePicker PickerIndex.
Import piece_picker.

(** Fields of an updated picker. *)
Ltac pk_simpl :=
  cbn [with_order with_availability with_priority with_have with_downloading with_flags set_dp
       num_pieces piece_length total_size availability priority have_ num_have pieces_left mode endgame
       seq_cursor seeds downloading buckets order_pos in_order].

(** * Counting *)

Definition b2z (b : bool) : Z := if b then 1 else 0.

(** How many of the pieces [0 .. n-1] satisfy [f]. *)
Definition tally_pieces (f : Z -> bool) (n : Z) : Z := zlen (List.filter f (seqZ 0 n)).

Lemma filter_upd (f g : Z -> bool) p l :
  NoDup l -> (forall q, q <> p -> g q = f q) ->
  zlen (List.filter g l) = zlen (List.filter f l) + (if bool_decide (p ∈ l) then b2z (g p) - b2z (f p) else 0).
Proof.
  intros Hnd Hg. induction Hnd as [|x l Hx Hnd IH]; cbn [List.filter].
  { rewrite bool_decide_eq_false_2 by set_solver. cbn. lia. }
  destruct (decide (x = p)) as [->|Hne].
  - rewrite bool_decide_eq_true_2 by (by left). rewrite bool_decide_eq_false_2 in IH by done.
    destruct (f p), (g p); rewrite ?zlen_cons; cbn [b2z]; lia.
  - rewrite (Hg x Hne).
    replace (bool_decide (p ∈ x :: l)) with (bool_decide (p ∈ l)) by (apply bool_decide_ext; set_solver).
    destruct (f x); rewrite ?zlen_cons; lia.
Qed.

Lemma tally_upd f g n p :
  0 <= p < n -> (forall q, q <> p -> g q = f q) ->
  tally_pieces g n = tally_pieces f n - b2z (f p) + b2z (g p).
Proof.
  intros Hp Hg. unfold tally_pieces. rewrite (filter_upd f g p) by (done || apply NoDup_seqZ).
  rewrite bool_decide_eq_true_2 by (apply elem_of_seqZ; lia). lia.
Qed.

Lemma tally_ext f g n : (forall q, 0 <= q < n -> g q = f q) -> tally_pieces g n = tally_pieces f n.
Proof.
  intros H. unfold tally_pieces. f_equal. apply List.filter_ext_in. intros q Hq.
  apply H. apply list_elem_of_In, elem_of_seqZ in Hq. lia.
Qed.

Lemma tally_range f n : 0 <= n -> 0 <= tally_pieces f n <= n.
Proof.
  intros Hn. unfold tally_pieces. pose proof (filter_length_le f (seqZ 0 n)) as H.
  rewrite length_seqZ in H. unfold zlen. lia.
Qed.

Lemma tally_pieces_pos f n p : 0 <= p < n -> f p = true -> 1 <= tally_pieces f n.
Proof.
  intros Hp Hf. unfold tally_pieces.
  assert (p ∈ List.filter f (seqZ 0 n)) as Hin
    by (apply list_elem_of_In, filter_In; split; [apply list_elem_of_In, elem_of_seqZ; lia|done]).
  destruct (List.filter f (seqZ 0 n)) as [|x l]; [by apply elem_of_nil in Hin|].
  rewrite zlen_cons. pose proof (zlen_nonneg l). lia.
Qed.

Lemma ones_upd (l : list bool) p h v :
  zlookup l p = Some h -> bitfield.ones (<[Z.to_nat p := v]> l) = bitfield.ones l - b2z h + b2z v.
Proof.
  unfold zlookup. destruct (Z.leb_spec 0 p); [|done]. intros Hp.
  rewrite <- (take_drop_middle l (Z.to_nat p) h Hp) at 2.
  rewrite insert_take_drop by (by eapply lookup_lt_Some).
  rewrite !bitfield.ones_app.
  assert (forall x k, bitfield.ones (x :: k) = b2z x + bitfield.ones k) as Hc.
  { intros [] k; unfold bitfield.ones; rewrite filter_cons; cbn [decide]; case_decide; try done;
      rewrite ?zlen_cons; cbn [b2z]; lia. }
  rewrite !Hc. lia.
Qed.

Lemma ones_range l : 0 <= bitfield.ones l <= zlen l.
Proof. unfold bitfield.ones, zlen. pose proof (length_filter (eq true) l). lia. Qed.

(** * Blocks *)

Definition in_state (st : BlockState) (bs : list Blk) : Z := zlen (filter (fun b => state b = st) bs).

Definition blk_ok (b : Blk) : Prop :=
  NoDup (peers b) /\ (state b = SNone -> peers b = []) /\ (state b = Requested -> peers b <> []).

Definition dp_ok (nb : Z) (dp : DownloadingPiece) : Prop :=
  zlen (blocks dp) = nb
  /\ num_requested dp = in_state Requested (blocks dp)
  /\ num_writing dp = in_state Writing (blocks dp)
  /\ num_finished dp = in_state Finished (blocks dp)
  /\ Forall blk_ok (blocks dp).

(** * The invariant *)

Definition wantb (s : PiecePicker) (q : Z) : bool :=
  match zlookup (priority s) q, zlookup (bitfield.bits (have_ s)) q with
  | Some pr, Some false => negb (dont pr)
  | _, _ => false
  end.

Lemma wantb_want s q : wantb s q = true <-> want s q.
Proof.
  unfold wantb, want. destruct (zlookup (priority s) q) as [pr|]; [|split; [done|by intros (? & ? & _)]].
  destruct (zlookup (bitfield.bits (have_ s)) q) as [[]|].
  1,3: split; [done|by intros (? & _ & _ & ?)].
  rewrite negb_true_iff. split.
  - intros Hd. exists pr. split_and!; [done| |done]. by intros ->.
  - intros (pr' & [= <-] & Hne & _). by destruct pr.
Qed.

(** Fewer than 2^16 blocks to a piece: the counters are 16 bits wide. *)
Definition geometry_ok (s : PiecePicker) : Prop :=
  forall p, 0 <= p < num_pieces s -> 0 <= blocks_in_piece p s < 2 ^ 16.

Definition progress_ok (s : PiecePicker) : Prop :=
  num_have s = bitfield.ones (bitfield.bits (have_ s))
  /\ pieces_left s = tally_pieces (wantb s) (num_pieces s)
  /\ 0 <= seq_cursor s <= num_pieces s
  /\ (forall q, 0 <= q < seq_cursor s -> zlookup (bitfield.bits (have_ s)) q = Some true)
  /\ (forall p dp, downloading s !! p = Some dp ->
        0 <= p < num_pieces s /\ dp_ok (blocks_in_piece p s) dp).

Definition picker_ok (s : PiecePicker) : Prop :=
  vecs_ok s /\ index_ok s /\ (forall q, filed s q <-> want s q) /\ geometry_ok s /\ progress_ok s.

Lemma progress_reordered s s' : reordered s s' -> progress_ok s -> progress_ok s'.
Proof. intros (bk & op & io & ->). done. Qed.
Lemma geometry_reordered s s' : reordered s s' -> geometry_ok s -> geometry_ok s'.
Proof. intros (bk & op & io & ->). done. Qed.
Lemma want_reordered s s' q : reordered s s' -> want s' q <-> want s q.
Proof. intros (bk & op & io & ->). done. Qed.

(** ** Availability *)

(** What changes when only the availability of pieces does. *)
Definition same_but_avail (s s' : PiecePicker) : Prop :=
  num_pieces s' = num_pieces s /\ piece_length s' = piece_length s /\ total_size s' = total_size s
  /\ priority s' = priority s /\ have_ s' = have_ s /\ downloading s' = downloading s
  /\ pieces_left s' = pieces_left s /\ seeds s' = seeds s.

Lemma avail_add_ok s p delta a :
  picker_ok s -> zlookup (availability s) p = Some a ->
  delta = 1 /\ a + 1 < 2 ^ 32 - 1 \/ delta = -1 ->
  returns (avail_add p delta s) (fun s' =>
    picker_ok s' /\ same_but_avail s s'
    /\ availability s' = <[Z.to_nat p := if delta =? 1 then a + 1 else Z.max 0 (a - 1)]> (availability s)).
Proof.
  intros (Hv & Hx & Hf & Hg & Hpr) Ea Hd.
  pose proof (zlookup_range _ _ _ Ea) as Rp. pose proof Hv as (_ & La & _ & _ & _ & _ & _ & _ & Hmax).
  pose proof (Hmax _ _ Ea) as Ra.
  unfold avail_add. eapply returns_bind; [apply order_remove_spec; [done|done|lia]|].
  intros s1 (Hr1 & Hv1 & Hx1 & Hf1). pose proof Hr1 as (bk1 & op1 & io1 & E1).
  assert (zlookup (availability s1) p = Some a) as Ea1 by (by rewrite E1).
  pose proof (zlookup_range _ _ _ Ea1) as Rp1. vread Ea1. set (a' := if 0 <=? delta then _ else _).
  assert (a' = if delta =? 1 then a + 1 else Z.max 0 (a - 1)) as Ea'.
  { unfold a'. destruct Hd as [[-> ?]| ->]; cbn; [apply u32_small; lia|]. case_match; lia. }
  rewrite vput_in by (rewrite E1; done). cbn [mbind outcome_bind].
  set (s2 := with_availability _ s1).
  assert (vecs_ok s2 /\ index_ok s2) as [Hv2 Hx2].
  { destruct Hv1 as (? & L1 & ? & ? & ? & ? & ? & ? & Hm1). unfold s2. split.
    - unfold vecs_ok. pk_simpl. rewrite zlen_insert. do 8 (split; [done|]).
      intros q b. rewrite zlookup_update by lia. destruct (Z.eqb_spec q p); [|apply Hm1].
      intros [= <-]. rewrite Ea'. case_match; lia.
    - destruct Hx1 as [I1 I2]. split.
      + intros i av k q Hq. destruct (I1 i av k q Hq) as (Fq & Pq & Aq & Rq).
        apply Hf1 in Fq as Fq'. destruct Fq' as [_ Hne].
        split_and!; [done|done| |done]. pk_simpl. rewrite zlookup_update by lia.
        by rewrite (proj2 (Z.eqb_neq q p) Hne).
      + intros q Fq. destruct (I2 q Fq) as (pr & av & k & ? & ? & ?). exists pr, av, k.
        apply Hf1 in Fq as Fq'. destruct Fq' as [_ Hne]. split_and!; [done| |done]. pk_simpl.
        rewrite zlookup_update by lia. by rewrite (proj2 (Z.eqb_neq q p) Hne). }
  eapply returns_mono; [apply order_insert_spec; [done|done| |]|].
  - intros Fp. by apply (Hf1 p) in Fp as [_ []].
  - subst s2. rewrite E1. pk_simpl. lia.
  - intros s3 (Hr3 & Hv3 & Hx3 & Hf3). pose proof Hr3 as (bk3 & op3 & io3 & E3).
    assert (forall q, want s3 q <-> want s q) as Hw by (intros q; subst s3 s2; by rewrite E1).
    split_and!.
    + split_and!; [done|done| | |].
      * intros q. rewrite Hf3, Hw. change (filed s2 q) with (filed s1 q).
        change (want s2 p) with (want s3 p) || (replace (want s2 p) with (want s3 p) by (by subst s3)).
        rewrite Hw, Hf1, Hf. split; [naive_solver|]. intros Hq. destruct (decide (q = p)) as [->|]; auto.
      * apply (geometry_reordered _ _ Hr3). subst s2. rewrite E1. exact Hg.
      * apply (progress_reordered _ _ Hr3). subst s2. rewrite E1. exact Hpr.
    + subst s3 s2. rewrite E1. split_and!; done.
    + subst s3 s2. pk_simpl. rewrite E1. pk_simpl. by rewrite Ea'.
Qed.

(** ** Having a piece *)

Lemma advance_ok s fuel : forall cur,
  vecs_ok s -> 0 <= cur <= num_pieces s ->
  (forall q, 0 <= q < cur -> zlookup (bitfield.bits (have_ s)) q = Some true) ->
  returns (advance fuel cur s) (fun cur' =>
    cur <= cur' <= num_pieces s
    /\ (forall q, 0 <= q < cur' -> zlookup (bitfield.bits (have_ s)) q = Some true)).
Proof.
  induction fuel as [|fuel IH]; intros cur Hv Hc Hpre; cbn [advance]; [cbn; split; [lia|done]|].
  destruct (Z.ltb_spec cur (num_pieces s)); [|cbn; split; [lia|done]].
  destruct (get_have s Hv cur ltac:(lia)) as (h & -> & Hh). cbn [mbind outcome_bind].
  destruct h; [|cbn; split; [lia|done]].
  eapply returns_mono; [apply (IH (cur + 1)); [done|lia|]|].
  - intros q Hq. destruct (Z.eq_dec q cur) as [->|]; [done|apply Hpre; lia].
  - intros cur' [? ?]. split; [lia|done].
Qed.

(** The pieces we have are [bits]; the rest of a picker as it was. *)
Definition now_have (p : Z) (s s' : PiecePicker) : Prop :=
  num_pieces s' = num_pieces s /\ piece_length s' = piece_length s /\ total_size s' = total_size s
  /\ priority s' = priority s /\ availability s' = availability s
  /\ bitfield.bits (have_ s') = <[Z.to_nat p := true]> (bitfield.bits (have_ s))
  /\ downloading s' = delete p (downloading s).

(** The state between pulling [p] out of the index and advancing the cursor. *)
Lemma have_set_ok s s1 p hv pr :
  picker_ok s -> reordered s s1 -> vecs_ok s1 -> index_ok s1 ->
  (forall q, filed s1 q <-> filed s q /\ q <> p) ->
  zlookup (bitfield.bits (have_ s)) p = Some false -> zlookup (priority s) p = Some pr ->
  bitfield.bf_ok hv -> bits_ hv = num_pieces s ->
  bitfield.bits hv = <[Z.to_nat p := true]> (bitfield.bits (have_ s)) ->
  let left := if negb (dont pr) && (0 <? pieces_left s) then pieces_left s - 1 else pieces_left s in
  let s2 := with_have hv (u32 (num_have s + 1)) left (seq_cursor s) (delete p (downloading s)) s1 in
  picker_ok s2 /\ now_have p s s2.
Proof.
  intros Hok (bk & op & io & ->) Hv1 Hx1 Hf1 Hp Epr Hbf Hbn Hbits left s2.
  destruct Hok as (Hv & Hx & Hf & Hg & (Hnum & Hleft & Hcur & Hpre & Hdl)).
  pose proof (have_bits_len s Hv) as Lb. pose proof (zlookup_range _ _ _ Hp) as Rp.
  assert (forall q, zlookup (bitfield.bits (have_ s2)) q
            = if q =? p then Some true else zlookup (bitfield.bits (have_ s)) q) as Hb2.
  { intros q. unfold s2. pk_simpl. rewrite Hbits. apply zlookup_update. lia. }
  assert (forall q, wantb s2 q = if q =? p then false else wantb s q) as Hw2.
  { intros q. unfold wantb. rewrite Hb2. unfold s2. pk_simpl. destruct (Z.eqb_spec q p) as [->|]; [|done].
    by rewrite Epr. }
  assert (wantb s p = negb (dont pr)) as Hwp by (unfold wantb; by rewrite Epr, Hp).
  split; [|done]. split_and!.
  - destruct Hv1 as (? & ? & ? & ? & ? & ? & ? & ? & ?). unfold vecs_ok, s2. pk_simpl. tauto.
  - exact Hx1.
  - intros q. rewrite <- wantb_want, Hw2. change (filed s2 q) with (filed (with_order bk op io s) q).
    rewrite Hf1, Hf, <- wantb_want. destruct (Z.eqb_spec q p) as [->|]; [|tauto].
    split; [by intros [_ []]|done].
  - exact Hg.
  - split_and!.
    + unfold s2. pk_simpl. rewrite Hbits, (ones_upd _ _ _ _ Hp), Hnum. cbn [b2z].
      destruct Hv as (Hn & _). rewrite u32_small; [lia|].
      pose proof (ones_range (<[Z.to_nat p := true]> (bitfield.bits (have_ s)))) as Ho.
      pose proof (ones_range (bitfield.bits (have_ s))).
      rewrite zlen_insert, (ones_upd _ _ _ _ Hp) in Ho. cbn [b2z] in Ho. lia.
    + change (left = tally_pieces (wantb s2) (num_pieces s)).
      rewrite (tally_upd (wantb s) (wantb s2) _ p), Hwp, Hw2, Z.eqb_refl;
        [|lia|intros q Hq; by rewrite Hw2, (proj2 (Z.eqb_neq q p) Hq)].
      unfold left. rewrite Hleft. destruct (dont pr) eqn:Ed; cbn [negb andb b2z]; [lia|].
      pose proof (tally_pieces_pos (wantb s) (num_pieces s) p ltac:(lia) Hwp).
      destruct (Z.ltb_spec 0 (tally_pieces (wantb s) (num_pieces s))); lia.
    + apply Hcur.
    + apply Hcur.
    + intros q Hq. rewrite Hb2. destruct (Z.eqb_spec q p); [done|by apply Hpre].
    + intros q dp. unfold s2. pk_simpl. intros [_ Hq]%lookup_delete_Some. by apply Hdl.
Qed.

Lemma we_have_ok s p :
  picker_ok s -> 0 <= p < num_pieces s ->
  returns (we_have p s) (fun s' =>
    picker_ok s' /\ (s' = s /\ zlookup (bitfield.bits (have_ s)) p = Some true \/ now_have p s s')).
Proof.
  intros Hok Hp. pose proof Hok as (Hv & Hx & _).
  unfold we_have. destruct (get_have s Hv p Hp) as (h & -> & Hh). cbn [mbind outcome_bind].
  destruct h; [cbn; auto|].
  eapply returns_bind; [by apply order_remove_spec|]. intros s1 (Hr1 & Hv1 & Hx1 & Hf1).
  pose proof Hr1 as (bk & op & io & E1).
  pose proof (bitfield.set_to_spec (have_ s1) p true) as Hset. cbn [bitfield.set_to] in Hset.
  assert (num_pieces s1 = num_pieces s) as En by (by rewrite E1).
  eapply returns_bind; [apply Hset; [apply Hv1|destruct Hv1 as (_ & _ & _ & _ & _ & _ & -> & _); lia]|].
  intros hv (Hbf & Hbn & Hbits). destruct (get_prio s Hv p Hp) as [pr Epr].
  assert (zlookup (priority s1) p = Some pr) as Epr1 by (by rewrite E1).
  vread Epr1. set (s2 := with_have _ _ _ _ _ s1).
  destruct (have_set_ok s s1 p hv pr Hok Hr1 Hv1 Hx1 Hf1 Hh Epr Hbf) as [Hok2 Hn2].
  { rewrite Hbn. by rewrite <- En; destruct Hv1 as (_ & _ & _ & _ & _ & _ & -> & _). }
  { rewrite Hbits. by rewrite E1. }
  replace (with_have hv _ _ _ _ s1) with s2 in Hok2, Hn2 by (unfold s2; by rewrite E1).
  pose proof Hok2 as (Hv2 & Hx2 & Hf2 & Hg2 & (N2 & L2 & C2 & P2 & D2)).
  eapply returns_bind; [apply advance_ok; [done|exact C2|exact P2]|].
  intros cur [Hcur Hpre]. cbn [returns]. split.
  - split_and!; [exact Hv2|exact Hx2|exact Hf2|exact Hg2|]. split_and!; [exact N2|exact L2| | |exact Hpre|exact D2].
    + pk_simpl. lia.
    + pk_simpl. lia.
  - right. destruct Hn2 as (? & ? & ? & ? & ? & ? & ?). split_and!; done.
Qed.

(** ** Priorities *)

Definition reprioritised (p : Z) (pr : PiecePriority) (s s' : PiecePicker) : Prop :=
  num_pieces s' = num_pieces s /\ piece_length s' = piece_length s /\ total_size s' = total_size s
  /\ priority s' = <[Z.to_nat p := pr]> (priority s) /\ availability s' = availability s /\ have_ s' = have_ s
  /\ downloading s' ⊆ downloading s.

Lemma pieces_left_range s : picker_ok s -> 0 <= pieces_left s <= num_pieces s.
Proof.
  intros (Hv & _ & _ & _ & (_ & -> & _)). apply tally_range. apply Hv.
Qed.

(** The state after the new priority of [p] is stored, while [p] is out of the index. *)
Lemma priority_set_ok s s1 p old pr h left d :
  picker_ok s -> reordered s s1 -> vecs_ok s1 -> index_ok s1 ->
  (forall q, filed s1 q <-> filed s q /\ q <> p) ->
  zlookup (priority s) p = Some old -> zlookup (bitfield.bits (have_ s)) p = Some h ->
  left = pieces_left s - b2z (negb h && negb (dont old)) + b2z (negb h && negb (dont pr)) ->
  d ⊆ downloading s ->
  let s2 := with_priority (<[Z.to_nat p := pr]> (priority s1)) left d s1 in
  vecs_ok s2 /\ index_ok s2 /\ (forall q, q <> p -> filed s2 q <-> want s2 q) /\ ~ filed s2 p
  /\ geometry_ok s2 /\ progress_ok s2.
Proof.
  intros Hok (bk & op & io & ->) Hv1 Hx1 Hf1 Eold Hh Hleft Hd s2.
  destruct Hok as (Hv & Hx & Hf & Hg & (Hnum & Hl & Hcur & Hpre & Hdl)).
  pose proof (zlookup_range _ _ _ Eold) as Rp. pose proof Hv as (_ & _ & Lp & _).
  assert (forall q, zlookup (priority s2) q = if q =? p then Some pr else zlookup (priority s) q) as Hp2
    by (intros q; apply zlookup_update; pk_simpl; lia).
  assert (forall q, q <> p -> want s2 q <-> want s q) as Hw2.
  { intros q Hq. unfold want. rewrite Hp2, (proj2 (Z.eqb_neq q p) Hq). done. }
  split_and!.
  - destruct Hv1 as (? & ? & ? & ? & ? & ? & ? & ? & ?). unfold vecs_ok, s2. pk_simpl.
    rewrite zlen_insert. tauto.
  - destruct Hx1 as [I1 I2]. split.
    + intros i av k q Hq. destruct (I1 i av k q Hq) as (Fq & Pq & Aq & Rq).
      apply Hf1 in Fq as Fq'. destruct Fq' as [_ Hne]. split_and!; [done|done|done|].
      by rewrite Hp2, (proj2 (Z.eqb_neq q p) Hne).
    + intros q Fq. destruct (I2 q Fq) as (pq & av & k & ? & ? & ?). exists pq, av, k.
      apply Hf1 in Fq as Fq'. destruct Fq' as [_ Hne]. split_and!; [|done|done].
      by rewrite Hp2, (proj2 (Z.eqb_neq q p) Hne).
  - intros q Hq. change (filed s2 q) with (filed (with_order bk op io s) q). rewrite Hw2, Hf1, Hf by done.
    tauto.
  - intros Fp. by apply (Hf1 p) in Fp as [_ []].
  - exact Hg.
  - split_and!; [exact Hnum| |apply Hcur|apply Hcur|exact Hpre|].
    + change (left = tally_pieces (wantb s2) (num_pieces s)).
      assert (wantb s p = negb h && negb (dont old)) as W1 by (unfold wantb; rewrite Eold, Hh; by destruct h).
      assert (wantb s2 p = negb h && negb (dont pr)) as W2
        by (unfold wantb; rewrite Hp2, Z.eqb_refl; change (have_ s2) with (have_ s); rewrite Hh; by destruct h).
      rewrite (tally_upd (wantb s) (wantb s2) _ p), W1, W2; [lia|lia|].
      intros q Hq. unfold wantb. by rewrite Hp2, (proj2 (Z.eqb_neq q p) Hq).
    + intros q dp Hq. apply Hdl. by eapply lookup_weaken.
Qed.

(** The new count of wanted pieces, and the pieces in progress, as the code computes them. *)
Lemma priority_left s p old pr (h : bool) :
  picker_ok s -> 0 <= p < num_pieces s ->
  zlookup (priority s) p = Some old -> zlookup (bitfield.bits (have_ s)) p = Some h ->
  exists left d,
    (if h then (pieces_left s, downloading s)
     else if negb (dont old) && dont pr then (u32 (pieces_left s - 1), delete p (downloading s))
     else if dont old && negb (dont pr) then (u32 (pieces_left s + 1), downloading s)
     else (pieces_left s, downloading s)) = (left, d)
    /\ d ⊆ downloading s
    /\ left = pieces_left s - b2z (negb h && negb (dont old)) + b2z (negb h && negb (dont pr)).
Proof.
  intros Hok Hp Eold Hh.
  pose proof (pieces_left_range s Hok) as Hr. assert (0 <= num_pieces s < 2 ^ 32) as Hn by apply Hok.
  assert (negb h && negb (dont old) = true -> 1 <= pieces_left s) as Hpos.
  { intros Hw. destruct Hok as (_ & _ & _ & _ & (_ & -> & _)). apply (tally_pieces_pos _ _ p Hp).
    unfold wantb. rewrite Eold, Hh. by destruct h. }
  assert (negb h && dont old = true -> pieces_left s < num_pieces s) as Hless.
  { intros Hw. destruct Hok as (_ & _ & _ & _ & (_ & -> & _)).
    set (g := fun q => if q =? p then true else wantb s q).
    assert (g p = true) as Gp by (unfold g; by rewrite Z.eqb_refl).
    pose proof (tally_upd (wantb s) g (num_pieces s) p Hp
      ltac:(intros q Hq; unfold g; by rewrite (proj2 (Z.eqb_neq q p) Hq))) as Hu.
    pose proof (tally_range g (num_pieces s) ltac:(lia)).
    assert (wantb s p = false) as E by (unfold wantb; rewrite Eold, Hh; destruct h, (dont old); done).
    rewrite E, Gp in Hu. cbn [b2z] in Hu. lia. }
  destruct h, (dont old), (dont pr); cbn [negb andb] in *; do 2 eexists; (split; [done|]);
    (split; [done || apply delete_subseteq|]); cbn [b2z]; rewrite ?u32_small by lia; lia.
Qed.

Lemma set_priority_ok s p pr :
  picker_ok s -> 0 <= p < num_pieces s ->
  returns (set_piece_priority p pr s) (fun s' => picker_ok s' /\ reprioritised p pr s s').
Proof.
  intros Hok Hp. pose proof Hok as (Hv & Hx & _). unfold set_piece_priority.
  destruct (get_prio s Hv p Hp) as [old Eold]. vread Eold. case_bool_decide as Heq.
  { cbn. split; [done|]. split_and!; try done. subst old. unfold zlookup in Eold.
    destruct (Z.leb_spec 0 p); [|lia]. by rewrite list_insert_id. }
  eapply returns_bind; [by apply order_remove_spec|]. intros s1 (Hr1 & Hv1 & Hx1 & Hf1).
  pose proof Hr1 as (bk & op & io & E1).
  destruct (get_have s Hv p Hp) as (h & Eh & Hh).
  replace (have_ s1) with (have_ s) by (by rewrite E1). rewrite Eh. cbn [mbind outcome_bind].
  replace (pieces_left s1) with (pieces_left s) by (by rewrite E1).
  replace (downloading s1) with (downloading s) by (by rewrite E1).
  destruct (priority_left s p old pr h Hok Hp Eold Hh) as (left & d & -> & Hd & Hleft).
  assert (zlen (priority s1) = num_pieces s) as L1
    by (rewrite E1; pk_simpl; by destruct Hv as (_ & _ & ? & _)).
  vwrite.
  destruct (priority_set_ok s s1 p old pr h left d Hok Hr1 Hv1 Hx1 Hf1 Eold Hh Hleft Hd)
    as (Hv2 & Hx2 & Hf2 & Hn2 & Hg2 & Hp2).
  eapply returns_mono; [apply order_insert_spec; [done|done|done|by rewrite E1]|].
  intros s3 (Hr3 & Hv3 & Hx3 & Hf3). pose proof Hr3 as (bk3 & op3 & io3 & E3). split.
  - split_and!; [done|done| |by eapply geometry_reordered|by eapply progress_reordered].
    intros q. rewrite Hf3, (want_reordered _ _ q Hr3). destruct (decide (q = p)) as [->|Hq]; [tauto|].
    rewrite (Hf2 q Hq). tauto.
  - rewrite E3, E1. split_and!; done.
Qed.

(** ** Loops over the pieces *)

Lemma for_pieces_ok (I : Z -> PiecePicker -> Prop) body n : forall p s,
  (forall q s, I q s -> p <= q < p + Z.of_nat n -> returns (body q s) (I (q + 1))) ->
  I p s -> returns (for_pieces n p body s) (I (p + Z.of_nat n)).
Proof.
  induction n as [|n IH]; intros p s Hb Hi; cbn [for_pieces].
  { by rewrite Z.add_0_r. }
  eapply returns_bind; [apply Hb; [done|lia]|]. intros s1 H1.
  replace (p + Z.of_nat (S n)) with (p + 1 + Z.of_nat n) by lia.
  apply IH; [|done]. intros q s2 H2 Hq. apply Hb; [done|lia].
Qed.

Lemma each_piece_ok (I : Z -> PiecePicker -> Prop) body s :
  0 <= num_pieces s ->
  (forall q s', I q s' -> 0 <= q < num_pieces s -> returns (body q s') (I (q + 1))) ->
  I 0 s -> returns (each_piece body s) (I (num_pieces s)).
Proof.
  intros Hn Hb Hi. unfold each_piece.
  pose proof (for_pieces_ok I body (Z.to_nat (num_pieces s)) 0 s) as H.
  rewrite Z.add_0_l, Z2Nat.id in H by lia. apply H; [|done]. intros q s' H1 H2. apply Hb; [done|lia].
Qed.

(** ** Blocks *)

Lemma in_state_range st bs : 0 <= in_state st bs <= zlen bs.
Proof. unfold in_state, zlen. pose proof (length_filter (fun b => state b = st) bs). lia. Qed.

Lemma in_state_cons st b bs : in_state st (b :: bs) = b2z (bool_decide (state b = st)) + in_state st bs.
Proof.
  unfold in_state. rewrite filter_cons. destruct (decide (state b = st)) as [E|E].
  - rewrite bool_decide_eq_true_2, zlen_cons by done. done.
  - by rewrite bool_decide_eq_false_2 by done.
Qed.

Lemma in_state_app st l k : in_state st (l ++ k) = in_state st l + in_state st k.
Proof. unfold in_state. by rewrite filter_app, zlen_app. Qed.

Lemma in_state_upd st bs i x y :
  zlookup bs i = Some x ->
  in_state st (<[Z.to_nat i := y]> bs)
  = in_state st bs - b2z (bool_decide (state x = st)) + b2z (bool_decide (state y = st)).
Proof.
  unfold zlookup. destruct (Z.leb_spec 0 i); [|done]. intros Hi.
  rewrite <- (take_drop_middle bs (Z.to_nat i) x Hi) at 2.
  rewrite insert_take_drop by (by eapply lookup_lt_Some).
  rewrite !in_state_app, !in_state_cons. lia.
Qed.

(** A block in a state it counts for. *)
Lemma in_state_pos bs i x : zlookup bs i = Some x -> 1 <= in_state (state x) bs.
Proof.
  intros Hi. pose proof (in_state_upd (state x) bs i x (mkBlk (match state x with SNone => Writing | _ => SNone end) []) Hi) as E.
  pose proof (in_state_range (state x) (<[Z.to_nat i := mkBlk (match state x with SNone => Writing | _ => SNone end) []]> bs)).
  rewrite (bool_decide_eq_true_2 (state x = state x)) in E by done.
  rewrite bool_decide_eq_false_2 in E by (cbn; by destruct (state x)). cbn [b2z] in E. lia.
Qed.

Lemma set_dp_ok s p dp :
  picker_ok s -> 0 <= p < num_pieces s -> dp_ok (blocks_in_piece p s) dp -> picker_ok (set_dp p dp s).
Proof.
  intros (Hv & Hx & Hf & Hg & (? & ? & ? & ? & Hd)) Hp Hdp.
  split_and!; [exact Hv|exact Hx|exact Hf|exact Hg|]. split_and!; try done; try (pk_simpl; lia).
  intros q dq. unfold set_dp. pk_simpl. intros [[<- <-]|[_ Hq]]%lookup_insert_Some; [done|by apply Hd].
Qed.

Lemma fresh_dp_ok nb : 0 <= nb -> dp_ok nb (mkDp (replicate (Z.to_nat nb) fresh_blk) 0 0 0).
Proof.
  intros Hn.
  assert (forall st n, st <> SNone -> in_state st (replicate n fresh_blk) = 0) as H0.
  { intros st n Hst. induction n as [|n IH]; [done|]. rewrite replicate_S, in_state_cons, IH.
    rewrite bool_decide_eq_false_2; [done|]. cbn. by intros <-. }
  split_and!; cbn [blocks num_requested num_writing num_finished]; [|by rewrite H0..|].
  - rewrite zlen_replicate. lia.
  - apply Forall_replicate. split_and!; [constructor|done|done].
Qed.

Lemma downloading_for_ok s p :
  picker_ok s -> 0 <= p < num_pieces s -> dp_ok (blocks_in_piece p s) (downloading_for p s).
Proof.
  intros (_ & _ & _ & Hg & (_ & _ & _ & _ & Hd)) Hp. unfold downloading_for.
  destruct (downloading s !! p) as [dp|] eqn:E; [by apply Hd|]. apply fresh_dp_ok. by apply Hg.
Qed.

(** The block of a piece, whether or not the piece is in progress. *)
Definition block_of (s : PiecePicker) (p b : Z) : option Blk := zlookup (blocks (downloading_for p s)) b.

(** Only the block [b] of piece [p] changes, to [blk]. *)
Definition block_set (p b : Z) (blk : Blk) (s s' : PiecePicker) : Prop :=
  exists dp, s' = set_dp p dp s
    /\ forall p' b', block_of s' p' b' = if (p' =? p) && (b' =? b) then Some blk else block_of s p' b'.

Lemma block_set_intro s p b blk bs' nr nw nf :
  bs' = <[Z.to_nat b := blk]> (blocks (downloading_for p s)) ->
  0 <= b < zlen (blocks (downloading_for p s)) ->
  block_set p b blk s (set_dp p (mkDp bs' nr nw nf) s).
Proof.
  intros -> Hb. eexists. split; [done|]. intros p' b'. unfold block_of, downloading_for at 1, set_dp. pk_simpl.
  destruct (Z.eqb_spec p' p) as [->|Hne]; cbn [andb].
  - rewrite lookup_insert_eq. cbn [blocks]. by apply zlookup_update.
  - by rewrite lookup_insert_ne by done.
Qed.

(** One block of [dp] moves from [x] to [y]: the counters follow. *)
Lemma dp_upd nb dp b x y nr nw nf :
  dp_ok nb dp -> zlookup (blocks dp) b = Some x -> blk_ok y ->
  nr = num_requested dp - b2z (bool_decide (state x = Requested)) + b2z (bool_decide (state y = Requested)) ->
  nw = num_writing dp - b2z (bool_decide (state x = Writing)) + b2z (bool_decide (state y = Writing)) ->
  nf = num_finished dp - b2z (bool_decide (state x = Finished)) + b2z (bool_decide (state y = Finished)) ->
  dp_ok nb (mkDp (<[Z.to_nat b := y]> (blocks dp)) nr nw nf).
Proof.
  intros (L & R & W & F & Hb) Hx Hy -> -> ->.
  split_and!; cbn [blocks num_requested num_writing num_finished];
    [by rewrite zlen_insert|by rewrite (in_state_upd _ _ _ _ _ Hx), ?R, ?W, ?F..|].
  by apply Forall_insert.
Qed.

(** The counters of a piece in progress stay within 16 bits. *)
Lemma dp_counts s p b x :
  picker_ok s -> 0 <= p < num_pieces s -> zlookup (blocks (downloading_for p s)) b = Some x ->
  let dp := downloading_for p s in
  (forall st y, 0 <= in_state st (blocks dp) - b2z (bool_decide (state x = st)) + b2z (bool_decide (state y = st)) < 2 ^ 16)
  /\ b2z (bool_decide (state x = Requested)) <= num_requested dp < 2 ^ 16
  /\ b2z (bool_decide (state x = Writing)) <= num_writing dp < 2 ^ 16
  /\ 0 <= num_finished dp < 2 ^ 16.
Proof.
  intros Hok Hp Hx dp. pose proof (downloading_for_ok s p Hok Hp) as (L & R & W & F & _).
  fold dp in L, R, W, F, Hx. destruct Hok as (_ & _ & _ & Hg & _). specialize (Hg p Hp).
  assert (forall st, b2z (bool_decide (state x = st)) <= in_state st (blocks dp)) as Hpos.
  { intros st. case_bool_decide as E; cbn [b2z]; [rewrite <- E; by eapply in_state_pos|apply in_state_range]. }
  split_and!.
  - intros st y. rewrite <- (in_state_upd st _ _ _ y Hx).
    pose proof (in_state_range st (<[Z.to_nat b := y]> (blocks dp))) as Hr. rewrite zlen_insert in Hr. lia.
  - rewrite R. apply Hpos.
  - rewrite R. pose proof (in_state_range Requested (blocks dp)). lia.
  - rewrite W. apply Hpos.
  - rewrite W. pose proof (in_state_range Writing (blocks dp)). lia.
  - rewrite F. apply in_state_range.
  - rewrite F. pose proof (in_state_range Finished (blocks dp)). lia.
Qed.
