(* ===== verification/PickerOps.v ===== *)
(** The operations of the piece picker over any history of calls: the invariant, the block
    state machine, and what [pick_blocks] returns. *)

From stdpp Require Import sorting.
From S2P Require Import Prelude Bitfield PiecePicker PickerIndex PickerInvariant.
Import piece_picker.

(** * The block state machine *)

Definition block_in (b : PieceBlock) (s : PiecePicker) : Prop :=
  0 <= piece b < num_pieces s /\ 0 <= block b < blocks_in_piece (piece b) s.

Lemma block_in_lookup s b :
  picker_ok s -> block_in b s ->
  exists x, block_of s (piece b) (block b) = Some x /\ blk_ok x
    /\ 0 <= block b < zlen (blocks (downloading_for (piece b) s)).
Proof.
  intros Hok [Hp Hb]. destruct (downloading_for_ok s (piece b) Hok Hp) as (L & _ & _ & _ & Hf).
  destruct (zlookup_lt (blocks (downloading_for (piece b) s)) (block b)) as [x Hx]; [lia|].
  exists x. split_and!; [done| |lia..]. rewrite Forall_forall in Hf. apply Hf.
  unfold zlookup in Hx. case_match; [|done]. by eapply list_elem_of_lookup_2.
Qed.

Lemma bool_decide_refl {A} (x : A) `{Decision (x = x)} : bool_decide (x = x) = true.
Proof. by apply bool_decide_eq_true_2. Qed.

Lemma in_state_all st bs :
  in_state st bs = zlen bs <-> forall j y, zlookup bs j = Some y -> state y = st.
Proof.
  split.
  - intros E j y Hj. unfold zlookup in Hj. case_match; [|done]. apply list_elem_of_lookup_2 in Hj.
    clear j H. revert E. induction bs as [|b bs IH]; [by apply elem_of_nil in Hj|].
    rewrite in_state_cons, zlen_cons. pose proof (in_state_range st bs). case_bool_decide; cbn [b2z]; [|lia].
    apply elem_of_cons in Hj as [->|]; [done|]. intros E. apply IH; [done|lia].
  - intros H. induction bs as [|b bs IH]; [done|]. rewrite in_state_cons, zlen_cons.
    rewrite bool_decide_eq_true_2 by (by apply (H 0)). cbn [b2z]. rewrite IH; [done|].
    intros j y Hj. pose proof (zlookup_range _ _ _ Hj). apply (H (j + 1)). unfold zlookup in *.
    destruct (Z.leb_spec 0 j), (Z.leb_spec 0 (j + 1)); try lia.
    by replace (Z.to_nat (j + 1)) with (S (Z.to_nat j)) by lia.
Qed.

(** Decide the equalities between states. *)
Ltac decide_states :=
  repeat match goal with
  | |- context [bool_decide (?a = ?b)] =>
      first [rewrite (bool_decide_eq_true_2 (a = b)) by done
            |rewrite (bool_decide_eq_false_2 (a = b)) by done]
  | H : context [bool_decide (?a = ?b)] |- _ =>
      first [rewrite (bool_decide_eq_true_2 (a = b)) in H by done
            |rewrite (bool_decide_eq_false_2 (a = b)) in H by done]
  end; cbn [b2z] in *.

Definition join (peer : Z) (x : Blk) : Blk :=
  mkBlk (match state x with SNone => Requested | st => st end)
        (if bool_decide (peer ∈ peers x) then peers x else peers x ++ [peer]).

Lemma join_ok peer x : blk_ok x -> blk_ok (join peer x).
Proof.
  intros (Hn & H0 & H1). unfold join. split_and!; cbn [state peers].
  - case_bool_decide; [done|]. apply NoDup_app. split_and!; [done|set_solver|apply NoDup_singleton].
  - by destruct (state x).
  - intros _. case_bool_decide as E; [intros E'; rewrite E' in E; set_solver|]. by destruct (peers x).
Qed.

Lemma requested_ok s b peer x :
  picker_ok s -> block_in b s -> block_of s (piece b) (block b) = Some x ->
  returns (mark_requested b peer s) (fun s' =>
    picker_ok s' /\ block_set (piece b) (block b) (join peer x) s s').
Proof.
  intros Hok Hin Hx. destruct (block_in_lookup s b Hok Hin) as (x' & Hx' & Hbx & Rb).
  assert (x' = x) as -> by congruence. unfold mark_requested.
  destruct (dp_counts s (piece b) (block b) x Hok (proj1 Hin) Hx) as (Hc & Hr & Hw & Hf).
  pose proof (downloading_for_ok s (piece b) Hok (proj1 Hin)) as Hdp.
  unfold block_of in Hx. rewrite (vat_Some _ _ _ Hx). cbn [mbind outcome_bind].
  set (dp := downloading_for (piece b) s) in *. pose proof Hdp as (_ & ER & EW & EF & _).
  set (pair := match state x with SNone => _ | st => _ end).
  assert (pair = (state (join peer x), num_requested dp - b2z (bool_decide (state x = Requested))
                    + b2z (bool_decide (state (join peer x) = Requested)))) as ->.
  { specialize (Hc Requested (join peer x)). rewrite <- ER in Hc. unfold pair, join in *. cbn [state] in *.
    destruct (state x); decide_states; f_equal; rewrite ?u16_small; lia. }
  rewrite vput_in by done. cbn [mbind outcome_bind returns]. split.
  - apply set_dp_ok; [done|apply Hin|]. apply (dp_upd _ dp _ x (join peer x)); try done; [by apply join_ok|..].
    + unfold join; cbn [state]; destruct (state x); decide_states; lia.
    + unfold join; cbn [state]; destruct (state x); decide_states; lia.
  - by apply block_set_intro.
Qed.

Lemma writing_ok s b peer x :
  picker_ok s -> block_in b s -> block_of s (piece b) (block b) = Some x ->
  returns (mark_writing b peer s) (fun '(others, s') =>
    picker_ok s' /\
    if bool_decide (state x = Requested)
    then block_set (piece b) (block b) (mkBlk Writing []) s s'
         /\ forall p, p ∈ others <-> p ∈ peers x /\ p <> peer
    else s' = s /\ others = []).
Proof.
  intros Hok Hin Hx. destruct (block_in_lookup s b Hok Hin) as (x' & Hx' & Hbx & Rb).
  assert (x' = x) as -> by congruence. unfold mark_writing.
  destruct (dp_counts s (piece b) (block b) x Hok (proj1 Hin) Hx) as (Hc & Hr & Hw & Hf).
  pose proof (downloading_for_ok s (piece b) Hok (proj1 Hin)) as Hdp.
  assert (state x = Requested -> downloading s !! piece b = Some (downloading_for (piece b) s)) as Hd.
  { intros Hs. unfold block_of in Hx. unfold downloading_for in Hx |- *.
    destruct (downloading s !! piece b); [done|]. cbn [blocks] in Hx. unfold zlookup in Hx.
    case_match; [|done]. apply lookup_replicate_1 in Hx as [-> _]. done. }
  assert (picker_ok s /\ (if bool_decide (state x = Requested) then False else True) ->
    returns (Ret ([], s)) (fun '(others, s') => picker_ok s' /\
      if bool_decide (state x = Requested) then block_set (piece b) (block b) (mkBlk Writing []) s s'
         /\ forall p, p ∈ others <-> p ∈ peers x /\ p <> peer
      else s' = s /\ others = [])) as Hsame by (destruct (bool_decide (state x = Requested)); cbn; tauto).
  destruct (downloading s !! piece b) as [dp|] eqn:Ed.
  2: { apply Hsame. split; [done|]. case_bool_decide as Hs; [|done]. by apply Hd in Hs. }
  assert (downloading_for (piece b) s = dp) as Edp by (unfold downloading_for; by rewrite Ed).
  unfold block_of in Hx. rewrite Edp in *. rewrite (vat_Some _ _ _ Hx). cbn [mbind outcome_bind].
  destruct (state x) eqn:Es; try (apply Hsame; done).
  rewrite vput_in by done. cbn [mbind outcome_bind returns]. rewrite bool_decide_refl.
  pose proof Hdp as (_ & ER & EW & EF & _).
  pose proof (Hc Requested (mkBlk Writing [])) as C1. pose proof (Hc Writing (mkBlk Writing [])) as C2.
  rewrite <- ER in C1. rewrite <- EW in C2. cbn [state] in C1, C2.
  decide_states. split; [|split].
  - apply set_dp_ok; [done|apply Hin|]. apply (dp_upd _ dp _ x (mkBlk Writing [])); try done; rewrite ?Es;
      cbn [state]; decide_states; rewrite ?u16_small; lia || (split_and!; [constructor|done|done]).
  - apply block_set_intro; by rewrite ?Edp.
  - intros p. rewrite list_elem_of_In, filter_In, <- list_elem_of_In, negb_true_iff, Z.eqb_neq. done.
Qed.

Lemma finished_ok s b x :
  picker_ok s -> block_in b s -> block_of s (piece b) (block b) = Some x ->
  returns (mark_finished b s) (fun '(complete, s') =>
    picker_ok s' /\ block_set (piece b) (block b) (mkBlk Finished []) s s'
    /\ (complete = true <-> forall j y, block_of s' (piece b) j = Some y -> state y = Finished)).
Proof.
  intros Hok Hin Hx. destruct (block_in_lookup s b Hok Hin) as (x' & Hx' & Hbx & Rb).
  assert (x' = x) as -> by congruence. unfold mark_finished.
  destruct (dp_counts s (piece b) (block b) x Hok (proj1 Hin) Hx) as (Hc & Hr & Hw & Hf).
  pose proof (downloading_for_ok s (piece b) Hok (proj1 Hin)) as Hdp.
  unfold block_of in Hx. rewrite (vat_Some _ _ _ Hx). cbn [mbind outcome_bind].
  set (dp := downloading_for (piece b) s) in *. pose proof Hdp as (_ & ER & EW & EF & _).
  rewrite vput_in by done. cbn [mbind outcome_bind returns]. set (y := mkBlk Finished []).
  set (nr := match state x with Requested => _ | _ => _ end).
  set (nw := match state x with Writing => _ | _ => _ end).
  set (nf := match state x with Finished => _ | _ => _ end).
  assert (dp_ok (blocks_in_piece (piece b) s) (mkDp (<[Z.to_nat (block b) := y]> (blocks dp)) nr nw nf)) as Hdp'.
  { pose proof (Hc Requested y) as C1. pose proof (Hc Writing y) as C2. pose proof (Hc Finished y) as C3.
    rewrite <- ER in C1. rewrite <- EW in C2. rewrite <- EF in C3.
    apply (dp_upd _ dp _ x y); [done|done|by split_and!; [constructor|done|done]|..];
      unfold nr, nw, nf in *; cbn [state y] in *; destruct (state x); decide_states; rewrite ?u16_small; lia. }
  split_and!.
  - by apply set_dp_ok; [done|apply Hin|].
  - by apply block_set_intro.
  - rewrite Z.eqb_eq. destruct Hdp' as (L' & _ & _ & F' & _). cbn [blocks num_finished] in L', F'. rewrite F'.
    unfold block_of, downloading_for, set_dp. pk_simpl. rewrite lookup_insert_eq. cbn [blocks].
    apply in_state_all.
Qed.

(** ** Leaving blocks *)

Lemma leave_ok peer x :
  blk_ok x ->
  let '(y, freed) := leave peer x in
  blk_ok y /\ peers y = List.filter (fun p => negb (p =? peer)) (peers x)
  /\ (if (freed : bool) then state x = Requested /\ state y = SNone else state y = state x).
Proof.
  intros (Hn & H0 & H1). unfold leave.
  assert (NoDup (List.filter (fun p => negb (p =? peer)) (peers x))) as Hnd.
  { apply NoDup_ListNoDup, List.NoDup_filter, NoDup_ListNoDup, Hn. }
  set (ps := List.filter _ (peers x)) in *.
  assert (forall st, st = state x -> (st = Requested -> ps <> []) ->
    blk_ok (mkBlk st ps) /\ peers (mkBlk st ps) = ps /\ state (mkBlk st ps) = state x) as Hkeep.
  { intros st -> Hr. split; [|done]. split_and!; [done| |exact Hr]. cbn [state peers]. intros E. unfold ps. by rewrite H0. }
  destruct (state x) eqn:Es; [|destruct ps as [|p l] eqn:Ep|..].
  - by apply Hkeep.
  - split; [|done]. split_and!; [constructor|done|done].
  - by apply Hkeep.
  - by apply Hkeep.
  - by apply Hkeep.
Qed.

Lemma abort_ok s b peer x :
  picker_ok s -> block_in b s -> block_of s (piece b) (block b) = Some x ->
  returns (abort_block b peer s) (fun s' =>
    picker_ok s' /\ (downloading s !! piece b = None /\ s' = s
                     \/ block_set (piece b) (block b) (leave peer x).1 s s')).
Proof.
  intros Hok Hin Hx. destruct (block_in_lookup s b Hok Hin) as (x' & Hx' & Hbx & Rb).
  assert (x' = x) as -> by congruence. unfold abort_block.
  destruct (dp_counts s (piece b) (block b) x Hok (proj1 Hin) Hx) as (Hc & Hr & Hw & Hf).
  pose proof (downloading_for_ok s (piece b) Hok (proj1 Hin)) as Hdp.
  destruct (downloading s !! piece b) as [dp|] eqn:Ed; [|cbn; auto].
  assert (downloading_for (piece b) s = dp) as Edp by (unfold downloading_for; by rewrite Ed).
  unfold block_of in Hx. rewrite Edp in *. rewrite (vat_Some _ _ _ Hx). cbn [mbind outcome_bind].
  pose proof (leave_ok peer x Hbx) as Hl. destruct (leave peer x) as [y freed]. destruct Hl as (Hy & _ & Hst).
  rewrite vput_in by done. cbn [mbind outcome_bind returns fst]. split.
  - apply set_dp_ok; [done|apply Hin|]. apply (dp_upd _ dp _ x y); try done.
    + destruct freed; [|rewrite Hst; lia]. destruct Hst as [E1 E2]. rewrite E1 in Hr |- *. rewrite E2.
      decide_states. rewrite u16_small; lia.
    + destruct freed; [|rewrite Hst; lia]. destruct Hst as [E1 E2]. rewrite E1, E2. decide_states. lia.
    + destruct freed; [|rewrite Hst; lia]. destruct Hst as [E1 E2]. rewrite E1, E2. decide_states. lia.
  - right. apply block_set_intro; by rewrite ?Edp.
Qed.

Lemma leave_all_ok peer bs : forall nr,
  Forall blk_ok bs -> in_state Requested bs <= nr < 2 ^ 16 ->
  let '(bs', nr') := leave_all peer bs nr in
  bs' = (fst ∘ leave peer) <$> bs /\ Forall blk_ok bs'
  /\ nr' = nr - in_state Requested bs + in_state Requested bs'
  /\ in_state Writing bs' = in_state Writing bs /\ in_state Finished bs' = in_state Finished bs.
Proof.
  induction bs as [|x bs IH]; intros nr Hf Hr; cbn [leave_all].
  { split_and!; try done. unfold in_state. cbn. change (zlen []) with 0. lia. }
  inversion Hf as [|? ? Hx Hf']; subst. rewrite in_state_cons in Hr.
  pose proof (leave_ok peer x Hx) as Hl. destruct (leave peer x) as [y freed] eqn:El.
  destruct Hl as (Hy & _ & Hst). pose proof (in_state_range Requested bs).
  assert (in_state Requested bs <= (if freed then u16 (nr - 1) else nr) < 2 ^ 16
    /\ (if freed then u16 (nr - 1) else nr) = nr - b2z (bool_decide (state x = Requested)) + b2z (bool_decide (state y = Requested))) as [Hr' En].
  { destruct freed; [|rewrite Hst; split; [destruct (bool_decide _); cbn [b2z] in Hr; lia|lia]].
    destruct Hst as [E1 E2]. rewrite E1, E2 in *. decide_states. rewrite u16_small by lia. lia. }
  specialize (IH _ Hf' Hr'). destruct (leave_all peer bs _) as [bs' nr'].
  destruct IH as (-> & Hf2 & En' & Ew & Efi). split_and!.
  - cbn. by rewrite El.
  - by constructor.
  - rewrite !in_state_cons. lia.
  - rewrite !in_state_cons, Ew. destruct freed; [|by rewrite Hst]. destruct Hst as [-> ->]. done.
  - rewrite !in_state_cons, Efi. destruct freed; [|by rewrite Hst]. destruct Hst as [-> ->]. done.
Qed.

Lemma with_downloading_ok s d :
  picker_ok s ->
  (forall p dp, d !! p = Some dp -> 0 <= p < num_pieces s /\ dp_ok (blocks_in_piece p s) dp) ->
  picker_ok (with_downloading d s).
Proof.
  intros (Hv & Hx & Hf & Hg & (? & ? & ? & ? & _)) Hd.
  split_and!; [exact Hv|exact Hx|exact Hf|exact Hg|]. split_and!; try done; pk_simpl; lia.
Qed.

Lemma cancel_ok s peer :
  picker_ok s ->
  picker_ok (cancel_peer peer s)
  /\ forall p b x, downloading s !! p <> None -> block_of s p b = Some x ->
       block_of (cancel_peer peer s) p b = Some (leave peer x).1.
Proof.
  intros Hok. pose proof Hok as (_ & _ & _ & Hg & (_ & _ & _ & _ & Hd)). 
  assert (forall p dp, downloading s !! p = Some dp ->
    let '(bs', nr') := leave_all peer (blocks dp) (num_requested dp) in
    bs' = (fst ∘ leave peer) <$> blocks dp
    /\ dp_ok (blocks_in_piece p s) (mkDp bs' nr' (num_writing dp) (num_finished dp))) as Hall.
  { intros p dp Hp. destruct (Hd p dp Hp) as (Rp & L & ER & EW & EF & Hf). specialize (Hg p Rp).
    pose proof (in_state_range Requested (blocks dp)).
    pose proof (leave_all_ok peer (blocks dp) (num_requested dp) Hf ltac:(lia)) as H1.
    destruct (leave_all _ _ _) as [bs' nr']. destruct H1 as (-> & H2 & H3 & H4 & H5). split; [done|].
    split_and!; cbn [blocks num_requested num_writing num_finished]; try done; try lia.
    unfold zlen. rewrite length_fmap. exact L. }
  unfold cancel_peer. split.
  - apply with_downloading_ok; [done|]. intros p dp'. rewrite lookup_fmap. intros (dp & Hp & ->)%fmap_Some.
    destruct (Hd p dp Hp) as [Rp _]. split; [done|]. specialize (Hall p dp Hp).
    destruct (leave_all _ _ _). apply Hall.
  - intros p b x Hne Hx. unfold block_of, downloading_for in *. pk_simpl. rewrite lookup_fmap.
    destruct (downloading s !! p) as [dp|] eqn:Hp; [|done]. cbn [fmap option_fmap option_map].
    specialize (Hall p dp Hp). destruct (leave_all _ _ _) as [bs' nr']. destruct Hall as [-> _]. cbn [blocks].
    unfold zlookup in *. case_match; [|done]. rewrite list_lookup_fmap, Hx. done.
Qed.

Lemma restore_ok s p : picker_ok s -> picker_ok (restore_piece p s).
Proof.
  intros Hok. apply with_downloading_ok; [done|]. intros q dq [_ Hq]%lookup_delete_Some.
  destruct Hok as (_ & _ & _ & _ & (_ & _ & _ & _ & Hd)). by apply Hd.
Qed.

(** * Whole bitfields *)

Lemma has_spec h p :
  bitfield.bf_ok h -> 0 <= p ->
  exists v, has h p = Ret v /\ (v = true <-> zlookup (bitfield.bits h) p = Some true).
Proof.
  intros Hb Hp. unfold has. destruct (bitfield.bf_ok_bits h Hb) as [L _].
  destruct (Z.ltb_spec p (bits_ h)).
  - destruct (bitfield.get_spec h p Hb ltac:(lia)) as (v & E & Hv). exists v. split; [done|].
    rewrite Hv. split; [by intros ->|by intros [= ->]].
  - exists false. split; [done|]. split; [done|]. intros ?%zlookup_range. lia.
Qed.

Lemma have_all_ok s : picker_ok s -> returns (we_have_all s) (fun s' => picker_ok s' /\ num_pieces s' = num_pieces s).
Proof.
  intros Hok. apply (each_piece_ok (fun _ s' => picker_ok s' /\ num_pieces s' = num_pieces s));
    [apply Hok| |done].
  intros q s' [Hok' En] Hq. eapply returns_mono; [apply we_have_ok; [done|lia]|].
  intros s2 [? [[-> _]|(En2 & _)]]; [done|]. split; [done|congruence].
Qed.

Lemma set_have_ok s h :
  picker_ok s -> bitfield.bf_ok h ->
  returns (set_have_bitfield h s) (fun s' => picker_ok s' /\ num_pieces s' = num_pieces s).
Proof.
  intros Hok Hh. apply (each_piece_ok (fun _ s' => picker_ok s' /\ num_pieces s' = num_pieces s));
    [apply Hok| |done].
  intros q s' [Hok' En] Hq. destruct (has_spec h q Hh ltac:(lia)) as (v & -> & _). cbn [mbind outcome_bind].
  destruct v; [|done]. eapply returns_mono; [apply we_have_ok; [done|lia]|].
  intros s2 [? [[-> _]|(En2 & _)]]; [done|]. split; [done|congruence].
Qed.

(** Room for one more peer in every count. *)
Definition avail_room (s : PiecePicker) : Prop :=
  forall p a, zlookup (availability s) p = Some a -> a + 1 < 2 ^ 32 - 1.

Lemma each_avail_ok s h delta :
  picker_ok s -> bitfield.bf_ok h -> delta = 1 /\ avail_room s \/ delta = -1 ->
  returns (each_piece (fun p s => v ← has h p; if (v : bool) then avail_add p delta s else Ret s) s)
    (fun s' => picker_ok s' /\ num_pieces s' = num_pieces s).
Proof.
  intros Hok Hh Hd.
  eapply returns_mono; [apply (each_piece_ok (fun q s' => picker_ok s' /\ num_pieces s' = num_pieces s
    /\ forall r, q <= r -> zlookup (availability s') r = zlookup (availability s) r));
    [apply Hok| |done]|by intros s' (? & ? & _)].
  intros q s' (Hok' & En & Ha) Hq. destruct (has_spec h q Hh ltac:(lia)) as (v & -> & _).
  cbn [mbind outcome_bind]. destruct v; [|cbn; split_and!; [done|done|intros r Hr; apply Ha; lia]].
  destruct (get_avail s' (proj1 Hok') q ltac:(lia)) as [a Ea].
  eapply returns_mono; [apply (avail_add_ok s' q delta a Hok' Ea)|].
  - destruct Hd as [[-> Hroom]| ->]; [left|by right]. split; [done|]. apply (Hroom q).
    rewrite <- Ha by lia. done.
  - intros s2 (Hok2 & (En2 & _) & Ea2). split_and!; [done|congruence|]. intros r Hr. rewrite Ea2.
    rewrite zlookup_update by (by eapply zlookup_range).
    rewrite (proj2 (Z.eqb_neq r q)) by lia. apply Ha. lia.
Qed.

(** * Construction *)

Lemma zlookup_replicate {A} n (x : A) i y : zlookup (replicate n x) i = Some y -> y = x /\ 0 <= i < Z.of_nat n.
Proof.
  unfold zlookup. destruct (Z.leb_spec 0 i); [|done]. intros [-> ?]%lookup_replicate. split; [done|lia].
Qed.

Lemma zlookup_replicate_2 {A} n (x : A) i : 0 <= i < Z.of_nat n -> zlookup (replicate n x) i = Some x.
Proof.
  intros Hi. unfold zlookup. destruct (Z.leb_spec 0 i); [|lia]. apply lookup_replicate_2. lia.
Qed.

Lemma bare_ok n plen total h :
  0 <= n < 2 ^ 32 -> bitfield.bf_ok h -> bits_ h = n -> bitfield.bits h = replicate (Z.to_nat n) false ->
  let s := bare_picker n plen total h in
  vecs_ok s /\ index_ok s /\ (forall q, ~ filed s q) /\ (forall q, want s q <-> 0 <= q < n) /\ progress_ok s.
Proof.
  intros Hn Hb Hbn Hbits s. unfold s, bare_picker.
  assert (forall q, want s q <-> 0 <= q < n) as Hw.
  { intros q. unfold want, s, bare_picker. pk_simpl. rewrite Hbits. split.
    - intros (pr & Hpr%zlookup_replicate & _). lia.
    - intros Hq. exists Normal. rewrite !zlookup_replicate_2 by lia. done. }
  split_and!.
  - unfold vecs_ok. pk_simpl. rewrite !zlen_replicate. split_and!; try done; try lia.
    intros q a [-> _]%zlookup_replicate. lia.
  - split.
    + intros i av k q. unfold bucket_of. pk_simpl.
      assert (forall j (c : list (list Z)), zlookup [[]; []] j = Some c -> c = []) as Hc.
      { intros j c. unfold zlookup. case_match; [|done]. by destruct (Z.to_nat j) as [|[|?]]; intros [= <-]. }
      destruct (zlookup [[]; []] i) as [c|] eqn:Ec; cbn; [rewrite (Hc _ _ Ec)|]; unfold zlookup; repeat case_match; done.
    + intros q Hq. by apply zlookup_replicate in Hq as [? _].
  - intros q Hq. by apply zlookup_replicate in Hq as [? _].
  - exact Hw.
  - unfold progress_ok. pk_simpl. rewrite Hbits. split_and!; try done; try lia.
    + by rewrite bitfield.ones_false.
    + transitivity (tally_pieces (fun _ => true) n).
      * unfold tally_pieces.
        assert (forall l : list Z, List.filter (fun _ => true) l = l) as -> by (induction l; cbn; congruence).
        unfold zlen. rewrite length_seqZ. lia.
      * apply tally_ext. intros q Hq. symmetry. apply wantb_want. by apply Hw.
Qed.

Lemma new_picker_ok n plen total :
  0 <= n < 2 ^ 32 -> (forall h, geometry_ok (bare_picker n plen total h)) ->
  returns (new_picker n plen total) (fun s => picker_ok s /\ num_pieces s = n).
Proof.
  intros Hn Hg. unfold new_picker.
  eapply returns_bind; [apply bitfield.resize_ok; [by apply (bitfield.bf_ok_intro [] 0 [] 0)|lia]|].
  intros h (Hb & Hbn & Hbits).
  assert (bitfield.bits h = replicate (Z.to_nat n) false) as Hz.
  { rewrite Hbits. change (bitfield.bits bitfield.empty_bitfield) with (@nil bool).
    unfold bitfield.resize_bits, ztake. rewrite take_nil. change (zlen []) with 0. by rewrite Z.sub_0_r. }
  destruct (bare_ok n plen total h Hn Hb Hbn Hz) as (Hv & Hx & Hf & Hw & Hp).
  set (s0 := bare_picker n plen total h) in *.
  eapply returns_mono; [apply (each_piece_ok (fun q s => reordered s0 s /\ vecs_ok s /\ index_ok s
    /\ forall r, filed s r <-> 0 <= r < q)); [apply Hv| |]|].
  - intros q s (Hr & Hv' & Hx' & Hf') Hq. pose proof Hr as (bk & op & io & E).
    eapply returns_mono; [apply order_insert_spec; [done|done| |by rewrite E]|].
    { rewrite Hf'. lia. }
    intros s2 ((bk2 & op2 & io2 & E2) & Hv2 & Hx2 & Hf2). split_and!; [|done|done|].
    + exists bk2, op2, io2. by rewrite E2, E.
    + intros r. rewrite Hf2, Hf', E. change (want (with_order bk op io s0) q) with (want s0 q). rewrite Hw.
      change (num_pieces s0) with n in Hq. lia.
  - split_and!; [apply reordered_refl|done|done|]. intros r. split; [intros []%Hf|lia].
  - intros s (Hr & Hv' & Hx' & Hf'). pose proof Hr as (bk & op & io & E). split; [|by rewrite E].
    split_and!; [done|done| | |].
    + intros q. rewrite Hf', (want_reordered _ _ _ Hr), Hw. done.
    + eapply geometry_reordered; [exact Hr|apply Hg].
    + by eapply progress_reordered.
Qed.
