(* ===== verification/PickerPick.v ===== *)
(** [pick_blocks]: the blocks returned are the first [count] of the free blocks the peer
    can serve, pieces in progress first, then new ones in the order of the strategy; and
    at most one block already in flight, in the end game. *)

From stdpp Require Import sorting.
From S2P Require Import Prelude Bitfield PiecePicker PickerIndex PickerInvariant PickerOps.
Import piece_picker.

(** * Candidates *)

(** A piece we want and the peer has. *)
Definition servable (s : PiecePicker) (h : Bitfield) (p : Z) : Prop :=
  want s p /\ zlookup (bitfield.bits h) p = Some true.

Definition free_b (s : PiecePicker) (p b : Z) : bool :=
  match block_of s p b with Some x => bool_decide (state x = SNone) | None => false end.

Definition free_list (s : PiecePicker) (p : Z) : list PieceBlock :=
  mkPieceBlock p <$> List.filter (free_b s p) (seqZ 0 (blocks_in_piece p s)).

Definition servable_b (s : PiecePicker) (h : Bitfield) (p : Z) : bool :=
  wantb s p && bool_decide (zlookup (bitfield.bits h) p = Some true).

Lemma servable_b_spec s h p : servable_b s h p = true <-> servable s h p.
Proof. unfold servable_b, servable. by rewrite andb_true_iff, wantb_want, bool_decide_eq_true. Qed.

Definition partial_blocks (s : PiecePicker) (h : Bitfield) (p : Z) : list PieceBlock :=
  if servable_b s h p then free_list s p else [].
Definition new_blocks (s : PiecePicker) (h : Bitfield) (p : Z) : list PieceBlock :=
  if servable_b s h p && negb (bool_decide (is_Some (downloading s !! p))) then free_list s p else [].

Lemma ztake_nil {A} n : ztake n (@nil A) = [].
Proof. apply take_nil. Qed.

Section Loops.
Context (s : PiecePicker) (h : Bitfield) (Hok : picker_ok s) (Hh : bitfield.bf_ok h).

Lemma serves_spec p : 0 <= p < num_pieces s -> serves h p s = Ret (servable_b s h p).
Proof.
  intros Hp. unfold serves, servable_b.
  destruct (wanted_spec s (proj1 Hok) p Hp) as (w & -> & Hw). cbn [mbind outcome_bind].
  rewrite <- wantb_want in Hw. apply eq_true_iff_eq in Hw as ->. destruct (wantb s p); [|done]. cbn [andb].
  destruct (has_spec h p Hh ltac:(lia)) as (v & -> & Hv). f_equal.
  apply eq_true_iff_eq. by rewrite Hv, bool_decide_eq_true.
Qed.

Lemma free_loop_spec p count n : forall b out,
  0 <= p < num_pieces s -> 0 <= b -> b + Z.of_nat n = blocks_in_piece p s ->
  free_loop n b p count (downloading s !! p) out
  = Ret (out ++ ztake (count - zlen out) (mkPieceBlock p <$> List.filter (free_b s p) (seqZ b (Z.of_nat n)))).
Proof.
  induction n as [|n IH]; intros b out Hp Hb Hn; cbn [free_loop].
  { rewrite seqZ_nil by lia. cbn [List.filter]. by rewrite fmap_nil, ztake_nil, app_nil_r. }
  destruct (Z.ltb_spec (zlen out) count).
  2: { unfold ztake. replace (Z.to_nat (count - zlen out)) with 0%nat by lia. cbn. by rewrite app_nil_r. }
  assert (exists x, block_of s p b = Some x) as [x Hx].
  { apply zlookup_lt. destruct (downloading_for_ok s p Hok Hp) as [L _]. lia. }
  assert (match downloading s !! p with
          | None => Ret true
          | Some dp => blk ← vat (blocks dp) b; Ret (bool_decide (state blk = SNone))
          end = Ret (free_b s p b)) as ->.
  { unfold free_b. rewrite Hx. unfold block_of, downloading_for in Hx. destruct (downloading s !! p).
    - by rewrite (vat_Some _ _ _ Hx).
    - cbn [blocks] in Hx. apply zlookup_replicate in Hx as [-> _]. by rewrite bool_decide_eq_true_2. }
  cbn [mbind outcome_bind]. rewrite IH by lia. f_equal.
  rewrite (seqZ_cons b) by lia. replace (Z.pred (Z.of_nat (S n))) with (Z.of_nat n) by lia.
  change (Z.succ b) with (b + 1). cbn [List.filter]. destruct (free_b s p b); [|done].
  rewrite fmap_cons, <- (assoc_L (++)). f_equal. rewrite zlen_app, zlen_cons, zlen_nil.
  unfold ztake. replace (Z.to_nat (count - zlen out)) with (S (Z.to_nat (count - (zlen out + (1 + 0))))) by lia.
  done.
Qed.

Lemma append_free_spec p count out :
  0 <= p < num_pieces s ->
  append_free_blocks p count s out = Ret (out ++ ztake (count - zlen out) (free_list s p)).
Proof.
  intros Hp. unfold append_free_blocks. destruct Hok as (_ & _ & _ & Hg & _). specialize (Hg p Hp).
  rewrite free_loop_spec by lia. unfold free_list. by rewrite Z2Nat.id by lia.
Qed.

(** A walk that appends the blocks [g p] of every piece, as long as there is room. *)
Lemma visit_spec f (g : Z -> list PieceBlock) count ps : forall out,
  (forall p out, p ∈ ps -> f p out = Ret (out ++ ztake (count - zlen out) (g p))) ->
  visit f count ps out = Ret (out ++ ztake (count - zlen out) (concat (g <$> ps))).
Proof.
  induction ps as [|p ps IH]; intros out Hf; cbn [visit].
  { rewrite fmap_nil. cbn [concat]. by rewrite ztake_nil, app_nil_r. }
  destruct (Z.leb_spec count (zlen out)).
  { unfold ztake. replace (Z.to_nat (count - zlen out)) with 0%nat by lia. cbn. by rewrite app_nil_r. }
  rewrite Hf by left. cbn [mbind outcome_bind]. rewrite IH by (intros; apply Hf; by right). f_equal.
  rewrite <- (assoc_L (++)). f_equal. rewrite fmap_cons. cbn [concat].
  destruct (Z.le_gt_cases (zlen (g p)) (count - zlen out)).
  - rewrite (ztake_all _ (g p)) by lia. unfold ztake, zlen in *. rewrite take_app_ge by lia. f_equal.
    rewrite length_app. f_equal. lia.
  - rewrite (ztake_app_le _ (g p)) by lia. rewrite zlen_app, zlen_ztake by (zlen_facts; lia).
    unfold ztake at 2. replace (Z.to_nat _) with 0%nat by lia. cbn. by rewrite app_nil_r.
Qed.

Lemma partial_spec count ps out :
  (forall p, p ∈ ps -> 0 <= p < num_pieces s) ->
  visit (take_partial h count s) count ps out
  = Ret (out ++ ztake (count - zlen out) (concat (partial_blocks s h <$> ps))).
Proof.
  intros Hps. apply visit_spec. intros p out' Hp. unfold take_partial, partial_blocks.
  rewrite serves_spec by auto. cbn [mbind outcome_bind]. destruct (servable_b s h p).
  - apply append_free_spec. auto.
  - by rewrite ztake_nil, app_nil_r.
Qed.

Lemma new_spec count ps out :
  (forall p, p ∈ ps -> 0 <= p < num_pieces s) ->
  visit (try_new_piece h count s) count ps out
  = Ret (out ++ ztake (count - zlen out) (concat (new_blocks s h <$> ps))).
Proof.
  intros Hps. apply visit_spec. intros p out' Hp. unfold try_new_piece, new_blocks.
  rewrite serves_spec by auto. cbn [mbind outcome_bind].
  destruct (servable_b s h p && negb (bool_decide (is_Some (downloading s !! p)))).
  - apply append_free_spec. auto.
  - by rewrite ztake_nil, app_nil_r.
Qed.

End Loops.

(** * The orders *)

Lemma zlookup_nat {A} (l : list A) k : zlookup l (Z.of_nat k) = l !! k.
Proof. unfold zlookup. destruct (Z.leb_spec 0 (Z.of_nat k)); [|lia]. by rewrite Nat2Z.id. Qed.

(** Iterating over the map visits every key once; shuffling permutes. *)
Definition choices_ok (ch : Choices) : Prop :=
  (forall d, iteration ch d ≡ₚ (map_to_list d).*1) /\ (forall l, shuffle ch l ≡ₚ l).

Lemma NoDup_concat {A} (ls : list (list A)) :
  (forall l, l ∈ ls -> NoDup l) ->
  (forall i j l k x, ls !! i = Some l -> ls !! j = Some k -> x ∈ l -> x ∈ k -> i = j) ->
  NoDup (concat ls).
Proof.
  induction ls as [|l ls IH]; intros H1 H2; cbn [concat]; [constructor|].
  apply NoDup_app. split_and!.
  - apply H1. left.
  - intros x Hx (k & [j Hj]%list_elem_of_In%list_elem_of_lookup & Hk%list_elem_of_In)%list_elem_of_In%in_concat.
    by specialize (H2 0%nat (S j) l k x eq_refl Hj Hx Hk).
  - apply IH; [intros; apply H1; by right|]. intros i j l1 l2 x Hi Hj Hx Hy.
    specialize (H2 (S i) (S j) l1 l2 x Hi Hj Hx Hy). lia.
Qed.

Lemma concat_fmap_perm {A} (f : list A -> list A) ls :
  (forall l, f l ≡ₚ l) -> concat (f <$> ls) ≡ₚ concat ls.
Proof. intros Hf. induction ls as [|l ls IH]; [done|]. cbn. by rewrite Hf, IH. Qed.

Lemma rotate_perm {A} n (l : list A) : rotate n l ≡ₚ l.
Proof. unfold rotate. rewrite Permutation_app_comm. by rewrite take_drop. Qed.

#[global] Instance concat_perm {A} : Proper ((≡ₚ) ==> (≡ₚ)) (@concat A).
Proof.
  intros l k E. induction E as [|x l k _ IH|x y l|l k m _ IH1 _ IH2]; cbn.
  - done.
  - by rewrite IH.
  - apply Permutation_app_swap_app.
  - by rewrite IH1.
Qed.

Lemma concat_nonempty (ls : list (list Z)) :
  concat (List.filter (fun b => negb (bool_decide (b = []))) ls) = concat ls.
Proof.
  induction ls as [|l ls IH]; [done|]. cbn [List.filter concat].
  destruct l; [rewrite bool_decide_eq_true_2 by done|rewrite bool_decide_eq_false_2 by done]; cbn; by rewrite IH.
Qed.

Section Orders.
Context (s : PiecePicker) (ch : Choices) (Hok : picker_ok s) (Hch : choices_ok ch).

Lemma bucket_of_lookup (i av : nat) col b :
  buckets s !! i = Some col -> col !! av = Some b -> bucket_of s (Z.of_nat i) (Z.of_nat av) = b.
Proof.
  intros Hi Ha. unfold bucket_of. rewrite zlookup_nat, Hi. cbn. by rewrite zlookup_nat, Ha.
Qed.

Lemma in_bucket_elem (i av : nat) q :
  q ∈ bucket_of s (Z.of_nat i) (Z.of_nat av) ->
  filed s q /\ exists pr, zlookup (priority s) q = Some pr /\ prio_idx pr = Z.of_nat i
                 /\ zlookup (availability s) q = Some (Z.of_nat av).
Proof.
  intros [k Hk]%list_elem_of_lookup. destruct Hok as (_ & [Hx _] & _).
  destruct (Hx (Z.of_nat i) (Z.of_nat av) (Z.of_nat k) q) as (Hf & _ & Ha & pr & Hp & Hi).
  { by rewrite zlookup_nat. }
  split; [done|]. by exists pr.
Qed.

Lemma index_elem q : q ∈ concat (concat (buckets s)) <-> want s q.
Proof.
  destruct Hok as (Hv & [Hx1 Hx2] & Hf & _). rewrite <- Hf. split.
  - intros (b & Hb & Hq%list_elem_of_In)%list_elem_of_In%in_concat.
    apply in_concat in Hb as (col & Hcol%list_elem_of_In & Hb%list_elem_of_In).
    apply list_elem_of_lookup in Hcol as [i Hi], Hb as [av Ha].
    rewrite <- (bucket_of_lookup i av col b Hi Ha) in Hq. by apply in_bucket_elem in Hq as [? _].
  - intros Hq. destruct (Hx2 q Hq) as (pr & av & k & _ & _ & Hk).
    destruct (bucket_stored _ _ _ _ _ Hk) as (col & Hc & Hb). unfold zlookup in Hc, Hb, Hk.
    repeat case_match; try done. apply list_elem_of_In, in_concat. eexists. split.
    + apply in_concat. exists col. split; apply list_elem_of_In; by eapply list_elem_of_lookup_2.
    + apply list_elem_of_In. by eapply list_elem_of_lookup_2.
Qed.

Lemma index_NoDup : NoDup (concat (concat (buckets s))).
Proof.
  pose proof Hok as (Hv & [Hx1 _] & _).
  assert (forall ls : list (list (list Z)), concat (concat ls) = concat ((@concat _) <$> ls)) as ->.
  { induction ls as [|l ls IH]; [done|]. cbn. by rewrite concat_app, IH. }
  apply NoDup_concat.
  - intros l (col & -> & [i Hi]%list_elem_of_lookup)%list_elem_of_fmap. apply NoDup_concat.
    + intros b [av Ha]%list_elem_of_lookup. apply NoDup_alt. intros j k q Hj Hk.
      rewrite <- (bucket_of_lookup i av col b Hi Ha) in Hj, Hk.
      assert (forall k, bucket_of s (Z.of_nat i) (Z.of_nat av) !! k = Some q ->
        zlookup (order_pos s) q = Some (Z.of_nat k)) as Hpos.
      { intros k' Hk'. destruct (Hx1 (Z.of_nat i) (Z.of_nat av) (Z.of_nat k') q) as (_ & ? & _); [|done].
        by rewrite zlookup_nat. }
      apply Hpos in Hj, Hk. rewrite Hj in Hk. injection Hk. lia.
    + intros a a' b b' q Ha Ha' Hq Hq'.
      rewrite <- (bucket_of_lookup i a col b Hi Ha) in Hq. rewrite <- (bucket_of_lookup i a' col b' Hi Ha') in Hq'.
      apply in_bucket_elem in Hq as (_ & _ & _ & _ & E). apply in_bucket_elem in Hq' as (_ & _ & _ & _ & E').
      rewrite E in E'. injection E'. lia.
  - intros i j l l' q. rewrite !list_lookup_fmap.
    intros (col & Hi & ->)%fmap_Some (col' & Hj & ->)%fmap_Some Hq Hq'.
    assert (forall i col, buckets s !! i = Some col -> q ∈ concat col ->
      exists pr, zlookup (priority s) q = Some pr /\ prio_idx pr = Z.of_nat i) as H.
    { clear - Hok. intros i col Hi (b & [a Ha]%list_elem_of_In%list_elem_of_lookup & Hq%list_elem_of_In)%list_elem_of_In%in_concat.
      rewrite <- (bucket_of_lookup i a col b Hi Ha) in Hq.
      apply in_bucket_elem in Hq as (_ & pr & ? & ? & _). eauto. }
    destruct (H i col Hi Hq) as (pr & E & Hp). destruct (H j col' Hj Hq') as (pr' & E' & Hp').
    rewrite E in E'. injection E' as ->. lia.
Qed.

Lemma new_order_spec :
  NoDup (new_order ch s) /\ (forall p, p ∈ new_order ch s -> 0 <= p < num_pieces s)
  /\ (forall p, want s p -> p ∈ new_order ch s).
Proof.
  pose proof Hok as (Hv & _ & Hf & _ & (_ & _ & Hc & Hpre & _)).
  assert (forall p, want s p -> 0 <= p < num_pieces s) as Hr
    by (intros p Hp%Hf; by eapply filed_range).
  assert (forall l, l ≡ₚ concat (concat (buckets s)) -> NoDup l
    /\ (forall p, p ∈ l -> 0 <= p < num_pieces s) /\ (forall p, want s p -> p ∈ l)) as Hperm.
  { intros l E. split_and!; [rewrite E; apply index_NoDup| |].
    - intros p. rewrite E, index_elem. apply Hr.
    - intros p. by rewrite E, index_elem. }
  unfold new_order. destruct (mode s).
  - apply Hperm, concat_fmap_perm. intros l. apply rotate_perm.
  - split_and!; [apply NoDup_seqZ| |].
    + intros p Hp%elem_of_seqZ. lia.
    + intros p Hp. specialize (Hr p Hp). apply elem_of_seqZ. destruct (Z.lt_ge_cases p (seq_cursor s)); [|lia].
      destruct Hp as (_ & _ & _ & Hh). rewrite Hpre in Hh by lia. done.
  - apply Hperm. rewrite concat_fmap_perm by (intros; apply rotate_perm).
    rewrite (proj2 Hch). by rewrite concat_nonempty.
Qed.

Lemma partial_order_spec :
  NoDup (partial_order ch s) /\ forall p, p ∈ partial_order ch s <-> is_Some (downloading s !! p).
Proof.
  assert (partial_order ch s ≡ₚ (map_to_list (downloading s)).*1) as E.
  { unfold partial_order. destruct (mode s); rewrite ?merge_sort_Permutation; apply Hch. }
  split.
  - rewrite E. apply NoDup_fst_map_to_list.
  - intros p. rewrite E, list_elem_of_fmap. split.
    + intros ([q dp] & -> & Hq%elem_of_map_to_list). eauto.
    + intros [dp Hp]. exists (p, dp). split; [done|]. by apply elem_of_map_to_list.
Qed.

End Orders.

(** * The blocks that can be picked *)

(** A block of a piece the peer can serve that nobody works on. *)
Definition free_block (s : PiecePicker) (h : Bitfield) (x : PieceBlock) : Prop :=
  servable s h (piece x) /\ exists blk, block_of s (piece x) (block x) = Some blk /\ state blk = SNone.

(** A block requested from other peers only. *)
Definition busy_block (s : PiecePicker) (h : Bitfield) (peer : Z) (x : PieceBlock) : Prop :=
  servable s h (piece x) /\ exists blk, block_of s (piece x) (block x) = Some blk
    /\ state blk = Requested /\ ~ peer ∈ peers blk.

(** The free blocks in the order in which they are picked. *)
Definition pick_order (ch : Choices) (h : Bitfield) (s : PiecePicker) : list PieceBlock :=
  concat (partial_blocks s h <$> partial_order ch s) ++ concat (new_blocks s h <$> new_order ch s).

Section Candidates.
Context (s : PiecePicker) (h : Bitfield) (Hok : picker_ok s) (Hh : bitfield.bf_ok h).

Lemma want_range p : want s p -> 0 <= p < num_pieces s.
Proof. intros Hp. destruct Hok as (Hv & _ & Hf & _). apply Hf in Hp. by eapply filed_range. Qed.

Lemma free_list_elem p x :
  0 <= p < num_pieces s ->
  x ∈ free_list s p <-> piece x = p /\ exists blk, block_of s p (block x) = Some blk /\ state blk = SNone.
Proof.
  intros Hp. unfold free_list. rewrite list_elem_of_fmap. split.
  - intros (b & -> & [_ Hb]%list_elem_of_In%filter_In). split; [done|]. unfold free_b in Hb. cbn [block].
    destruct (block_of s p b) as [blk|]; [|done]. exists blk. by apply bool_decide_eq_true in Hb.
  - intros (Ep & blk & Hb & Hs). exists (block x). split; [by destruct x; cbn in *; subst|].
    apply list_elem_of_In, filter_In. split.
    + apply list_elem_of_In, elem_of_seqZ. apply zlookup_range in Hb.
      destruct (downloading_for_ok s p Hok Hp) as [L _]. lia.
    + unfold free_b. by rewrite Hb, bool_decide_eq_true_2.
Qed.

Lemma free_list_NoDup p : NoDup (free_list s p).
Proof.
  unfold free_list. apply NoDup_fmap; [by intros ?? [= ->]|]. apply NoDup_ListNoDup, List.NoDup_filter, NoDup_ListNoDup, NoDup_seqZ.
Qed.

(** Blocks gathered piece by piece are as distinct as the pieces. *)
Lemma gathered_NoDup (g : Z -> list PieceBlock) ps :
  NoDup ps -> (forall p, NoDup (g p)) -> (forall p x, p ∈ ps -> x ∈ g p -> piece x = p) -> NoDup (concat (g <$> ps)).
Proof.
  intros Hps Hg Hp. apply NoDup_concat.
  - intros l (p & -> & _)%list_elem_of_fmap. apply Hg.
  - intros i j l k x. rewrite !list_lookup_fmap.
    intros (p & Hi & ->)%fmap_Some (q & Hj & ->)%fmap_Some Hx Hy.
    apply Hp in Hx; [|by eapply list_elem_of_lookup_2]. apply Hp in Hy; [|by eapply list_elem_of_lookup_2].
    subst p q. by eapply NoDup_lookup.
Qed.

Lemma gathered_elem (g : Z -> list PieceBlock) ps x :
  x ∈ concat (g <$> ps) <-> exists p, p ∈ ps /\ x ∈ g p.
Proof.
  rewrite list_elem_of_In, in_concat. split.
  - intros (l & (p & -> & Hp)%list_elem_of_In%list_elem_of_fmap & Hx%list_elem_of_In). eauto.
  - intros (p & Hp & Hx). exists (g p). split; [|by apply list_elem_of_In].
    apply list_elem_of_In, list_elem_of_fmap. eauto.
Qed.

Lemma partial_blocks_elem p x :
  0 <= p < num_pieces s -> x ∈ partial_blocks s h p <-> piece x = p /\ free_block s h x.
Proof.
  intros Hp. unfold partial_blocks, free_block. destruct (servable_b s h p) eqn:E.
  - apply servable_b_spec in E. rewrite free_list_elem by done. split.
    + intros (<- & H). done.
    + intros (<- & _ & H). done.
  - split; [intros H; by apply elem_of_nil in H|]. intros (<- & H & _). apply servable_b_spec in H. by rewrite E in H.
Qed.

Lemma new_blocks_elem p x :
  0 <= p < num_pieces s ->
  x ∈ new_blocks s h p <-> piece x = p /\ free_block s h x /\ downloading s !! p = None.
Proof.
  intros Hp. pose proof (partial_blocks_elem p x Hp) as E. unfold partial_blocks, new_blocks in *.
  destruct (servable_b s h p); cbn [andb].
  - case_bool_decide as Hd; cbn [negb].
    + split; [intros H; by apply elem_of_nil in H|]. intros (_ & _ & N). rewrite N in Hd. by destruct Hd.
    + rewrite E. apply eq_None_not_Some in Hd. split; [by intros []|by intros (? & ? & _)].
  - rewrite E. split; [intros H; apply E in H; by apply elem_of_nil in H|]. intros (? & ? & _). done.
Qed.

End Candidates.

Section PickOrder.
Context (s : PiecePicker) (h : Bitfield) (ch : Choices).
Context (Hok : picker_ok s) (Hh : bitfield.bf_ok h) (Hch : choices_ok ch).

Lemma partial_range p : p ∈ partial_order ch s -> 0 <= p < num_pieces s.
Proof.
  intros Hp. apply (partial_order_spec s ch Hch) in Hp as [dp Hp].
  destruct Hok as (_ & _ & _ & _ & _ & _ & _ & _ & Hd). by apply Hd in Hp as [? _].
Qed.

Lemma pick_order_elem x : x ∈ pick_order ch h s <-> free_block s h x.
Proof.
  pose proof (new_order_spec s ch Hok Hch) as (_ & Hr & Hw).
  unfold pick_order. rewrite elem_of_app, !gathered_elem. split.
  - intros [(p & Hp & Hx)|(p & Hp & Hx)].
    + apply partial_blocks_elem in Hx; [by destruct Hx|done|by apply partial_range].
    + apply new_blocks_elem in Hx; [by destruct Hx as (_ & ? & _)|done|by apply Hr].
  - intros Hx. pose proof Hx as [[Hwant _] _]. pose proof (want_range s Hok _ Hwant) as Hp.
    destruct (downloading s !! piece x) as [dp|] eqn:E; [left|right]; exists (piece x).
    + split; [apply (partial_order_spec s ch Hch); eauto|]. by apply partial_blocks_elem.
    + split; [by apply Hw|]. by apply new_blocks_elem.
Qed.

Lemma pick_order_NoDup : NoDup (pick_order ch h s).
Proof.
  pose proof (new_order_spec s ch Hok Hch) as (Hn & Hr & _).
  pose proof (partial_order_spec s ch Hch) as [Hpn Hpe].
  unfold pick_order. apply NoDup_app. split_and!.
  - apply gathered_NoDup; [done| |].
    + intros p. unfold partial_blocks. destruct (servable_b s h p); [apply free_list_NoDup|constructor].
    + intros p x Hp Hx. apply partial_blocks_elem in Hx; [by destruct Hx|done|by apply partial_range].
  - intros x (p & Hp & Hx)%gathered_elem (q & Hq & Hy)%gathered_elem.
    apply partial_blocks_elem in Hx as [<- _]; [|done|by apply partial_range].
    apply new_blocks_elem in Hy as (<- & _ & E); [|done|by apply Hr].
    apply Hpe in Hp as [dp Hp]. by rewrite E in Hp.
  - apply gathered_NoDup; [done| |].
    + intros p. unfold new_blocks. destruct (_ && _); [apply free_list_NoDup|constructor].
    + intros p x Hp Hx. apply new_blocks_elem in Hx as (? & _); [done|done|by apply Hr].
Qed.

(** ** The end game *)

Lemma busy_loop_spec peer bs n : forall b,
  0 <= b -> b + Z.of_nat n = zlen bs ->
  (exists c blk, busy_loop n b peer bs = Ret (Some c) /\ zlookup bs c = Some blk
     /\ state blk = Requested /\ ~ peer ∈ peers blk)
  \/ (busy_loop n b peer bs = Ret None
      /\ forall c blk, b <= c -> zlookup bs c = Some blk -> state blk = Requested -> peer ∈ peers blk).
Proof.
  induction n as [|n IH]; intros b Hb Hn; cbn [busy_loop].
  { right. split; [done|]. intros c blk Hc Hz%zlookup_range. lia. }
  destruct (zlookup_lt bs b ltac:(lia)) as [blk Hblk]. vread Hblk.
  destruct (bool_decide (state blk = Requested) && negb (bool_decide (peer ∈ peers blk))) eqn:E.
  - left. exists b, blk. apply andb_true_iff in E as [E1%bool_decide_eq_true E2].
    rewrite negb_true_iff, bool_decide_eq_false in E2. done.
  - destruct (IH (b + 1) ltac:(lia) ltac:(lia)) as [H|[-> H]]; [by left|right]. split; [done|].
    intros c blk' Hc Hz Hs. destruct (decide (c = b)) as [->|]; [|apply (H c); [lia|done..]].
    rewrite Hblk in Hz. injection Hz as <-. rewrite andb_false_iff, negb_false_iff in E.
    destruct E as [E|E]; [by apply bool_decide_eq_false in E|by apply bool_decide_eq_true in E].
Qed.

Lemma busy_piece_spec peer ps :
  (forall p, p ∈ ps -> 0 <= p < num_pieces s) ->
  (exists x, busy_piece h peer s ps = Ret (Some x) /\ busy_block s h peer x)
  \/ (busy_piece h peer s ps = Ret None
      /\ forall x, piece x ∈ ps -> ~ busy_block s h peer x).
Proof.
  induction ps as [|p ps IH]; intros Hps; cbn [busy_piece].
  { right. split; [done|]. intros x Hx. by apply elem_of_nil in Hx. }
  assert (0 <= p < num_pieces s) as Hp by (apply Hps; left).
  rewrite (serves_spec s h Hok Hh p Hp). cbn [mbind outcome_bind].
  assert ((exists c, match servable_b s h p, downloading s !! p with
             | true, Some dp => busy_loop (Z.to_nat (blocks_in_piece p s)) 0 peer (blocks dp)
             | _, _ => Ret None end = Ret (Some c) /\ busy_block s h peer (mkPieceBlock p c))
          \/ match servable_b s h p, downloading s !! p with
             | true, Some dp => busy_loop (Z.to_nat (blocks_in_piece p s)) 0 peer (blocks dp)
             | _, _ => Ret None end = Ret None /\ forall x, piece x = p -> ~ busy_block s h peer x) as H.
  { destruct (servable_b s h p) eqn:Es.
    2: { right. split; [done|]. intros x <- [H%servable_b_spec _]. by rewrite Es in H. }
    apply servable_b_spec in Es. pose proof (downloading_for_ok s p Hok Hp) as [L _].
    unfold busy_block, block_of, downloading_for in *. destruct (downloading s !! p) as [dp|] eqn:Ed.
    - pose proof (zlen_nonneg (blocks dp)).
      destruct (busy_loop_spec peer (blocks dp) (Z.to_nat (blocks_in_piece p s)) 0 ltac:(lia) ltac:(lia))
        as [(c & blk & E & Hc & Hs & Hpeer)|[E H']].
      + left. exists c. split; [done|]. split; [done|]. exists blk. cbn [piece block]. by rewrite Ed.
      + right. split; [done|]. intros x <- (_ & blk & Hb & Hs & Hpeer). rewrite Ed in Hb.
        apply Hpeer, (H' (block x) blk); [apply zlookup_range in Hb; lia|done..].
    - right. split; [done|]. intros x <- (_ & blk & Hb & Hs & _). rewrite Ed in Hb. cbn [blocks] in Hb.
      apply zlookup_replicate in Hb as [-> _]. done. }
  destruct H as [(c & -> & Hc)|[-> Hn]]; cbn [mbind outcome_bind].
  - left. eauto.
  - destruct IH as [H|[-> H]]; [intros; apply Hps; by right|by left|right]. split; [done|].
    intros x [Ex|Hx]%elem_of_cons; [by apply Hn|by apply H].
Qed.

End PickOrder.

Lemma with_flags_id s : with_flags (mode s) (endgame s) (seeds s) s = s.
Proof. by destruct s. Qed.

Lemma iteration_elem ch s p : choices_ok ch -> p ∈ iteration ch (downloading s) <-> is_Some (downloading s !! p).
Proof.
  intros [Hi _]. rewrite Hi, list_elem_of_fmap. split.
  - intros ([q dp] & -> & Hq%elem_of_map_to_list). eauto.
  - intros [dp Hp]. exists (p, dp). by rewrite elem_of_map_to_list.
Qed.

(** The two walks take the first [count] blocks of the pick order. *)
Lemma pick_walks ch h count peer s :
  picker_ok s -> bitfield.bf_ok h -> choices_ok ch -> 0 < count ->
  pick_blocks ch h count peer s
  = if count <=? zlen (pick_order ch h s) then Ret (ztake count (pick_order ch h s), s)
    else if Z.of_nat (base.size (downloading s)) <? pieces_left s then Ret (pick_order ch h s, s)
    else
      r ← busy_piece h peer s (iteration ch (downloading s));
      match r with
      | Some b => Ret (pick_order ch h s ++ [b], with_flags (mode s) true (seeds s) s)
      | None => Ret (pick_order ch h s, s)
      end.
Proof.
  intros Hok Hh Hch Hc. pose proof (new_order_spec s ch Hok Hch) as (_ & Hr & _).
  unfold pick_blocks, pick_order. destruct (Z.leb_spec count 0); [lia|].
  rewrite (partial_spec s h Hok Hh) by (intros; by apply (partial_range s ch)). cbn [mbind outcome_bind app].
  set (P := concat (partial_blocks s h <$> partial_order ch s)).
  set (N := concat (new_blocks s h <$> new_order ch s)).
  rewrite zlen_nil, Z.sub_0_r, zlen_app. pose proof (zlen_nonneg N).
  destruct (Z.le_gt_cases count (zlen P)) as [HP|HP].
  { rewrite zlen_ztake by lia. rewrite (ztake_app_le count P N) by done.
    destruct (Z.leb_spec count count), (Z.leb_spec count (zlen P + zlen N)); done || lia. }
  rewrite (ztake_all count P) by lia. destruct (Z.leb_spec count (zlen P)); [lia|].
  rewrite (new_spec s h Hok Hh) by done. cbn [mbind outcome_bind]. fold N.
  destruct (Z.leb_spec count (zlen P + zlen N)).
  - rewrite zlen_app, zlen_ztake by lia. destruct (Z.leb_spec count (zlen P + (count - zlen P))); [|lia].
    do 2 f_equal. unfold ztake, zlen in *. rewrite take_app_ge by lia. do 2 f_equal. lia.
  - rewrite (ztake_all _ N), zlen_app by lia. destruct (Z.leb_spec count (zlen P + zlen N)); [lia|done].
Qed.
