(* ===== verification/PickerHistory.v ===== *)
(** The piece picker over a whole download: any sequence of its operations, from
    construction, is free of undefined behaviour and keeps the invariant; the strategies
    order the pieces as they promise; a piece completes with its last block. *)

From stdpp Require Import sorting.
From S2P Require Import Prelude Bitfield PiecePicker PickerIndex PickerInvariant PickerOps PickerPick.
Import piece_picker.

(** * Histories *)

Inductive Op :=
| WeHave (p : Z) | WeHaveAll | SetHave (h : Bitfield)
| SetPriority (p : Z) (pr : PiecePriority) | SetMode (m : PickMode)
| PeerHas (p : Z) | PeerLost (p : Z) | IncAvail (h : Bitfield) | DecAvail (h : Bitfield) | IncAll | DecAll
| MarkRequested (b : PieceBlock) (peer : Z) | MarkWriting (b : PieceBlock) (peer : Z)
| MarkFinished (b : PieceBlock) | AbortBlock (b : PieceBlock) (peer : Z) | CancelPeer (peer : Z)
| RestorePiece (p : Z) | Pick (ch : Choices) (h : Bitfield) (count peer : Z).

Definition apply (op : Op) (s : PiecePicker) : outcome PiecePicker :=
  match op with
  | WeHave p => we_have p s
  | WeHaveAll => we_have_all s
  | SetHave h => set_have_bitfield h s
  | SetPriority p pr => set_piece_priority p pr s
  | SetMode m => Ret (set_mode m s)
  | PeerHas p => peer_has_piece p s
  | PeerLost p => peer_lost_piece p s
  | IncAvail h => inc_availability h s
  | DecAvail h => dec_availability h s
  | IncAll => Ret (inc_availability_all s)
  | DecAll => Ret (dec_availability_all s)
  | MarkRequested b peer => mark_requested b peer s
  | MarkWriting b peer => '(_, s') ← mark_writing b peer s; Ret s'
  | MarkFinished b => '(_, s') ← mark_finished b s; Ret s'
  | AbortBlock b peer => abort_block b peer s
  | CancelPeer peer => Ret (cancel_peer peer s)
  | RestorePiece p => Ret (restore_piece p s)
  | Pick ch h count peer => '(_, s') ← pick_blocks ch h count peer s; Ret s'
  end.

(** What the callers guarantee: indices in range, well-formed bitfields, fewer than
    2^32 - 2 peers. *)
Definition op_ok (op : Op) (s : PiecePicker) : Prop :=
  match op with
  | WeHave p | SetPriority p _ | PeerLost p => 0 <= p < num_pieces s
  | PeerHas p => 0 <= p < num_pieces s /\ avail_room s
  | SetHave h | DecAvail h => bitfield.bf_ok h
  | IncAvail h => bitfield.bf_ok h /\ avail_room s
  | MarkRequested b _ | MarkWriting b _ | MarkFinished b | AbortBlock b _ => block_in b s
  | Pick ch h _ _ => bitfield.bf_ok h /\ choices_ok ch
  | _ => True
  end.

Inductive reachable (n plen total : Z) : PiecePicker -> Prop :=
| reach_new s : new_picker n plen total = Ret s -> reachable n plen total s
| reach_op s op s' :
    reachable n plen total s -> op_ok op s -> apply op s = Ret s' -> reachable n plen total s'.

Lemma with_flags_ok s m e sd : picker_ok s -> picker_ok (with_flags m e sd s).
Proof. by intros (Hv & Hx & Hf & Hg & Hp). Qed.

Lemma avail_op_ok s p delta :
  picker_ok s -> 0 <= p < num_pieces s -> delta = 1 /\ avail_room s \/ delta = -1 ->
  returns (avail_add p delta s) picker_ok.
Proof.
  intros Hok Hp Hd. destruct (get_avail s (proj1 Hok) p Hp) as [a Ha].
  eapply returns_mono; [apply (avail_add_ok s p delta a Hok Ha)|by intros s' [? _]].
  destruct Hd as [[-> Hr]| ->]; [left|by right]. split; [done|by apply (Hr p)].
Qed.

Lemma pick_ok ch h count peer s :
  picker_ok s -> bitfield.bf_ok h -> choices_ok ch ->
  returns (pick_blocks ch h count peer s) (fun '(_, s') => picker_ok s').
Proof.
  intros Hok Hh Hch. destruct (Z.le_gt_cases count 0).
  { unfold pick_blocks. by destruct (Z.leb_spec count 0); [|lia]. }
  rewrite pick_walks by (done || lia). destruct (count <=? _); [done|]. case_match; [done|].
  destruct (busy_piece_spec s h Hok Hh peer (iteration ch (downloading s))) as [(x & -> & _)|[-> _]]; [|done..].
  intros p [dp Hp]%(iteration_elem ch s p Hch). destruct Hok as (_ & _ & _ & _ & _ & _ & _ & _ & Hd).
  by apply Hd in Hp as [? _].
Qed.

Lemma op_returns op s : picker_ok s -> op_ok op s -> returns (apply op s) picker_ok.
Proof.
  intros Hok Hop. destruct op; cbn [apply op_ok] in *; try (cbn; by apply with_flags_ok).
  - eapply returns_mono; [by apply we_have_ok|by intros s' [? _]].
  - eapply returns_mono; [by apply have_all_ok|by intros s' [? _]].
  - eapply returns_mono; [by apply set_have_ok|by intros s' [? _]].
  - eapply returns_mono; [by apply set_priority_ok|by intros s' [? _]].
  - apply avail_op_ok; [done|apply Hop|left; split; [done|apply Hop]].
  - apply avail_op_ok; [done|apply Hop|by right].
  - eapply returns_mono; [apply each_avail_ok; [done|apply Hop|left; split; [done|apply Hop]]|by intros s' [? _]].
  - eapply returns_mono; [apply each_avail_ok; [done|done|by right]|by intros s' [? _]].
  - destruct (block_in_lookup s b Hok Hop) as (x & Hx & _).
    eapply returns_mono; [by apply (requested_ok s b peer x)|by intros s' [? _]].
  - destruct (block_in_lookup s b Hok Hop) as (x & Hx & _).
    eapply returns_bind; [by apply (writing_ok s b peer x)|by intros [] [? _]].
  - destruct (block_in_lookup s b Hok Hop) as (x & Hx & _).
    eapply returns_bind; [by apply (finished_ok s b x)|by intros [] [? _]].
  - destruct (block_in_lookup s b Hok Hop) as (x & Hx & _).
    eapply returns_mono; [by apply (abort_ok s b peer x)|by intros s' [? _]].
  - cbn. by apply cancel_ok.
  - cbn. by apply restore_ok.
  - eapply returns_bind; [by apply pick_ok; [|apply Hop..]|by intros []].
Qed.

(** Pieces of fewer than 2^16 blocks. *)
Lemma geometry_new n plen total h :
  0 <= plen <= 65535 * kBlockSize -> geometry_ok (bare_picker n plen total h).
Proof.
  intros Hl p Hp. unfold blocks_in_piece.
  assert (0 <= piece_size p (bare_picker n plen total h) <= plen) as Hs.
  { unfold piece_size, kBlockSize in *. cbn [num_pieces piece_length total_size bare_picker] in *.
    case_match; [lia|]. cbv zeta. case_match eqn:E; [lia|]. apply Z.leb_gt in E.
    unfold u32. rewrite Z.mod_small by lia. lia. }
  unfold kBlockSize in *. unfold u32. rewrite Z.mod_small by lia. split.
  - apply Z.div_pos; lia.
  - apply Z.div_lt_upper_bound; lia.
Qed.

(** * The strategies *)

(** High priority before normal, then the rarer first. *)
Definition rank_le (s : PiecePicker) (p q : Z) : Prop :=
  forall pr pr' a a',
    zlookup (priority s) p = Some pr -> zlookup (availability s) p = Some a ->
    zlookup (priority s) q = Some pr' -> zlookup (availability s) q = Some a' ->
    prio_idx pr < prio_idx pr' \/ prio_idx pr = prio_idx pr' /\ a <= a'.

Lemma StronglySorted_concat {A} (R : relation A) ls :
  (forall l, l ∈ ls -> StronglySorted R l) ->
  (forall i j l k x y, (i < j)%nat -> ls !! i = Some l -> ls !! j = Some k -> x ∈ l -> y ∈ k -> R x y) ->
  StronglySorted R (concat ls).
Proof.
  induction ls as [|l ls IH]; intros H1 H2; cbn [concat]; [constructor|].
  apply StronglySorted_app. split_and!.
  - intros x y Hx (k & [j Hj]%list_elem_of_In%list_elem_of_lookup & Hk%list_elem_of_In)%list_elem_of_In%in_concat.
    apply (H2 0%nat (S j) l k); [lia|done..].
  - apply H1. left.
  - apply IH; [intros; apply H1; by right|]. intros i j l1 l2 x y Hij Hi Hj.
    apply (H2 (S i) (S j) l1 l2); [lia|done..].
Qed.

Lemma StronglySorted_all {A} (R : relation A) l : (forall x y, x ∈ l -> y ∈ l -> R x y) -> StronglySorted R l.
Proof.
  induction l as [|x l IH]; intros H; constructor.
  - apply IH. intros y z Hy Hz. apply H; by right.
  - apply Forall_forall. intros y Hy. apply H; [left|by right].
Qed.

Lemma concat_fmap_concat {A B} (f : list A -> list B) (ls : list (list (list A))) :
  concat (f <$> concat ls) = concat ((fun col => concat (f <$> col)) <$> ls).
Proof. induction ls as [|l ls IH]; [done|]. cbn. by rewrite fmap_app, concat_app, IH. Qed.

Lemma gathered_list {A} (f : list A -> list A) (ls : list (list A)) x :
  x ∈ concat (f <$> ls) -> exists l, l ∈ ls /\ x ∈ f l.
Proof.
  intros (k & (l & -> & Hl)%list_elem_of_In%list_elem_of_fmap & Hx%list_elem_of_In)%list_elem_of_In%in_concat. eauto.
Qed.

Lemma bucket_rank s (i j a b : nat) ci cj x y p q :
  picker_ok s -> buckets s !! i = Some ci -> buckets s !! j = Some cj -> ci !! a = Some x -> cj !! b = Some y ->
  (i < j)%nat \/ i = j /\ (a <= b)%nat -> p ∈ x -> q ∈ y -> rank_le s p q.
Proof.
  intros Hok Hi Hj Ha Hb Hle Hp Hq.
  rewrite <- (bucket_of_lookup s i a ci x Hi Ha) in Hp. rewrite <- (bucket_of_lookup s j b cj y Hj Hb) in Hq.
  apply (in_bucket_elem s Hok) in Hp as (_ & pr & E1 & E2 & E3).
  apply (in_bucket_elem s Hok) in Hq as (_ & pr' & E1' & E2' & E3').
  intros ???? H1 H2 H3 H4. simplify_eq. lia.
Qed.

Lemma rarest_sorted (f : list Z -> list Z) s :
  picker_ok s -> (forall l, f l ≡ₚ l) -> StronglySorted (rank_le s) (concat (f <$> concat (buckets s))).
Proof.
  intros Hok Hf. rewrite concat_fmap_concat.
  assert (forall x b, x ∈ f b -> x ∈ b) as Hin by (intros x b; by rewrite Hf).
  apply StronglySorted_concat.
  - intros l (col & -> & [i Hi]%list_elem_of_lookup)%list_elem_of_fmap. apply StronglySorted_concat.
    + intros l' (b & -> & [a Ha]%list_elem_of_lookup)%list_elem_of_fmap.
      apply StronglySorted_all. intros x y Hx%Hin Hy%Hin.
      apply (bucket_rank s i i a a col col b b); try done. right. lia.
    + intros a b l' k x y Hab. rewrite !list_lookup_fmap.
      intros (u & Ha & ->)%fmap_Some (v & Hb & ->)%fmap_Some Hx%Hin Hy%Hin.
      apply (bucket_rank s i i a b col col u v); try done. right. lia.
  - intros i j l k x y Hij. rewrite !list_lookup_fmap.
    intros (ci & Hi & ->)%fmap_Some (cj & Hj & ->)%fmap_Some
      (u & [a Ha]%list_elem_of_lookup & Hx%Hin)%gathered_list (v & [b Hb]%list_elem_of_lookup & Hy%Hin)%gathered_list.
    apply (bucket_rank s i j a b ci cj u v); try done. by left.
Qed.

Lemma sorted_strict l : StronglySorted Z.le l -> NoDup l -> StronglySorted Z.lt l.
Proof.
  induction 1 as [|x l Hs IH Hx]; intros Hnd; [constructor|]. apply NoDup_cons in Hnd as [Hn Hnd].
  constructor; [by apply IH|]. rewrite Forall_forall in Hx |- *. intros y Hy. specialize (Hx y Hy).
  assert (x <> y) by (by intros ->). lia.
Qed.

Lemma seqZ_sorted n : forall m, StronglySorted Z.lt (seqZ m (Z.of_nat n)).
Proof.
  induction n as [|n IH]; intros m; [constructor|]. rewrite seqZ_cons by lia.
  replace (Z.pred (Z.of_nat (S n))) with (Z.of_nat n) by lia. constructor; [apply IH|].
  apply Forall_forall. intros x Hx%elem_of_seqZ. lia.
Qed.

(** The strategies order the pieces as they promise. Rarest first visits new pieces
    by priority, then by ascending availability, whatever offsets are drawn. Sequential
    visits both the pieces in progress and the new ones by ascending index. *)
Theorem strategy_order (ch : Choices) (s : PiecePicker) :
  picker_ok s -> choices_ok ch ->
  (mode s = RarestFirst -> StronglySorted (rank_le s) (new_order ch s))
  /\ (mode s = Sequential -> StronglySorted Z.lt (partial_order ch s) /\ StronglySorted Z.lt (new_order ch s)).
Proof.
  intros Hok Hch. split; intros Em.
  - unfold new_order. rewrite Em. apply rarest_sorted; [done|]. intros l. apply rotate_perm.
  - pose proof (partial_order_spec s ch Hch) as [Hnd _]. unfold partial_order, new_order in *. rewrite Em in *. split.
    + apply sorted_strict; [apply StronglySorted_merge_sort; apply _|done].
    + destruct Hok as (_ & _ & _ & _ & _ & _ & Hc & _).
      rewrite <- (Z2Nat.id (num_pieces s - seq_cursor s)) by lia. apply seqZ_sorted.
Qed.

(** * Picking *)


(** * A whole download *)


(** The life of a block. A request adds the peer and moves a free block to requested.
    A block that arrives is accepted once, while it is requested, and then the other
    peers asked for it are reported. A finished block completes its piece exactly when
    all the blocks of the piece are finished. A peer that leaves frees the block when it
    was the last one asked. Every other block stays as it is. *)
Theorem block_machine (s : PiecePicker) (b : PieceBlock) (peer : Z) :
  picker_ok s -> block_in b s ->
  exists x, block_of s (piece b) (block b) = Some x
    /\ returns (mark_requested b peer s) (fun s' =>
         block_set (piece b) (block b) (join peer x) s s')
    /\ returns (mark_writing b peer s) (fun '(others, s') =>
         if bool_decide (state x = Requested)
         then block_set (piece b) (block b) (mkBlk Writing []) s s'
              /\ forall p, p ∈ others <-> p ∈ peers x /\ p <> peer
         else s' = s /\ others = [])
    /\ returns (mark_finished b s) (fun '(complete, s') =>
         block_set (piece b) (block b) (mkBlk Finished []) s s'
         /\ (complete = true <-> forall j y, block_of s' (piece b) j = Some y -> state y = Finished))
    /\ returns (abort_block b peer s) (fun s' =>
         downloading s !! piece b = None /\ s' = s
         \/ block_set (piece b) (block b) (leave peer x).1 s s').
Proof.
  intros Hok Hb. destruct (block_in_lookup s b Hok Hb) as (x & Hx & _). exists x. split_and!; [done|..].
  - eapply returns_mono; [by apply requested_ok|]. by intros s' [_ ?].
  - eapply returns_mono; [by apply (writing_ok s b peer x)|]. by intros [] [_ ?].
  - eapply returns_mono; [by apply (finished_ok s b x)|]. by intros [] (_ & ? & ?).
  - eapply returns_mono; [by apply (abort_ok s b peer x)|]. by intros s' [_ ?].
Qed.

(** * A concrete picker *)

(** Two pieces, of two and one blocks. *)
Definition demo_picker : PiecePicker :=
  match new_picker 2 32768 40000 with Ret s => s | _ => bare_picker 0 0 0 bitfield.empty_bitfield end.

Definition demo_peer : Bitfield := mkBitfield [x80] 2.

Definition demo_choices : Choices := mkChoices (fun d => (map_to_list d).*1) (fun l => l) (fun _ => 0%nat).

Lemma demo_new : new_picker 2 32768 40000 = Ret demo_picker.
Proof. vm_compute. reflexivity. Qed.

Lemma demo_ok : picker_ok demo_picker.
Proof.
  pose proof (new_picker_ok 2 32768 40000 ltac:(lia)
    (fun h => geometry_new 2 32768 40000 h ltac:(unfold kBlockSize; lia))) as H.
  rewrite demo_new in H. apply H.
Qed.

Lemma demo_choices_ok : choices_ok demo_choices.
Proof. done. Qed.


Lemma block_machine_witness :
  exists x, block_of demo_picker 0 1 = Some x
    /\ returns (mark_requested (mkPieceBlock 0 1) 7 demo_picker) (fun s' =>
         block_set 0 1 (join 7 x) demo_picker s').
Proof.
  destruct (block_machine demo_picker (mkPieceBlock 0 1) 7 demo_ok) as (x & Hx & H & _).
  - split; vm_compute; split; done.
  - exists x. by split.
Defined.

Lemma strategy_order_witness :
  mode demo_picker = RarestFirst /\ StronglySorted (rank_le demo_picker) (new_order demo_choices demo_picker).
Proof. split; [done|]. by apply (strategy_order demo_choices demo_picker demo_ok demo_choices_ok). Defined.


(** * The largest pieces *)

(** A piece of [2^16] blocks, as the code sees it. *)
Definition huge (p : Z) (s : PiecePicker) : Prop :=
  blocks_in_piece p s = 65536
  /\ forall dp, downloading s !! p = Some dp -> zlen (blocks dp) = 65536 /\ 0 <= num_finished dp < 2 ^ 16.

(** A piece of 2^16 blocks, which is one of 2^30 bytes, the largest length the metadata
    parser accepts, never completes: the 16-bit counter of finished blocks cannot reach
    the number of blocks, whichever and however many of them finish. *)
Theorem huge_piece_stuck (s s' : PiecePicker) (b : PieceBlock) (complete : bool) :
  huge (piece b) s -> mark_finished b s = Ret (complete, s') -> complete = false /\ huge (piece b) s'.
Proof.
  intros [Hn Hd]. unfold mark_finished.
  assert (zlen (blocks (downloading_for (piece b) s)) = 65536
          /\ 0 <= num_finished (downloading_for (piece b) s) < 2 ^ 16) as [L Hf].
  { unfold downloading_for. destruct (downloading s !! piece b) as [dp|] eqn:E; [by apply Hd|].
    rewrite Hn. cbn [blocks num_finished]. by rewrite zlen_replicate. }
  set (dp := downloading_for (piece b) s) in *. destruct (vat (blocks dp) (block b)) as [x| |] eqn:Ev; [|done..].
  cbn [mbind outcome_bind]. unfold vat in Ev. destruct (zlookup (blocks dp) (block b)) as [y|] eqn:Ez; [|done].
  rewrite vput_in by (by eapply zlookup_range). cbn [mbind outcome_bind].
  set (nf := match state x with Finished => num_finished dp | _ => u16 (num_finished dp + 1) end).
  assert (0 <= nf < 2 ^ 16) as Hnf by (unfold nf, u16; case_match; (done || apply Z.mod_pos_bound; lia)).
  rewrite zlen_insert, L. intros [= <- <-]. split; [destruct (Z.eqb_spec nf 65536); [lia|done]|].
  split; [exact Hn|]. intros dp'. unfold set_dp. pk_simpl. rewrite lookup_insert_eq. intros [= <-].
  cbn [blocks num_finished]. by rewrite zlen_insert.
Qed.

Lemma huge_piece_stuck_witness :
  match mark_finished (mkPieceBlock 0 7) (bare_picker 1 (2 ^ 30) (2 ^ 30) bitfield.empty_bitfield) with
  | Ret (complete, s') => complete = false /\ huge 0 s'
  | _ => False
  end.
Proof.
  destruct (mark_finished _ _) as [[c s']| |] eqn:E.
  - apply (huge_piece_stuck (bare_picker 1 (2 ^ 30) (2 ^ 30) bitfield.empty_bitfield) s' (mkPieceBlock 0 7) c); [|exact E].
    split; [vm_compute; reflexivity|]. intros dp. cbn [bare_picker downloading]. by rewrite lookup_empty.
  - assert (match mark_finished (mkPieceBlock 0 7) (bare_picker 1 (2 ^ 30) (2 ^ 30) bitfield.empty_bitfield) with
            | BadAlloc => False | _ => True end) as H by (vm_compute; exact I). by rewrite E in H.
  - assert (match mark_finished (mkPieceBlock 0 7) (bare_picker 1 (2 ^ 30) (2 ^ 30) bitfield.empty_bitfield) with
            | UB => False | _ => True end) as H by (vm_compute; exact I). by rewrite E in H.
Defined.
