(* ===== verification/Krpc.v ===== *)
(** The KRPC codec of the DHT ([dht/krpc.{h,cpp}]): messages, their encoding as
    bencoded datagrams, and the decoder for untrusted datagrams.

    A function that may throw or return a null pointer gives [None]: the decoder
    catches what is thrown and returns the null pointer as well. A read past the end
    of a string is undefined. Logging is left out. *)

From Stdlib Require Import Strings.String.
From S2P Require Import Prelude Text PeerId Address DhtId Bencode.
Import bencode.

(** A string literal. *)
Notation lit s := (list_byte_of_string s%string).

Inductive KrpcMessageType := Query | Response | Error.
Inductive KrpcQueryType := Ping | FindNode | GetPeers | AnnouncePeer.

Record KrpcNode := mkKrpcNode { id : NodeId; node_ip : IpAddress; node_port : Z }.

Module krpc.

(** The enumerators of [KrpcErrorCode]; a decoded code may be any [int]. *)
Definition GenericError : Z := 201.
Definition ServerError : Z := 202.
Definition ProtocolError : Z := 203.
Definition MethodUnknown : Z := 204.

Record KrpcMessage := mkMessage {
  type : KrpcMessageType;
  transaction_id : list byte;
  query_type : KrpcQueryType;
  sender_id : NodeId;
  target_id : NodeId;
  info_hash : NodeId;
  port : Z;              (* uint16_t *)
  implied_port : bool;
  token : list byte;
  want : list (list byte);
  response_id : NodeId;
  nodes : list KrpcNode;
  peers : list Address;
  external_ip : IpAddress;
  external_port : Z;     (* uint16_t *)
  error_code : Z;        (* int *)
  error_message : list byte;
}.

(** A query, a response and an error: the fields each of them has, the others as the
    default constructor leaves them. *)
Definition query_of (t : list byte) (q : KrpcQueryType) (sender target hash : NodeId) (p : Z) (implied : bool)
    (tok : list byte) (w : list (list byte)) : KrpcMessage :=
  mkMessage Query t q sender target hash p implied tok w
    dht_id.zero_id [] [] ip_address.unspecified 0 GenericError [].
Definition response_of (t : list byte) (rid : NodeId) (ns : list KrpcNode) (ps : list Address) (tok : list byte)
    (eip : IpAddress) (eport : Z) : KrpcMessage :=
  mkMessage Response t Ping dht_id.zero_id dht_id.zero_id dht_id.zero_id 0 false tok []
    rid ns ps eip eport GenericError [].
Definition error_of (t : list byte) (code : Z) (msg : list byte) : KrpcMessage :=
  mkMessage Error t Ping dht_id.zero_id dht_id.zero_id dht_id.zero_id 0 false [] []
    dht_id.zero_id [] [] ip_address.unspecified 0 code msg.

(** * Creating messages *)

Definition create_ping_query (t : list byte) (sender : NodeId) : KrpcMessage :=
  query_of t Ping sender dht_id.zero_id dht_id.zero_id 0 false [] [].
Definition create_find_node_query (t : list byte) (sender target : NodeId) : KrpcMessage :=
  query_of t FindNode sender target dht_id.zero_id 0 false [] [].
Definition create_get_peers_query (t : list byte) (sender hash : NodeId) : KrpcMessage :=
  query_of t GetPeers sender dht_id.zero_id hash 0 false [] [].
Definition create_announce_peer_query (t : list byte) (sender hash : NodeId) (p : Z) (tok : list byte)
    (implied : bool) : KrpcMessage :=
  query_of t AnnouncePeer sender dht_id.zero_id hash p implied tok [].

Definition create_ping_response (t : list byte) (rid : NodeId) : KrpcMessage :=
  response_of t rid [] [] [] ip_address.unspecified 0.
Definition create_find_node_response (t : list byte) (rid : NodeId) (ns : list KrpcNode) : KrpcMessage :=
  response_of t rid ns [] [] ip_address.unspecified 0.
Definition create_get_peers_response (t : list byte) (rid : NodeId) (ps : list Address) (tok : list byte)
    : KrpcMessage :=
  response_of t rid [] ps tok ip_address.unspecified 0.
Definition create_get_peers_response_with_nodes (t : list byte) (rid : NodeId) (ns : list KrpcNode)
    (tok : list byte) : KrpcMessage :=
  response_of t rid ns [] tok ip_address.unspecified 0.
Definition create_announce_peer_response (t : list byte) (rid : NodeId) : KrpcMessage :=
  response_of t rid [] [] [] ip_address.unspecified 0.
Definition create_error (t : list byte) (code : Z) (msg : list byte) : KrpcMessage :=
  error_of t code msg.

(** * Compact forms *)

Definition node_id_to_string (i : NodeId) : list byte := i.

Definition string_to_node_id (s : list byte) : NodeId :=
  if 20 <=? zlen s then ztake 20 s else s ++ replicate (Z.to_nat (20 - zlen s)) x00.

(** What is appended: four zero bytes for the unspecified address. *)
Definition append_compact_address (a : IpAddress) : list byte :=
  match ip_address.bytes a with
  | [] => replicate 4 x00
  | b => b
  end.

Definition port_bytes (p : Z) : list byte :=
  [byte_of (Z.land (Z.shiftr p 8) 255); byte_of (Z.land p 255)].

Definition compact_peer_info (a : Address) : list byte :=
  append_compact_address (Address.ip a) ++ port_bytes (Address.port a).

Definition compact_node_info (n : KrpcNode) : list byte :=
  node_id_to_string (id n) ++ append_compact_address (node_ip n) ++ port_bytes (node_port n).

(** The slice of [n] bytes at an offset. *)
Definition slice (s : list byte) (off n : Z) : outcome (list byte) :=
  if (0 <=? off) && (off + n <=? zlen s) then Ret (ztake n (zdrop off s)) else UB.

Definition read_compact_ip (s : list byte) (off addr_len : Z) : outcome IpAddress :=
  b ← slice s off addr_len;
  Ret (default ip_address.unspecified (ip_address.from_bytes b)).

Definition read_port (s : list byte) (off : Z) : outcome Z :=
  hi ← vat s off;
  lo ← vat s (off + 1);
  Ret (Z.lor (Z.shiftl (u8 hi) 8) (u8 lo)).

Fixpoint peer_loop (fuel : nat) (i record_size addr_len : Z) (s : list byte) : outcome (list Address) :=
  match fuel with
  | O => Ret []
  | S fuel =>
      if i + record_size <=? zlen s then
        a ← read_compact_ip s i addr_len;
        p ← read_port s (i + addr_len);
        rest ← peer_loop fuel (i + record_size) record_size addr_len s;
        Ret (mkAddress a p :: rest)
      else Ret []
  end.

Definition parse_compact_peer_info (s : list byte) : outcome (list Address) :=
  if zlen s =? 18 then peer_loop (length s) 0 18 16 s
  else if negb (zlen s mod 6 =? 0) then Ret []
  else peer_loop (length s) 0 6 4 s.

Fixpoint node_loop (fuel : nat) (i record_size addr_len : Z) (s : list byte) : outcome (list KrpcNode) :=
  match fuel with
  | O => Ret []
  | S fuel =>
      if i <? zlen s then
        nid ← slice s i 20;
        a ← read_compact_ip s (i + 20) addr_len;
        p ← read_port s (i + 20 + addr_len);
        rest ← node_loop fuel (i + record_size) record_size addr_len s;
        Ret (mkKrpcNode nid a p :: rest)
      else Ret []
  end.

Definition parse_compact_node_info (s : list byte) (ipv6 : bool) : outcome (list KrpcNode) :=
  let addr_len := if ipv6 then 16 else 4 in
  let record_size := 20 + addr_len + 2 in
  if negb (zlen s mod record_size =? 0) then Ret []
  else node_loop (length s) 0 record_size addr_len s.

Definition string_to_query_type (s : list byte) : KrpcQueryType :=
  if bool_decide (s = lit "ping") then Ping
  else if bool_decide (s = lit "find_node") then FindNode
  else if bool_decide (s = lit "get_peers") then GetPeers
  else if bool_decide (s = lit "announce_peer") then AnnouncePeer
  else Ping.

Definition query_type_to_string (q : KrpcQueryType) : list byte :=
  match q with
  | Ping => lit "ping"
  | FindNode => lit "find_node"
  | GetPeers => lit "get_peers"
  | AnnouncePeer => lit "announce_peer"
  end.

(** * Encoding *)

(** [v\[key\] = x]. *)
Definition put (key : list byte) (x v : BencodeValue) : option BencodeValue := update key (fun _ => x) v.

(** The elements pushed one by one onto a new list. *)
Definition list_of (xs : list BencodeValue) : option BencodeValue :=
  foldl (fun v x => v ← v; push_back x v) (Some (List [])) xs.

Definition is_v6 (a : IpAddress) : bool := bool_decide (family a = V6).
Definition is_unspecified (a : IpAddress) : bool := bool_decide (family a = FNone).
Definition nonempty {A} (l : list A) : bool := match l with [] => false | _ => true end.

Definition encode_query (m : KrpcMessage) : option BencodeValue :=
  root ← put (lit "t") (String (transaction_id m)) (Dictionary []);
  root ← put (lit "y") (String (lit "q")) root;
  root ← put (lit "q") (String (query_type_to_string (query_type m))) root;
  args ← put (lit "id") (String (node_id_to_string (sender_id m))) (Dictionary []);
  args ← match query_type m with
         | Ping => Some args
         | FindNode => put (lit "target") (String (node_id_to_string (target_id m))) args
         | GetPeers => put (lit "info_hash") (String (node_id_to_string (info_hash m))) args
         | AnnouncePeer =>
             args ← put (lit "info_hash") (String (node_id_to_string (info_hash m))) args;
             args ← put (lit "port") (Integer (port m)) args;
             args ← put (lit "token") (String (token m)) args;
             if implied_port m then put (lit "implied_port") (Integer 1) args else Some args
         end;
  args ← (if nonempty (want m) then
            want_list ← list_of (String <$> want m);
            put (lit "want") want_list args
          else Some args);
  put (lit "a") args root.

(** The two strings the nodes are split into, by family. *)
Definition compact_nodes (v6 : bool) (ns : list KrpcNode) : list byte :=
  concat (compact_node_info <$> List.filter (fun n => Bool.eqb (is_v6 (node_ip n)) v6) ns).

Definition encode_response (m : KrpcMessage) : option BencodeValue :=
  root ← put (lit "t") (String (transaction_id m)) (Dictionary []);
  root ← put (lit "y") (String (lit "r")) root;
  response ← put (lit "id") (String (node_id_to_string (response_id m))) (Dictionary []);
  let v4 := compact_nodes false (nodes m) in
  let v6 := compact_nodes true (nodes m) in
  response ← (if nonempty v4 then put (lit "nodes") (String v4) response else Some response);
  response ← (if nonempty v6 then put (lit "nodes6") (String v6) response else Some response);
  response ← (if nonempty (peers m) then
                values ← list_of ((fun a => String (compact_peer_info a)) <$> peers m);
                put (lit "values") values response
              else Some response);
  response ← (if nonempty (token m) then put (lit "token") (String (token m)) response else Some response);
  root ← put (lit "r") response root;
  if negb (is_unspecified (external_ip m)) then
    let compact := compact_peer_info (mkAddress (external_ip m) (external_port m)) in
    if nonempty compact then put (lit "ip") (String compact) root else Some root
  else Some root.

Definition encode_error (m : KrpcMessage) : option BencodeValue :=
  root ← put (lit "t") (String (transaction_id m)) (Dictionary []);
  root ← put (lit "y") (String (lit "e")) root;
  error ← list_of [Integer (error_code m); String (error_message m)];
  put (lit "e") error root.

Definition encode_message (m : KrpcMessage) : option (list byte) :=
  root ← match type m with
         | Query => encode_query m
         | Response => encode_response m
         | Error => encode_error m
         end;
  Some (encode root).

(** * Decoding *)

(** A computation that reads a datagram: [Ret None] is the null pointer. *)
Definition decoded (A : Type) : Type := outcome (option A).
Definition dbind {A B} (m : decoded A) (k : A -> decoded B) : decoded B :=
  match m with
  | Ret (Some a) => k a
  | Ret None => Ret None
  | BadAlloc => BadAlloc
  | UB => UB
  end.
Definition value {A} (m : outcome A) : decoded A :=
  match m with Ret a => Ret (Some a) | BadAlloc => BadAlloc | UB => UB end.
Notation "x ←? m ; k" := (dbind m (fun x => k))
  (at level 20, m at level 100, k at level 200, right associativity).

(** [if (v.has_key(key)) ...]: what a present field is read with, or the value it keeps. *)
Definition field {A} (key : list byte) (v : BencodeValue) (dflt : A) (read : BencodeValue -> decoded A)
    : decoded A :=
  match find key v with Some x => read x | None => Ret (Some dflt) end.

Definition read_string (v : BencodeValue) : decoded (list byte) := Ret (as_string v).
Definition read_id (v : BencodeValue) : decoded NodeId := Ret (string_to_node_id <$> as_string v).

(** [int64_t] to [int]. *)
Definition i32 (z : Z) : Z := let w := u32 z in if w <? 2 ^ 31 then w else w - 2 ^ 32.

(** The strings of a list, or nothing when the value is not a list. *)
Fixpoint read_strings (l : list BencodeValue) : decoded (list (list byte)) :=
  match l with
  | [] => Ret (Some [])
  | x :: l => s ←? read_string x; rest ←? read_strings l; Ret (Some (s :: rest))
  end.
Definition read_want (v : BencodeValue) : decoded (list (list byte)) :=
  match as_list v with Some l => read_strings l | None => Ret (Some []) end.

Definition decode_query (data : BencodeValue) : decoded KrpcMessage :=
  if negb (has_key (lit "q") data) || negb (has_key (lit "a") data) then Ret None
  else
    t ←? Ret (x ← find (lit "t") data; as_string x);
    q ←? Ret (x ← find (lit "q") data; as_string x);
    args ←? Ret (find (lit "a") data);
    sender ←? Ret (x ← find (lit "id") args; string_to_node_id <$> as_string x);
    w ←? field (lit "want") args [] read_want;
    match string_to_query_type q with
    | Ping => Ret (Some (query_of t Ping sender dht_id.zero_id dht_id.zero_id 0 false [] w))
    | FindNode =>
        target ←? field (lit "target") args dht_id.zero_id read_id;
        Ret (Some (query_of t FindNode sender target dht_id.zero_id 0 false [] w))
    | GetPeers =>
        hash ←? field (lit "info_hash") args dht_id.zero_id read_id;
        Ret (Some (query_of t GetPeers sender dht_id.zero_id hash 0 false [] w))
    | AnnouncePeer =>
        hash ←? field (lit "info_hash") args dht_id.zero_id read_id;
        p ←? field (lit "port") args 0 (fun x => Ret (u16 <$> as_integer x));
        tok ←? field (lit "token") args [] read_string;
        implied ←? field (lit "implied_port") args false (fun x => Ret ((fun z => negb (z =? 0)) <$> as_integer x));
        Ret (Some (query_of t AnnouncePeer sender dht_id.zero_id hash p implied tok w))
    end.

Definition read_nodes (ipv6 : bool) (v : BencodeValue) : decoded (list KrpcNode) :=
  s ←? read_string v; value (parse_compact_node_info s ipv6).

Fixpoint read_values (l : list BencodeValue) : decoded (list Address) :=
  match l with
  | [] => Ret (Some [])
  | x :: l =>
      s ←? read_string x;
      ps ←? value (parse_compact_peer_info s);
      rest ←? read_values l;
      Ret (Some (ps ++ rest))
  end.
Definition read_peers (v : BencodeValue) : decoded (list Address) :=
  match as_list v with Some l => read_values l | None => Ret (Some []) end.

(** The address and port of the first endpoint, if there is one. *)
Definition read_external (v : BencodeValue) : decoded (IpAddress * Z) :=
  s ←? read_string v;
  ps ←? value (parse_compact_peer_info s);
  Ret (Some match ps with
            | a :: _ => (Address.ip a, Address.port a)
            | [] => (ip_address.unspecified, 0)
            end).

Definition decode_response (data : BencodeValue) : decoded KrpcMessage :=
  if negb (has_key (lit "r") data) then Ret None
  else
    t ←? Ret (x ← find (lit "t") data; as_string x);
    response ←? Ret (find (lit "r") data);
    rid ←? Ret (x ← find (lit "id") response; string_to_node_id <$> as_string x);
    ns ←? field (lit "nodes") response [] (read_nodes false);
    ns6 ←? field (lit "nodes6") response [] (read_nodes true);
    ps ←? field (lit "values") response [] read_peers;
    tok ←? field (lit "token") response [] read_string;
    ext ←? field (lit "ip") data (ip_address.unspecified, 0) read_external;
    Ret (Some (response_of t rid (ns ++ ns6) ps tok ext.1 ext.2)).

Definition decode_error (data : BencodeValue) : decoded KrpcMessage :=
  if negb (has_key (lit "e") data) then Ret None
  else
    t ←? Ret (x ← find (lit "t") data; as_string x);
    error ←? Ret (x ← find (lit "e") data; as_list x);
    if zlen error <? 2 then Ret None
    else
      code ←? Ret (x ← zlookup error 0; as_integer x);
      msg ←? Ret (x ← zlookup error 1; as_string x);
      Ret (Some (error_of t (i32 code) msg)).

Definition decode_message (data : list byte) : decoded KrpcMessage :=
  root ←? Ret (decode_full data);
  _ ←? Ret (as_dict root);
  if negb (has_key (lit "t") root) || negb (has_key (lit "y") root) then Ret None
  else
    _ ←? Ret (x ← find (lit "t") root; as_string x);
    y ←? Ret (x ← find (lit "y") root; as_string x);
    if bool_decide (y = lit "q") then decode_query root
    else if bool_decide (y = lit "r") then decode_response root
    else if bool_decide (y = lit "e") then decode_error root
    else Ret None.

End krpc.
