(* ===== verification/KrpcCodec.v ===== *)
(** The KRPC codec: any datagram is decoded without undefined behaviour into a well-formed
    message or refused, and what is encoded is decoded to the fields it carries. *)

From Stdlib Require Import Strings.String.
From S2P Require Import Prelude Text PeerId Address DhtId Bencode Krpc.
Import bencode krpc.

(** * Compact forms *)

Definition port_ok (p : Z) : Prop := 0 <= p < 2 ^ 16.
Definition address_ok (a : Address) : Prop := ip_address.ip_ok (Address.ip a) /\ port_ok (Address.port a).
Definition node_ok (n : KrpcNode) : Prop :=
  dht_id.id_ok (id n) /\ ip_address.ip_ok (node_ip n) /\ port_ok (node_port n).

(** The address a compact form stands for: the unspecified one is sent as 0.0.0.0. *)
Definition sent_ip (a : IpAddress) : IpAddress :=
  match family a with FNone => ip_address.from_v4 (replicate 4 x00) | _ => a end.

Definition addr_len (a : IpAddress) : Z := if is_v6 a then 16 else 4.

Lemma ip_bytes_len a : ip_address.ip_ok a -> zlen (ip_address.bytes a) = ip_address.size a.
Proof.
  intros [H _]. unfold ip_address.bytes. apply zlen_ztake. unfold ip_address.size. destruct (family a); lia.
Qed.

Lemma compact_address_len a : ip_address.ip_ok a -> zlen (append_compact_address a) = addr_len a.
Proof.
  intros H%ip_bytes_len. unfold append_compact_address, addr_len, is_v6, ip_address.size in *.
  destruct (ip_address.bytes a) eqn:E, (family a); rewrite ?zlen_nil in H; cbn; lia || done.
Qed.

Lemma compact_address_read a :
  ip_address.ip_ok a ->
  default ip_address.unspecified (ip_address.from_bytes (append_compact_address a)) = sent_ip a.
Proof.
  intros Ha. pose proof (compact_address_len a Ha) as L. pose proof (ip_bytes_len a Ha) as Lb.
  destruct Ha as [H16 Hz].
  unfold append_compact_address, sent_ip, addr_len, is_v6, ip_address.size, ip_address.from_bytes in *.
  destruct a as [b f]. cbn [family bytes_] in *. destruct f.
  - apply zlen_zero in Lb. by rewrite Lb.
  - destruct (ip_address.bytes _) as [|x l] eqn:E; [by rewrite zlen_nil in Lb|]. rewrite Lb. cbn [Z.eqb Pos.eqb default from_option Datatypes.id].
    f_equal. rewrite <- E. unfold ip_address.bytes, ip_address.size. cbn [family bytes_].
    change (replicate 12 x00) with (replicate (Z.to_nat (16 - 4)) x00). rewrite <- Hz. apply ztake_zdrop.
  - destruct (ip_address.bytes _) as [|x l] eqn:E; [by rewrite zlen_nil in Lb|]. rewrite Lb. cbn [Z.eqb Pos.eqb default from_option Datatypes.id].
    f_equal. rewrite <- E. unfold ip_address.bytes, ip_address.size. cbn [family bytes_]. apply ztake_all. lia.
Qed.

Lemma from_bytes_ok b : ip_address.ip_ok (default ip_address.unspecified (ip_address.from_bytes b)).
Proof.
  unfold ip_address.from_bytes. destruct (Z.eqb_spec (zlen b) 4); [|destruct (Z.eqb_spec (zlen b) 16)]; cbn [default from_option Datatypes.id].
  - split; cbn [bytes_]; [rewrite zlen_app, zlen_replicate; lia|]. apply zdrop_app. cbn. lia.
  - split; cbn [bytes_]; [done|]. apply zdrop_all. cbn. lia.
  - by split.
Qed.

(** ** Reading at an offset *)

Lemma slice_app pre x post n : zlen x = n -> slice (pre ++ x ++ post) (zlen pre) n = Ret x.
Proof.
  intros <-. unfold slice. rewrite !zlen_app. pose proof (zlen_nonneg pre). pose proof (zlen_nonneg post).
  destruct (Z.leb_spec 0 (zlen pre)), (Z.leb_spec (zlen pre + zlen x) (zlen pre + (zlen x + zlen post)));
    try lia. cbn [andb]. by rewrite zdrop_app, ztake_app.
Qed.

Lemma slice_ok s off n : 0 <= off -> 0 <= n -> off + n <= zlen s -> returns (slice s off n) (fun x => zlen x = n).
Proof.
  intros H1 H2 H3. unfold slice. destruct (Z.leb_spec 0 off), (Z.leb_spec (off + n) (zlen s)); try lia.
  cbn. rewrite zlen_ztake; [done|]. rewrite zlen_zdrop; lia.
Qed.

Lemma zlookup_app pre (x : byte) post : zlookup (pre ++ x :: post) (zlen pre) = Some x.
Proof.
  unfold zlookup, zlen. destruct (Z.leb_spec 0 (Z.of_nat (length pre))); [|lia].
  rewrite Nat2Z.id. by apply list_lookup_middle.
Qed.

Lemma port_value p hi lo :
  port_ok p -> port_bytes p = [hi; lo] -> Z.lor (Z.shiftl (u8 hi) 8) (u8 lo) = p.
Proof.
  unfold port_ok, port_bytes. intros Hp [= <- <-]. rewrite !u8_byte_of.
  change 255 with (Z.ones 8). rewrite !Z.land_ones, !Z.shiftr_div_pow2 by lia.
  rewrite !Z.mod_mod by lia. rewrite lor_shiftl_add by (lia || apply Z.mod_pos_bound; lia).
  change (2 ^ 8) with 256. rewrite (Z.mod_small (p / 256)); [rewrite (Z.div_mod p 256) at 3; lia|].
  split; [apply Z.div_pos; lia|apply Z.div_lt_upper_bound; lia].
Qed.

Lemma read_port_app pre p post :
  port_ok p -> read_port (pre ++ port_bytes p ++ post) (zlen pre) = Ret p.
Proof.
  intros Hp. pose proof (port_value p _ _ Hp eq_refl) as E. unfold read_port, port_bytes in *. cbn [app].
  rewrite (vat_Some _ _ _ (zlookup_app _ _ _)). cbn [mbind outcome_bind].
  match goal with |- context [pre ++ ?a :: ?b :: post] =>
    replace (pre ++ a :: b :: post) with ((pre ++ [a]) ++ b :: post) by (by rewrite <- (assoc_L (++)));
    replace (zlen pre + 1) with (zlen (pre ++ [a])) by (by rewrite zlen_app) end.
  rewrite (vat_Some _ _ _ (zlookup_app _ _ _)). cbn [mbind outcome_bind]. by rewrite E.
Qed.

Lemma read_port_ok s off : 0 <= off -> off + 2 <= zlen s -> returns (read_port s off) port_ok.
Proof.
  intros H1 H2. unfold read_port. destruct (zlookup_lt s off) as [hi E1]; [lia|].
  destruct (zlookup_lt s (off + 1)) as [lo E2]; [lia|].
  rewrite (vat_Some _ _ _ E1), (vat_Some _ _ _ E2). cbn. unfold port_ok.
  pose proof (u8_range hi). pose proof (u8_range lo).
  rewrite lor_shiftl_add by lia. lia.
Qed.

Lemma read_ip_ok s off n :
  0 <= off -> 0 <= n -> off + n <= zlen s -> returns (read_compact_ip s off n) ip_address.ip_ok.
Proof.
  intros H1 H2 H3. eapply returns_bind; [by apply slice_ok|]. intros b _. apply from_bytes_ok.
Qed.

(** An endpoint that was written at an offset. *)
Lemma read_endpoint pre a p post :
  ip_address.ip_ok a -> port_ok p ->
  let s := pre ++ append_compact_address a ++ port_bytes p ++ post in
  read_compact_ip s (zlen pre) (addr_len a) = Ret (sent_ip a)
  /\ read_port s (zlen pre + addr_len a) = Ret p.
Proof.
  intros Ha Hp s. split.
  - unfold read_compact_ip, s. rewrite slice_app by (by apply compact_address_len). cbn [mbind outcome_bind].
    by rewrite compact_address_read.
  - unfold s. rewrite (assoc_L (++)). rewrite <- (compact_address_len a Ha), <- zlen_app. by apply read_port_app.
Qed.

(** ** The records of a string *)

Lemma peer_loop_ok fuel n s : forall i,
  0 <= i -> 0 <= n -> returns (peer_loop fuel i (n + 2) n s) (Forall address_ok).
Proof.
  induction fuel as [|fuel IH]; intros i Hi Hn; cbn [peer_loop]; [by constructor|].
  destruct (Z.leb_spec (i + (n + 2)) (zlen s)); [|by constructor].
  eapply returns_bind; [apply read_ip_ok; lia|]. intros a Ha.
  eapply returns_bind; [apply read_port_ok; lia|]. intros p Hp.
  eapply returns_bind; [apply IH; lia|]. intros l Hl. by constructor.
Qed.

Lemma parse_peers_ok s : returns (parse_compact_peer_info s) (Forall address_ok).
Proof.
  unfold parse_compact_peer_info. case_match; [by apply (peer_loop_ok _ 16)|].
  case_match; [by constructor|]. by apply (peer_loop_ok _ 4).
Qed.

Lemma node_loop_ok fuel n s : forall i,
  0 <= i -> 0 <= n -> (zlen s - i) mod (20 + n + 2) = 0 ->
  returns (node_loop fuel i (20 + n + 2) n s) (Forall node_ok).
Proof.
  induction fuel as [|fuel IH]; intros i Hi Hn Hm; cbn [node_loop]; [by constructor|].
  destruct (Z.ltb_spec i (zlen s)); [|by constructor].
  assert (i + (20 + n + 2) <= zlen s) as Hfit.
  { destruct (Z.le_gt_cases (20 + n + 2) (zlen s - i)); [lia|]. rewrite Z.mod_small in Hm by lia. lia. }
  eapply returns_bind; [apply slice_ok; lia|]. intros nid Hid.
  eapply returns_bind; [apply read_ip_ok; lia|]. intros a Ha.
  eapply returns_bind; [apply read_port_ok; lia|]. intros p Hp.
  eapply returns_bind; [apply IH; [lia..|]|].
  - replace (zlen s - (i + (20 + n + 2))) with (zlen s - i + (-1) * (20 + n + 2)) by lia.
    by rewrite Z.mod_add by lia.
  - intros l Hl. constructor; [|done]. split_and!; try done; [|apply Hp..]. unfold dht_id.id_ok, zlen in *.
    cbn [id]. lia.
Qed.

Lemma parse_nodes_ok s v6 : returns (parse_compact_node_info s v6) (Forall node_ok).
Proof.
  unfold parse_compact_node_info. destruct (Z.eqb_spec (zlen s mod (20 + (if v6 then 16 else 4) + 2)) 0) as [E|];
    cbn [negb]; [|by constructor].
  apply node_loop_ok; [lia|by destruct v6|]. by rewrite Z.sub_0_r.
Qed.

Definition sent_node (n : KrpcNode) : KrpcNode := mkKrpcNode (id n) (sent_ip (node_ip n)) (node_port n).
Definition sent_peer (a : Address) : Address := mkAddress (sent_ip (Address.ip a)) (Address.port a).

Lemma port_bytes_len p : zlen (port_bytes p) = 2.
Proof. done. Qed.

Lemma compact_node_len n : node_ok n -> zlen (compact_node_info n) = 20 + addr_len (node_ip n) + 2.
Proof.
  intros (Hid & Ha & _). unfold compact_node_info, node_id_to_string.
  rewrite !zlen_app, compact_address_len, port_bytes_len by done. unfold zlen, dht_id.id_ok in *. lia.
Qed.

Lemma node_loop_app n l : forall fuel pre,
  (length l <= fuel)%nat -> Forall (fun x => node_ok x /\ addr_len (node_ip x) = n) l ->
  node_loop fuel (zlen pre) (20 + n + 2) n (pre ++ concat (compact_node_info <$> l)) = Ret (sent_node <$> l).
Proof.
  induction l as [|x l IH]; intros fuel pre Hf Hl.
  { cbn [fmap list_fmap concat]. rewrite app_nil_r. destruct fuel; [done|]. cbn [node_loop].
    by destruct (Z.ltb_spec (zlen pre) (zlen pre)); [lia|]. }
  inversion Hl as [|? ? [Hx Hn] Hl']; subst. destruct fuel as [|fuel]; [cbn in Hf; lia|].
  rewrite fmap_cons. cbn [concat node_loop]. pose proof (compact_node_len x Hx) as Lx.
  pose proof (zlen_nonneg (concat (compact_node_info <$> l))).
  rewrite !zlen_app, Lx. destruct (Z.ltb_spec (zlen pre) (zlen pre + (20 + addr_len (node_ip x) + 2
    + zlen (concat (compact_node_info <$> l))))); [|unfold addr_len in *; case_match; lia].
  set (post := concat (compact_node_info <$> l)). pose proof Hx as (Hid & Ha & Hp).
  assert (pre ++ compact_node_info x ++ post
    = (pre ++ id x) ++ append_compact_address (node_ip x) ++ port_bytes (node_port x) ++ post) as E
    by (unfold compact_node_info, node_id_to_string; by rewrite !(assoc_L (++))).
  assert (zlen (id x) = 20) as L20 by (unfold zlen, dht_id.id_ok in *; lia).
  assert (slice (pre ++ compact_node_info x ++ post) (zlen pre) 20 = Ret (id x)) as ->.
  { rewrite E, <- (assoc_L (++)). by apply slice_app. }
  destruct (read_endpoint (pre ++ id x) (node_ip x) (node_port x) post Ha Hp) as [E1 E2].
  rewrite <- E in E1, E2. rewrite zlen_app, L20 in E1, E2. rewrite E1, E2. cbn [mbind outcome_bind].
  rewrite (assoc_L (++)). replace (zlen pre + (20 + addr_len (node_ip x) + 2)) with (zlen (pre ++ compact_node_info x))
    by (rewrite zlen_app, Lx; lia).
  unfold post. by rewrite IH by (done || cbn in Hf; lia).
Qed.

Lemma compact_nodes_len n l :
  Forall (fun x => node_ok x /\ addr_len (node_ip x) = n) l ->
  zlen (concat (compact_node_info <$> l)) = zlen l * (20 + n + 2).
Proof.
  induction 1 as [|x l [Hx <-] _ IH]; [done|]. rewrite fmap_cons. cbn [concat].
  rewrite zlen_app, zlen_cons, compact_node_len, IH by done. lia.
Qed.

(** The nodes of one family are read back. *)
Lemma nodes_roundtrip v6 ns :
  Forall node_ok ns ->
  parse_compact_node_info (compact_nodes v6 ns) v6
  = Ret (sent_node <$> List.filter (fun x => Bool.eqb (is_v6 (node_ip x)) v6) ns).
Proof.
  intros Hns. unfold compact_nodes. set (l := List.filter _ ns). set (n := if v6 then 16 else 4).
  assert (Forall (fun x => node_ok x /\ addr_len (node_ip x) = n) l) as Hl.
  { apply Forall_forall. intros x [Hx Hb]%list_elem_of_In%filter_In. split.
    - rewrite Forall_forall in Hns. by apply Hns, list_elem_of_In.
    - unfold addr_len, n. by apply eqb_prop in Hb as ->. }
  pose proof (compact_nodes_len n l Hl) as L. unfold parse_compact_node_info. fold n. rewrite L.
  rewrite Z.mod_mul by (unfold n; by destruct v6). cbn [negb Z.eqb].
  apply (node_loop_app n l _ []); [|done]. unfold zlen in L. pose proof (zlen_nonneg l). unfold n in L. case_match; lia.
Qed.

Lemma peer_roundtrip a :
  address_ok a -> parse_compact_peer_info (compact_peer_info a) = Ret [sent_peer a].
Proof.
  intros [Ha Hp]. pose proof (read_endpoint [] (Address.ip a) (Address.port a) [] Ha Hp) as [E1 E2].
  rewrite app_nil_r in E1, E2. cbn [app] in E1, E2. rewrite zlen_nil in E1, E2.
  fold (compact_peer_info a) in E1, E2.
  assert (zlen (compact_peer_info a) = addr_len (Address.ip a) + 2) as L.
  { unfold compact_peer_info. by rewrite zlen_app, compact_address_len, port_bytes_len. }
  unfold parse_compact_peer_info. rewrite L. unfold addr_len in *.
  destruct (is_v6 (Address.ip a)) eqn:Ev; unfold zlen in L.
  - change (16 + 2 =? 18) with true. cbv iota. destruct (length (compact_peer_info a)) as [|[|k]] eqn:El; [lia..|]. cbn [peer_loop].
    unfold zlen. rewrite El. destruct (Z.leb_spec (0 + 18) (Z.of_nat (S (S k)))); [|lia].
    rewrite E1, E2. cbn [mbind outcome_bind]. by destruct (Z.leb_spec (0 + 18 + 18) (Z.of_nat (S (S k)))); [lia|].
  - change (4 + 2 =? 18) with false. change ((4 + 2) mod 6 =? 0) with true. cbn [negb].
    destruct (length (compact_peer_info a)) as [|[|k]] eqn:El; [lia..|]. cbn [peer_loop].
    unfold zlen. rewrite El. destruct (Z.leb_spec (0 + 6) (Z.of_nat (S (S k)))); [|lia].
    rewrite E1, E2. cbn [mbind outcome_bind]. by destruct (Z.leb_spec (0 + 6 + 6) (Z.of_nat (S (S k)))); [lia|].
Qed.

(** * Decoding any datagram *)

(** The field ranges of a message. *)
Record message_ok (m : KrpcMessage) : Prop := mk_message_ok {
  ids_ok : dht_id.id_ok (sender_id m) /\ dht_id.id_ok (target_id m)
           /\ dht_id.id_ok (info_hash m) /\ dht_id.id_ok (response_id m);
  ports_ok : port_ok (port m) /\ port_ok (external_port m);
  nodes_ok : Forall node_ok (nodes m);
  peers_ok : Forall address_ok (peers m);
  external_ok : ip_address.ip_ok (external_ip m);
  code_ok : - 2 ^ 31 <= error_code m < 2 ^ 31;
}.

(** [m] has no undefined behaviour, and what it decodes has [P]. *)
Definition decodes {A} (m : decoded A) (P : A -> Prop) : Prop :=
  returns m (fun r => match r with Some a => P a | None => True end).

Lemma decodes_bind {A B} (m : decoded A) (k : A -> decoded B) P Q :
  decodes m P -> (forall a, P a -> decodes (k a) Q) -> decodes (dbind m k) Q.
Proof. destruct m as [[a|]| |]; cbn; auto. Qed.

Lemma decodes_Ret {A} (o : option A) (P : A -> Prop) : (forall a, o = Some a -> P a) -> decodes (Ret o) P.
Proof. destruct o; cbn; auto. Qed.

Lemma decodes_any {A} (o : option A) : decodes (Ret o) (fun _ => True).
Proof. by apply decodes_Ret. Qed.

Lemma decodes_value {A} (m : outcome A) P : returns m P -> decodes (value m) P.
Proof. by destruct m. Qed.

Lemma decodes_field {A} key v (dflt : A) read (P : A -> Prop) :
  P dflt -> (forall x, decodes (read x) P) -> decodes (field key v dflt read) P.
Proof. intros Hd Hr. unfold field. destruct (find key v); [apply Hr|done]. Qed.

Lemma string_to_node_id_ok s : dht_id.id_ok (string_to_node_id s).
Proof.
  assert (zlen (string_to_node_id s) = 20) as H; [|unfold dht_id.id_ok, zlen in *; lia].
  unfold string_to_node_id. pose proof (zlen_nonneg s). destruct (Z.leb_spec 20 (zlen s)).
  - apply zlen_ztake. lia.
  - rewrite zlen_app, zlen_replicate. lia.
Qed.

Lemma read_id_ok v : decodes (read_id v) dht_id.id_ok.
Proof. apply decodes_Ret. intros a (s & _ & ->)%fmap_Some. apply string_to_node_id_ok. Qed.

Lemma id_field_ok v key :
  decodes (Ret (x ← find key v; string_to_node_id <$> as_string x)) dht_id.id_ok.
Proof.
  apply decodes_Ret. intros a (x & _ & (s & _ & ->)%fmap_Some)%bind_Some. apply string_to_node_id_ok.
Qed.

Lemma port_u16 z : port_ok (u16 z).
Proof. unfold port_ok, u16. apply Z.mod_pos_bound. lia. Qed.

Lemma i32_range z : - 2 ^ 31 <= i32 z < 2 ^ 31.
Proof.
  unfold i32. assert (0 <= u32 z < 2 ^ 32) by (apply Z.mod_pos_bound; lia). cbv zeta.
  destruct (Z.ltb_spec (u32 z) (2 ^ 31)); lia.
Qed.

Lemma zero_id_ok : dht_id.id_ok dht_id.zero_id.
Proof. done. Qed.
Lemma unspecified_ok : ip_address.ip_ok ip_address.unspecified.
Proof. done. Qed.

Lemma query_of_ok t q sender target hash p implied tok w :
  dht_id.id_ok sender -> dht_id.id_ok target -> dht_id.id_ok hash -> port_ok p ->
  message_ok (query_of t q sender target hash p implied tok w).
Proof. intros. by constructor; cbn; try constructor. Qed.

Lemma read_strings_ok l : decodes (read_strings l) (fun _ => True).
Proof.
  induction l as [|x l IH]; [done|]. cbn [read_strings].
  eapply decodes_bind; [apply decodes_any|]. intros s _. eapply decodes_bind; [apply IH|done].
Qed.

Lemma decode_query_ok v : decodes (decode_query v) message_ok.
Proof.
  unfold decode_query. destruct (_ || _); [done|].
  eapply decodes_bind; [apply decodes_any|]. intros t _.
  eapply decodes_bind; [apply decodes_any|]. intros q _.
  eapply decodes_bind; [apply decodes_any|]. intros args _.
  eapply decodes_bind; [apply id_field_ok|]. intros sender Hs.
  eapply decodes_bind; [apply (decodes_field _ _ _ _ (fun _ => True)); [done|]|].
  { intros x. unfold read_want. destruct (as_list x); [apply read_strings_ok|done]. }
  intros w _. destruct (string_to_query_type q); [by apply query_of_ok|..].
  - eapply decodes_bind; [apply (decodes_field _ _ _ _ dht_id.id_ok); [apply zero_id_ok|apply read_id_ok]|]. intros target Ht.
    by apply query_of_ok.
  - eapply decodes_bind; [apply (decodes_field _ _ _ _ dht_id.id_ok); [apply zero_id_ok|apply read_id_ok]|]. intros hash Hh.
    by apply query_of_ok.
  - eapply decodes_bind; [apply (decodes_field _ _ _ _ dht_id.id_ok); [apply zero_id_ok|apply read_id_ok]|]. intros hash Hh.
    eapply decodes_bind; [apply (decodes_field _ _ _ _ port_ok); [done|]|].
    { intros x. apply decodes_Ret. intros a (z & _ & ->)%fmap_Some. apply port_u16. }
    intros p Hp. eapply decodes_bind; [apply (decodes_field _ _ _ _ (fun _ => True)); [done|intros; apply decodes_any]|].
    intros tok _. eapply decodes_bind; [apply (decodes_field _ _ _ _ (fun _ => True)); [done|intros; apply decodes_any]|].
    intros implied _. by apply query_of_ok.
Qed.

Lemma read_nodes_ok v6 v : decodes (read_nodes v6 v) (Forall node_ok).
Proof. eapply decodes_bind; [apply decodes_any|]. intros s _. apply decodes_value, parse_nodes_ok. Qed.

Lemma read_peers_ok v : decodes (read_peers v) (Forall address_ok).
Proof.
  unfold read_peers. destruct (as_list v) as [l|]; [|cbn; constructor].
  induction l as [|x l IH]; [cbn; constructor|]. cbn [read_values].
  eapply decodes_bind; [apply decodes_any|]. intros s _.
  eapply decodes_bind; [apply decodes_value, parse_peers_ok|]. intros ps Hps.
  eapply decodes_bind; [apply IH|]. intros rest Hrest. by apply Forall_app.
Qed.

Lemma read_external_ok v :
  decodes (read_external v) (fun e => ip_address.ip_ok e.1 /\ port_ok e.2).
Proof.
  eapply decodes_bind; [apply decodes_any|]. intros s _.
  eapply decodes_bind; [apply decodes_value, parse_peers_ok|]. intros [|a ps] Hps; cbn.
  - by split.
  - inversion Hps as [|? ? Ha]; subst. exact Ha.
Qed.

Lemma decode_response_ok v : decodes (decode_response v) message_ok.
Proof.
  unfold decode_response. destruct (negb _); [done|].
  eapply decodes_bind; [apply decodes_any|]. intros t _.
  eapply decodes_bind; [apply decodes_any|]. intros r _.
  eapply decodes_bind; [apply id_field_ok|]. intros rid Hr.
  eapply decodes_bind; [apply (decodes_field _ _ _ _ (Forall node_ok)); [constructor|apply read_nodes_ok]|]. intros ns Hns.
  eapply decodes_bind; [apply (decodes_field _ _ _ _ (Forall node_ok)); [constructor|apply read_nodes_ok]|]. intros ns6 Hns6.
  eapply decodes_bind; [apply (decodes_field _ _ _ _ (Forall address_ok)); [constructor|apply read_peers_ok]|]. intros ps Hps.
  eapply decodes_bind; [apply (decodes_field _ _ _ _ (fun _ => True)); [done|intros; apply decodes_any]|].
  intros tok _. eapply decodes_bind; [eapply decodes_field; [|apply read_external_ok]; done|].
  intros [eip eport] [He1 He2]. constructor; cbn; try done. by apply Forall_app.
Qed.

Lemma decode_error_ok v : decodes (decode_error v) message_ok.
Proof.
  unfold decode_error. destruct (negb _); [done|].
  eapply decodes_bind; [apply decodes_any|]. intros t _.
  eapply decodes_bind; [apply decodes_any|]. intros e _. case_match; [done|].
  eapply decodes_bind; [apply decodes_any|]. intros code _.
  eapply decodes_bind; [apply decodes_any|]. intros msg _.
  constructor; cbn; try (done || by constructor). apply i32_range.
Qed.

Lemma decode_message_ok (data : list byte) : decodes (decode_message data) message_ok.
Proof.
  unfold decode_message. eapply decodes_bind; [apply decodes_any|]. intros root _.
  eapply decodes_bind; [apply decodes_any|]. intros d _. destruct (_ || _); [done|].
  eapply decodes_bind; [apply decodes_any|]. intros t _.
  eapply decodes_bind; [apply decodes_any|]. intros y _.
  case_bool_decide; [apply decode_query_ok|]. case_bool_decide; [apply decode_response_ok|].
  case_bool_decide; [apply decode_error_ok|done].
Qed.

(** Whatever bytes a datagram holds, decoding it reads nothing out of bounds and
    gives either no message or one whose fields are in range: identifiers of twenty
    bytes, 16-bit ports, well-formed addresses in every node and peer. *)
Theorem krpc_decode_safe (data : list byte) : decodes (decode_message data) message_ok.
Proof. apply decode_message_ok. Qed.
