(* ===== verification/KrpcRoundtrip.v ===== *)
(** KRPC messages survive the wire: the encoder builds the dictionaries its fields call
    for, and the decoder reads from them the fields that the kind of message carries. *)

From Stdlib Require Import Strings.String.
From S2P Require Import Prelude Text PeerId Address DhtId Bencode Krpc KrpcCodec.
Import bencode krpc.

(** * Dictionaries as maps *)

(** The dictionary [v] has exactly the entries of [M]. *)
Definition dict (v : BencodeValue) (M : gmap (list byte) BencodeValue) : Prop :=
  exists d, v = Dictionary d /\ sorted_keys d /\ forall k, find k v = M !! k.

Lemma dict_nil : dict (Dictionary []) ∅.
Proof. exists []. split_and!; [done|constructor|]. intros k. by rewrite lookup_empty. Qed.

Lemma dict_find v M k : dict v M -> find k v = M !! k.
Proof. by intros (d & _ & _ & H). Qed.

Lemma dict_has v M k : dict v M -> has_key k v = bool_decide (is_Some (M !! k)).
Proof. intros H. unfold has_key. by rewrite (dict_find v M k H). Qed.

Lemma dict_put v M k x : dict v M -> exists v', put k x v = Some v' /\ dict v' (<[k := x]> M).
Proof.
  intros (d & -> & Hs & Hf). destruct (update_spec k (fun _ => x) d Hs) as (d' & E & Hs' & H1 & H2).
  exists (Dictionary d'). split; [done|]. exists d'. split_and!; [done..|]. intros k'.
  destruct (decide (k' = k)) as [->|Hne].
  - by rewrite H1, lookup_insert_eq.
  - by rewrite H2, lookup_insert_ne, Hf.
Qed.

(** A field that is written only under a condition. *)
Definition put_if (b : bool) (k : list byte) (x : BencodeValue) (M : gmap (list byte) BencodeValue) :=
  if b then <[k := x]> M else M.

Lemma dict_put_if v M (b : bool) k x :
  dict v M -> exists v', (if b then put k x v else Some v) = Some v' /\ dict v' (put_if b k x M).
Proof. intros H. destruct b; [by apply dict_put|by exists v]. Qed.

Lemma lookup_put_if b k x M j :
  put_if b k x M !! j = if b && bool_decide (j = k) then Some x else M !! j.
Proof.
  unfold put_if. destruct b; [|done]. cbn [andb]. case_bool_decide as E.
  - subst j. by rewrite lookup_insert_eq.
  - by rewrite lookup_insert_ne.
Qed.

(** The values of a map that are well-formed and nested at most [h] deep. *)
Definition shallow (h : Z) (M : gmap (list byte) BencodeValue) : Prop :=
  map_Forall (fun _ x => wf x /\ height x <= h) M.

Lemma shallow_empty h : shallow h ∅.
Proof. apply map_Forall_empty. Qed.

Lemma shallow_insert h k x M : wf x -> height x <= h -> shallow h M -> shallow h (<[k := x]> M).
Proof. intros. by apply map_Forall_insert_2. Qed.

Lemma shallow_put_if h b k x M : wf x -> height x <= h -> shallow h M -> shallow h (put_if b k x M).
Proof. intros. destruct b; [by apply shallow_insert|done]. Qed.

Lemma dict_wf h v M : 0 <= h -> dict v M -> shallow h M -> wf v /\ height v <= 1 + h.
Proof.
  intros Hh (d & -> & Hs & Hf) HM.
  assert (Forall (fun e => wf e.2 /\ height e.2 <= h) d) as Hd.
  { apply Forall_forall. intros [k x] Hin. apply (HM k). rewrite <- Hf. by apply find_elem. }
  split.
  - apply wf_Dictionary. split; [done|]. eapply Forall_impl; [exact Hd|]. by intros e [].
  - apply height_Dictionary; [lia|]. eapply Forall_impl; [exact Hd|]. intros e [_ ?]. lia.
Qed.

Lemma list_of_spec xs : list_of xs = Some (List xs).
Proof.
  unfold list_of. rewrite <- (app_nil_l xs) at 2. generalize (@nil BencodeValue).
  induction xs as [|x xs IH]; intros l; cbn [foldl]; [by rewrite app_nil_r|].
  cbn [mbind option_bind]. unfold push_back at 2. cbn [as_list mbind option_bind].
  rewrite IH. by rewrite <- (assoc_L (++)).
Qed.

Lemma strings_shallow (ss : list (list byte)) : wf (List (String <$> ss)) /\ height (List (String <$> ss)) <= 1.
Proof.
  split.
  - apply wf_List, Forall_fmap, Forall_forall. done.
  - apply height_List; [lia|]. apply Forall_fmap, Forall_forall. intros s _. cbn. lia.
Qed.

(** * What the encoder builds *)

Definition query_args (m : KrpcMessage) : gmap (list byte) BencodeValue :=
  put_if (nonempty (want m)) (lit "want") (List (String <$> want m))
    match query_type m with
    | Ping => <[lit "id" := String (sender_id m)]> ∅
    | FindNode => <[lit "target" := String (target_id m)]> (<[lit "id" := String (sender_id m)]> ∅)
    | GetPeers => <[lit "info_hash" := String (info_hash m)]> (<[lit "id" := String (sender_id m)]> ∅)
    | AnnouncePeer =>
        put_if (implied_port m) (lit "implied_port") (Integer 1)
          (<[lit "token" := String (token m)]> (<[lit "port" := Integer (port m)]>
            (<[lit "info_hash" := String (info_hash m)]> (<[lit "id" := String (sender_id m)]> ∅))))
    end.

Definition query_root (m : KrpcMessage) (args : BencodeValue) : gmap (list byte) BencodeValue :=
  <[lit "a" := args]> (<[lit "q" := String (query_type_to_string (query_type m))]>
    (<[lit "y" := String (lit "q")]> (<[lit "t" := String (transaction_id m)]> ∅))).

Definition response_fields (m : KrpcMessage) : gmap (list byte) BencodeValue :=
  put_if (nonempty (token m)) (lit "token") (String (token m))
    (put_if (nonempty (peers m)) (lit "values") (List ((fun a => String (compact_peer_info a)) <$> peers m))
      (put_if (nonempty (compact_nodes true (nodes m))) (lit "nodes6") (String (compact_nodes true (nodes m)))
        (put_if (nonempty (compact_nodes false (nodes m))) (lit "nodes") (String (compact_nodes false (nodes m)))
          (<[lit "id" := String (response_id m)]> ∅)))).

Definition external_info (m : KrpcMessage) : list byte :=
  compact_peer_info (mkAddress (external_ip m) (external_port m)).

Definition response_root (m : KrpcMessage) (r : BencodeValue) : gmap (list byte) BencodeValue :=
  put_if (negb (is_unspecified (external_ip m))) (lit "ip") (String (external_info m))
    (<[lit "r" := r]> (<[lit "y" := String (lit "r")]> (<[lit "t" := String (transaction_id m)]> ∅))).

Definition error_root (m : KrpcMessage) : gmap (list byte) BencodeValue :=
  <[lit "e" := List [Integer (error_code m); String (error_message m)]]>
    (<[lit "y" := String (lit "e")]> (<[lit "t" := String (transaction_id m)]> ∅)).

(** Performs the next assignment of an encoder on the dictionary that [H] describes. *)
Tactic Notation "put_step" hyp(H) constr(k) constr(x) "as" ident(v) :=
  let E := fresh "E" in let H' := fresh "H" in
  destruct (dict_put _ _ k x H) as (v & E & H'); rewrite E; clear E; cbn [mbind option_bind]; clear H; rename H' into H.

Lemma encode_query_dict m :
  exists root args, encode_query m = Some root /\ dict args (query_args m) /\ dict root (query_root m args).
Proof.
  unfold encode_query, query_args, query_root, node_id_to_string. pose proof dict_nil as Hr. pose proof dict_nil as Ha.
  put_step Hr (lit "t") (String (transaction_id m)) as v1. put_step Hr (lit "y") (String (lit "q")) as v2.
  put_step Hr (lit "q") (String (query_type_to_string (query_type m))) as root.
  put_step Ha (lit "id") (String (sender_id m)) as v3.
  assert (forall o M, (exists a, o = Some a /\ dict a M) ->
    exists root' args, (a ← o; a ← (if nonempty (want m) then w ← list_of (String <$> want m); put (lit "want") w a
                                   else Some a); put (lit "a") a root) = Some root'
      /\ dict args (put_if (nonempty (want m)) (lit "want") (List (String <$> want m)) M)
      /\ dict root' (<[lit "a" := args]> (<[lit "q" := String (query_type_to_string (query_type m))]>
           (<[lit "y" := String (lit "q")]> (<[lit "t" := String (transaction_id m)]> ∅))))) as Hrest.
  { intros o M (a & -> & Hd). rewrite list_of_spec. cbn [mbind option_bind].
    destruct (dict_put_if a M (nonempty (want m)) (lit "want") (List (String <$> want m)) Hd) as (w & E & Hw).
    rewrite E. cbn [mbind option_bind]. destruct (dict_put _ _ (lit "a") w Hr) as (root' & -> & Hroot). by exists root', w. }
  apply Hrest. destruct (query_type m); [by eexists|by apply dict_put..|].
  put_step Ha (lit "info_hash") (String (info_hash m)) as v4. put_step Ha (lit "port") (Integer (port m)) as v5.
  put_step Ha (lit "token") (String (token m)) as v6. by apply dict_put_if.
Qed.

Lemma encode_response_dict m :
  exists root r, encode_response m = Some root /\ dict r (response_fields m) /\ dict root (response_root m r).
Proof.
  unfold encode_response, response_fields, response_root, node_id_to_string, external_info.
  pose proof dict_nil as Hr. pose proof dict_nil as Ha.
  put_step Hr (lit "t") (String (transaction_id m)) as v7. put_step Hr (lit "y") (String (lit "r")) as v8.
  put_step Ha (lit "id") (String (response_id m)) as v9. rewrite list_of_spec. cbv zeta. cbn [mbind option_bind].
  edestruct (dict_put_if _ _ (nonempty (compact_nodes false (nodes m))) (lit "nodes")
    (String (compact_nodes false (nodes m))) Ha) as (r1 & -> & H1). cbn [mbind option_bind].
  edestruct (dict_put_if _ _ (nonempty (compact_nodes true (nodes m))) (lit "nodes6")
    (String (compact_nodes true (nodes m))) H1) as (r2 & -> & H2). cbn [mbind option_bind].
  edestruct (dict_put_if _ _ (nonempty (peers m)) (lit "values")
    (List ((fun a => String (compact_peer_info a)) <$> peers m)) H2) as (r3 & -> & H3). cbn [mbind option_bind].
  edestruct (dict_put_if _ _ (nonempty (token m)) (lit "token") (String (token m)) H3) as (r4 & -> & H4).
  cbn [mbind option_bind]. edestruct (dict_put _ _ (lit "r") r4 Hr) as (root & -> & H5). cbn [mbind option_bind].
  set (compact := compact_peer_info _).
  assert (nonempty compact = true) as -> by (unfold compact, compact_peer_info; by destruct (append_compact_address _)).
  edestruct (dict_put_if _ _ (negb (is_unspecified (external_ip m))) (lit "ip") (String compact) H5) as (root' & -> & H6).
  by exists root', r4.
Qed.

Lemma encode_error_dict m : exists root, encode_error m = Some root /\ dict root (error_root m).
Proof.
  unfold encode_error, error_root. pose proof dict_nil as Hr.
  put_step Hr (lit "t") (String (transaction_id m)) as v10. put_step Hr (lit "y") (String (lit "e")) as v11.
  rewrite list_of_spec. cbn [mbind option_bind]. by apply dict_put.
Qed.

(** * What the decoder reads *)

(** Looks a literal key up in a map written out with literal keys. *)
Ltac key_ne := let H := fresh in intros H; vm_compute in H; discriminate H.
Ltac look :=
  repeat first
    [ rewrite lookup_insert_eq
    | rewrite lookup_insert_ne by key_ne
    | rewrite lookup_put_if
    | rewrite bool_decide_eq_true_2 by reflexivity
    | rewrite bool_decide_eq_false_2 by key_ne
    | rewrite lookup_empty
    | rewrite andb_false_r
    | rewrite andb_true_r ].

Lemma has_Some {A} (x : A) : bool_decide (is_Some (Some x)) = true.
Proof. by apply bool_decide_eq_true_2. Qed.

(** Reads the literal keys of the dictionaries described in the context. *)
Ltac dict_reads :=
  repeat match goal with
    | H : dict ?v _ |- context [has_key ?k ?v] => rewrite (dict_has v _ k H)
    | H : dict ?v _ |- context [find ?k ?v] => rewrite (dict_find v _ k H)
    end.

Lemma query_type_roundtrip q : string_to_query_type (query_type_to_string q) = q.
Proof. by destruct q. Qed.

Lemma id_roundtrip i : dht_id.id_ok i -> string_to_node_id i = i.
Proof.
  intros H. unfold string_to_node_id, dht_id.id_ok in *. destruct (Z.leb_spec 20 (zlen i)); [|unfold zlen in *; lia].
  apply ztake_all. unfold zlen. lia.
Qed.

Lemma read_strings_spec ss : read_strings (String <$> ss) = Ret (Some ss).
Proof. induction ss as [|s ss IH]; [done|]. rewrite fmap_cons. cbn [read_strings read_string as_string dbind]. by rewrite IH. Qed.

Lemma read_values_spec ps :
  Forall address_ok ps ->
  read_values ((fun a => String (compact_peer_info a)) <$> ps) = Ret (Some (sent_peer <$> ps)).
Proof.
  induction 1 as [|a ps Ha _ IH]; [done|]. rewrite fmap_cons. cbn [read_values read_string as_string dbind].
  rewrite peer_roundtrip by done. cbn [value dbind]. by rewrite IH.
Qed.

(** The fields of a message that its datagram carries. *)
Definition carried (m : KrpcMessage) : KrpcMessage :=
  let t := transaction_id m in
  match type m with
  | Query =>
      match query_type m with
      | Ping => query_of t Ping (sender_id m) dht_id.zero_id dht_id.zero_id 0 false [] (want m)
      | FindNode => query_of t FindNode (sender_id m) (target_id m) dht_id.zero_id 0 false [] (want m)
      | GetPeers => query_of t GetPeers (sender_id m) dht_id.zero_id (info_hash m) 0 false [] (want m)
      | AnnouncePeer =>
          query_of t AnnouncePeer (sender_id m) dht_id.zero_id (info_hash m) (port m) (implied_port m)
            (token m) (want m)
      end
  | Response =>
      response_of t (response_id m)
        (sent_node <$> List.filter (fun n => negb (is_v6 (node_ip n))) (nodes m)
                    ++ List.filter (fun n => is_v6 (node_ip n)) (nodes m))
        (sent_peer <$> peers m) (token m) (external_ip m)
        (if is_unspecified (external_ip m) then 0 else external_port m)
  | Error => error_of t (error_code m) (error_message m)
  end.

Lemma want_field args m M :
  dict args (put_if (nonempty (want m)) (lit "want") (List (String <$> want m)) M) -> M !! lit "want" = None ->
  field (lit "want") args [] read_want = Ret (Some (want m)).
Proof.
  intros Ha HM. unfold field. dict_reads. look. rewrite HM. destruct (want m) as [|s ss] eqn:E; [done|].
  cbn [nonempty]. unfold read_want. cbn [as_list]. by rewrite read_strings_spec.
Qed.

Lemma decode_query_spec m root args :
  message_ok m -> type m = Query -> dict args (query_args m) -> dict root (query_root m args) ->
  decode_query root = Ret (Some (carried m)).
Proof.
  intros Hm Ety Ha Hr. unfold decode_query, carried. rewrite Ety. unfold query_root in Hr. dict_reads. look.
  rewrite !has_Some. cbn [negb orb mbind option_bind as_string dbind].
  pose proof (ids_ok m Hm) as (Hi1 & Hi2 & Hi3 & _). pose proof (ports_ok m Hm) as [Hp _].
  rewrite (want_field args m _ Ha) by (by destruct (query_type m); look).
  unfold query_args in Ha. rewrite (dict_find args _ (lit "id") Ha), query_type_roundtrip.
  destruct (query_type m); unfold field; dict_reads; look;
    cbn [dbind mbind option_bind fmap option_fmap option_map as_string as_integer read_id read_string];
    rewrite ?id_roundtrip by done; try done.
  rewrite u16_small by done. by destruct (implied_port m).
Qed.

Lemma nodes_field k r M v6 ns :
  dict r M -> M !! k = (if nonempty (compact_nodes v6 ns) then Some (String (compact_nodes v6 ns)) else None) ->
  Forall node_ok ns ->
  field k r [] (read_nodes v6)
  = Ret (Some (sent_node <$> List.filter (fun x => Bool.eqb (is_v6 (node_ip x)) v6) ns)).
Proof.
  intros Hr HM Hns. pose proof (nodes_roundtrip v6 ns Hns) as E. unfold field. dict_reads. rewrite HM.
  destruct (nonempty (compact_nodes v6 ns)) eqn:En.
  - unfold read_nodes. cbn [read_string as_string dbind]. by rewrite E.
  - destruct (compact_nodes v6 ns); [|done]. destruct v6; by injection E as <-.
Qed.

Lemma peers_field r M ps :
  dict r M ->
  M !! lit "values" = (if nonempty ps then Some (List ((fun a => String (compact_peer_info a)) <$> ps)) else None) ->
  Forall address_ok ps -> field (lit "values") r [] read_peers = Ret (Some (sent_peer <$> ps)).
Proof.
  intros Hr HM Hps. unfold field. dict_reads. rewrite HM. destruct ps as [|p ps]; [done|]. cbn [nonempty].
  unfold read_peers. cbn [as_list]. by rewrite read_values_spec.
Qed.

Lemma token_field r M tok :
  dict r M -> M !! lit "token" = (if nonempty tok then Some (String tok) else None) ->
  field (lit "token") r [] read_string = Ret (Some tok).
Proof. intros Hr HM. unfold field. dict_reads. rewrite HM. by destruct tok. Qed.

Lemma external_field root m r :
  message_ok m -> dict root (response_root m r) ->
  field (lit "ip") root (ip_address.unspecified, 0) read_external
  = Ret (Some (external_ip m, if is_unspecified (external_ip m) then 0 else external_port m)).
Proof.
  intros Hm Hr. unfold response_root in Hr. unfold field. dict_reads. look.
  pose proof (external_ok m Hm) as He. pose proof (ports_ok m Hm) as [_ Hp].
  destruct (is_unspecified (external_ip m)) eqn:E; cbn [negb].
  - unfold is_unspecified in E. apply bool_decide_eq_true in E. do 3 f_equal. destruct He as [_ Hz].
    destruct (external_ip m) as [b f]. cbn [family] in E. subst f. cbn in Hz. by rewrite zdrop_0 in Hz; subst b.
  - unfold read_external, external_info. cbn [read_string as_string dbind]. rewrite peer_roundtrip by done.
    cbn [value dbind]. unfold sent_peer. cbn [Address.ip Address.port].
    replace (sent_ip (external_ip m)) with (external_ip m); [done|].
    unfold sent_ip, is_unspecified in *. apply bool_decide_eq_false in E. by destruct (family (external_ip m)).
Qed.

Lemma decode_response_spec m root r :
  message_ok m -> type m = Response -> dict r (response_fields m) -> dict root (response_root m r) ->
  decode_response root = Ret (Some (carried m)).
Proof.
  intros Hm Ety Hf Hr. unfold decode_response, carried. rewrite Ety.
  rewrite (external_field root m r Hm Hr). unfold response_root in Hr. dict_reads. look.
  rewrite has_Some. cbn [negb mbind option_bind as_string dbind].
  pose proof (ids_ok m Hm) as (_ & _ & _ & Hi). unfold response_fields in Hf.
  rewrite (dict_find r _ (lit "id") Hf). look. cbn [mbind option_bind as_string fmap option_fmap option_map dbind].
  rewrite (nodes_field (lit "nodes") r _ false (nodes m) Hf) by (by look || apply Hm).
  rewrite (nodes_field (lit "nodes6") r _ true (nodes m) Hf) by (by look || apply Hm).
  rewrite (peers_field r _ (peers m) Hf) by (by look || apply Hm).
  rewrite (token_field r _ (token m) Hf) by (by look).
  cbn [dbind fst snd]. rewrite id_roundtrip, fmap_app by done. do 4 f_equal.
  f_equal. apply List.filter_ext. intros n. by destruct (is_v6 (node_ip n)).
Qed.

Lemma decode_error_spec m root :
  message_ok m -> type m = Error -> dict root (error_root m) -> decode_error root = Ret (Some (carried m)).
Proof.
  intros Hm Ety Hr. unfold decode_error, carried. rewrite Ety. unfold error_root in Hr. dict_reads. look.
  rewrite has_Some. cbn [negb mbind option_bind as_string as_list dbind].
  change (zlen [Integer (error_code m); String (error_message m)] <? 2) with false. cbv iota.
  cbn [zlookup Z.leb Z.compare Z.to_nat lookup list_lookup mbind option_bind as_integer as_string dbind Pos.to_nat].
  do 3 f_equal. pose proof (code_ok m Hm) as Hc. unfold i32, u32. cbv zeta.
  destruct (Z.lt_ge_cases (error_code m) 0).
  - replace (error_code m mod 2 ^ 32) with (error_code m + 2 ^ 32).
    + destruct (Z.ltb_spec (error_code m + 2 ^ 32) (2 ^ 31)); lia.
    + rewrite <- (Z.mod_small (error_code m + 2 ^ 32) (2 ^ 32)) by lia.
      replace (error_code m + 2 ^ 32) with (error_code m + 1 * 2 ^ 32) by lia. by rewrite Z.mod_add.
  - rewrite Z.mod_small by lia. destruct (Z.ltb_spec (error_code m) (2 ^ 31)); lia.
Qed.

(** * The round trip *)

Ltac shallow_solve :=
  repeat first [apply shallow_empty | apply shallow_insert | apply shallow_put_if]; try (done || (cbn; lia)).

Lemma query_shallow m root args :
  message_ok m -> dict args (query_args m) -> dict root (query_root m args) -> wf root /\ height root <= 3.
Proof.
  intros Hm Ha Hr. pose proof (ports_ok m Hm) as [Hp _]. unfold port_ok in Hp.
  pose proof (strings_shallow (want m)) as [Hw1 Hw2].
  assert (wf args /\ height args <= 1 + 1) as [Ha1 Ha2].
  { eapply dict_wf; [lia|exact Ha|]. unfold query_args. apply shallow_put_if; [done|lia|].
    destruct (query_type m); shallow_solve. }
  eapply (dict_wf 2); [lia|exact Hr|]. unfold query_root. shallow_solve.
Qed.

Lemma response_shallow m root r :
  dict r (response_fields m) -> dict root (response_root m r) -> wf root /\ height root <= 3.
Proof.
  intros Hf Hr. pose proof (strings_shallow (compact_peer_info <$> peers m)) as [Hw1 Hw2].
  rewrite <- list_fmap_compose in Hw1, Hw2.
  assert (wf r /\ height r <= 1 + 1) as [Ha1 Ha2].
  { eapply dict_wf; [lia|exact Hf|]. unfold response_fields. apply shallow_put_if; [done|cbn; lia|].
    apply shallow_put_if; [exact Hw1|exact Hw2|]. shallow_solve. }
  eapply (dict_wf 2); [lia|exact Hr|]. unfold response_root. shallow_solve.
Qed.

Lemma error_shallow m root : message_ok m -> dict root (error_root m) -> wf root /\ height root <= 2.
Proof.
  intros Hm Hr. pose proof (code_ok m Hm). eapply (dict_wf 1); [lia|exact Hr|]. unfold error_root.
  shallow_solve.
Qed.

(** The dispatch on the kind of message. *)
Lemma decode_dispatch root M (y t : list byte) :
  wf root -> height root <= 3 -> zlen (encode root) < 2 ^ 60 -> dict root M ->
  M !! lit "y" = Some (String y) -> M !! lit "t" = Some (String t) ->
  decode_message (encode root)
  = if bool_decide (y = lit "q") then decode_query root
    else if bool_decide (y = lit "r") then decode_response root
    else if bool_decide (y = lit "e") then decode_error root
    else Ret None.
Proof.
  intros Hwf Hh Hl Hd Hy Ht. unfold decode_message. rewrite decode_encode by (done || unfold kMaxDepth; lia).
  cbn [dbind]. dict_reads. rewrite Hy, Ht, !has_Some. destruct Hd as (d & -> & _). done.
Qed.

Lemma encodes (m : KrpcMessage) :
  message_ok m ->
  exists data, encode_message m = Some data
    /\ (zlen data < 2 ^ 60 -> decode_message data = Ret (Some (carried m))).
Proof.
  intros Hm. unfold encode_message. destruct (type m) eqn:Ety.
  - destruct (encode_query_dict m) as (root & args & -> & Ha & Hr).
    destruct (query_shallow m root args Hm Ha Hr) as [Hwf Hh]. eexists. split; [done|]. intros Hl.
    rewrite (decode_dispatch root _ (lit "q") (transaction_id m) Hwf Hh Hl Hr) by (unfold query_root; by look).
    rewrite bool_decide_eq_true_2 by done. by apply (decode_query_spec m root args).
  - destruct (encode_response_dict m) as (root & r & -> & Hf & Hr).
    destruct (response_shallow m root r Hf Hr) as [Hwf Hh]. eexists. split; [done|]. intros Hl.
    rewrite (decode_dispatch root _ (lit "r") (transaction_id m) Hwf Hh Hl Hr) by (unfold response_root; by look).
    look. by apply (decode_response_spec m root r).
  - destruct (encode_error_dict m) as (root & -> & Hr).
    destruct (error_shallow m root Hm Hr) as [Hwf Hh]. eexists. split; [done|]. intros Hl.
    rewrite (decode_dispatch root _ (lit "e") (transaction_id m) Hwf ltac:(lia) Hl Hr) by (unfold error_root; by look).
    look. by apply decode_error_spec.
Qed.

(** C21: A message within its field ranges is encoded without an exception, and the
    datagram decodes to the message with the fields its kind carries: all those of the
    query made, or the identifier, token, peers and external address of a response and
    its nodes, IPv4 first; an unspecified address is sent as 0.0.0.0. *)
Theorem krpc_roundtrip (m : KrpcMessage) :
  message_ok m ->
  exists data, encode_message m = Some data
    /\ (zlen data < 2 ^ 60 -> decode_message data = Ret (Some (carried m))).
Proof. apply encodes. Qed.

(** An announcement, and a response with an IPv6 node before an IPv4 one. *)
Definition demo_id : NodeId := replicate 20 x41.
Definition demo_announce : KrpcMessage :=
  create_announce_peer_query (lit "aa") demo_id dht_id.zero_id 6881 (lit "tok") true.
Definition demo_response : KrpcMessage :=
  create_get_peers_response_with_nodes (lit "bb") demo_id
    [mkKrpcNode demo_id (ip_address.from_v6 (replicate 16 x20)) 80;
     mkKrpcNode demo_id (ip_address.from_v4 [x7f; x00; x00; x01]) 6881] (lit "tok").

Lemma krpc_roundtrip_witness :
  (exists data, encode_message demo_announce = Some data
     /\ (zlen data < 2 ^ 60 -> decode_message data = Ret (Some demo_announce)))
  /\ (exists data, encode_message demo_response = Some data
     /\ (zlen data < 2 ^ 60 -> decode_message data = Ret (Some (carried demo_response)))
     /\ nodes (carried demo_response) = reverse (nodes demo_response)).
Proof.
  split.
  - apply (krpc_roundtrip demo_announce). by constructor; cbn; try constructor.
  - destruct (krpc_roundtrip demo_response) as (data & H1 & H2); [|by exists data].
    constructor; try done; repeat constructor; vm_compute; done.
Defined.
