(* ===== verification/FileStorage.v ===== *)
(** The file layout of a torrent ([bittorrent/file_storage.{h,cpp}]): files laid end to
    end, pieces as windows over their bytes, and the file regions of a block.

    Signed 64-bit arithmetic that overflows is undefined. *)

From S2P Require Import Prelude PiecePicker.
Import piece_picker.

Record FileEntry := mkFileEntry { path : list byte; file_size : Z; file_offset : Z }.
Record FileSlice := mkSlice { file_index : Z; slice_offset : Z; slice_size : Z }.

Record FileStorage := mkStorage {
  files : list FileEntry;
  name : list byte;
  layout_piece_length : Z;   (* uint32_t *)
  layout_total : Z;          (* int64_t *)
}.

Module file_storage.

Definition kMax64 : Z := 2 ^ 63 - 1.

(** A result of [int64_t] arithmetic. *)
Definition s64 (z : Z) : outcome Z := if (- 2 ^ 63 <=? z) && (z <=? kMax64) then Ret z else UB.

Definition empty_storage : FileStorage := mkStorage [] [] 0 0.

Definition set_piece_length (n : Z) (s : FileStorage) : FileStorage :=
  mkStorage (files s) (name s) n (layout_total s).
Definition set_name (n : list byte) (s : FileStorage) : FileStorage :=
  mkStorage (files s) n (layout_piece_length s) (layout_total s).

Definition add_file (p : list byte) (size : Z) (s : FileStorage) : outcome (bool * FileStorage) :=
  if size <? 0 then Ret (false, s)
  else
    room ← s64 (kMax64 - layout_total s);
    if room <? size then Ret (false, s)
    else
      total ← s64 (layout_total s + size);
      Ret (true, mkStorage (files s ++ [mkFileEntry p size (layout_total s)]) (name s)
                           (layout_piece_length s) total).

Definition clear (s : FileStorage) : FileStorage := empty_storage.

Definition is_valid (s : FileStorage) : bool :=
  (0 <? layout_piece_length s) && negb (zlen (files s) =? 0).

Definition num_pieces (s : FileStorage) : outcome Z :=
  if layout_piece_length s =? 0 then Ret 0
  else
    x ← s64 (layout_total s + layout_piece_length s);
    x ← s64 (x - 1);
    Ret (u32 (x / layout_piece_length s)).

Definition piece_size (p : Z) (s : FileStorage) : outcome Z :=
  n ← num_pieces s;
  if u32 (p + 1) <? n then Ret (layout_piece_length s)
  else
    start ← s64 (p * layout_piece_length s);
    tail ← s64 (layout_total s - start);
    if tail <=? 0 then Ret 0 else Ret (u32 (Z.min tail (layout_piece_length s))).

Definition blocks_in_piece (p : Z) (s : FileStorage) : outcome Z :=
  ps ← piece_size p s; Ret (u32 (ps + kBlockSize - 1) / kBlockSize).

(** [std::upper_bound] on the offsets: the first file that starts after [abs]. *)
Fixpoint upper_bound (abs : Z) (fs : list FileEntry) : Z :=
  match fs with
  | [] => 0
  | e :: fs => if abs <? file_offset e then 0 else 1 + upper_bound abs fs
  end.

(** The loop of [map_block] from file [f], the first of [fs]. *)
Fixpoint map_loop (fs : list FileEntry) (f abs remaining : Z) : outcome (list FileSlice) :=
  match fs with
  | [] => Ret []
  | e :: fs =>
      if 0 <? remaining then
        file_off ← s64 (abs - file_offset e);
        if file_size e <=? file_off then map_loop fs (f + 1) abs remaining
        else
          left ← s64 (file_size e - file_off);
          let take := Z.min remaining left in
          remaining ← s64 (remaining - take);
          abs ← s64 (abs + take);
          slices ← map_loop fs (f + 1) abs remaining;
          Ret (mkSlice f file_off take :: slices)
      else Ret []
  end.

Definition map_block (p offset size : Z) (s : FileStorage) : outcome (list FileSlice) :=
  if (size <=? 0) || (zlen (files s) =? 0) then Ret []
  else
    start ← s64 (p * layout_piece_length s);
    abs ← s64 (start + offset);
    if layout_total s <=? abs then Ret []
    else
      rest ← s64 (layout_total s - abs);
      let remaining := Z.min size rest in
      let f := upper_bound abs (files s) in
      let f := if 0 <? f then f - 1 else f in
      map_loop (zdrop f (files s)) f abs remaining.

(** * Layouts *)

(** The offsets run on from [base] to [total] without gaps. *)
Fixpoint laid_out (base total : Z) (fs : list FileEntry) : Prop :=
  match fs with
  | [] => base = total
  | e :: fs => file_offset e = base /\ 0 <= file_size e /\ laid_out (base + file_size e) total fs
  end.

Definition layout_ok (s : FileStorage) : Prop :=
  laid_out 0 (layout_total s) (files s) /\ 0 <= layout_total s <= kMax64
  /\ 0 <= layout_piece_length s < 2 ^ 32.

Lemma s64_in z : - 2 ^ 63 <= z <= kMax64 -> s64 z = Ret z.
Proof.
  intros H. unfold s64. destruct (Z.leb_spec (- 2 ^ 63) z), (Z.leb_spec z kMax64); (done || lia).
Qed.

Lemma laid_out_le base total fs : laid_out base total fs -> base <= total.
Proof. revert base. induction fs as [|e fs IH]; cbn [laid_out]; [lia|]. intros base (_ & ? & H%IH). lia. Qed.

Lemma laid_out_snoc base total fs p size :
  0 <= size -> laid_out base total fs -> laid_out base (total + size) (fs ++ [mkFileEntry p size total]).
Proof.
  intros Hs. revert base. induction fs as [|e fs IH]; cbn [laid_out app].
  - intros base ->. done.
  - intros base (? & ? & ?). auto.
Qed.

(** Adding a file fails exactly when its size is negative or the total would not fit, and
    lays it out after the others otherwise. *)
Lemma add_file_ok s p size :
  layout_ok s ->
  returns (add_file p size s) (fun '(added, s') =>
    layout_ok s' /\ (added = true <-> 0 <= size /\ layout_total s + size <= kMax64)
    /\ if (added : bool) then files s' = files s ++ [mkFileEntry p size (layout_total s)] else s' = s).
Proof.
  intros Hok. pose proof Hok as (Hl & Ht & Hp). unfold add_file. unfold kMax64 in *. destruct (Z.ltb_spec size 0).
  { split; [done|]. split; [|done]. split; [done|intros; exfalso; lia]. }
  rewrite (s64_in (2 ^ 63 - 1 - layout_total s)) by (unfold kMax64; lia). cbn [mbind outcome_bind]. destruct (Z.ltb_spec (2 ^ 63 - 1 - layout_total s) size).
  { split; [done|]. split; [|done]. split; [done|intros; exfalso; lia]. }
  rewrite s64_in by (unfold kMax64; lia). cbn [mbind outcome_bind returns].
  split; [|split; [|done]; split; [lia|done]].
  split; [by apply laid_out_snoc|]. unfold kMax64. cbn [layout_total layout_piece_length]. lia.
Qed.

(** * The bytes of a block *)

(** File contents of the sizes of the layout. *)
Definition contents_of (fs : list FileEntry) (cs : list (list byte)) : Prop :=
  Forall2 (fun e c => zlen c = file_size e) fs cs.

(** What a slice reads, the first file having index [f]. *)
Definition slice_bytes (cs : list (list byte)) (f : Z) (x : FileSlice) : list byte :=
  ztake (slice_size x) (zdrop (slice_offset x) (default [] (zlookup cs (file_index x - f)))).

(** A non-empty region of one of the files. *)
Definition slice_in (fs : list FileEntry) (f : Z) (x : FileSlice) : Prop :=
  f <= file_index x /\ 0 < slice_size x /\ 0 <= slice_offset x
  /\ exists e, zlookup fs (file_index x - f) = Some e /\ slice_offset x + slice_size x <= file_size e.

Lemma zlookup_cons_pred {A} (x : A) l i : 1 <= i -> zlookup (x :: l) i = zlookup l (i - 1).
Proof.
  intros Hi. unfold zlookup. destruct (Z.leb_spec 0 i), (Z.leb_spec 0 (i - 1)); try lia.
  replace (Z.to_nat i) with (S (Z.to_nat (i - 1))) by lia. done.
Qed.

Lemma slice_in_cons e fs f x : slice_in fs (f + 1) x -> slice_in (e :: fs) f x.
Proof.
  intros (H1 & H2 & H3 & e' & H4 & H5). split_and!; [lia..|]. exists e'. split; [|done].
  rewrite zlookup_cons_pred by lia. by replace (file_index x - f - 1) with (file_index x - (f + 1)) by lia.
Qed.

Lemma slice_bytes_cons c cs fs f sl :
  Forall (slice_in fs (f + 1)) sl -> slice_bytes (c :: cs) f <$> sl = slice_bytes cs (f + 1) <$> sl.
Proof.
  induction 1 as [|x sl (Hx & _) _ IH]; [done|]. rewrite !fmap_cons, IH. f_equal. unfold slice_bytes.
  rewrite zlookup_cons_pred by lia. by replace (file_index x - f - 1) with (file_index x - (f + 1)) by lia.
Qed.

Definition by_file (x y : FileSlice) : Prop := file_index x < file_index y.

Lemma map_loop_done fs f abs : map_loop fs f abs 0 = Ret [].
Proof. by destruct fs. Qed.

(** Reading on from one file into the next ones. *)
Lemma take_across {A} (c rest : list A) off n :
  0 <= off <= zlen c -> 0 <= n ->
  let take := Z.min n (zlen c - off) in
  ztake take (zdrop off c) ++ ztake (n - take) rest = ztake n (zdrop off (c ++ rest)).
Proof.
  intros Ho Hn take. rewrite zdrop_app_le by lia. pose proof (zlen_zdrop off c Ho) as L.
  destruct (Z.le_gt_cases n (zlen c - off)).
  - replace take with n by lia. replace (n - n) with 0 by lia. rewrite ztake_0, app_nil_r.
    by rewrite ztake_app_le by lia.
  - replace take with (zlen c - off) by lia. rewrite (ztake_all _ (zdrop off c)) by lia.
    unfold ztake, zlen in *. rewrite take_app_ge by lia. do 2 f_equal. lia.
Qed.

Lemma map_loop_spec fs : forall cs f base total abs remaining,
  laid_out base total fs -> contents_of fs cs -> 0 <= base -> total <= kMax64 ->
  base <= abs -> 0 <= remaining -> abs + remaining <= total ->
  returns (map_loop fs f abs remaining) (fun sl =>
    concat (slice_bytes cs f <$> sl) = ztake remaining (zdrop (abs - base) (concat cs))
    /\ Forall (slice_in fs f) sl /\ StronglySorted by_file sl).
Proof.
  induction fs as [|e fs IH]; intros cs f base total abs remaining Hl Hc Hb Ht Ha Hr Hle; cbn [map_loop].
  { inversion Hc; subst. cbn. split_and!; [|constructor..]. unfold ztake, zdrop. by rewrite drop_nil, take_nil. }
  inversion Hc as [|? c ? cs' Lc Hc' E1 E2]; subst. destruct Hl as (Eo & Hs & Hl). pose proof (laid_out_le _ _ _ Hl).
  destruct (Z.ltb_spec 0 remaining).
  2: { replace remaining with 0 by lia. cbn. by split_and!; [|constructor..]. }
  unfold kMax64 in *. rewrite (s64_in (abs - file_offset e)) by (unfold kMax64; lia). cbn [mbind outcome_bind].
  rewrite Eo. cbn [concat]. destruct (Z.leb_spec (file_size e) (abs - base)).
  - eapply returns_mono; [apply (IH cs' (f + 1) (base + file_size e) total); (done || lia)|].
    intros sl (E & Hin & Hsort). split_and!; [|eapply Forall_impl; [exact Hin|]; intros x; apply slice_in_cons|done].
    rewrite (slice_bytes_cons c cs' fs f sl Hin), E.
    replace (zdrop (abs - base) (c ++ concat cs')) with (zdrop (abs - (base + file_size e)) (concat cs')); [done|].
    unfold zdrop, zlen in *. rewrite drop_app_ge by lia. f_equal. lia.
  - rewrite (s64_in (file_size e - (abs - base))) by (unfold kMax64; lia). cbn [mbind outcome_bind]. cbv zeta.
    set (take := Z.min remaining (file_size e - (abs - base))).
    rewrite (s64_in (remaining - take)), (s64_in (abs + take)) by (unfold kMax64; lia). cbn [mbind outcome_bind].
    assert (returns (map_loop fs (f + 1) (abs + take) (remaining - take)) (fun sl =>
      concat (slice_bytes cs' (f + 1) <$> sl) = ztake (remaining - take) (concat cs')
      /\ Forall (slice_in fs (f + 1)) sl /\ StronglySorted by_file sl)) as Htail.
    { destruct (Z.eq_dec (remaining - take) 0) as [E0|].
      - rewrite E0, map_loop_done. by split_and!; [|constructor..].
      - replace (abs + take) with (base + file_size e) by lia.
        eapply returns_mono; [apply (IH cs' (f + 1) (base + file_size e) total); (done || lia)|].
        intros sl. by rewrite Z.sub_diag, zdrop_0. }
    eapply returns_bind; [exact Htail|]. intros sl (E & Hin & Hsort). split_and!.
    + rewrite fmap_cons, (slice_bytes_cons c cs' fs f sl Hin). cbn [concat]. rewrite E.
      unfold slice_bytes. cbn [slice_size slice_offset file_index]. replace (f - f) with 0 by lia. change (zlookup (c :: cs') 0) with (Some c).
      cbn [default from_option]. unfold take. rewrite <- Lc. apply take_across; lia.
    + constructor; [|eapply Forall_impl; [exact Hin|]; intros x; apply slice_in_cons].
      split_and!; cbn [file_index slice_size slice_offset]; [lia..|]. exists e. replace (f - f) with 0 by lia.
      split; [done|lia].
    + constructor; [done|]. eapply Forall_impl; [exact Hin|]. intros x (Hx & _). unfold by_file. cbn. lia.
Qed.

(** The search finds the last file that starts at or before [abs]. *)
Lemma upper_bound_split fs : forall base total abs,
  laid_out base total fs -> base <= abs < total ->
  exists pre e post, fs = pre ++ e :: post /\ upper_bound abs fs = zlen pre + 1 /\ file_offset e <= abs
    /\ laid_out base (file_offset e) pre /\ laid_out (file_offset e) total (e :: post).
Proof.
  induction fs as [|e fs IH]; intros base total abs Hl Ha; cbn [laid_out] in Hl; [lia|].
  pose proof Hl as (Eo & Hs & Hl'). cbn [upper_bound]. destruct (Z.ltb_spec abs (file_offset e)); [lia|].
  destruct (Z.le_gt_cases (base + file_size e) abs).
  - destruct (IH (base + file_size e) total abs Hl' ltac:(lia)) as (pre & e' & post & -> & E & Ho & H1 & H2).
    exists (e :: pre), e', post. rewrite E, zlen_cons. split_and!; try done. lia.
  - exists [], e, fs. subst base. rewrite zlen_nil. split; [done|]. split; [|done].
    destruct fs as [|e' fs]; cbn [upper_bound]; [done|]. destruct Hl' as (Eo' & _).
    destruct (Z.ltb_spec abs (file_offset e')); lia.
Qed.

Lemma contents_len fs : forall base total cs,
  laid_out base total fs -> contents_of fs cs -> zlen (concat cs) = total - base.
Proof.
  induction fs as [|e fs IH]; intros base total cs Hl Hc; inversion Hc as [|? c ? cs' Lc Hc']; subst; cbn [laid_out concat] in *.
  - rewrite zlen_nil. lia.
  - destruct Hl as (_ & _ & Hl). rewrite zlen_app, (IH _ _ _ Hl Hc'). lia.
Qed.

Lemma slices_shift pre fs cs1 cs2 sl :
  zlen pre = zlen cs1 -> Forall (slice_in fs (zlen pre)) sl ->
  Forall (slice_in (pre ++ fs) 0) sl /\ slice_bytes (cs1 ++ cs2) 0 <$> sl = slice_bytes cs2 (zlen pre) <$> sl.
Proof.
  intros El. assert (forall A (k1 k2 : list A) i, zlen k1 <= i -> zlookup (k1 ++ k2) i = zlookup k2 (i - zlen k1)) as Hz.
  { intros A k1 k2 i Hi. unfold zlookup, zlen in *. destruct (Z.leb_spec 0 i), (Z.leb_spec 0 (i - Z.of_nat (length k1))); try lia.
    rewrite lookup_app_r by lia. f_equal. lia. }
  induction 1 as [|x sl (H1 & H2 & H3 & e & H4 & H5) _ [IH1 IH2]]; [by split; [constructor|]|].
  pose proof (zlen_nonneg pre). split.
  - constructor; [|done]. split_and!; [lia..|]. exists e. rewrite Z.sub_0_r, Hz by done. done.
  - rewrite !fmap_cons, IH2. f_equal. unfold slice_bytes. by rewrite Z.sub_0_r, Hz, El by lia.
Qed.

(** C40: The file regions of a block, read in order, hold exactly the bytes of the block in
    the torrent's byte space, up to the end of the payload: whatever the file contents.
    Each region is a non-empty part of one file, no file appears twice, and they come
    in file order. *)
Theorem map_block_exact (s : FileStorage) (cs : list (list byte)) (p offset size : Z) :
  layout_ok s -> contents_of (files s) cs -> 0 <= p -> 0 <= offset ->
  p * layout_piece_length s + offset <= kMax64 ->
  returns (map_block p offset size s) (fun slices =>
    concat (slice_bytes cs 0 <$> slices) = ztake size (zdrop (p * layout_piece_length s + offset) (concat cs))
    /\ Forall (slice_in (files s) 0) slices /\ StronglySorted by_file slices).
Proof.
  intros (Hl & Ht & Hp) Hc Hp0 Ho Habs. pose proof (contents_len _ _ _ _ Hl Hc) as Lc.
  set (abs := p * layout_piece_length s + offset) in *. unfold map_block.
  assert (0 <= p * layout_piece_length s) by (apply Z.mul_nonneg_nonneg; lia).
  assert (forall l : list byte, l = [] -> returns (Ret []) (fun slices =>
    concat (slice_bytes cs 0 <$> slices) = l /\ Forall (slice_in (files s) 0) slices
    /\ StronglySorted by_file slices)) as Hnil by (intros l ->; by split_and!; [|constructor..]).
  destruct (Z.leb_spec size 0); cbn [orb].
  { apply Hnil. unfold ztake. by replace (Z.to_nat size) with 0%nat by lia. }
  destruct (Z.eqb_spec (zlen (files s)) 0) as [E|_].
  { apply Hnil. apply zlen_zero in E. rewrite E in Hc. inversion Hc; subst.
    unfold ztake, zdrop. cbn. by rewrite drop_nil, take_nil. }
  unfold kMax64 in *. rewrite (s64_in (p * layout_piece_length s)) by (unfold kMax64; lia). cbn [mbind outcome_bind].
  fold abs. rewrite (s64_in abs) by (unfold kMax64; lia). cbn [mbind outcome_bind].
  destruct (Z.leb_spec (layout_total s) abs).
  { apply Hnil. rewrite zdrop_all by lia. apply take_nil. }
  rewrite s64_in by (unfold kMax64; lia). cbn [mbind outcome_bind]. cbv zeta.
  destruct (upper_bound_split (files s) 0 (layout_total s) abs Hl ltac:(lia)) as (pre & e & post & E & Eu & Hoe & Hl1 & Hl2).
  rewrite Eu. pose proof (zlen_nonneg pre). destruct (Z.ltb_spec 0 (zlen pre + 1)); [|lia].
  replace (zlen pre + 1 - 1) with (zlen pre) by lia. rewrite E, zdrop_app by done. rewrite E in Hc.
  apply Forall2_app_inv_l in Hc as (cs1 & cs2 & Hc1 & Hc2 & ->).
  pose proof (contents_len _ _ _ _ Hl1 Hc1) as L1. rewrite concat_app, zlen_app in Lc.
  pose proof (laid_out_le _ _ _ Hl1). pose proof (laid_out_le _ _ _ Hl2).
  eapply returns_mono; [apply (map_loop_spec (e :: post) cs2 (zlen pre) (file_offset e) (layout_total s)); (done || unfold kMax64; lia)|].
  intros sl (Eb & Hin & Hs).
  destruct (slices_shift pre (e :: post) cs1 cs2 sl) as [Hin' Eb']; [unfold zlen; f_equal; by eapply Forall2_length|done|].
  split_and!; [|done..]. rewrite Eb', Eb, concat_app.
  replace (zdrop abs (concat cs1 ++ concat cs2)) with (zdrop (abs - file_offset e) (concat cs2)).
  - unfold ztake, zdrop, zlen in *. rewrite <- (take_ge (drop _ (concat cs2)) (Z.to_nat (layout_total s - abs))) at 2
      by (rewrite length_drop; lia). rewrite take_take. f_equal. lia.
  - unfold zdrop, zlen in *. rewrite drop_app_ge by lia. f_equal. lia.
Qed.

(** * Pieces *)

Lemma s64_out z : kMax64 < z -> s64 z = UB.
Proof. intros H. unfold s64. destruct (Z.leb_spec z kMax64); [lia|]. by rewrite andb_false_r. Qed.

Lemma num_pieces_ok s :
  0 < layout_piece_length s < 2 ^ 32 -> 0 <= layout_total s ->
  (layout_total s + layout_piece_length s <= kMax64 ->
     num_pieces s = Ret (u32 ((layout_total s + layout_piece_length s - 1) / layout_piece_length s)))
  /\ (kMax64 < layout_total s + layout_piece_length s -> num_pieces s = UB).
Proof.
  intros Hp Ht. unfold num_pieces. destruct (Z.eqb_spec (layout_piece_length s) 0); [lia|]. split; intros H.
  - rewrite (s64_in (layout_total s + layout_piece_length s)) by lia. cbn [mbind outcome_bind].
    rewrite s64_in by (unfold kMax64 in *; lia). done.
  - by rewrite s64_out by done.
Qed.

(** The size of a piece that starts within the payload. *)
Definition window (plen total p : Z) : Z := Z.min plen (total - p * plen).

Lemma window_last plen total n p :
  0 < plen -> n = (total + plen - 1) / plen -> 0 <= p < n ->
  0 < window plen total p /\ (p + 1 < n -> window plen total p = plen) /\ p * plen < total <= n * plen.
Proof.
  intros Hp -> Hn. unfold window. pose proof (Z.div_mod (total + plen - 1) plen ltac:(lia)) as E.
  pose proof (Z.mod_pos_bound (total + plen - 1) plen ltac:(lia)).
  set (n := (total + plen - 1) / plen) in *.
  assert (p * plen <= (n - 1) * plen) by (apply Z.mul_le_mono_nonneg_r; lia).
  split_and!; try lia. intros Hlt.
  assert ((p + 1) * plen <= (n - 1) * plen) by (apply Z.mul_le_mono_nonneg_r; lia). lia.
Qed.

(** The pieces tile the payload. The number of pieces is computed without overflow
    exactly when the total and the piece length together fit 64 bits, which [add_file]
    does not ensure. Then, below 2^32 pieces, every piece but the last has the piece
    length, the last one ends where the payload ends and is not empty, and a picker of
    the same geometry agrees on the size and the blocks of every piece. *)
Theorem pieces_tile (s : FileStorage) (n : Z) :
  layout_ok s -> 0 < layout_piece_length s ->
  (num_pieces s = UB <-> kMax64 < layout_total s + layout_piece_length s)
  /\ (n = (layout_total s + layout_piece_length s - 1) / layout_piece_length s -> n < 2 ^ 32 ->
      layout_total s + layout_piece_length s <= kMax64 ->
      num_pieces s = Ret n
      /\ forall p, 0 <= p < n -> exists size,
           piece_size p s = Ret size /\ 0 < size <= layout_piece_length s
           /\ (p + 1 < n -> size = layout_piece_length s)
           /\ (p + 1 = n -> p * layout_piece_length s + size = layout_total s)
           /\ forall k, PiecePicker.num_pieces k = n -> piece_length k = layout_piece_length s ->
                total_size k = layout_total s ->
                piece_picker.piece_size p k = size
                /\ blocks_in_piece p s = Ret (piece_picker.blocks_in_piece p k)).
Proof.
  intros (_ & Ht & Hp) Hp0. destruct (num_pieces_ok s ltac:(lia) ltac:(lia)) as [Hn Hub]. split.
  { split; [|done]. intros E. destruct (Z.le_gt_cases (layout_total s + layout_piece_length s) kMax64) as [H|]; [|done].
    by rewrite (Hn H) in E. }
  intros -> Hsmall Hfit. set (n := (layout_total s + layout_piece_length s - 1) / layout_piece_length s) in *.
  assert (0 <= n) by (apply Z.div_pos; lia). specialize (Hn Hfit). rewrite u32_small in Hn by lia.
  split; [done|]. intros p Hpn.
  destruct (window_last (layout_piece_length s) (layout_total s) n p Hp0 eq_refl Hpn) as (Hw & Hfull & Hin).
  set (w := window (layout_piece_length s) (layout_total s) p) in *.
  assert (w <= layout_piece_length s) by (unfold w, window; lia).
  assert (piece_size p s = Ret w) as Es.
  { unfold piece_size. rewrite Hn. cbn [mbind outcome_bind]. rewrite (u32_small (p + 1)) by lia.
    destruct (Z.ltb_spec (p + 1) n); [by rewrite Hfull|].
    assert (0 <= p * layout_piece_length s) by (apply Z.mul_nonneg_nonneg; lia).
    unfold kMax64 in *. rewrite !s64_in by (unfold kMax64; lia). cbn [mbind outcome_bind].
    rewrite s64_in by (unfold kMax64; lia). cbn [mbind outcome_bind].
    destruct (Z.leb_spec (layout_total s - p * layout_piece_length s) 0); [lia|].
    rewrite u32_small by lia. unfold w, window. f_equal. lia. }
  exists w. split_and!; [done|lia|lia|done| |].
  - intros <-. unfold w, window. lia.
  - intros k E1 E2 E3.
    assert (piece_picker.piece_size p k = w) as Ek.
    { unfold piece_picker.piece_size. rewrite E1, E2, E3, (u32_small (p + 1)) by lia.
      destruct (Z.ltb_spec (p + 1) n); [by rewrite Hfull|]. cbv zeta.
      destruct (Z.leb_spec (layout_total s - p * layout_piece_length s) 0); [lia|].
      rewrite u32_small by lia. unfold w, window. lia. }
    split; [done|]. unfold blocks_in_piece, piece_picker.blocks_in_piece. by rewrite Es, Ek.
Qed.

(** * A concrete layout *)

(** An empty file between two others, ten bytes in all, pieces of eight. *)
Definition demo_layout : FileStorage :=
  mkStorage [mkFileEntry [x61] 4 0; mkFileEntry [x62] 0 4; mkFileEntry [x63] 6 4] [] 8 10.
Definition demo_contents : list (list byte) := [replicate 4 x61; []; replicate 6 x63].

Lemma demo_layout_ok : layout_ok demo_layout.
Proof. unfold layout_ok, kMax64. cbn. lia. Qed.

Lemma map_block_exact_witness :
  returns (map_block 0 2 5 demo_layout) (fun slices =>
    concat (slice_bytes demo_contents 0 <$> slices) = [x61; x61; x63; x63; x63]).
Proof.
  eapply returns_mono.
  - apply (map_block_exact demo_layout demo_contents 0 2 5 demo_layout_ok); [by repeat constructor|done..].
  - intros sl (E & _). exact E.
Defined.

Lemma pieces_tile_witness :
  num_pieces demo_layout = Ret 2 /\ exists size, piece_size 1 demo_layout = Ret size /\ 8 + size = 10.
Proof.
  destruct (pieces_tile demo_layout 2 demo_layout_ok ltac:(cbn; lia)) as [_ H].
  destruct H as [Hn Hs]; [done..|]. split; [exact Hn|].
  destruct (Hs 1 ltac:(lia)) as (size & E & _ & _ & Hlast & _). exists size. split; [exact E|]. by apply Hlast.
Defined.

(** A layout that [add_file] accepts and [num_pieces] overflows on: one file of 2^63 - 1
    bytes and a piece length of two. *)
Lemma num_pieces_overflow :
  exists s, add_file [x61] kMax64 (set_piece_length 2 empty_storage) = Ret (true, s) /\ num_pieces s = UB.
Proof. exists (mkStorage [mkFileEntry [x61] kMax64 0] [] 2 kMax64). split; vm_compute; reflexivity. Qed.

End file_storage.
