(* ===== verification/Words.v ===== *)
(** Words and bit fields shared by the cryptographic routines: little-endian loads and
    stores, masks and limbs. *)

From S2P Require Import Prelude.

(** [unsigned __int128]. *)
Definition u128 (z : Z) : Z := z mod 2 ^ 128.

Lemma u128_small z : 0 <= z < 2 ^ 128 -> u128 z = z.
Proof. intros. by apply Z.mod_small. Qed.

Lemma u64_range z : 0 <= u64 z < 2 ^ 64.
Proof. apply Z.mod_pos_bound. lia. Qed.
Lemma u32_range z : 0 <= u32 z < 2 ^ 32.
Proof. apply Z.mod_pos_bound. lia. Qed.

(** * Little-endian integers *)

Fixpoint le_dec (l : list byte) : Z :=
  match l with
  | [] => 0
  | b :: l => u8 b + 256 * le_dec l
  end.

Fixpoint le_enc (n : nat) (z : Z) : list byte :=
  match n with
  | O => []
  | S n => byte_of z :: le_enc n (z / 256)
  end.

Lemma le_dec_range l : 0 <= le_dec l < 2 ^ (8 * zlen l).
Proof.
  induction l as [|b l IH]; cbn [le_dec]; [done|]. rewrite zlen_cons. pose proof (u8_range b).
  pose proof (zlen_nonneg l). replace (8 * (1 + zlen l)) with (8 + 8 * zlen l) by lia.
  rewrite Z.pow_add_r by lia. change (2 ^ 8) with 256. nia.
Qed.

Lemma le_dec_app l k : le_dec (l ++ k) = le_dec l + 2 ^ (8 * zlen l) * le_dec k.
Proof.
  induction l as [|b l IH]; cbn [le_dec app]; [change (zlen (@nil byte)) with 0; lia|]. rewrite IH, zlen_cons.
  pose proof (zlen_nonneg l). replace (8 * (1 + zlen l)) with (8 + 8 * zlen l) by lia.
  rewrite Z.pow_add_r by lia. change (2 ^ 8) with 256. lia.
Qed.

Lemma le_dec_zeros n : le_dec (replicate n x00) = 0.
Proof. induction n as [|n IH]; cbn [replicate le_dec]; [done|]. by rewrite IH. Qed.

Lemma le_enc_length n z : length (le_enc n z) = n.
Proof. revert z. induction n as [|n IH]; intros z; cbn [le_enc length]; [done|]. by rewrite IH. Qed.

Lemma zlen_le_enc n z : zlen (le_enc n z) = Z.of_nat n.
Proof. unfold zlen. by rewrite le_enc_length. Qed.
#[global] Hint Rewrite zlen_le_enc : zlen.

Lemma le_dec_enc n z : le_dec (le_enc n z) = z mod 2 ^ (8 * Z.of_nat n).
Proof.
  revert z. induction n as [|n IH]; intros z; cbn [le_enc le_dec]; [by rewrite Z.mod_1_r|].
  rewrite IH, u8_byte_of. replace (8 * Z.of_nat (S n)) with (8 + 8 * Z.of_nat n) by lia.
  rewrite Z.pow_add_r by lia. change (2 ^ 8) with 256. by rewrite (Z.rem_mul_r z 256) by lia.
Qed.

Lemma le_enc_dec l : le_enc (length l) (le_dec l) = l.
Proof.
  induction l as [|b l IH]; cbn [length le_enc le_dec]; [done|]. pose proof (u8_range b). f_equal.
  - apply u8_inj. rewrite u8_byte_of. rewrite (Z.mul_comm 256), Z.mod_add by lia. by apply Z.mod_small.
  - rewrite (Z.mul_comm 256), Z.div_add, Z.div_small by lia. exact IH.
Qed.

(** The bytes of an array joined by shifts and ors, from bit [k] up. *)
Fixpoint or_bytes (k : Z) (l : list byte) : Z :=
  match l with
  | [] => 0
  | b :: l => Z.lor (Z.shiftl (u8 b) k) (or_bytes (k + 8) l)
  end.

Lemma or_bytes_le l : forall k, 0 <= k -> or_bytes k l = le_dec l * 2 ^ k.
Proof.
  induction l as [|b l IH]; intros k Hk; cbn [or_bytes le_dec]; [done|]. rewrite IH by lia.
  pose proof (u8_range b). rewrite <- Z.shiftl_mul_pow2 by lia.
  rewrite Z.lor_comm, lor_shiftl_add; [|lia|].
  - rewrite Z.shiftl_mul_pow2, Z.pow_add_r by lia. change (2 ^ 8) with 256. lia.
  - rewrite Z.shiftl_mul_pow2, Z.pow_add_r by lia. change (2 ^ 8) with 256.
    assert (0 < 2 ^ k) by (apply Z.pow_pos_nonneg; lia). nia.
Qed.

(** The low bytes of a word, least significant first, as shifts store them. *)
Fixpoint store_bytes (n : nat) (k : Z) (v : Z) : list byte :=
  match n with
  | O => []
  | S n => byte_of (Z.shiftr v k) :: store_bytes n (k + 8) v
  end.

Lemma store_bytes_le n : forall k v, 0 <= k -> store_bytes n k v = le_enc n (Z.shiftr v k).
Proof.
  induction n as [|n IH]; intros k v Hk; cbn [store_bytes le_enc]; [done|]. f_equal.
  rewrite IH by lia. f_equal. rewrite <- Z.shiftr_shiftr by lia.
  by rewrite (Z.shiftr_div_pow2 _ 8) by lia.
Qed.

Definition load64 (p : list byte) : Z := or_bytes 0 (ztake 8 p).
Definition store64 (v : Z) : list byte := store_bytes 8 0 v.
Definition load32 (p : list byte) : Z := or_bytes 0 (ztake 4 p).
Definition store32 (v : Z) : list byte := store_bytes 4 0 v.

Lemma load64_le p : load64 p = le_dec (ztake 8 p).
Proof. unfold load64. rewrite or_bytes_le by lia. lia. Qed.
Lemma load32_le p : load32 p = le_dec (ztake 4 p).
Proof. unfold load32. rewrite or_bytes_le by lia. lia. Qed.
Lemma store64_le v : store64 v = le_enc 8 v.
Proof. unfold store64. rewrite store_bytes_le by lia. by rewrite Z.shiftr_0_r. Qed.
Lemma store32_le v : store32 v = le_enc 4 v.
Proof. unfold store32. rewrite store_bytes_le by lia. by rewrite Z.shiftr_0_r. Qed.

Lemma le_dec_ztake_range n (p : list byte) : 0 <= n -> 0 <= le_dec (ztake n p) < 2 ^ (8 * n).
Proof.
  intros Hn. pose proof (le_dec_range (ztake n p)) as [H1 H2]. split; [done|].
  eapply Z.lt_le_trans; [exact H2|]. apply Z.pow_le_mono_r; [lia|].
  unfold zlen, ztake. rewrite length_take. lia.
Qed.

Lemma load64_range p : 0 <= load64 p < 2 ^ 64.
Proof. rewrite load64_le. by apply (le_dec_ztake_range 8). Qed.
Lemma load32_range p : 0 <= load32 p < 2 ^ 32.
Proof. rewrite load32_le. by apply (le_dec_ztake_range 4). Qed.

(** * Masks *)

Lemma land_mask x k : 0 <= k -> Z.land x (2 ^ k - 1) = x mod 2 ^ k.
Proof. intros Hk. rewrite <- Z.land_ones by done. f_equal. rewrite Z.ones_equiv. lia. Qed.

Lemma shiftr_div x k : 0 <= k -> Z.shiftr x k = x / 2 ^ k.
Proof. apply Z.shiftr_div_pow2. Qed.

(** Splitting a number at bit [k]. *)
Lemma split_at x k : 0 <= k -> x = x mod 2 ^ k + 2 ^ k * (x / 2 ^ k).
Proof. intros Hk. pose proof (Z.div_mod x (2 ^ k) ltac:(apply Z.pow_nonzero; lia)). lia. Qed.

Lemma mod_range x k : 0 <= k -> 0 <= x mod 2 ^ k < 2 ^ k.
Proof. intros Hk. apply Z.mod_pos_bound. apply Z.pow_pos_nonneg; lia. Qed.

Lemma div_range x k n : 0 <= k <= n -> 0 <= x < 2 ^ n -> 0 <= x / 2 ^ k < 2 ^ (n - k).
Proof.
  intros Hk Hx. assert (0 < 2 ^ k) by (apply Z.pow_pos_nonneg; lia). split; [apply Z.div_pos; lia|].
  apply Z.div_lt_upper_bound; [done|]. rewrite <- Z.pow_add_r by lia. replace (k + (n - k)) with n by lia. lia.
Qed.

(** A word of [w] bits shifted up and joined with what fits below it. *)
Lemma lor_shiftl_wrap w x y k :
  0 <= k <= w -> 0 <= x < 2 ^ k -> Z.lor x (Z.shiftl y k mod 2 ^ w) = x + 2 ^ k * (y mod 2 ^ (w - k)).
Proof.
  intros Hk Hx. assert (Z.shiftl y k mod 2 ^ w = Z.shiftl (y mod 2 ^ (w - k)) k) as ->.
  { rewrite !Z.shiftl_mul_pow2 by lia. replace (2 ^ w) with (2 ^ (w - k) * 2 ^ k)
      by (rewrite <- Z.pow_add_r by lia; f_equal; lia).
    assert (0 < 2 ^ k) by (apply Z.pow_pos_nonneg; lia). assert (0 < 2 ^ (w - k)) by (apply Z.pow_pos_nonneg; lia).
    by rewrite Z.mul_mod_distr_r by lia. }
  rewrite Z.lor_comm, lor_shiftl_add by lia. lia.
Qed.

Lemma lor_u64_shiftl x y k :
  0 <= k <= 64 -> 0 <= x < 2 ^ k -> Z.lor x (u64 (Z.shiftl y k)) = x + 2 ^ k * (y mod 2 ^ (64 - k)).
Proof. apply lor_shiftl_wrap. Qed.
Lemma lor_u32_shiftl x y k :
  0 <= k <= 32 -> 0 <= x < 2 ^ k -> Z.lor x (u32 (Z.shiftl y k)) = x + 2 ^ k * (y mod 2 ^ (32 - k)).
Proof. apply lor_shiftl_wrap. Qed.

(** Masks of no and of all [w] bits select one of two words. *)
Lemma select_mask w (c : bool) x y :
  0 <= w -> 0 <= x < 2 ^ w -> 0 <= y < 2 ^ w ->
  let m := if c then 2 ^ w - 1 else 0 in
  Z.lor (Z.land x (Z.lnot m mod 2 ^ w)) (Z.land y m) = if c then y else x.
Proof.
  intros Hw Hx Hy. assert (forall z, Z.lnot z = - z - 1) as L by (intros z; unfold Z.lnot; lia).
  destruct c; cbv zeta; rewrite L.
  - replace (- (2 ^ w - 1) - 1) with ((-1) * 2 ^ w) by lia. rewrite Z.mod_mul by lia.
    rewrite Z.land_0_r, land_mask, Z.lor_0_l by lia. by apply Z.mod_small.
  - replace ((- 0 - 1) mod 2 ^ w) with (2 ^ w - 1) by (apply (Z.mod_unique _ _ (-1)); lia).
    rewrite Z.land_0_r, land_mask, Z.lor_0_r by lia. by apply Z.mod_small.
Qed.

Lemma select_u64 (c : bool) x y :
  0 <= x < 2 ^ 64 -> 0 <= y < 2 ^ 64 ->
  let m := if c then 2 ^ 64 - 1 else 0 in
  Z.lor (Z.land x (u64 (Z.lnot m))) (Z.land y m) = if c then y else x.
Proof. by apply (select_mask 64). Qed.
Lemma select_u32 (c : bool) x y :
  0 <= x < 2 ^ 32 -> 0 <= y < 2 ^ 32 ->
  let m := if c then 2 ^ 32 - 1 else 0 in
  Z.lor (Z.land x (u32 (Z.lnot m))) (Z.land y m) = if c then y else x.
Proof. by apply (select_mask 32). Qed.

(** * Prefixes of prefixes *)

Lemma ztake_ztake {A} n m (l : list A) : n <= m -> ztake n (ztake m l) = ztake n l.
Proof. intros H. unfold ztake. rewrite firstn_firstn. f_equal. lia. Qed.

(** * The value of a part of an array *)

Lemma le_dec_split k (l : list byte) :
  0 <= k <= zlen l -> le_dec (ztake k l) = le_dec l mod 2 ^ (8 * k) /\ le_dec (zdrop k l) = le_dec l / 2 ^ (8 * k).
Proof.
  intros Hk. pose proof (le_dec_app (ztake k l) (zdrop k l)) as E. rewrite ztake_zdrop, zlen_ztake in E by lia.
  pose proof (le_dec_ztake_range k l ltac:(lia)) as R. split.
  - apply (Z.mod_unique _ _ (le_dec (zdrop k l))); lia.
  - apply (Z.div_unique _ _ _ (le_dec (ztake k l))); lia.
Qed.

(** Bits of a number: the field of [n] bits from bit [k]. *)
Definition field (x k n : Z) : Z := x / 2 ^ k mod 2 ^ n.

Lemma field_range x k n : 0 <= n -> 0 <= field x k n < 2 ^ n.
Proof. apply mod_range. Qed.

Lemma field_field x k n j m : 0 <= k -> 0 <= j -> 0 <= m -> j + m <= n -> field (field x k n) j m = field x (k + j) m.
Proof.
  intros Hk Hj Hm Hn. unfold field. rewrite Z.pow_add_r by lia.
  assert (0 < 2 ^ k /\ 0 < 2 ^ j /\ 0 < 2 ^ m) as (Pk & Pj & Pm) by (split_and!; apply Z.pow_pos_nonneg; lia).
  rewrite <- Z.div_div by lia. set (y := x / 2 ^ k). replace n with (j + (n - j)) by lia.
  rewrite Z.pow_add_r by lia. assert (0 < 2 ^ (n - j)) by (apply Z.pow_pos_nonneg; lia).
  rewrite Z.rem_mul_r, (Z.mul_comm (2 ^ j)), Z.div_add, Z.div_small, Z.add_0_l by (try apply mod_range; lia).
  apply Z.mod_mod_divide. exists (2 ^ (n - j - m)). rewrite <- Z.pow_add_r by lia. f_equal. lia.
Qed.

Lemma load32_field k (p : list byte) : 0 <= k -> k + 4 <= zlen p -> load32 (zdrop k p) = field (le_dec p) (8 * k) 32.
Proof.
  intros Hk Hp. rewrite load32_le. unfold field.
  destruct (le_dec_split 4 (zdrop k p)) as [-> _]; [rewrite zlen_zdrop; lia|].
  destruct (le_dec_split k p) as [_ ->]; [lia|]. done.
Qed.

(** * Arrays in memory *)

(** Reading [n] bytes from offset [off], and writing [m] there. *)
Definition peek (off n : Z) (mem : list byte) : outcome (list byte) :=
  if (0 <=? off) && (0 <=? n) && (off + n <=? zlen mem) then Ret (ztake n (zdrop off mem)) else UB.
Definition poke (off : Z) (m mem : list byte) : outcome (list byte) :=
  if (0 <=? off) && (off + zlen m <=? zlen mem) then Ret (ztake off mem ++ m ++ zdrop (off + zlen m) mem) else UB.

Definition region (off n : Z) (mem : list byte) : list byte := ztake n (zdrop off mem).
Definition overwrite (off : Z) (m mem : list byte) : list byte := ztake off mem ++ m ++ zdrop (off + zlen m) mem.

Lemma zlen_region off n mem : 0 <= off -> 0 <= n -> off + n <= zlen mem -> zlen (region off n mem) = n.
Proof. intros. unfold region. rewrite zlen_ztake; [lia|]. rewrite zlen_zdrop; lia. Qed.

Lemma zlen_overwrite off m mem : 0 <= off -> off + zlen m <= zlen mem -> zlen (overwrite off m mem) = zlen mem.
Proof.
  intros. pose proof (zlen_nonneg m). unfold overwrite. rewrite !zlen_app, zlen_ztake, zlen_zdrop by lia. lia.
Qed.

Lemma region_split off k n mem :
  0 <= off -> 0 <= k <= n -> region off n mem = region off k mem ++ region (off + k) (n - k) mem.
Proof.
  intros. unfold region. rewrite <- (zdrop_zdrop k off), <- zdrop_ztake by lia.
  rewrite <- (ztake_ztake k n) by lia. by rewrite ztake_zdrop.
Qed.

Lemma overwrite_overwrite off a b mem :
  0 <= off -> off + zlen a + zlen b <= zlen mem ->
  overwrite (off + zlen a) b (overwrite off a mem) = overwrite off (a ++ b) mem.
Proof.
  intros. pose proof (zlen_nonneg a). pose proof (zlen_nonneg b). unfold overwrite. rewrite zlen_app, Z.add_assoc.
  rewrite (app_assoc _ a), ztake_app by (rewrite zlen_app, zlen_ztake; lia).
  rewrite <- (zdrop_zdrop (zlen b) (off + zlen a) (_ ++ _)), zdrop_app, zdrop_zdrop by (rewrite ?zlen_app, ?zlen_ztake; lia).
  by rewrite <- !app_assoc.
Qed.

Lemma overwrite_nil off mem : overwrite off [] mem = mem.
Proof. unfold overwrite. change (zlen (@nil byte)) with 0. rewrite Z.add_0_r. apply ztake_zdrop. Qed.

Lemma region_overwrite off m mem :
  0 <= off -> off + zlen m <= zlen mem -> region off (zlen m) (overwrite off m mem) = m.
Proof.
  intros. pose proof (zlen_nonneg m). unfold region, overwrite. rewrite zdrop_app by (rewrite zlen_ztake; lia). by apply ztake_app.
Qed.

Lemma region_overwrite_disjoint off n at_ m mem :
  0 <= off -> 0 <= n -> 0 <= at_ -> off + n <= zlen mem -> at_ + zlen m <= zlen mem ->
  off + n <= at_ \/ at_ + zlen m <= off -> region off n (overwrite at_ m mem) = region off n mem.
Proof.
  intros ? ? ? ? ? [Hd|Hd]; pose proof (zlen_nonneg m); unfold region, overwrite.
  - rewrite <- (ztake_zdrop at_ mem) at 3. rewrite !zdrop_app_le by (rewrite zlen_ztake; lia).
    by rewrite !ztake_app_le by (rewrite zlen_zdrop, zlen_ztake; rewrite ?zlen_ztake; lia).
  - rewrite app_assoc. replace off with (at_ + zlen m + (off - (at_ + zlen m))) at 1 by lia.
    rewrite <- zdrop_zdrop by lia. rewrite zdrop_app by (rewrite zlen_app, zlen_ztake; lia).
    rewrite zdrop_zdrop by lia. do 2 f_equal. lia.
Qed.

Lemma peek_in off n mem : 0 <= off -> 0 <= n -> off + n <= zlen mem -> peek off n mem = Ret (region off n mem).
Proof. intros. unfold peek. by rewrite !(proj2 (Z.leb_le _ _)) by lia. Qed.
Lemma poke_in off m mem :
  0 <= off -> off + zlen m <= zlen mem -> poke off m mem = Ret (overwrite off m mem).
Proof. intros. unfold poke. by rewrite !(proj2 (Z.leb_le _ _)) by lia. Qed.

(** Exclusive or of bytes. *)
Definition bxor (a b : byte) : byte := byte_of (Z.lxor (u8 a) (u8 b)).

Lemma lxor_mod a b n : 0 <= n -> Z.lxor a b mod 2 ^ n = Z.lxor (a mod 2 ^ n) (b mod 2 ^ n).
Proof.
  intros Hn. apply Z.bits_inj'. intros i Hi. rewrite Z.lxor_spec. destruct (Z.ltb_spec i n).
  - by rewrite !Z.mod_pow2_bits_low, Z.lxor_spec by lia.
  - by rewrite !Z.mod_pow2_bits_high by lia.
Qed.

Lemma lxor_range a b n : 0 <= n -> 0 <= a < 2 ^ n -> 0 <= b < 2 ^ n -> 0 <= Z.lxor a b < 2 ^ n.
Proof.
  intros Hn Ha Hb. rewrite <- (Z.mod_small a (2 ^ n)), <- (Z.mod_small b (2 ^ n)), <- lxor_mod by done.
  by apply mod_range.
Qed.

Lemma u8_bxor a b : u8 (bxor a b) = Z.lxor (u8 a) (u8 b).
Proof.
  unfold bxor. rewrite u8_byte_of. apply Z.mod_small. apply (lxor_range _ _ 8); [lia|apply u8_range..].
Qed.

Lemma bxor_cancel a b : bxor (bxor a b) b = a.
Proof. apply u8_inj. by rewrite !u8_bxor, Z.lxor_assoc, Z.lxor_nilpotent, Z.lxor_0_r. Qed.

(** The or of the differences of two arrays, which a comparison in constant time tests. *)
Fixpoint differences (a b : list byte) : Z :=
  match a, b with
  | x :: a, y :: b => Z.lor (Z.lxor (u8 x) (u8 y)) (differences a b)
  | _, _ => 0
  end.

Lemma differences_eq a : forall b, length a = length b -> differences a b = 0 <-> a = b.
Proof.
  induction a as [|x a IH]; intros [|y b] Hl; try done. cbn [differences]. injection Hl as Hl.
  rewrite Z.lor_eq_0_iff, IH, Z.lxor_eq_0_iff by done. split; [|by intros [= -> ->]].
  intros [Hx ->]. f_equal. by apply u8_inj.
Qed.

Lemma app_ztake_zdrop {A} t (l k : list A) : l ++ k = (l ++ ztake t k) ++ zdrop t k.
Proof. by rewrite <- app_assoc, ztake_zdrop. Qed.
