(* ===== verification/Pieces.v ===== *)
(** Messages cut into pieces of a fixed size, the last one possibly shorter: what block
    ciphers, authentication codes and hashes are defined by. *)

From S2P Require Import Prelude Words.

(** A piece is not empty. *)
Class PieceSize (n : Z) := piece_size_pos : 0 < n.
#[export] Instance piece_size_16 : PieceSize 16.
Proof. done. Qed.
#[export] Instance piece_size_64 : PieceSize 64.
Proof. done. Qed.
#[export] Instance piece_size_128 : PieceSize 128.
Proof. done. Qed.

Section Pieces.
Context (n : Z) {Hn : PieceSize n}.

Fixpoint chunks_fuel (fuel : nat) (m : list byte) : list (list byte) :=
  match fuel, m with
  | S fuel, _ :: _ => ztake n m :: chunks_fuel fuel (zdrop n m)
  | _, _ => []
  end.
Definition chunks (m : list byte) : list (list byte) := chunks_fuel (length m) m.

Lemma chunks_nil : chunks [] = [].
Proof. done. Qed.

Lemma chunks_fuel_enough m : forall fuel, (length m <= fuel)%nat -> chunks_fuel fuel m = chunks m.
Proof.
  unfold chunks. remember (length m) as k eqn:Ek. assert (length m <= k)%nat as Hk by lia. clear Ek.
  unfold PieceSize in Hn. revert m Hk.
  induction k as [|k IH]; intros m Hk fuel Hf; destruct m as [|b m]; destruct fuel; cbn [length] in *; try lia; try done.
  cbn [chunks_fuel]. f_equal. apply IH; [|lia]. unfold zdrop. rewrite length_drop. cbn [length]. lia.
Qed.

Lemma chunks_cons c m : zlen c = n -> chunks (c ++ m) = c :: chunks m.
Proof.
  intros Hc. unfold PieceSize in Hn. unfold chunks at 1. destruct c as [|b c]; [change (zlen (@nil byte)) with 0 in Hc; lia|].
  cbn [app length chunks_fuel]. f_equal.
  - by apply (ztake_app n (b :: c)).
  - pose proof (zdrop_app n (b :: c) m (eq_sym Hc)) as E. cbn [app] in E. rewrite E.
    apply chunks_fuel_enough. rewrite length_app. lia.
Qed.

Lemma chunks_last c : 0 < zlen c <= n -> chunks c = [c].
Proof.
  intros Hc. unfold chunks. destruct c as [|b c]; [change (zlen (@nil byte)) with 0 in Hc; lia|].
  cbn [length chunks_fuel]. rewrite ztake_all, zdrop_all by lia. by destruct (length c).
Qed.

(** Messages of whole pieces. *)
Inductive whole : list byte -> Prop :=
  | whole_nil : whole []
  | whole_cons c m : zlen c = n -> whole m -> whole (c ++ m).

Lemma whole_app m k : whole m -> whole k -> whole (m ++ k).
Proof. induction 1 as [|c m Hc Hm IH]; intros Hk; [done|]. rewrite <- app_assoc. constructor; auto. Qed.

Lemma whole_one c : zlen c = n -> whole c.
Proof. intros Hc. rewrite <- (app_nil_r c). by constructor; [|constructor]. Qed.

Lemma chunks_app m k : whole m -> chunks (m ++ k) = chunks m ++ chunks k.
Proof.
  induction 1 as [|c m Hc Hm IH]; [done|]. by rewrite <- app_assoc, !(chunks_cons c), IH by done.
Qed.

Lemma whole_of_length k : forall m, zlen m = n * Z.of_nat k -> whole m.
Proof.
  unfold PieceSize in Hn. induction k as [|k IH]; intros m Hm.
  - assert (zlen m = 0) as Hz by lia. apply (zlen_zero m) in Hz as ->. constructor.
  - rewrite <- (ztake_zdrop n m). constructor; [rewrite zlen_ztake; nia|]. apply IH. rewrite zlen_zdrop; nia.
Qed.

Lemma whole_length m : whole m -> zlen m mod n = 0.
Proof.
  unfold PieceSize in Hn. induction 1 as [|c m Hc Hm IH]; [by apply Z.mod_0_l; lia|].
  rewrite zlen_app, Hc, Z.add_mod, Z.mod_same, IH, Z.add_0_l, Z.mod_0_l by lia. done.
Qed.

(** Folding over the pieces of a message. *)
Definition fold_pieces {H} (f : H -> list byte -> H) (h : H) (m : list byte) : H := foldl f h (chunks m).

Lemma fold_pieces_app {H} (f : H -> list byte -> H) h m k :
  whole m -> fold_pieces f h (m ++ k) = fold_pieces f (fold_pieces f h m) k.
Proof. intros Hm. unfold fold_pieces. by rewrite chunks_app, foldl_app by done. Qed.

Lemma fold_pieces_one {H} (f : H -> list byte -> H) h c : zlen c = n -> fold_pieces f h c = f h c.
Proof.
  intros Hc. unfold fold_pieces. unfold PieceSize in Hn. by rewrite chunks_last by lia.
Qed.

Lemma fold_pieces_cons {H} (f : H -> list byte -> H) h c m :
  zlen c = n -> fold_pieces f h (c ++ m) = fold_pieces f (f h c) m.
Proof. intros Hc. rewrite fold_pieces_app by (by apply whole_one). by rewrite (fold_pieces_one f h c) by done. Qed.

End Pieces.
