(* ===== verification/Poly1305.v ===== *)
(** Poly1305 ([crypto/poly1305.c]): the message authentication code, incrementally over any
    number of updates, in both of the implementations the preprocessor chooses from: three
    limbs of 44, 44 and 42 bits with 128-bit products, and five limbs of 26 bits with
    64-bit products.

    What the two share (buffering, [update], [auth], [verify]) is written against the
    class [Impl] of the operations on limbs. A byte array is a list; a pointer into it is
    the list of the bytes from it. A write past the end of the sixteen-byte buffer is
    undefined. *)

From S2P Require Import Prelude Words.

(** * What an implementation provides *)

Module poly1305.

Definition block_size : Z := 16.

Class Impl := {
  limbs : Type;
  pads : Type;
  zero_limbs : limbs;
  zero_pads : pads;
  key_limbs : list byte -> limbs;
  key_pads : list byte -> pads;
  (** One iteration of the loop over the blocks, by [final] and [r]. *)
  block_step : bool -> limbs -> list byte -> limbs -> limbs;
  finish_limbs : limbs -> pads -> list byte;
}.

Section Generic.
Context `{I : Impl}.

(** [rats_poly1305_state_internal_t]. *)
Record state := mkState {
  r : limbs;
  h : limbs;
  pad : pads;
  leftover : Z;
  buffer : list byte;
  final : bool;
}.

(** [buf] is what the uninitialised buffer holds. *)
Definition init (buf key : list byte) : state :=
  mkState (key_limbs key) zero_limbs (key_pads key) 0 buf false.

Fixpoint block_loop (fuel : nat) (step : list byte -> limbs -> limbs) (m : list byte) (h : limbs) : limbs :=
  match fuel with
  | O => h
  | S fuel =>
      if block_size <=? zlen m
      then block_loop fuel step (zdrop block_size m) (step (ztake block_size m) h)
      else h
  end.

Definition with_buffer (n : Z) (buf : list byte) (fin : bool) (st : state) : state :=
  mkState (r st) (h st) (pad st) n buf fin.

(** [rats_poly1305_blocks]. *)
Definition poly_blocks (m : list byte) (st : state) : state :=
  mkState (r st) (block_loop (length m) (block_step (final st) (r st)) m (h st))
    (pad st) (leftover st) (buffer st) (final st).

(** The full blocks, then what is left over. *)
Definition update_rest (m : list byte) (st : state) : outcome state :=
  let want := Z.land (zlen m) (Z.lnot (block_size - 1)) in
  let st := if block_size <=? zlen m then poly_blocks (ztake want m) st else st in
  let m := if block_size <=? zlen m then zdrop want m else m in
  if zlen m =? 0 then Ret st
  else
    buf ← poke (leftover st) m (buffer st);
    Ret (with_buffer (leftover st + zlen m) buf (final st) st).

Definition update (m : list byte) (st : state) : outcome state :=
  if leftover st =? 0 then update_rest m st
  else
    let want := Z.min (block_size - leftover st) (zlen m) in
    buf ← poke (leftover st) (ztake want m) (buffer st);
    let st := with_buffer (leftover st + want) buf (final st) st in
    if leftover st <? block_size then Ret st
    else update_rest (zdrop want m) (with_buffer 0 (buffer st) (final st) (poly_blocks (buffer st) st)).

(** The limbs, the multiplier and the pad are zeroed; the buffer is left as it is. *)
Definition zeroed (st : state) : state :=
  mkState zero_limbs zero_limbs zero_pads (leftover st) (buffer st) (final st).

Definition finish (st : state) : outcome (list byte * state) :=
  st ← (if leftover st =? 0 then Ret st
        else
          buf ← poke (leftover st) (x01 :: replicate (Z.to_nat (block_size - (leftover st + 1))) x00) (buffer st);
          let st := with_buffer (leftover st) buf true st in
          Ret (poly_blocks buf st));
  Ret (finish_limbs (h st) (pad st), zeroed st).

Definition auth (buf m key : list byte) : outcome (list byte) :=
  st ← update m (init buf key);
  '(mac, _) ← finish st;
  Ret mac.

End Generic.
Arguments state : clear implicits.
Arguments state {I}.

Definition verify (mac1 mac2 : list byte) : Z :=
  let dif := differences mac1 mac2 in
  let dif := Z.shiftr (u32 (dif - 1)) 31 in
  Z.land dif 1.

Definition nacl_key : list byte := map byte_of
  [0xee;0xa6;0xa7;0x25;0x1c;0x1e;0x72;0x91; 0x6d;0x11;0xc2;0xcb;0x21;0x4d;0x3c;0x25;
   0x25;0x39;0x12;0x1d;0x8e;0x23;0x4e;0x65; 0x2d;0x65;0x1f;0xa4;0xc8;0xcf;0xf8;0x80].

Definition nacl_msg : list byte := map byte_of
  [0x8e;0x99;0x3b;0x9f;0x48;0x68;0x12;0x73; 0xc2;0x96;0x50;0xba;0x32;0xfc;0x76;0xce;
   0x48;0x33;0x2e;0xa7;0x16;0x4d;0x96;0xa4; 0x47;0x6f;0xb8;0xc5;0x31;0xa1;0x18;0x6a;
   0xc0;0xdf;0xc1;0x7c;0x98;0xdc;0xe8;0x7b; 0x4d;0xa7;0xf0;0x11;0xec;0x48;0xc9;0x72;
   0x71;0xd2;0xc2;0x0f;0x9b;0x92;0x8f;0xe2; 0x27;0x0d;0x6f;0xb8;0x63;0xd5;0x17;0x38;
   0xb4;0x8e;0xee;0xe3;0x14;0xa7;0xcc;0x8a; 0xb9;0x32;0x16;0x45;0x48;0xe5;0x26;0xae;
   0x90;0x22;0x43;0x68;0x51;0x7a;0xcf;0xea; 0xbd;0x6b;0xb3;0x73;0x2b;0xc0;0xe9;0xda;
   0x99;0x83;0x2b;0x61;0xca;0x01;0xb6;0xde; 0x56;0x24;0x4a;0x9e;0x88;0xd5;0xf9;0xb3;
   0x79;0x73;0xf6;0x22;0xa4;0x3d;0x14;0xa6; 0x59;0x9b;0x1f;0x65;0x4c;0xb4;0x5a;0x74;
   0xe3;0x55;0xa5].

Definition nacl_mac : list byte := map byte_of
  [0xf3;0xff;0xc7;0x70;0x3f;0x94;0x00;0xe5; 0x2a;0x7d;0xfb;0x4b;0x3d;0x33;0x05;0xd9].

Definition power_on_self_test `{Impl} (buf : list byte) : outcome Z :=
  mac ← auth buf nacl_msg nacl_key;
  Ret (Z.land 1 (verify nacl_mac mac)).

End poly1305.

(** * The 64-bit implementation *)

Module poly1305_64.

Definition M44 : Z := 0xfffffffffff.
Definition M42 : Z := 0x3ffffffffff.

Definition U8TO64 (p : list byte) : Z := load64 p.
Definition U64TO8 (v : Z) : list byte := store64 v.

Definition limbs64 : Type := Z * Z * Z.

Definition key_limbs64 (key : list byte) : limbs64 :=
  let t0 := U8TO64 key in
  let t1 := U8TO64 (zdrop 8 key) in
  (Z.land t0 0xffc0fffffff,
   Z.land (Z.lor (Z.shiftr t0 44) (u64 (Z.shiftl t1 20))) 0xfffffc0ffff,
   Z.land (Z.shiftr t1 24) 0x00ffffffc0f).

Definition key_pads64 (key : list byte) : Z * Z := (U8TO64 (zdrop 16 key), U8TO64 (zdrop 24 key)).

(** The block is added, the sum multiplied and reduced. *)
Definition block_step64 (final : bool) (r : limbs64) : list byte -> limbs64 -> limbs64 :=
  let hibit := if final then 0 else Z.shiftl 1 40 in
  let '(r0, r1, r2) := r in
  let s1 := u64 (r1 * 20) in
  let s2 := u64 (r2 * 20) in
  fun m h =>
  let '(h0, h1, h2) := h in
  let t0 := U8TO64 m in
  let t1 := U8TO64 (zdrop 8 m) in
  let h0 := u64 (h0 + Z.land t0 M44) in
  let h1 := u64 (h1 + Z.land (Z.lor (Z.shiftr t0 44) (u64 (Z.shiftl t1 20))) M44) in
  let h2 := u64 (h2 + Z.lor (Z.land (Z.shiftr t1 24) M42) hibit) in
  let d0 := u128 (u128 (h0 * r0 + h1 * s2) + h2 * s1) in
  let d1 := u128 (u128 (h0 * r1 + h1 * r0) + h2 * s2) in
  let d2 := u128 (u128 (h0 * r2 + h1 * r1) + h2 * r0) in
  let c := u64 (Z.shiftr d0 44) in let h0 := Z.land (u64 d0) M44 in
  let d1 := u128 (d1 + c) in let c := u64 (Z.shiftr d1 44) in let h1 := Z.land (u64 d1) M44 in
  let d2 := u128 (d2 + c) in let c := u64 (Z.shiftr d2 42) in let h2 := Z.land (u64 d2) M42 in
  let h0 := u64 (h0 + u64 (c * 5)) in let c := Z.shiftr h0 44 in let h0 := Z.land h0 M44 in
  let h1 := u64 (h1 + c) in
  (h0, h1, h2).

(** Fully carry [h]. *)
Definition full_carry64 (h : limbs64) : limbs64 :=
  let '(h0, h1, h2) := h in
  let c := Z.shiftr h1 44 in let h1 := Z.land h1 M44 in
  let h2 := u64 (h2 + c) in let c := Z.shiftr h2 42 in let h2 := Z.land h2 M42 in
  let h0 := u64 (h0 + u64 (c * 5)) in let c := Z.shiftr h0 44 in let h0 := Z.land h0 M44 in
  let h1 := u64 (h1 + c) in let c := Z.shiftr h1 44 in let h1 := Z.land h1 M44 in
  let h2 := u64 (h2 + c) in let c := Z.shiftr h2 42 in let h2 := Z.land h2 M42 in
  let h0 := u64 (h0 + u64 (c * 5)) in let c := Z.shiftr h0 44 in let h0 := Z.land h0 M44 in
  let h1 := u64 (h1 + c) in
  (h0, h1, h2).

(** Compute [h + -p] and select [h] if [h < p], or [h + -p] if [h >= p]. *)
Definition select_reduced64 (h : limbs64) : limbs64 :=
  let '(h0, h1, h2) := h in
  let g0 := u64 (h0 + 5) in let c := Z.shiftr g0 44 in let g0 := Z.land g0 M44 in
  let g1 := u64 (h1 + c) in let c := Z.shiftr g1 44 in let g1 := Z.land g1 M44 in
  let g2 := u64 (u64 (h2 + c) - Z.shiftl 1 42) in
  let c := u64 (Z.shiftr g2 63 - 1) in
  let g0 := Z.land g0 c in let g1 := Z.land g1 c in let g2 := Z.land g2 c in
  let c := u64 (Z.lnot c) in
  (Z.lor (Z.land h0 c) g0, Z.lor (Z.land h1 c) g1, Z.lor (Z.land h2 c) g2).

(** [h = (h + pad)]. *)
Definition add_pad64 (pad : Z * Z) (h : limbs64) : limbs64 :=
  let '(h0, h1, h2) := h in
  let '(t0, t1) := pad in
  let h0 := u64 (h0 + Z.land t0 M44) in let c := Z.shiftr h0 44 in let h0 := Z.land h0 M44 in
  let h1 := u64 (h1 + u64 (Z.land (Z.lor (Z.shiftr t0 44) (u64 (Z.shiftl t1 20))) M44 + c)) in
  let c := Z.shiftr h1 44 in let h1 := Z.land h1 M44 in
  let h2 := u64 (h2 + u64 (Z.land (Z.shiftr t1 24) M42 + c)) in let h2 := Z.land h2 M42 in
  (h0, h1, h2).

(** [mac = h % (2^128)]. *)
Definition mac_bytes64 (h : limbs64) : list byte :=
  let '(h0, h1, h2) := h in
  let h0 := Z.lor h0 (u64 (Z.shiftl h1 44)) in
  let h1 := Z.lor (Z.shiftr h1 20) (u64 (Z.shiftl h2 24)) in
  U64TO8 h0 ++ U64TO8 h1.

Definition finish_limbs64 (h : limbs64) (pad : Z * Z) : list byte :=
  mac_bytes64 (add_pad64 pad (select_reduced64 (full_carry64 h))).

#[export] Instance impl64 : poly1305.Impl := {
  poly1305.limbs := limbs64;
  poly1305.pads := Z * Z;
  poly1305.zero_limbs := (0, 0, 0);
  poly1305.zero_pads := (0, 0);
  poly1305.key_limbs := key_limbs64;
  poly1305.key_pads := key_pads64;
  poly1305.block_step := block_step64;
  poly1305.finish_limbs := finish_limbs64;
}.

End poly1305_64.

(** * The 32-bit implementation *)

(** [unsigned long] has 32 bits where this implementation is chosen. *)
Module poly1305_32.

Definition M26 : Z := 0x3ffffff.

Definition U8TO32 (p : list byte) : Z := load32 p.
Definition U32TO8 (v : Z) : list byte := store32 v.

Definition limbs32 : Type := Z * Z * Z * Z * Z.
Definition pads32 : Type := Z * Z * Z * Z.

Definition key_limbs32 (key : list byte) : limbs32 :=
  (Z.land (U8TO32 key) 0x3ffffff,
   Z.land (Z.shiftr (U8TO32 (zdrop 3 key)) 2) 0x3ffff03,
   Z.land (Z.shiftr (U8TO32 (zdrop 6 key)) 4) 0x3ffc0ff,
   Z.land (Z.shiftr (U8TO32 (zdrop 9 key)) 6) 0x3f03fff,
   Z.land (Z.shiftr (U8TO32 (zdrop 12 key)) 8) 0x00fffff).

Definition key_pads32 (key : list byte) : pads32 :=
  (U8TO32 (zdrop 16 key), U8TO32 (zdrop 20 key), U8TO32 (zdrop 24 key), U8TO32 (zdrop 28 key)).

(** The sum of five products in 64 bits. *)
Definition dot5 (a b c d e : Z) : Z := u64 (u64 (u64 (u64 (u64 a + u64 b) + u64 c) + u64 d) + u64 e).

Definition add_block32 (hibit : Z) (m : list byte) (h : limbs32) : limbs32 :=
  let '(h0, h1, h2, h3, h4) := h in
  (u32 (h0 + Z.land (U8TO32 m) M26),
   u32 (h1 + Z.land (Z.shiftr (U8TO32 (zdrop 3 m)) 2) M26),
   u32 (h2 + Z.land (Z.shiftr (U8TO32 (zdrop 6 m)) 4) M26),
   u32 (h3 + Z.land (Z.shiftr (U8TO32 (zdrop 9 m)) 6) M26),
   u32 (h4 + Z.lor (Z.shiftr (U8TO32 (zdrop 12 m)) 8) hibit)).

(** (partial) [h %= p]. *)
Definition carry32 (d0 d1 d2 d3 d4 : Z) : limbs32 :=
  let c := u32 (Z.shiftr d0 26) in let h0 := Z.land (u32 d0) M26 in
  let d1 := u64 (d1 + c) in let c := u32 (Z.shiftr d1 26) in let h1 := Z.land (u32 d1) M26 in
  let d2 := u64 (d2 + c) in let c := u32 (Z.shiftr d2 26) in let h2 := Z.land (u32 d2) M26 in
  let d3 := u64 (d3 + c) in let c := u32 (Z.shiftr d3 26) in let h3 := Z.land (u32 d3) M26 in
  let d4 := u64 (d4 + c) in let c := u32 (Z.shiftr d4 26) in let h4 := Z.land (u32 d4) M26 in
  let h0 := u32 (h0 + u32 (c * 5)) in let c := Z.shiftr h0 26 in let h0 := Z.land h0 M26 in
  let h1 := u32 (h1 + c) in
  (h0, h1, h2, h3, h4).

Definition block_step32 (final : bool) (r : limbs32) : list byte -> limbs32 -> limbs32 :=
  let hibit := if final then 0 else Z.shiftl 1 24 in
  let '(r0, r1, r2, r3, r4) := r in
  let s1 := u32 (r1 * 5) in
  let s2 := u32 (r2 * 5) in
  let s3 := u32 (r3 * 5) in
  let s4 := u32 (r4 * 5) in
  fun m h =>
  let '(h0, h1, h2, h3, h4) := add_block32 hibit m h in
  carry32
    (dot5 (h0 * r0) (h1 * s4) (h2 * s3) (h3 * s2) (h4 * s1))
    (dot5 (h0 * r1) (h1 * r0) (h2 * s4) (h3 * s3) (h4 * s2))
    (dot5 (h0 * r2) (h1 * r1) (h2 * r0) (h3 * s4) (h4 * s3))
    (dot5 (h0 * r3) (h1 * r2) (h2 * r1) (h3 * r0) (h4 * s4))
    (dot5 (h0 * r4) (h1 * r3) (h2 * r2) (h3 * r1) (h4 * r0)).

Definition full_carry32 (h : limbs32) : limbs32 :=
  let '(h0, h1, h2, h3, h4) := h in
  let c := Z.shiftr h1 26 in let h1 := Z.land h1 M26 in
  let h2 := u32 (h2 + c) in let c := Z.shiftr h2 26 in let h2 := Z.land h2 M26 in
  let h3 := u32 (h3 + c) in let c := Z.shiftr h3 26 in let h3 := Z.land h3 M26 in
  let h4 := u32 (h4 + c) in let c := Z.shiftr h4 26 in let h4 := Z.land h4 M26 in
  let h0 := u32 (h0 + u32 (c * 5)) in let c := Z.shiftr h0 26 in let h0 := Z.land h0 M26 in
  let h1 := u32 (h1 + c) in
  (h0, h1, h2, h3, h4).

Definition select_reduced32 (h : limbs32) : limbs32 :=
  let '(h0, h1, h2, h3, h4) := h in
  let g0 := u32 (h0 + 5) in let c := Z.shiftr g0 26 in let g0 := Z.land g0 M26 in
  let g1 := u32 (h1 + c) in let c := Z.shiftr g1 26 in let g1 := Z.land g1 M26 in
  let g2 := u32 (h2 + c) in let c := Z.shiftr g2 26 in let g2 := Z.land g2 M26 in
  let g3 := u32 (h3 + c) in let c := Z.shiftr g3 26 in let g3 := Z.land g3 M26 in
  let g4 := u32 (u32 (h4 + c) - Z.shiftl 1 26) in
  let mask := u32 (Z.shiftr g4 31 - 1) in
  let g0 := Z.land g0 mask in let g1 := Z.land g1 mask in let g2 := Z.land g2 mask in
  let g3 := Z.land g3 mask in let g4 := Z.land g4 mask in
  let mask := u32 (Z.lnot mask) in
  (Z.lor (Z.land h0 mask) g0, Z.lor (Z.land h1 mask) g1, Z.lor (Z.land h2 mask) g2,
   Z.lor (Z.land h3 mask) g3, Z.lor (Z.land h4 mask) g4).

(** [h = h % (2^128)], as four words. *)
Definition pack32 (h : limbs32) : Z * Z * Z * Z :=
  let '(h0, h1, h2, h3, h4) := h in
  (Z.land (Z.lor h0 (u32 (Z.shiftl h1 26))) 0xffffffff,
   Z.land (Z.lor (Z.shiftr h1 6) (u32 (Z.shiftl h2 20))) 0xffffffff,
   Z.land (Z.lor (Z.shiftr h2 12) (u32 (Z.shiftl h3 14))) 0xffffffff,
   Z.land (Z.lor (Z.shiftr h3 18) (u32 (Z.shiftl h4 8))) 0xffffffff).

(** [mac = (h + pad) % (2^128)]. *)
Definition add_pad32 (pad : pads32) (h : Z * Z * Z * Z) : list byte :=
  let '(h0, h1, h2, h3) := h in
  let '(p0, p1, p2, p3) := pad in
  let f := u64 (h0 + p0) in let h0 := u32 f in
  let f := u64 (u64 (h1 + p1) + Z.shiftr f 32) in let h1 := u32 f in
  let f := u64 (u64 (h2 + p2) + Z.shiftr f 32) in let h2 := u32 f in
  let f := u64 (u64 (h3 + p3) + Z.shiftr f 32) in let h3 := u32 f in
  U32TO8 h0 ++ U32TO8 h1 ++ U32TO8 h2 ++ U32TO8 h3.

Definition finish_limbs32 (h : limbs32) (pad : pads32) : list byte :=
  add_pad32 pad (pack32 (select_reduced32 (full_carry32 h))).

#[export] Instance impl32 : poly1305.Impl := {
  poly1305.limbs := limbs32;
  poly1305.pads := pads32;
  poly1305.zero_limbs := (0, 0, 0, 0, 0);
  poly1305.zero_pads := (0, 0, 0, 0);
  poly1305.key_limbs := key_limbs32;
  poly1305.key_pads := key_pads32;
  poly1305.block_step := block_step32;
  poly1305.finish_limbs := finish_limbs32;
}.

End poly1305_32.

(** * The self test *)

(** Both implementations pass the test the source carries. *)
Example self_test_64 : poly1305.power_on_self_test (H := poly1305_64.impl64) (replicate 16 x00) = Ret 1.
Proof. by vm_compute. Qed.
Example self_test_32 : poly1305.power_on_self_test (H := poly1305_32.impl32) (replicate 16 x00) = Ret 1.
Proof. by vm_compute. Qed.
