(* ===== verification/PolyReference.v ===== *)
(** Poly1305 computes the polynomial code it is named after: what arithmetic on limbs must
    do for it (the class [Arith]), and that with such arithmetic the code of a message is
    the reference, however the message is split into updates. *)

From S2P Require Import Prelude Words Pieces Poly1305.
Import poly1305.

(** * The reference *)

Definition p1305 : Z := 2 ^ 130 - 5.
Definition kClamp : Z := 0x0ffffffc0ffffffc0ffffffc0fffffff.

Definition r_of (key : list byte) : Z := Z.land (le_dec (ztake 16 key)) kClamp.
Definition s_of (key : list byte) : Z := le_dec (ztake 16 (zdrop 16 key)).

(** The accumulator after the pieces: each, with a one bit above it, is added and the sum
    multiplied by [r]. *)
Definition poly_eval (r acc : Z) (cs : list (list byte)) : Z :=
  foldl (fun acc c => (acc + le_dec (c ++ [x01])) * r mod p1305) acc cs.

Definition poly1305_ref (key m : list byte) : list byte :=
  le_enc 16 ((poly_eval (r_of key) 0 (chunks 16 m) + s_of key) mod 2 ^ 128).

(** * What the limbs must compute *)

Class Arith (I : Impl) := {
  val : limbs -> Z;
  pad_val : pads -> Z;
  r_ok : limbs -> Prop;
  h_ok : limbs -> Prop;
  pad_ok : pads -> Prop;
  zero_ok : h_ok zero_limbs /\ val zero_limbs = 0;
  key_limbs_ok key : zlen key = 32 -> r_ok (key_limbs key) /\ val (key_limbs key) = r_of key;
  key_pads_ok key : zlen key = 32 -> pad_ok (key_pads key) /\ pad_val (key_pads key) = s_of key;
  block_step_ok final r m h :
    r_ok r -> h_ok h -> zlen m = 16 ->
    h_ok (block_step final r m h)
    /\ val (block_step final r m h) mod p1305
       = (val h + (le_dec m + (if final then 0 else 2 ^ 128))) * val r mod p1305;
  finish_limbs_ok h p :
    h_ok h -> pad_ok p -> finish_limbs h p = le_enc 16 ((val h mod p1305 + pad_val p) mod 2 ^ 128);
}.

(** * The accumulator *)

Section Exact.
Context {I : Impl} {A : Arith I}.

Definition acc_ok (a : Z) (h : limbs) : Prop := h_ok h /\ val h mod p1305 = a.

Lemma poly_eval_app r a cs ds : poly_eval r a (cs ++ ds) = poly_eval r (poly_eval r a cs) ds.
Proof. apply foldl_app. Qed.

Lemma step_mod a b x r : a mod p1305 = b -> (a + x) * r mod p1305 = (b + x) * r mod p1305.
Proof. intros <-. rewrite <- Z.mul_mod_idemp_l, <- Z.add_mod_idemp_l, Z.mul_mod_idemp_l by done. done. Qed.

Lemma full_block_value c : zlen c = 16 -> le_dec (c ++ [x01]) = le_dec c + 2 ^ 128.
Proof. intros Hc. rewrite le_dec_app, Hc. change (le_dec [x01]) with 1. lia. Qed.

(** One iteration, on a whole piece and on the padded last one. *)
Lemma step_acc (final : bool) r m a h x :
  r_ok r -> acc_ok a h -> zlen m = 16 -> x = le_dec m + (if final then 0 else 2 ^ 128) ->
  acc_ok ((a + x) * val r mod p1305) (block_step final r m h).
Proof.
  intros Hr [Hh Ha] Hm ->. destruct (block_step_ok final r m h Hr Hh Hm) as [Hh' Ha']. split; [done|].
  rewrite Ha'. by apply step_mod.
Qed.

Lemma block_loop_acc r m :
  r_ok r -> whole 16 m -> forall fuel a h, (length m <= fuel)%nat ->
  acc_ok a h -> acc_ok (poly_eval (val r) a (chunks 16 m)) (block_loop fuel (block_step false r) m h).
Proof.
  intros HK. induction 1 as [|c m Hc Hm IH]; intros fuel a h Hf Ha.
  - by destruct fuel.
  - assert (1 <= length c)%nat by (unfold zlen in Hc; lia). rewrite length_app in Hf.
    destruct fuel as [|fuel]; [lia|]. cbn [block_loop]. unfold block_size.
    assert (16 <=? zlen (c ++ m) = true) as -> by (rewrite zlen_app; pose proof (zlen_nonneg m); lia).
    rewrite zdrop_app, ztake_app, chunks_cons by done. cbn [poly_eval foldl]. apply IH; [lia|].
    apply step_acc; [done..|]. by apply full_block_value.
Qed.

(** * Updates *)

Definition keyed (key : list byte) (st : state) : Prop :=
  r_ok (r st) /\ val (r st) = r_of key /\ pad_ok (pad st) /\ pad_val (pad st) = s_of key.

(** The state of a message: its whole pieces are in the accumulator, the rest is in the
    buffer. *)
Record holds (key msg : list byte) (st : state) : Prop := mkHolds {
  hd_key : keyed key st;
  hd_buffer : zlen (buffer st) = 16;
  hd_final : final st = false;
  hd_left : 0 <= leftover st < 16;
  hd_msg : exists full, whole 16 full /\ msg = full ++ ztake (leftover st) (buffer st)
             /\ acc_ok (poly_eval (r_of key) 0 (chunks 16 full)) (h st);
}.

Lemma init_holds buf key : zlen key = 32 -> zlen buf = 16 -> holds key [] (init buf key).
Proof.
  intros Hk Hb. destruct (key_limbs_ok key Hk) as [K1 K2]. destruct (key_pads_ok key Hk) as [P1 P2].
  destruct zero_ok as [Z1 Z2]. split; [done..|]. exists []. split; [constructor|]. split; [done|].
  split; [done|]. cbn [init h]. by rewrite Z2.
Qed.

Lemma poly_blocks_acc key full m st :
  keyed key st -> final st = false -> whole 16 full -> whole 16 m ->
  acc_ok (poly_eval (r_of key) 0 (chunks 16 full)) (h st) ->
  acc_ok (poly_eval (r_of key) 0 (chunks 16 (full ++ m))) (h (poly_blocks m st)).
Proof.
  intros HK Hf Hfull Hm Ha. destruct HK as (HK & Hr & _). unfold poly_blocks. rewrite Hf.
  rewrite chunks_app, poly_eval_app, <- Hr in * by done. by apply block_loop_acc.
Qed.

Lemma whole_part n : Z.land n (Z.lnot 15) = 16 * (n / 16).
Proof.
  change 15 with (Z.ones 4). rewrite <- Z.ldiff_land, Z.ldiff_ones_r by lia.
  rewrite Z.shiftl_mul_pow2, Z.shiftr_div_pow2 by lia. change (2 ^ 4) with 16. lia.
Qed.

Lemma update_rest_holds key msg m st :
  holds key msg st -> leftover st = 0 -> returns (update_rest m st) (holds key (msg ++ m)).
Proof.
  intros [HK Hb Hf Hl (full & Hfull & -> & Ha)] H0. rewrite H0, ztake_0, app_nil_r in *.
  unfold update_rest, block_size. change (16 - 1) with 15. rewrite whole_part.
  pose proof (zlen_nonneg m) as Hm. pose proof (Z.div_mod (zlen m) 16 ltac:(lia)) as Hd.
  pose proof (Z.mod_pos_bound (zlen m) 16 ltac:(lia)) as Hr. pose proof (Z.div_pos (zlen m) 16 Hm ltac:(lia)) as Hq.
  set (q := zlen m / 16) in *. set (st1 := if 16 <=? zlen m then poly_blocks (ztake (16 * q) m) st else st).
  set (m1 := if 16 <=? zlen m then zdrop (16 * q) m else m).
  assert (keyed key st1 /\ buffer st1 = buffer st /\ final st1 = false /\ leftover st1 = 0 /\ zlen m1 < 16
    /\ exists full', whole 16 full' /\ full ++ m = full' ++ m1
       /\ acc_ok (poly_eval (r_of key) 0 (chunks 16 full')) (h st1))
    as (HK1 & Hb1 & Hf1 & Hl1 & Hs1 & full' & Hfull' & Em & Ha1).
  { unfold st1, m1. destruct (Z.leb_spec 16 (zlen m)) as [Hge|Hlt].
    - assert (whole 16 (ztake (16 * q) m)) as Hbl by (apply (whole_of_length 16 (Z.to_nat q)); rewrite zlen_ztake; lia).
      split_and!; [done..| |]; [rewrite zlen_zdrop; lia|].
      exists (full ++ ztake (16 * q) m). split_and!; [by apply whole_app| |by apply poly_blocks_acc].
      by rewrite <- app_assoc, ztake_zdrop.
    - split_and!; [done..|]. by exists full. }
  clearbody st1 m1. destruct (Z.eqb_spec (zlen m1) 0) as [Hz|Hz].
  - apply returns_Ret. apply zlen_zero in Hz as ->. rewrite Em, app_nil_r.
    split; [done|congruence|done|lia|]. exists full'. by rewrite Hl1, ztake_0, app_nil_r.
  - pose proof (zlen_nonneg m1). rewrite Hl1, Hb1, poke_in by lia. unfold overwrite. rewrite Z.add_0_l. apply returns_Ret. rewrite ztake_0. cbn [app].
    split; [done| |done|cbn [with_buffer leftover]; lia|]; cbn [with_buffer buffer leftover].
    + rewrite zlen_app, zlen_zdrop; lia.
    + exists full'. by rewrite ztake_app, Em by done.
Qed.

Lemma update_holds key msg m st : holds key msg st -> returns (update m st) (holds key (msg ++ m)).
Proof.
  intros Hh. unfold update. destruct (Z.eqb_spec (leftover st) 0) as [H0|H0]; [by apply update_rest_holds|].
  destruct Hh as [HK Hb Hf Hl (full & Hfull & -> & Ha)]. unfold block_size.
  set (want := Z.min (16 - leftover st) (zlen m)). pose proof (zlen_nonneg m) as Hm.
  assert (0 <= want <= zlen m /\ leftover st + want <= 16) as [Hw1 Hw2] by lia.
  rewrite poke_in by (rewrite ?zlen_ztake; lia). unfold overwrite. rewrite zlen_ztake by lia.
  cbn [mbind outcome_bind with_buffer leftover buffer final].
  set (buf := ztake (leftover st) (buffer st) ++ ztake want m ++ zdrop (leftover st + want) (buffer st)).
  assert (zlen buf = 16) as Hbuf by (unfold buf; rewrite !zlen_app, !zlen_ztake, zlen_zdrop; lia).
  assert (ztake (leftover st + want) buf = ztake (leftover st) (buffer st) ++ ztake want m) as Ebuf.
  { unfold buf. rewrite app_assoc. apply ztake_app. rewrite zlen_app, !zlen_ztake; lia. }
  destruct (Z.ltb_spec (leftover st + want) 16) as [Hlt|Hge].
  - apply returns_Ret. split; [done|done|done|cbn [with_buffer leftover]; lia|]. exists full. cbn [with_buffer leftover buffer h].
    split; [done|]. split; [|done]. rewrite Ebuf, <- app_assoc. do 2 f_equal. symmetry. apply ztake_all. lia.
  - rewrite (ztake_all (leftover st + want) buf) in Ebuf by lia.
    replace ((full ++ ztake (leftover st) (buffer st)) ++ m) with ((full ++ buf) ++ zdrop want m)
      by (by rewrite Ebuf, <- !app_assoc, ztake_zdrop).
    apply update_rest_holds; [|done]. split; [done|done|done|done|]. exists (full ++ buf).
    split; [apply whole_app; [done|by apply whole_one]|]. split; [by rewrite ztake_0, app_nil_r|].
    by apply (poly_blocks_acc key full buf (with_buffer (leftover st + want) buf (final st) st)); [| |done|apply whole_one|].
Qed.

(** * Finishing *)

(** The padded last piece. *)
Lemma last_block_value rest n :
  zlen rest + 1 + Z.of_nat n = 16 -> le_dec (rest ++ x01 :: replicate n x00) = le_dec (rest ++ [x01]).
Proof. intros H. rewrite !le_dec_app. cbn [le_dec]. by rewrite le_dec_zeros. Qed.

Lemma finish_holds key msg st :
  holds key msg st -> returns (finish st) (fun r => r.1 = poly1305_ref key msg).
Proof.
  intros [HK Hb Hf Hl (full & Hfull & -> & Ha)]. pose proof HK as (HK1 & Hr & P1 & Hs).
  unfold finish, poly1305_ref, block_size. rewrite chunks_app, poly_eval_app, <- Hs by done.
  destruct (Z.eqb_spec (leftover st) 0) as [H0|H0]; cbn [mbind outcome_bind].
  - apply returns_Ret. cbn [fst]. rewrite H0, ztake_0, chunks_nil. cbn [poly_eval foldl].
    destruct Ha as [Ha <-]. by apply finish_limbs_ok.
  - set (rest := ztake (leftover st) (buffer st)) in *. set (n := Z.to_nat _).
    assert (zlen rest = leftover st) as Er by (unfold rest; rewrite zlen_ztake; lia).
    assert (zlen (x01 :: replicate n x00) = 16 - leftover st) as Ez by (rewrite zlen_cons, zlen_replicate; lia).
    rewrite poke_in by lia. unfold overwrite. cbn [mbind outcome_bind]. rewrite zdrop_all, app_nil_r by lia. fold rest. set (last := rest ++ _).
    assert (zlen last = 16) as Hlast by (unfold last; rewrite zlen_app, zlen_cons, zlen_replicate; lia).
    apply returns_Ret. rewrite (chunks_last 16 rest) by lia. cbn [fst poly_eval foldl].
    unfold poly_blocks. cbn [with_buffer final r h pad].
    assert (length last = 16%nat) as -> by (by apply Nat2Z.inj).
    cbn [block_loop]. unfold block_size. rewrite Hlast, (zdrop_all 16 last), (ztake_all 16 last) by lia.
    change (16 <=? 16) with true. change (16 <=? zlen []) with false. cbv iota.
    rewrite <- Hr. destruct (step_acc true (r st) last _ (h st) (le_dec (rest ++ [x01])) HK1 Ha Hlast) as [Hl' Hv'].
    { unfold last. rewrite last_block_value by lia. lia. }
    rewrite finish_limbs_ok by done. by rewrite Hv', Hr.
Qed.

(** * The code of a message *)

(** The updates of a message in order. *)
Definition update_all (ms : list (list byte)) (st : state) : outcome state :=
  foldl (fun st m => st ≫= update m) (Ret st) ms.

Lemma update_all_holds key ms : forall msg st,
  holds key msg st -> returns (update_all ms st) (holds key (msg ++ mjoin ms)).
Proof.
  unfold update_all. induction ms as [|m ms IH]; intros msg st Hh; cbn [foldl mjoin list_join].
  - by rewrite app_nil_r.
  - cbn [mbind outcome_bind]. destruct (returns_inv _ _ (update_holds key msg m st Hh)) as (st' & -> & Hst').
    rewrite app_assoc. by apply IH.
Qed.

(** The code of a message is the reference's, however the message is split. *)
Lemma updates_exact key buf ms :
  zlen key = 32 -> zlen buf = 16 ->
  returns (update_all ms (init buf key) ≫= finish) (fun r => r.1 = poly1305_ref key (mjoin ms)).
Proof.
  intros Hk Hb. eapply returns_bind; [by apply update_all_holds, init_holds|]. intros st Hst. by apply finish_holds.
Qed.

Lemma auth_exact key buf m :
  zlen key = 32 -> zlen buf = 16 -> auth buf m key = Ret (poly1305_ref key m).
Proof.
  intros Hk Hb. unfold auth.
  destruct (returns_inv _ _ (update_holds key [] m _ (init_holds buf key Hk Hb))) as (st & -> & Hst). cbn [mbind outcome_bind].
  destruct (returns_inv _ _ (finish_holds key _ st Hst)) as ([mac st'] & -> & E). cbn in E |- *. by rewrite E.
Qed.

End Exact.
