(* ===== verification/Poly64.v ===== *)
(** The 64-bit implementation of Poly1305: its limb arithmetic is arithmetic modulo
    [2^130 - 5]. *)

From S2P Require Import Prelude Words Poly1305 PolyReference.
Import poly1305_64.

(** * Limbs *)

Definition val3 (a0 a1 a2 : Z) : Z := a0 + 2 ^ 44 * a1 + 2 ^ 88 * a2.

Lemma M44_mod x : Z.land x M44 = x mod 2 ^ 44.
Proof. by apply (land_mask x 44). Qed.
Lemma M42_mod x : Z.land x M42 = x mod 2 ^ 42.
Proof. by apply (land_mask x 42). Qed.

(** The middle limb of two 64-bit words. *)
Lemma middle_limb t0 t1 :
  0 <= t0 < 2 ^ 64 -> 0 <= t1 < 2 ^ 64 ->
  Z.lor (Z.shiftr t0 44) (u64 (Z.shiftl t1 20)) = t0 / 2 ^ 44 + 2 ^ 20 * (t1 mod 2 ^ 44).
Proof.
  intros H0 H1. rewrite shiftr_div by lia. pose proof (div_range t0 44 64 ltac:(lia) H0) as Hd.
  by apply (lor_u64_shiftl (t0 / 2 ^ 44) t1 20).
Qed.

Lemma limbs_of_words t0 t1 :
  0 <= t0 < 2 ^ 64 -> 0 <= t1 < 2 ^ 64 ->
  let x := t0 + 2 ^ 64 * t1 in
  Z.land t0 M44 = x mod 2 ^ 44
  /\ Z.land (Z.lor (Z.shiftr t0 44) (u64 (Z.shiftl t1 20))) M44 = x / 2 ^ 44 mod 2 ^ 44
  /\ Z.shiftr t1 24 = x / 2 ^ 88 /\ 0 <= Z.shiftr t1 24 < 2 ^ 40.
Proof.
  intros H0 H1 x. rewrite middle_limb, !M44_mod, shiftr_div by (done || lia).
  pose proof (div_range t1 24 64 ltac:(lia) H1) as Hd.
  assert (x / 2 ^ 44 = t0 / 2 ^ 44 + 2 ^ 20 * t1) as E1.
  { unfold x. change (2 ^ 64) with (2 ^ 44 * 2 ^ 20).
    replace (t0 + 2 ^ 44 * 2 ^ 20 * t1) with (t0 + 2 ^ 20 * t1 * 2 ^ 44) by lia. rewrite Z.div_add by lia. lia. }
  split_and!; [| | |cbn in Hd |- *; lia|cbn in Hd |- *; lia].
  - unfold x. change (2 ^ 64) with (2 ^ 44 * 2 ^ 20).
    replace (t0 + 2 ^ 44 * 2 ^ 20 * t1) with (t0 + 2 ^ 20 * t1 * 2 ^ 44) by lia. by rewrite Z.mod_add by lia.
  - rewrite E1. rewrite (Z.div_mod t1 (2 ^ 44)) at 2 by lia.
    replace (t0 / 2 ^ 44 + 2 ^ 20 * (2 ^ 44 * (t1 / 2 ^ 44) + t1 mod 2 ^ 44))
      with (t0 / 2 ^ 44 + 2 ^ 20 * (t1 mod 2 ^ 44) + 2 ^ 20 * (t1 / 2 ^ 44) * 2 ^ 44) by lia.
    by rewrite Z.mod_add by lia.
  - change (2 ^ 88) with (2 ^ 44 * 2 ^ 44). rewrite <- Z.div_div, E1 by lia.
    change (2 ^ 44) with (2 ^ 20 * 2 ^ 24) at 2. rewrite <- Z.div_div by lia.
    rewrite (Z.mul_comm (2 ^ 20) t1), Z.div_add by lia.
    pose proof (div_range t0 44 64 ltac:(lia) H0). rewrite (Z.div_small (t0 / 2 ^ 44)) by (cbn in *; lia). done.
Qed.

Lemma val3_limbs x : val3 (x mod 2 ^ 44) (x / 2 ^ 44 mod 2 ^ 44) (x / 2 ^ 88) = x.
Proof.
  unfold val3. pose proof (split_at x 44 ltac:(lia)). pose proof (split_at (x / 2 ^ 44) 44 ltac:(lia)) as E.
  rewrite Z.div_div in E by lia. change (2 ^ 44 * 2 ^ 44) with (2 ^ 88) in E. lia.
Qed.

(** * One block *)

Definition limbs64_ok (a0 a1 a2 : Z) : Prop := 0 <= a0 < 2 ^ 44 /\ 0 <= a1 < 2 ^ 44 + 2 ^ 12 /\ 0 <= a2 < 2 ^ 42.
Definition key64_ok (k0 k1 k2 : Z) : Prop := 0 <= k0 < 2 ^ 44 /\ 0 <= k1 < 2 ^ 44 /\ 0 <= k2 < 2 ^ 40.

Lemma low44 d : Z.land (u64 d) M44 = d mod 2 ^ 44.
Proof. rewrite M44_mod. unfold u64. apply Z.mod_mod_divide. by exists (2 ^ 20). Qed.
Lemma low42 d : Z.land (u64 d) M42 = d mod 2 ^ 42.
Proof. rewrite M42_mod. unfold u64. apply Z.mod_mod_divide. by exists (2 ^ 22). Qed.
Lemma high44 d : 0 <= d < 2 ^ 108 -> u64 (Z.shiftr d 44) = d / 2 ^ 44.
Proof.
  intros H. rewrite shiftr_div by lia. apply u64_small.
  pose proof (div_range d 44 108 ltac:(lia) H) as Hd. exact Hd.
Qed.
Lemma high42 d : 0 <= d < 2 ^ 104 -> u64 (Z.shiftr d 42) = d / 2 ^ 42.
Proof.
  intros H. rewrite shiftr_div by lia. apply u64_small.
  pose proof (div_range d 42 104 ltac:(lia) H) as Hd. cbn in Hd |- *. lia.
Qed.

(** Products of bounded limbs. *)
Lemma prod_bound a b n k : 0 <= a < 2 ^ n -> 0 <= b < 2 ^ k -> 0 <= n -> 0 <= k -> 0 <= a * b <= 2 ^ (n + k).
Proof.
  intros Ha Hb Hn Hk. rewrite Z.pow_add_r by done. split; [nia|].
  apply Z.mul_le_mono_nonneg; lia.
Qed.

(** Carrying from limb to limb and folding what overflows 130 bits back. *)
Lemma carry_chain d0 d1 d2 :
  0 <= d0 < 2 ^ 94 -> 0 <= d1 < 2 ^ 94 -> 0 <= d2 < 2 ^ 94 ->
  let c := u64 (Z.shiftr d0 44) in let h0 := Z.land (u64 d0) M44 in
  let d1' := u128 (d1 + c) in let c := u64 (Z.shiftr d1' 44) in let h1 := Z.land (u64 d1') M44 in
  let d2' := u128 (d2 + c) in let c := u64 (Z.shiftr d2' 42) in let h2 := Z.land (u64 d2') M42 in
  let h0 := u64 (h0 + u64 (c * 5)) in let c := Z.shiftr h0 44 in let h0 := Z.land h0 M44 in
  let h1 := u64 (h1 + c) in
  limbs64_ok h0 h1 h2 /\ exists q, val3 h0 h1 h2 = val3 d0 d1 d2 - q * p1305.
Proof.
  intros D0 D1 D2. cbv zeta. rewrite !low44, !low42, (high44 d0) by lia.
  pose proof (split_at d0 44 ltac:(lia)) as S0. pose proof (mod_range d0 44 ltac:(lia)) as R0.
  pose proof (div_range d0 44 94 ltac:(lia) D0) as C0. change (94 - 44) with 50 in C0.
  set (c0 := d0 / 2 ^ 44) in *. rewrite (u128_small (d1 + c0)) by lia. rewrite (high44 (d1 + c0)) by lia.
  pose proof (split_at (d1 + c0) 44 ltac:(lia)) as S1. pose proof (mod_range (d1 + c0) 44 ltac:(lia)) as R1.
  pose proof (div_range (d1 + c0) 44 95 ltac:(lia) ltac:(lia)) as C1. change (95 - 44) with 51 in C1.
  set (c1 := (d1 + c0) / 2 ^ 44) in *. rewrite (u128_small (d2 + c1)) by lia. rewrite (high42 (d2 + c1)) by lia.
  pose proof (split_at (d2 + c1) 42 ltac:(lia)) as S2. pose proof (mod_range (d2 + c1) 42 ltac:(lia)) as R2.
  pose proof (div_range (d2 + c1) 42 95 ltac:(lia) ltac:(lia)) as C2. change (95 - 42) with 53 in C2.
  set (c2 := (d2 + c1) / 2 ^ 42) in *. rewrite (u64_small (c2 * 5)) by lia.
  rewrite (u64_small (d0 mod 2 ^ 44 + c2 * 5)) by lia. set (w := d0 mod 2 ^ 44 + c2 * 5) in *.
  rewrite shiftr_div by lia. pose proof (split_at w 44 ltac:(lia)) as S3.
  pose proof (mod_range w 44 ltac:(lia)) as R3.
  assert (0 <= w / 2 ^ 44 < 2 ^ 12) as C3.
  { split; [apply Z.div_pos; lia|]. apply Z.div_lt_upper_bound; lia. }
  set (c3 := w / 2 ^ 44) in *. rewrite u64_small by lia.
  split.
  - unfold limbs64_ok. lia.
  - exists c2. unfold val3, p1305. unfold w in *. lia.
Qed.

(** The products: schoolbook multiplication with [2^132 = 20] folded in. *)
Lemma products a0 a1 a2 k0 k1 k2 :
  0 <= a0 < 2 ^ 46 -> 0 <= a1 < 2 ^ 46 -> 0 <= a2 < 2 ^ 43 -> key64_ok k0 k1 k2 ->
  let s1 := u64 (k1 * 20) in let s2 := u64 (k2 * 20) in
  let d0 := u128 (u128 (a0 * k0 + a1 * s2) + a2 * s1) in
  let d1 := u128 (u128 (a0 * k1 + a1 * k0) + a2 * s2) in
  let d2 := u128 (u128 (a0 * k2 + a1 * k1) + a2 * k0) in
  0 <= d0 < 2 ^ 94 /\ 0 <= d1 < 2 ^ 94 /\ 0 <= d2 < 2 ^ 94
  /\ val3 d0 d1 d2 = val3 a0 a1 a2 * val3 k0 k1 k2 - 4 * (a1 * k2 + a2 * k1 + 2 ^ 44 * (a2 * k2)) * p1305.
Proof.
  intros A0 A1 A2 (K0 & K1 & K2) s1 s2.
  assert (s1 = k1 * 20) as -> by (apply u64_small; lia). assert (s2 = k2 * 20) as -> by (apply u64_small; lia).
  pose proof (prod_bound a0 k0 46 44 A0 K0 ltac:(lia) ltac:(lia)).
  pose proof (prod_bound a1 k2 46 40 A1 K2 ltac:(lia) ltac:(lia)).
  pose proof (prod_bound a2 k1 43 44 A2 K1 ltac:(lia) ltac:(lia)).
  pose proof (prod_bound a0 k1 46 44 A0 K1 ltac:(lia) ltac:(lia)).
  pose proof (prod_bound a1 k0 46 44 A1 K0 ltac:(lia) ltac:(lia)).
  pose proof (prod_bound a2 k2 43 40 A2 K2 ltac:(lia) ltac:(lia)).
  pose proof (prod_bound a0 k2 46 40 A0 K2 ltac:(lia) ltac:(lia)).
  pose proof (prod_bound a1 k1 46 44 A1 K1 ltac:(lia) ltac:(lia)).
  pose proof (prod_bound a2 k0 43 44 A2 K0 ltac:(lia) ltac:(lia)).
  intros d0 d1 d2. unfold val3.
  assert (d0 = a0 * k0 + a1 * k2 * 20 + a2 * k1 * 20) as ->.
  { unfold d0. rewrite (u128_small (_ + _)) by (rewrite (u128_small) by lia; lia).
    rewrite u128_small by lia. lia. }
  assert (d1 = a0 * k1 + a1 * k0 + a2 * k2 * 20) as ->.
  { unfold d1. rewrite (u128_small (_ + _)) by (rewrite (u128_small) by lia; lia).
    rewrite u128_small by lia. lia. }
  assert (d2 = a0 * k2 + a1 * k1 + a2 * k0) as ->.
  { unfold d2. rewrite (u128_small (_ + _)) by (rewrite (u128_small) by lia; lia).
    rewrite u128_small by lia. lia. }
  split_and!; try lia. unfold p1305. ring.
Qed.

(** The limbs of a block. *)
Lemma block_words m :
  zlen m = 16 -> U8TO64 m + 2 ^ 64 * U8TO64 (zdrop 8 m) = le_dec m.
Proof.
  intros Hm. unfold U8TO64. rewrite !load64_le. rewrite <- (ztake_zdrop 8 m) at 3. rewrite le_dec_app.
  rewrite zlen_ztake by lia. f_equal. f_equal. f_equal. apply ztake_all. rewrite zlen_zdrop; lia.
Qed.

Lemma block_step64_ok final k0 k1 k2 m a0 a1 a2 :
  key64_ok k0 k1 k2 -> limbs64_ok a0 a1 a2 -> zlen m = 16 ->
  let '(b0, b1, b2) := block_step64 final (k0, k1, k2) m (a0, a1, a2) in
  limbs64_ok b0 b1 b2
  /\ val3 b0 b1 b2 mod p1305
     = (val3 a0 a1 a2 + (le_dec m + (if final then 0 else 2 ^ 128))) * val3 k0 k1 k2 mod p1305.
Proof.
  intros HK (A0 & A1 & A2) Hm. unfold block_step64.
  pose proof (load64_range m) as W0. pose proof (load64_range (zdrop 8 m)) as W1.
  destruct (limbs_of_words _ _ W0 W1) as (E0 & E1 & E2 & R2). cbv zeta in *.
  pose proof (block_words m Hm) as Ew. unfold U8TO64 in *. rewrite Ew in E0, E1, E2. rewrite E0, E1.
  set (x := le_dec m) in *. pose proof (mod_range x 44 ltac:(lia)) as X0.
  pose proof (mod_range (x / 2 ^ 44) 44 ltac:(lia)) as X1. rewrite E2 in R2 |- *.
  set (hibit := if final then 0 else 2 ^ 40).
  assert (Z.lor (Z.land (x / 2 ^ 88) M42) (if final then 0 else Z.shiftl 1 40) = x / 2 ^ 88 + hibit) as ->.
  { rewrite M42_mod, Z.mod_small by lia. unfold hibit. destruct final; [by rewrite Z.lor_0_r, Z.add_0_r|].
    rewrite Z.lor_comm, lor_shiftl_add; [|lia|exact R2]. lia. }
  assert (0 <= hibit <= 2 ^ 40) as Hb by (unfold hibit; destruct final; lia).
  assert ((if final then 0 else 2 ^ 128) = 2 ^ 88 * hibit) as -> by (unfold hibit; destruct final; lia).
  clearbody hibit. rewrite (u64_small (a0 + _)), (u64_small (a1 + _)), (u64_small (a2 + _)) by lia.
  destruct (products (a0 + x mod 2 ^ 44) (a1 + x / 2 ^ 44 mod 2 ^ 44) (a2 + (x / 2 ^ 88 + hibit)) k0 k1 k2)
    as (D0 & D1 & D2 & ED); [lia..|done|].
  destruct (carry_chain _ _ _ D0 D1 D2) as [Hok [q Hq]]. split; [exact Hok|]. rewrite Hq, ED.
  set (t := 4 * _). replace (_ - t * p1305 - q * p1305)
    with (val3 (a0 + x mod 2 ^ 44) (a1 + x / 2 ^ 44 mod 2 ^ 44) (a2 + (x / 2 ^ 88 + hibit)) * val3 k0 k1 k2 + (- t - q) * p1305) by ring.
  rewrite Z.mod_add by done. f_equal. f_equal. pose proof (val3_limbs x). unfold val3 in *. lia.
Qed.

(** * The key *)

(** Masking limb by limb. *)
Lemma clamp_limbs x :
  val3 (Z.land x 0xffc0fffffff) (Z.land (x / 2 ^ 44) 0xfffffc0ffff) (Z.land (x / 2 ^ 88) 0x00ffffffc0f)
  = Z.land x kClamp.
Proof.
  rewrite <- (val3_limbs (Z.land x kClamp)). rewrite <- !shiftr_div by lia. rewrite !Z.shiftr_land.
  f_equal.
  - rewrite <- M44_mod, <- Z.land_assoc. done.
  - rewrite <- M44_mod, <- Z.land_assoc. done.
Qed.

Lemma land_below x m n : 0 <= m < 2 ^ n -> 0 <= n -> 0 <= Z.land x m < 2 ^ n.
Proof.
  intros Hm Hn. assert (Z.land x m = Z.land (Z.land x m) (Z.ones n)) as ->.
  { rewrite <- Z.land_assoc. f_equal. rewrite Z.land_ones by done. symmetry. by apply Z.mod_small. }
  rewrite Z.land_ones by done. by apply mod_range.
Qed.

Lemma words_of p : zlen p >= 16 -> U8TO64 p + 2 ^ 64 * U8TO64 (zdrop 8 p) = le_dec (ztake 16 p).
Proof.
  intros Hp. rewrite <- block_words by (rewrite zlen_ztake; lia). unfold U8TO64. rewrite !load64_le.
  rewrite ztake_ztake, zdrop_ztake, ztake_ztake by lia. done.
Qed.

Lemma key_limbs64_ok key :
  zlen key = 32 ->
  let '(k0, k1, k2) := key_limbs64 key in key64_ok k0 k1 k2 /\ val3 k0 k1 k2 = r_of key.
Proof.
  intros Hk. unfold key_limbs64.
  pose proof (load64_range key) as W0. pose proof (load64_range (zdrop 8 key)) as W1.
  destruct (limbs_of_words _ _ W0 W1) as (E0 & E1 & E2 & _). cbv zeta in *.
  pose proof (words_of key ltac:(lia)) as Ew. unfold U8TO64 in *. rewrite Ew in E0, E1, E2. split.
  - unfold key64_ok. split; [|split]; apply land_below; lia.
  - rewrite E2. unfold r_of. rewrite <- clamp_limbs. f_equal.
    + change 0xffc0fffffff with (Z.land M44 0xffc0fffffff). by rewrite !Z.land_assoc, E0, M44_mod.
    + change 0xfffffc0ffff with (Z.land M44 0xfffffc0ffff). by rewrite !Z.land_assoc, E1, M44_mod.
Qed.

Lemma key_pads64_ok key :
  zlen key = 32 -> (key_pads64 key).1 + 2 ^ 64 * (key_pads64 key).2 = s_of key.
Proof.
  intros Hk. unfold s_of, key_pads64. rewrite <- words_of by (rewrite zlen_zdrop; lia). cbn [fst snd].
  by rewrite zdrop_zdrop by lia.
Qed.

(** * Finishing *)

Definition canonical64 (h : Z * Z * Z) : Prop :=
  0 <= h.1.1 < 2 ^ 44 /\ 0 <= h.1.2 < 2 ^ 44 /\ 0 <= h.2 < 2 ^ 42.
Definition val64 (h : Z * Z * Z) : Z := val3 h.1.1 h.1.2 h.2.

(** Names the low part and the carry of the next limb. *)
Ltac carry x k :=
  rewrite ?(shiftr_div x k) by lia; rewrite ?(M44_mod x), ?(M42_mod x);
  pose proof (split_at x k ltac:(lia)); pose proof (mod_range x k ltac:(lia)).

Lemma full_carry64_ok a0 a1 a2 :
  limbs64_ok a0 a1 a2 ->
  canonical64 (full_carry64 (a0, a1, a2)) /\ exists q, val64 (full_carry64 (a0, a1, a2)) = val3 a0 a1 a2 - q * p1305.
Proof.
  intros (A0 & A1 & A2). unfold full_carry64.
  carry a1 44. set (c1 := a1 / 2 ^ 44) in *. set (b1 := a1 mod 2 ^ 44) in *.
  rewrite (u64_small (a2 + c1)) by lia.
  carry (a2 + c1) 42. set (c2 := (a2 + c1) / 2 ^ 42) in *. set (b2 := (a2 + c1) mod 2 ^ 42) in *.
  rewrite (u64_small (c2 * 5)), (u64_small (a0 + c2 * 5)) by lia.
  carry (a0 + c2 * 5) 44. set (c3 := (a0 + c2 * 5) / 2 ^ 44) in *. set (b0 := (a0 + c2 * 5) mod 2 ^ 44) in *.
  rewrite (u64_small (b1 + c3)) by lia.
  carry (b1 + c3) 44. set (c4 := (b1 + c3) / 2 ^ 44) in *. set (d1 := (b1 + c3) mod 2 ^ 44) in *.
  rewrite (u64_small (b2 + c4)) by lia.
  carry (b2 + c4) 42. set (c5 := (b2 + c4) / 2 ^ 42) in *. set (d2 := (b2 + c4) mod 2 ^ 42) in *.
  rewrite (u64_small (c5 * 5)), (u64_small (b0 + c5 * 5)) by lia.
  carry (b0 + c5 * 5) 44. set (c6 := (b0 + c5 * 5) / 2 ^ 44) in *. set (d0 := (b0 + c5 * 5) mod 2 ^ 44) in *.
  rewrite (u64_small (d1 + c6)) by lia.
  unfold canonical64, val64, val3. cbn [fst snd]. clearbody c1 c2 c3 c4 c5 c6 b0 b1 b2 d0 d1 d2.
  split; [lia|]. exists (c2 + c5). unfold p1305. lia.
Qed.

Lemma select_reduced64_ok h :
  canonical64 h -> canonical64 (select_reduced64 h) /\ val64 (select_reduced64 h) = val64 h mod p1305.
Proof.
  destruct h as [[a0 a1] a2]. intros (A0 & A1 & A2). cbn [fst snd] in *. unfold select_reduced64.
  rewrite (u64_small (a0 + 5)) by lia. carry (a0 + 5) 44.
  set (c0 := (a0 + 5) / 2 ^ 44) in *. set (g0 := (a0 + 5) mod 2 ^ 44) in *.
  rewrite (u64_small (a1 + c0)) by lia. carry (a1 + c0) 44.
  set (c1 := (a1 + c0) / 2 ^ 44) in *. set (g1 := (a1 + c0) mod 2 ^ 44) in *.
  rewrite (u64_small (a2 + c1)) by lia. change (Z.shiftl 1 42) with (2 ^ 42).
  set (ge := 2 ^ 42 <=? a2 + c1).
  assert (u64 (Z.shiftr (u64 (a2 + c1 - 2 ^ 42)) 63 - 1) = if ge then 2 ^ 64 - 1 else 0) as ->.
  { unfold ge. destruct (Z.leb_spec (2 ^ 42) (a2 + c1)).
    - rewrite (u64_small (a2 + c1 - 2 ^ 42)), shiftr_div by lia. by rewrite (Z.div_small (a2 + c1 - 2 ^ 42)) by lia.
    - assert (u64 (a2 + c1 - 2 ^ 42) = a2 + c1 - 2 ^ 42 + 2 ^ 64) as ->
        by (unfold u64; rewrite <- (Z.mod_add _ 1) by done; apply Z.mod_small; lia).
      rewrite shiftr_div by lia.
      assert ((a2 + c1 - 2 ^ 42 + 2 ^ 64) / 2 ^ 63 = 1) as -> by (symmetry; apply (Z.div_unique _ _ _ (a2 + c1 - 2 ^ 42 + 2 ^ 63)); lia).
      done. }
  pose proof (u64_range (a2 + c1 - 2 ^ 42)) as R2. rewrite !select_u64 by lia.
  unfold canonical64, val64, val3. cbn [fst snd]. unfold ge. clearbody c0 c1 g0 g1.
  destruct (Z.leb_spec (2 ^ 42) (a2 + c1)).
  - rewrite u64_small by lia. split; [lia|]. apply (Z.mod_unique _ _ 1); unfold p1305; lia.
  - split; [lia|]. symmetry. apply Z.mod_small. unfold p1305. lia.
Qed.

Lemma add_pad64_ok t0 t1 h :
  canonical64 h -> 0 <= t0 < 2 ^ 64 -> 0 <= t1 < 2 ^ 64 ->
  canonical64 (add_pad64 (t0, t1) h) /\ val64 (add_pad64 (t0, t1) h) = (val64 h + (t0 + 2 ^ 64 * t1)) mod 2 ^ 130.
Proof.
  destruct h as [[a0 a1] a2]. intros (A0 & A1 & A2) H0 H1. cbn [fst snd] in *. unfold add_pad64.
  destruct (limbs_of_words t0 t1 H0 H1) as (E0 & E1 & E2 & R2). cbv zeta in *. rewrite E0, E1.
  set (x := t0 + 2 ^ 64 * t1) in *. pose proof (val3_limbs x) as Ex.
  pose proof (mod_range x 44 ltac:(lia)) as X0. pose proof (mod_range (x / 2 ^ 44) 44 ltac:(lia)) as X1.
  set (x0 := x mod 2 ^ 44) in *. set (x1 := x / 2 ^ 44 mod 2 ^ 44) in *.
  rewrite E2 in R2 |- *. rewrite (M42_mod (x / 2 ^ 88)), (Z.mod_small (x / 2 ^ 88)) by lia.
  set (x2 := x / 2 ^ 88) in *. clearbody x0 x1 x2.
  rewrite (u64_small (a0 + x0)) by lia. carry (a0 + x0) 44.
  set (c0 := (a0 + x0) / 2 ^ 44) in *. set (b0 := (a0 + x0) mod 2 ^ 44) in *.
  rewrite (u64_small (x1 + c0)), (u64_small (a1 + (x1 + c0))) by lia. carry (a1 + (x1 + c0)) 44.
  set (c1 := (a1 + (x1 + c0)) / 2 ^ 44) in *. set (b1 := (a1 + (x1 + c0)) mod 2 ^ 44) in *.
  rewrite (u64_small (x2 + c1)), (u64_small (a2 + (x2 + c1))) by lia. carry (a2 + (x2 + c1)) 42.
  set (c2 := (a2 + (x2 + c1)) / 2 ^ 42) in *. set (b2 := (a2 + (x2 + c1)) mod 2 ^ 42) in *.
  unfold canonical64, val64, val3 in *. cbn [fst snd] in *. clearbody c0 c1 c2 b0 b1 b2 x.
  split; [lia|]. apply (Z.mod_unique _ _ c2); lia.
Qed.

Lemma mac_bytes64_ok h : canonical64 h -> mac_bytes64 h = le_enc 16 (val64 h mod 2 ^ 128).
Proof.
  destruct h as [[a0 a1] a2]. intros (A0 & A1 & A2). cbn [fst snd] in *. unfold mac_bytes64, U64TO8.
  rewrite !store64_le, shiftr_div by lia. pose proof (div_range a1 20 44 ltac:(lia) A1) as R1.
  rewrite !lor_u64_shiftl by lia. change (64 - 44) with 20. change (64 - 24) with 40.
  pose proof (split_at a1 20 ltac:(lia)). pose proof (mod_range a1 20 ltac:(lia)).
  pose proof (split_at a2 40 ltac:(lia)). pose proof (mod_range a2 40 ltac:(lia)).
  set (w0 := a0 + _). set (w1 := a1 / 2 ^ 20 + _). rewrite <- (le_enc_dec (le_enc 8 w0 ++ le_enc 8 w1)).
  rewrite length_app, !le_enc_length, le_dec_app, !le_dec_enc, zlen_le_enc. cbn [Nat.add]. f_equal.
  change (8 * Z.of_nat 8) with 64. rewrite !Z.mod_small by lia.
  apply (Z.mod_unique _ _ (a2 / 2 ^ 40)); unfold val64, val3; cbn [fst snd]; unfold w0, w1; lia.
Qed.

Lemma finish_limbs64_ok a0 a1 a2 t0 t1 :
  limbs64_ok a0 a1 a2 -> 0 <= t0 < 2 ^ 64 -> 0 <= t1 < 2 ^ 64 ->
  finish_limbs64 (a0, a1, a2) (t0, t1) = le_enc 16 ((val3 a0 a1 a2 mod p1305 + (t0 + 2 ^ 64 * t1)) mod 2 ^ 128).
Proof.
  intros Ha H0 H1. unfold finish_limbs64. destruct (full_carry64_ok _ _ _ Ha) as [C1 [q E1]].
  destruct (select_reduced64_ok _ C1) as [C2 E2]. destruct (add_pad64_ok t0 t1 _ C2 H0 H1) as [C3 E3].
  rewrite mac_bytes64_ok, E3, E2, E1 by done. f_equal.
  replace (val3 a0 a1 a2 - q * p1305) with (val3 a0 a1 a2 + (- q) * p1305) by lia. rewrite Z.mod_add by done.
  apply Z.mod_mod_divide. by exists 4.
Qed.

#[export, refine] Instance arith64 : Arith impl64 := {
  val := val64;
  pad_val p := p.1 + 2 ^ 64 * p.2;
  r_ok r := key64_ok r.1.1 r.1.2 r.2;
  h_ok h := limbs64_ok h.1.1 h.1.2 h.2;
  pad_ok p := 0 <= p.1 < 2 ^ 64 /\ 0 <= p.2 < 2 ^ 64;
}.
Proof.
  - done.
  - intros key Hk. pose proof (key_limbs64_ok key Hk) as H. cbv beta. unfold val64.
    change (poly1305.key_limbs key) with (key_limbs64 key). by destruct (key_limbs64 key) as [[k0 k1] k2].
  - intros key Hk. split; [split; apply load64_range|]. by apply key_pads64_ok.
  - intros final [[k0 k1] k2] m [[a0 a1] a2] Hr Hh Hm.
    pose proof (block_step64_ok final k0 k1 k2 m a0 a1 a2 Hr Hh Hm) as H. cbv beta. unfold val64.
    change (poly1305.block_step final) with (block_step64 final). by destruct (block_step64 _ _ _ _) as [[b0 b1] b2].
  - intros [[a0 a1] a2] [t0 t1] Hh [H0 H1]. by apply finish_limbs64_ok.
Defined.
