(* ===== verification/Poly32.v ===== *)
(** The 32-bit implementation of Poly1305: its limb arithmetic is arithmetic modulo
    [2^130 - 5] too, so both implementations compute the reference. *)

From S2P Require Import Prelude Words Poly1305 PolyReference Poly64.
Import poly1305_32.

(** * Limbs *)

Definition val5 (h : limbs32) : Z :=
  let '(a0, a1, a2, a3, a4) := h in a0 + 2 ^ 26 * a1 + 2 ^ 52 * a2 + 2 ^ 78 * a3 + 2 ^ 104 * a4.

Definition h32_ok (h : limbs32) : Prop :=
  let '(a0, a1, a2, a3, a4) := h in
  0 <= a0 < 2 ^ 26 /\ 0 <= a1 < 2 ^ 26 + 2 ^ 6 /\ 0 <= a2 < 2 ^ 26 /\ 0 <= a3 < 2 ^ 26 /\ 0 <= a4 < 2 ^ 26.
Definition r32_ok (r : limbs32) : Prop :=
  let '(k0, k1, k2, k3, k4) := r in
  0 <= k0 < 2 ^ 26 /\ 0 <= k1 < 2 ^ 26 /\ 0 <= k2 < 2 ^ 26 /\ 0 <= k3 < 2 ^ 26 /\ 0 <= k4 < 2 ^ 20.

Lemma M26_mod x : Z.land x M26 = x mod 2 ^ 26.
Proof. by apply (land_mask x 26). Qed.

(** The limbs of sixteen bytes. *)
Lemma limb_field i (m : list byte) :
  0 <= i <= 3 -> 16 <= zlen m ->
  Z.land (Z.shiftr (U8TO32 (zdrop (3 * i) m)) (2 * i)) M26 = field (le_dec m) (26 * i) 26.
Proof.
  intros Hi Hm. unfold U8TO32. rewrite load32_field, M26_mod, shiftr_div by lia.
  pose proof (field_field (le_dec m) (8 * (3 * i)) 32 (2 * i) 26 ltac:(lia) ltac:(lia) ltac:(lia) ltac:(lia)) as E.
  unfold field at 1 in E. rewrite E. f_equal. lia.
Qed.

Lemma top_limb (m : list byte) :
  16 <= zlen m -> Z.shiftr (U8TO32 (zdrop 12 m)) 8 = field (le_dec m) 104 24.
Proof.
  intros Hm. unfold U8TO32. rewrite load32_field, shiftr_div by lia. change (8 * 12) with 96.
  pose proof (field_field (le_dec m) 96 32 8 24 ltac:(lia) ltac:(lia) ltac:(lia) ltac:(lia)) as E.
  change (96 + 8) with 104 in E. rewrite <- E. unfold field at 2. symmetry. apply Z.mod_small.
  pose proof (field_range (le_dec m) 96 32 ltac:(lia)) as R. apply (div_range _ 8 32) in R; [|lia]. exact R.
Qed.

(** A number below [2^128] by its fields. *)
Lemma val5_fields x :
  0 <= x < 2 ^ 128 ->
  val5 (field x 0 26, field x 26 26, field x 52 26, field x 78 26, field x 104 24) = x.
Proof.
  intros Hx. unfold val5, field. change (2 ^ 0) with 1. rewrite Z.div_1_r.
  pose proof (split_at x 26 ltac:(lia)). pose proof (split_at (x / 2 ^ 26) 26 ltac:(lia)) as E1.
  pose proof (split_at (x / 2 ^ 52) 26 ltac:(lia)) as E2. pose proof (split_at (x / 2 ^ 78) 26 ltac:(lia)) as E3.
  rewrite Z.div_div in E1, E2, E3 by lia. change (2 ^ 26 * 2 ^ 26) with (2 ^ 52) in E1.
  change (2 ^ 52 * 2 ^ 26) with (2 ^ 78) in E2. change (2 ^ 78 * 2 ^ 26) with (2 ^ 104) in E3.
  pose proof (div_range x 104 128 ltac:(lia) Hx) as R. change (128 - 104) with 24 in R.
  rewrite (Z.mod_small (x / 2 ^ 104)) by lia. lia.
Qed.

(** * One block *)

Lemma low26_32 d : Z.land (u32 d) M26 = d mod 2 ^ 26.
Proof. rewrite M26_mod. unfold u32. apply Z.mod_mod_divide. by exists (2 ^ 6). Qed.
Lemma high26 d : 0 <= d < 2 ^ 58 -> u32 (Z.shiftr d 26) = d / 2 ^ 26.
Proof.
  intros H. rewrite shiftr_div by lia. apply u32_small.
  pose proof (div_range d 26 58 ltac:(lia) H) as Hd. exact Hd.
Qed.

(** Names the low part and the carry of the next limb. *)
Ltac carry26 x :=
  rewrite ?(shiftr_div x 26) by lia; rewrite ?(M26_mod x);
  pose proof (split_at x 26 ltac:(lia)); pose proof (mod_range x 26 ltac:(lia)).

Lemma carry32_ok d0 d1 d2 d3 d4 :
  0 <= d0 < 2 ^ 57 -> 0 <= d1 < 2 ^ 57 -> 0 <= d2 < 2 ^ 57 -> 0 <= d3 < 2 ^ 57 -> 0 <= d4 < 31 * 2 ^ 50 ->
  h32_ok (carry32 d0 d1 d2 d3 d4)
  /\ exists q, val5 (carry32 d0 d1 d2 d3 d4) = val5 (d0, d1, d2, d3, d4) - q * p1305.
Proof.
  intros D0 D1 D2 D3 D4. unfold carry32. rewrite !low26_32. rewrite (high26 d0) by lia. carry26 d0.
  set (c0 := d0 / 2 ^ 26) in *. set (b0 := d0 mod 2 ^ 26) in *.
  rewrite (u64_small (d1 + c0)) by lia. rewrite (high26 (d1 + c0)) by lia. carry26 (d1 + c0).
  set (c1 := (d1 + c0) / 2 ^ 26) in *. set (b1 := (d1 + c0) mod 2 ^ 26) in *.
  rewrite (u64_small (d2 + c1)) by lia. rewrite (high26 (d2 + c1)) by lia. carry26 (d2 + c1).
  set (c2 := (d2 + c1) / 2 ^ 26) in *. set (b2 := (d2 + c1) mod 2 ^ 26) in *.
  rewrite (u64_small (d3 + c2)) by lia. rewrite (high26 (d3 + c2)) by lia. carry26 (d3 + c2).
  set (c3 := (d3 + c2) / 2 ^ 26) in *. set (b3 := (d3 + c2) mod 2 ^ 26) in *.
  rewrite (u64_small (d4 + c3)) by lia. rewrite (high26 (d4 + c3)) by lia. carry26 (d4 + c3).
  set (c4 := (d4 + c3) / 2 ^ 26) in *. set (b4 := (d4 + c3) mod 2 ^ 26) in *.
  rewrite (u32_small (c4 * 5)), (u32_small (b0 + c4 * 5)) by lia. carry26 (b0 + c4 * 5).
  set (c5 := (b0 + c4 * 5) / 2 ^ 26) in *. set (e0 := (b0 + c4 * 5) mod 2 ^ 26) in *.
  rewrite (u32_small (b1 + c5)) by lia. clearbody c0 c1 c2 c3 c4 c5 b0 b1 b2 b3 b4 e0.
  split; [unfold h32_ok; lia|]. exists c4. unfold val5, p1305. lia.
Qed.

Lemma block_limbs (m : list byte) :
  16 <= zlen m -> let x := le_dec m in
  Z.land (U8TO32 m) M26 = field x 0 26
  /\ Z.land (Z.shiftr (U8TO32 (zdrop 3 m)) 2) M26 = field x 26 26
  /\ Z.land (Z.shiftr (U8TO32 (zdrop 6 m)) 4) M26 = field x 52 26
  /\ Z.land (Z.shiftr (U8TO32 (zdrop 9 m)) 6) M26 = field x 78 26
  /\ Z.shiftr (U8TO32 (zdrop 12 m)) 8 = field x 104 24.
Proof.
  intros Hm. split_and!; [| | | |by apply top_limb].
  - pose proof (limb_field 0 m ltac:(lia) Hm) as E. by rewrite Z.shiftr_0_r, zdrop_0 in E.
  - exact (limb_field 1 m ltac:(lia) Hm).
  - exact (limb_field 2 m ltac:(lia) Hm).
  - exact (limb_field 3 m ltac:(lia) Hm).
Qed.

(** The accumulator with a block added to it. *)
Definition sum32_ok (h : limbs32) : Prop :=
  let '(a0, a1, a2, a3, a4) := h in
  0 <= a0 < 2 ^ 27 /\ 0 <= a1 < 2 ^ 27 + 2 ^ 6 /\ 0 <= a2 < 2 ^ 27 /\ 0 <= a3 < 2 ^ 27 /\ 0 <= a4 < 3 * 2 ^ 25.

Lemma add_block32_ok (final : bool) m h :
  h32_ok h -> zlen m = 16 ->
  let s := add_block32 (if final then 0 else Z.shiftl 1 24) m h in
  sum32_ok s /\ val5 s = val5 h + (le_dec m + (if final then 0 else 2 ^ 128)).
Proof.
  destruct h as [[[[a0 a1] a2] a3] a4]. intros (A0 & A1 & A2 & A3 & A4) Hm s. unfold s, add_block32.
  pose proof (block_limbs m ltac:(lia)) as (E0 & E1 & E2 & E3 & E4).
  pose proof (le_dec_range m) as Rm. rewrite Hm in Rm. change (8 * 16) with 128 in Rm.
  pose proof (val5_fields _ Rm) as Ev. rewrite E0, E1, E2, E3, E4.
  pose proof (field_range (le_dec m) 0 26 ltac:(lia)). pose proof (field_range (le_dec m) 26 26 ltac:(lia)).
  pose proof (field_range (le_dec m) 52 26 ltac:(lia)). pose proof (field_range (le_dec m) 78 26 ltac:(lia)).
  pose proof (field_range (le_dec m) 104 24 ltac:(lia)) as R4.
  assert (Z.lor (field (le_dec m) 104 24) (if final then 0 else Z.shiftl 1 24)
    = field (le_dec m) 104 24 + if final then 0 else 2 ^ 24) as ->.
  { destruct final; [by rewrite Z.lor_0_r, Z.add_0_r|]. rewrite Z.lor_comm, lor_shiftl_add; [lia|lia|exact R4]. }
  destruct final; rewrite !u32_small by lia; (split; [unfold sum32_ok; lia|]); unfold val5 in *; lia.
Qed.

(** A sum of five products below their bounds does not overflow. *)
Lemma dot5_bound a b c d e A B C D E X :
  0 <= a <= A -> 0 <= b <= B -> 0 <= c <= C -> 0 <= d <= D -> 0 <= e <= E -> A + B + C + D + E < X <= 2 ^ 64 ->
  dot5 a b c d e = a + b + c + d + e /\ 0 <= dot5 a b c d e < X.
Proof.
  intros. assert (dot5 a b c d e = a + b + c + d + e) as ->; [|lia].
  unfold dot5. rewrite (u64_small a), (u64_small b), (u64_small c), (u64_small d), (u64_small e) by lia.
  rewrite (u64_small (a + b)) by lia. rewrite (u64_small (a + b + c)) by lia.
  rewrite (u64_small (a + b + c + d)) by lia. apply u64_small. lia.
Qed.

Lemma mul_bound a b A B : 0 <= a < A -> 0 <= b < B -> 0 <= a * b <= A * B.
Proof. intros. split; [nia|]. apply Z.mul_le_mono_nonneg; lia. Qed.

(** The products, with [2^130 = 5] folded in. *)
Lemma products32 a0 a1 a2 a3 a4 k0 k1 k2 k3 k4 :
  sum32_ok (a0, a1, a2, a3, a4) -> r32_ok (k0, k1, k2, k3, k4) ->
  let s1 := u32 (k1 * 5) in let s2 := u32 (k2 * 5) in let s3 := u32 (k3 * 5) in let s4 := u32 (k4 * 5) in
  let d0 := dot5 (a0 * k0) (a1 * s4) (a2 * s3) (a3 * s2) (a4 * s1) in
  let d1 := dot5 (a0 * k1) (a1 * k0) (a2 * s4) (a3 * s3) (a4 * s2) in
  let d2 := dot5 (a0 * k2) (a1 * k1) (a2 * k0) (a3 * s4) (a4 * s3) in
  let d3 := dot5 (a0 * k3) (a1 * k2) (a2 * k1) (a3 * k0) (a4 * s4) in
  let d4 := dot5 (a0 * k4) (a1 * k3) (a2 * k2) (a3 * k1) (a4 * k0) in
  (0 <= d0 < 2 ^ 57 /\ 0 <= d1 < 2 ^ 57 /\ 0 <= d2 < 2 ^ 57 /\ 0 <= d3 < 2 ^ 57 /\ 0 <= d4 < 31 * 2 ^ 50)
  /\ exists t, val5 (d0, d1, d2, d3, d4) = val5 (a0, a1, a2, a3, a4) * val5 (k0, k1, k2, k3, k4) - t * p1305.
Proof.
  intros (A0 & A1 & A2 & A3 & A4) (K0 & K1 & K2 & K3 & K4) s1 s2 s3 s4.
  assert (s1 = k1 * 5) as -> by (apply u32_small; lia). assert (s2 = k2 * 5) as -> by (apply u32_small; lia).
  assert (s3 = k3 * 5) as -> by (apply u32_small; lia). assert (s4 = k4 * 5) as -> by (apply u32_small; lia).
  assert (0 <= k1 * 5 < 5 * 2 ^ 26) as S1 by lia. assert (0 <= k2 * 5 < 5 * 2 ^ 26) as S2 by lia.
  assert (0 <= k3 * 5 < 5 * 2 ^ 26) as S3 by lia. assert (0 <= k4 * 5 < 5 * 2 ^ 20) as S4 by lia.
  cbv zeta.
  edestruct (dot5_bound (a0 * k0)) as [E0 R0];
    [apply (mul_bound _ _ _ _ A0 K0)|apply (mul_bound _ _ _ _ A1 S4)|apply (mul_bound _ _ _ _ A2 S3)
    |apply (mul_bound _ _ _ _ A3 S2)|apply (mul_bound _ _ _ _ A4 S1)|by instantiate (1 := 2 ^ 57)|].
  edestruct (dot5_bound (a0 * k1)) as [E1 R1];
    [apply (mul_bound _ _ _ _ A0 K1)|apply (mul_bound _ _ _ _ A1 K0)|apply (mul_bound _ _ _ _ A2 S4)
    |apply (mul_bound _ _ _ _ A3 S3)|apply (mul_bound _ _ _ _ A4 S2)|by instantiate (1 := 2 ^ 57)|].
  edestruct (dot5_bound (a0 * k2)) as [E2 R2];
    [apply (mul_bound _ _ _ _ A0 K2)|apply (mul_bound _ _ _ _ A1 K1)|apply (mul_bound _ _ _ _ A2 K0)
    |apply (mul_bound _ _ _ _ A3 S4)|apply (mul_bound _ _ _ _ A4 S3)|by instantiate (1 := 2 ^ 57)|].
  edestruct (dot5_bound (a0 * k3)) as [E3 R3];
    [apply (mul_bound _ _ _ _ A0 K3)|apply (mul_bound _ _ _ _ A1 K2)|apply (mul_bound _ _ _ _ A2 K1)
    |apply (mul_bound _ _ _ _ A3 K0)|apply (mul_bound _ _ _ _ A4 S4)|by instantiate (1 := 2 ^ 57)|].
  edestruct (dot5_bound (a0 * k4)) as [E4 R4];
    [apply (mul_bound _ _ _ _ A0 K4)|apply (mul_bound _ _ _ _ A1 K3)|apply (mul_bound _ _ _ _ A2 K2)
    |apply (mul_bound _ _ _ _ A3 K1)|apply (mul_bound _ _ _ _ A4 K0)|by instantiate (1 := 31 * 2 ^ 50)|].
  split; [exact (conj R0 (conj R1 (conj R2 (conj R3 R4))))|]. rewrite E0, E1, E2, E3, E4.
  exists (a1 * k4 + a2 * k3 + a3 * k2 + a4 * k1 + 2 ^ 26 * (a2 * k4 + a3 * k3 + a4 * k2)
          + 2 ^ 52 * (a3 * k4 + a4 * k3) + 2 ^ 78 * (a4 * k4)).
  unfold val5, p1305. ring.
Qed.

Lemma block_step32_ok (final : bool) r m h :
  r32_ok r -> h32_ok h -> zlen m = 16 ->
  h32_ok (block_step32 final r m h)
  /\ val5 (block_step32 final r m h) mod p1305
     = (val5 h + (le_dec m + (if final then 0 else 2 ^ 128))) * val5 r mod p1305.
Proof.
  intros Hr Hh Hm. destruct (add_block32_ok final m h Hh Hm) as [Hs Es]. cbv zeta in *.
  destruct r as [[[[k0 k1] k2] k3] k4]. unfold block_step32. rewrite <- Es. clear Es.
  destruct (add_block32 _ m h) as [[[[a0 a1] a2] a3] a4].
  destruct (products32 _ _ _ _ _ _ _ _ _ _ Hs Hr) as [(D0 & D1 & D2 & D3 & D4) [t Et]].
  destruct (carry32_ok _ _ _ _ _ D0 D1 D2 D3 D4) as [Hok [q Eq]]. split; [exact Hok|]. rewrite Eq, Et.
  set (x := val5 _ * val5 _). rewrite <- (Z.mod_add x (- t - q)) by done. f_equal. lia.
Qed.

(** * The key *)


Lemma land_field x m k n mask :
  0 <= k -> 0 <= n -> field m k n = mask -> Z.land (field x k n) mask = field (Z.land x m) k n.
Proof.
  intros Hk Hn <-. unfold field. rewrite <- !shiftr_div, Z.shiftr_land, <- !Z.land_ones by lia.
  apply Z.bits_inj'. intros i Hi. rewrite !Z.land_spec. by destruct (Z.testbit (Z.ones n) i), (Z.testbit _ i), (Z.testbit _ i).
Qed.

Lemma sub_mask x m mask : Z.land m mask = mask -> Z.land x mask = Z.land (Z.land x m) mask.
Proof. intros E. by rewrite <- Z.land_assoc, E. Qed.

Lemma key_limbs32_ok key :
  zlen key = 32 -> r32_ok (key_limbs32 key) /\ val5 (key_limbs32 key) = r_of key.
Proof.
  intros Hk. split.
  - unfold r32_ok, key_limbs32. split; [|split; [|split; [|split]]]; apply land_below; lia.
  - unfold key_limbs32, r_of. set (m := ztake 16 key).
    assert (forall k, 0 <= k <= 12 -> U8TO32 (zdrop k key) = U8TO32 (zdrop k m)) as E.
    { intros k Hk'. unfold U8TO32, m. rewrite !load32_le, zdrop_ztake, ztake_ztake by lia. done. }
    pose proof (E 0 ltac:(lia)) as Z0. rewrite !zdrop_0 in Z0. rewrite Z0, !E by lia.
    assert (zlen m = 16) as Hm by (unfold m; rewrite zlen_ztake; lia).
    destruct (block_limbs m ltac:(lia)) as (E0 & E1 & E2 & E3 & E4). cbv zeta in *.
    rewrite (sub_mask _ M26 0x3ffffff), (sub_mask _ M26 0x3ffff03), (sub_mask _ M26 0x3ffc0ff), (sub_mask _ M26 0x3f03fff) by done.
    rewrite E0, E1, E2, E3, E4. pose proof (le_dec_range m) as Rm. rewrite Hm in Rm.
    rewrite (land_field _ kClamp 0 26), (land_field _ kClamp 26 26), (land_field _ kClamp 52 26),
      (land_field _ kClamp 78 26), (land_field _ kClamp 104 24) by (done || lia).
    apply val5_fields. by apply land_below.
Qed.

Definition pad32_val (p : pads32) : Z :=
  let '(p0, p1, p2, p3) := p in p0 + 2 ^ 32 * p1 + 2 ^ 64 * p2 + 2 ^ 96 * p3.
Definition pad32_ok (p : pads32) : Prop :=
  let '(p0, p1, p2, p3) := p in
  0 <= p0 < 2 ^ 32 /\ 0 <= p1 < 2 ^ 32 /\ 0 <= p2 < 2 ^ 32 /\ 0 <= p3 < 2 ^ 32.

(** Sixteen bytes as four words. *)
Lemma four_words (p : list byte) :
  zlen p >= 16 ->
  pad32_val (load32 p, load32 (zdrop 4 p), load32 (zdrop 8 p), load32 (zdrop 12 p)) = le_dec (ztake 16 p).
Proof.
  intros Hp. pose proof (words_of p ltac:(lia)) as E. rewrite <- E. unfold poly1305_64.U8TO64, pad32_val.
  assert (forall q, zlen q >= 8 -> load64 q = load32 q + 2 ^ 32 * load32 (zdrop 4 q)) as W.
  { intros q Hq. rewrite load64_le, !load32_le. rewrite <- (ztake_zdrop 4 (ztake 8 q)), le_dec_app.
    rewrite ztake_ztake, zdrop_ztake, zlen_ztake by lia. done. }
  rewrite !W by (rewrite ?zlen_zdrop; lia). rewrite !zdrop_zdrop by lia. change (8 + 4) with 12. lia.
Qed.

Lemma key_pads32_ok key :
  zlen key = 32 -> pad32_ok (key_pads32 key) /\ pad32_val (key_pads32 key) = s_of key.
Proof.
  intros Hk. split; [unfold pad32_ok, key_pads32, U8TO32; split; [|split; [|split]]; apply load32_range|].
  unfold s_of. rewrite <- four_words by (rewrite zlen_zdrop; lia). by rewrite !zdrop_zdrop by lia.
Qed.

(** * Finishing *)

Definition canonical32 (h : limbs32) : Prop :=
  let '(a0, a1, a2, a3, a4) := h in
  0 <= a0 < 2 ^ 26 /\ 0 <= a1 < 2 ^ 26 /\ 0 <= a2 < 2 ^ 26 /\ 0 <= a3 < 2 ^ 26 /\ 0 <= a4 < 2 ^ 26.

Lemma full_carry32_ok h :
  h32_ok h -> canonical32 (full_carry32 h) /\ exists q, val5 (full_carry32 h) = val5 h - q * p1305.
Proof.
  destruct h as [[[[a0 a1] a2] a3] a4]. intros (A0 & A1 & A2 & A3 & A4). unfold full_carry32.
  carry26 a1. set (c1 := a1 / 2 ^ 26) in *. set (b1 := a1 mod 2 ^ 26) in *.
  rewrite (u32_small (a2 + c1)) by lia. carry26 (a2 + c1).
  set (c2 := (a2 + c1) / 2 ^ 26) in *. set (b2 := (a2 + c1) mod 2 ^ 26) in *.
  rewrite (u32_small (a3 + c2)) by lia. carry26 (a3 + c2).
  set (c3 := (a3 + c2) / 2 ^ 26) in *. set (b3 := (a3 + c2) mod 2 ^ 26) in *.
  rewrite (u32_small (a4 + c3)) by lia. carry26 (a4 + c3).
  set (c4 := (a4 + c3) / 2 ^ 26) in *. set (b4 := (a4 + c3) mod 2 ^ 26) in *.
  rewrite (u32_small (c4 * 5)), (u32_small (a0 + c4 * 5)) by lia. carry26 (a0 + c4 * 5).
  set (c5 := (a0 + c4 * 5) / 2 ^ 26) in *. set (b0 := (a0 + c4 * 5) mod 2 ^ 26) in *.
  rewrite (u32_small (b1 + c5)) by lia. unfold canonical32, val5. clearbody c1 c2 c3 c4 c5 b0 b1 b2 b3 b4.
  split; [lia|]. exists c4. unfold p1305. lia.
Qed.

Lemma borrow32 x :
  0 <= x <= 2 ^ 26 ->
  u32 (Z.shiftr (u32 (x - 2 ^ 26)) 31 - 1) = if 2 ^ 26 <=? x then 2 ^ 32 - 1 else 0.
Proof.
  intros Hx. rewrite shiftr_div by lia. destruct (Z.leb_spec (2 ^ 26) x).
  - rewrite (u32_small (x - 2 ^ 26)), (Z.div_small (x - 2 ^ 26)) by lia. done.
  - assert (u32 (x - 2 ^ 26) = x - 2 ^ 26 + 2 ^ 32) as ->
      by (unfold u32; rewrite <- (Z.mod_add _ 1) by done; apply Z.mod_small; lia).
    assert ((x - 2 ^ 26 + 2 ^ 32) / 2 ^ 31 = 1) as ->; [|done].
    symmetry. apply (Z.div_unique _ _ _ (x - 2 ^ 26 + 2 ^ 31)); lia.
Qed.

Lemma select_reduced32_ok h :
  canonical32 h -> canonical32 (select_reduced32 h) /\ val5 (select_reduced32 h) = val5 h mod p1305.
Proof.
  destruct h as [[[[a0 a1] a2] a3] a4]. intros (A0 & A1 & A2 & A3 & A4). unfold select_reduced32.
  rewrite (u32_small (a0 + 5)) by lia. carry26 (a0 + 5).
  set (c0 := (a0 + 5) / 2 ^ 26) in *. set (g0 := (a0 + 5) mod 2 ^ 26) in *.
  rewrite (u32_small (a1 + c0)) by lia. carry26 (a1 + c0).
  set (c1 := (a1 + c0) / 2 ^ 26) in *. set (g1 := (a1 + c0) mod 2 ^ 26) in *.
  rewrite (u32_small (a2 + c1)) by lia. carry26 (a2 + c1).
  set (c2 := (a2 + c1) / 2 ^ 26) in *. set (g2 := (a2 + c1) mod 2 ^ 26) in *.
  rewrite (u32_small (a3 + c2)) by lia. carry26 (a3 + c2).
  set (c3 := (a3 + c2) / 2 ^ 26) in *. set (g3 := (a3 + c2) mod 2 ^ 26) in *.
  rewrite (u32_small (a4 + c3)) by lia. change (Z.shiftl 1 26) with (2 ^ 26).
  rewrite borrow32 by lia. pose proof (u32_range (a4 + c3 - 2 ^ 26)) as R4. rewrite !select_u32 by lia.
  unfold canonical32, val5. clearbody c0 c1 c2 c3 g0 g1 g2 g3. destruct (Z.leb_spec (2 ^ 26) (a4 + c3)).
  - rewrite u32_small by lia. split; [lia|]. apply (Z.mod_unique _ _ 1); unfold p1305; lia.
  - split; [lia|]. symmetry. apply Z.mod_small. unfold p1305. lia.
Qed.

Lemma pack32_ok h : canonical32 h -> pad32_ok (pack32 h) /\ pad32_val (pack32 h) = val5 h mod 2 ^ 128.
Proof.
  destruct h as [[[[a0 a1] a2] a3] a4]. intros (A0 & A1 & A2 & A3 & A4). unfold pack32.
  pose proof (div_range a1 6 26 ltac:(lia) A1). pose proof (div_range a2 12 26 ltac:(lia) A2).
  pose proof (div_range a3 18 26 ltac:(lia) A3). rewrite !shiftr_div by lia.
  rewrite !lor_u32_shiftl by (cbn in *; lia).
  change (32 - 26) with 6. change (32 - 20) with 12. change (32 - 14) with 18. change (32 - 8) with 24.
  change (26 - 6) with 20 in *. change (26 - 12) with 14 in *. change (26 - 18) with 8 in *.
  change 0xffffffff with (2 ^ 32 - 1). rewrite !land_mask by lia.
  pose proof (split_at a1 6 ltac:(lia)). pose proof (mod_range a1 6 ltac:(lia)).
  pose proof (split_at a2 12 ltac:(lia)). pose proof (mod_range a2 12 ltac:(lia)).
  pose proof (split_at a3 18 ltac:(lia)). pose proof (mod_range a3 18 ltac:(lia)).
  pose proof (split_at a4 24 ltac:(lia)). pose proof (mod_range a4 24 ltac:(lia)).
  rewrite (Z.mod_small (a0 + _)), (Z.mod_small (a1 / _ + _)), (Z.mod_small (a2 / _ + _)), (Z.mod_small (a3 / _ + _)) by lia.
  split; [unfold pad32_ok; lia|]. unfold pad32_val, val5. apply (Z.mod_unique _ _ (a4 / 2 ^ 24)); lia.
Qed.

Lemma add_pad32_ok p w :
  pad32_ok p -> pad32_ok w -> add_pad32 p w = le_enc 16 ((pad32_val w + pad32_val p) mod 2 ^ 128).
Proof.
  destruct w as [[[w0 w1] w2] w3], p as [[[p0 p1] p2] p3]. intros (P0 & P1 & P2 & P3) (W0 & W1 & W2 & W3).
  unfold add_pad32, U32TO8. rewrite !store32_le. rewrite (u64_small (w0 + p0)), (u64_small (w1 + p1)),
    (u64_small (w2 + p2)), (u64_small (w3 + p3)), (shiftr_div (w0 + p0)) by lia.
  pose proof (split_at (w0 + p0) 32 ltac:(lia)). pose proof (mod_range (w0 + p0) 32 ltac:(lia)).
  set (c0 := (w0 + p0) / 2 ^ 32) in *. rewrite (u64_small (w1 + p1 + c0)), (shiftr_div (w1 + p1 + c0)) by lia.
  pose proof (split_at (w1 + p1 + c0) 32 ltac:(lia)). pose proof (mod_range (w1 + p1 + c0) 32 ltac:(lia)).
  set (c1 := (w1 + p1 + c0) / 2 ^ 32) in *. rewrite (u64_small (w2 + p2 + c1)), (shiftr_div (w2 + p2 + c1)) by lia.
  pose proof (split_at (w2 + p2 + c1) 32 ltac:(lia)). pose proof (mod_range (w2 + p2 + c1) 32 ltac:(lia)).
  set (c2 := (w2 + p2 + c1) / 2 ^ 32) in *. rewrite (u64_small (w3 + p3 + c2)) by lia.
  pose proof (split_at (w3 + p3 + c2) 32 ltac:(lia)). pose proof (mod_range (w3 + p3 + c2) 32 ltac:(lia)).
  set (l := le_enc 4 _ ++ _). rewrite <- (le_enc_dec l). unfold l at 1.
  rewrite !length_app, !le_enc_length. cbn [Nat.add]. f_equal. unfold l.
  rewrite !le_dec_app, !le_dec_enc, !zlen_le_enc. change (8 * Z.of_nat 4) with 32. unfold u32.
  rewrite !Z.mod_mod by lia. unfold pad32_val.
  apply (Z.mod_unique _ _ ((w3 + p3 + c2) / 2 ^ 32)); lia.
Qed.

Lemma finish_limbs32_ok h p :
  h32_ok h -> pad32_ok p -> finish_limbs32 h p = le_enc 16 ((val5 h mod p1305 + pad32_val p) mod 2 ^ 128).
Proof.
  intros Hh Hp. unfold finish_limbs32. destruct (full_carry32_ok _ Hh) as [C1 [q E1]].
  destruct (select_reduced32_ok _ C1) as [C2 E2]. destruct (pack32_ok _ C2) as [C3 E3].
  rewrite add_pad32_ok, E3, Z.add_mod_idemp_l, E2, E1 by done. do 3 f_equal.
  rewrite <- (Z.mod_add (val5 h) (- q)) by done. f_equal. lia.
Qed.

#[export, refine] Instance arith32 : Arith impl32 := {
  val := val5;
  pad_val := pad32_val;
  r_ok := r32_ok;
  h_ok := h32_ok;
  pad_ok := pad32_ok;
}.
Proof.
  - done.
  - apply key_limbs32_ok.
  - apply key_pads32_ok.
  - apply block_step32_ok.
  - apply finish_limbs32_ok.
Defined.

(** * Both implementations *)

(** The implementation a build has. *)
Definition mac_impl (w64 : bool) : poly1305.Impl := if w64 then poly1305_64.impl64 else impl32.
#[export] Instance mac_arith w64 : Arith (mac_impl w64).
Proof. destruct w64; apply _. Defined.

(** C31: for every 32-byte key and whatever the uninitialised buffer holds, both
    implementations compute the polynomial code of the message ([poly1305_ref]: the
    sixteen-byte pieces as coefficients, evaluated modulo [2^130 - 5] at the clamped key),
    without undefined behaviour, whether the message comes in one call of
    [rats_poly1305_auth] or in any sequence of updates. *)
Theorem poly1305_exact (key buf m : list byte) (ms : list (list byte)) :
  zlen key = 32 -> zlen buf = 16 ->
  poly1305.auth (I := poly1305_64.impl64) buf m key = Ret (poly1305_ref key m)
  /\ poly1305.auth (I := impl32) buf m key = Ret (poly1305_ref key m)
  /\ returns (update_all (I := poly1305_64.impl64) ms (poly1305.init buf key) ≫= poly1305.finish)
       (fun r => r.1 = poly1305_ref key (mjoin ms))
  /\ returns (update_all (I := impl32) ms (poly1305.init buf key) ≫= poly1305.finish)
       (fun r => r.1 = poly1305_ref key (mjoin ms)).
Proof.
  intros Hk Hb. split; [by apply auth_exact|]. split; [by apply auth_exact|]. split; by apply updates_exact.
Qed.

Lemma poly1305_exact_witness :
  poly1305.auth (I := impl32) (replicate 16 x00) poly1305.nacl_msg poly1305.nacl_key = Ret poly1305.nacl_mac.
Proof.
  assert (zlen poly1305.nacl_key = 32) as Hk by reflexivity.
  assert (zlen (replicate 16 x00) = 16) as Hb by reflexivity.
  destruct (poly1305_exact poly1305.nacl_key (replicate 16 x00) poly1305.nacl_msg [] Hk Hb) as (_ & E & _).
  rewrite E. assert (poly1305_ref poly1305.nacl_key poly1305.nacl_msg = poly1305.nacl_mac) as -> by (vm_compute; reflexivity).
  reflexivity.
Defined.
