(* ===== verification/ChaCha.v ===== *)
(** The ChaCha20 stream cipher ([crypto/chacha.c]), in both of the versions the
    preprocessor chooses from: sixteen words, and four vectors of four words.

    What the two share (the loop over the blocks of a message) is written against the class
    [Cipher] of the operations on a context. Pointers are offsets into one memory, so that
    encrypting in place is a case of encrypting; the target is little-endian. *)

From S2P Require Import Prelude Words.

Module chacha.

Definition fromLittle (ptr : list byte) : Z := load32 ptr.
Definition toLittle (v : Z) : list byte := store32 v.

(** [leftRotate]. *)
Definition leftRotate (x n : Z) : Z := Z.lor (u32 (Z.shiftl x n)) (Z.shiftr x (32 - n)).

Definition quarterRound (a b c d : Z) : Z * Z * Z * Z :=
  let a := u32 (a + b) in let d := leftRotate (Z.lxor d a) 16 in
  let c := u32 (c + d) in let b := leftRotate (Z.lxor b c) 12 in
  let a := u32 (a + b) in let d := leftRotate (Z.lxor d a) 8 in
  let c := u32 (c + d) in let b := leftRotate (Z.lxor b c) 7 in
  (a, b, c, d).

(** The sixteen characters of [tag256] and of [tag128]. *)
Definition tag256 : list byte :=
  [x65; x78; x70; x61; x6e; x64; x20; x33; x32; x2d; x62; x79; x74; x65; x20; x6b].
Definition tag128 : list byte :=
  [x65; x78; x70; x61; x6e; x64; x20; x31; x36; x2d; x62; x79; x74; x65; x20; x6b].

Definition word (p : list byte) (i : Z) : Z := fromLittle (zdrop (4 * i) p).

(** ** What a version provides *)

Class Cipher := {
  ctx : Type;
  keysetup : list byte -> Z -> ctx;
  ivsetup : list byte -> option (list byte) -> ctx -> ctx;
  (** The twenty rounds and the sum with the input, as sixteen words. *)
  core : ctx -> list Z;
  (** The increment of the counter. *)
  bump : ctx -> ctx;
}.

(** The exclusive or of the output words with the bytes of a block. *)
Fixpoint xor_words (out : list Z) (m : list byte) : list byte :=
  match out with
  | [] => []
  | w :: out => toLittle (Z.lxor w (fromLittle m)) ++ xor_words out (zdrop 4 m)
  end.

Section Generic.
Context {C : Cipher}.

(** [junk] is what the uninitialised [temp] holds. *)
Fixpoint encrypt_loop (fuel : nat) (junk : list byte) (x : ctx) (m c bytes : Z) (mem : list byte)
  : outcome (ctx * list byte) :=
  match fuel with
  | O => Ret (x, mem)
  | S fuel =>
      if bytes =? 0 then Ret (x, mem)
      else
        let out := core x in
        let x := bump x in
        if 64 <=? bytes then
          block ← peek m 64 mem;
          mem ← poke c (xor_words out block) mem;
          encrypt_loop fuel junk x (m + 64) (c + 64) (bytes - 64) mem
        else
          part ← peek m bytes mem;
          let temp := xor_words out (part ++ zdrop bytes junk) in
          mem ← poke c (ztake bytes temp) mem;
          Ret (x, mem)
  end.

(** [rats_chacha_encrypt_bytes(x, m, c, bytes)]; [bytes] is a [uint32_t]. *)
Definition encrypt_bytes (junk : list byte) (x : ctx) (m c bytes : Z) (mem : list byte) : outcome (ctx * list byte) :=
  encrypt_loop (S (Z.to_nat bytes)) junk x m c bytes mem.

End Generic.
End chacha.

(** * Sixteen words *)

Module chacha_scalar.
Import chacha.

Record words := mkWords {
  w0 : Z; w1 : Z; w2 : Z; w3 : Z; w4 : Z; w5 : Z; w6 : Z; w7 : Z;
  w8 : Z; w9 : Z; w10 : Z; w11 : Z; w12 : Z; w13 : Z; w14 : Z; w15 : Z;
}.

Definition keysetup_s (k : list byte) (kbits : Z) : words :=
  if kbits =? 256 then
    mkWords (word tag256 0) (word tag256 1) (word tag256 2) (word tag256 3)
      (word k 0) (word k 1) (word k 2) (word k 3) (word k 4) (word k 5) (word k 6) (word k 7)
      0 0 0 0
  else
    mkWords (word tag128 0) (word tag128 1) (word tag128 2) (word tag128 3)
      (word k 0) (word k 1) (word k 2) (word k 3) (word k 0) (word k 1) (word k 2) (word k 3)
      0 0 0 0.

Definition ivsetup_s (iv : list byte) (counter : option (list byte)) (x : words) : words :=
  let '(c0, c1) := match counter with Some c => (word c 0, word c 1) | None => (0, 0) end in
  mkWords (w0 x) (w1 x) (w2 x) (w3 x) (w4 x) (w5 x) (w6 x) (w7 x)
    (w8 x) (w9 x) (w10 x) (w11 x) c0 c1 (word iv 0) (word iv 1).

(** The column round and the diagonal round. *)
Definition double_round_s (x : words) : words :=
  let '(mkWords o0 o1 o2 o3 o4 o5 o6 o7 o8 o9 o10 o11 o12 o13 o14 o15) := x in
  let '(o0, o4, o8, o12) := quarterRound o0 o4 o8 o12 in
  let '(o1, o5, o9, o13) := quarterRound o1 o5 o9 o13 in
  let '(o2, o6, o10, o14) := quarterRound o2 o6 o10 o14 in
  let '(o3, o7, o11, o15) := quarterRound o3 o7 o11 o15 in
  let '(o0, o5, o10, o15) := quarterRound o0 o5 o10 o15 in
  let '(o1, o6, o11, o12) := quarterRound o1 o6 o11 o12 in
  let '(o2, o7, o8, o13) := quarterRound o2 o7 o8 o13 in
  let '(o3, o4, o9, o14) := quarterRound o3 o4 o9 o14 in
  mkWords o0 o1 o2 o3 o4 o5 o6 o7 o8 o9 o10 o11 o12 o13 o14 o15.

Definition core_s (x : words) : list Z :=
  let o := Nat.iter 10 double_round_s x in
  [u32 (w0 o + w0 x); u32 (w1 o + w1 x); u32 (w2 o + w2 x); u32 (w3 o + w3 x);
   u32 (w4 o + w4 x); u32 (w5 o + w5 x); u32 (w6 o + w6 x); u32 (w7 o + w7 x);
   u32 (w8 o + w8 x); u32 (w9 o + w9 x); u32 (w10 o + w10 x); u32 (w11 o + w11 x);
   u32 (w12 o + w12 x); u32 (w13 o + w13 x); u32 (w14 o + w14 x); u32 (w15 o + w15 x)].

Definition bump_s (x : words) : words :=
  let in12 := u32 (w12 x + 1) in
  let in13 := if in12 =? 0 then u32 (w13 x + 1) else w13 x in
  mkWords (w0 x) (w1 x) (w2 x) (w3 x) (w4 x) (w5 x) (w6 x) (w7 x)
    (w8 x) (w9 x) (w10 x) (w11 x) in12 in13 (w14 x) (w15 x).

#[export] Instance scalar : Cipher := {
  ctx := words;
  keysetup := keysetup_s;
  ivsetup := ivsetup_s;
  core := core_s;
  bump := bump_s;
}.

End chacha_scalar.

(** * Four vectors *)

Module chacha_vector.
Import chacha.

(** [RatsChaChaVectorUInt32]. *)
Record vec := mkVec { e0 : Z; e1 : Z; e2 : Z; e3 : Z }.

Definition vmap2 (f : Z -> Z -> Z) (x y : vec) : vec :=
  mkVec (f (e0 x) (e0 y)) (f (e1 x) (e1 y)) (f (e2 x) (e2 y)) (f (e3 x) (e3 y)).
Definition vadd : vec -> vec -> vec := vmap2 (fun a b => u32 (a + b)).
Definition vxor : vec -> vec -> vec := vmap2 Z.lxor.
Definition vleftRotate (x : vec) (n : Z) : vec :=
  mkVec (leftRotate (e0 x) n) (leftRotate (e1 x) n) (leftRotate (e2 x) n) (leftRotate (e3 x) n).

Definition fromLittleVec (p : list byte) : vec := mkVec (word p 0) (word p 1) (word p 2) (word p 3).

Definition quarterRoundVec (a b c d : vec) : vec * vec * vec * vec :=
  let a := vadd a b in let d := vleftRotate (vxor d a) 16 in
  let c := vadd c d in let b := vleftRotate (vxor b c) 12 in
  let a := vadd a b in let d := vleftRotate (vxor d a) 8 in
  let c := vadd c d in let b := vleftRotate (vxor b c) 7 in
  (a, b, c, d).

Definition shuffleLeft1 (x : vec) : vec := mkVec (e1 x) (e2 x) (e3 x) (e0 x).
Definition shuffleLeft2 (x : vec) : vec := mkVec (e2 x) (e3 x) (e0 x) (e1 x).
Definition shuffleLeft3 (x : vec) : vec := mkVec (e3 x) (e0 x) (e1 x) (e2 x).

Record vectors := mkVectors { v0 : vec; v1 : vec; v2 : vec; v3 : vec }.

Definition keysetup_v (k : list byte) (kbits : Z) : vectors :=
  if kbits =? 256 then
    mkVectors (fromLittleVec tag256) (fromLittleVec k) (fromLittleVec (zdrop 16 k)) (mkVec 0 0 0 0)
  else
    mkVectors (fromLittleVec tag128) (fromLittleVec k) (fromLittleVec k) (mkVec 0 0 0 0).

Definition ivsetup_v (iv : list byte) (counter : option (list byte)) (x : vectors) : vectors :=
  mkVectors (v0 x) (v1 x) (v2 x)
    match counter with
    | Some c => mkVec (word c 0) (word c 1) (word iv 0) (word iv 1)
    | None => mkVec 0 0 (word iv 0) (word iv 1)
    end.

Definition double_round_v (x : vectors) : vectors :=
  let '(mkVectors out0 out1 out2 out3) := x in
  let '(out0, out1, out2, out3) := quarterRoundVec out0 out1 out2 out3 in
  let out1 := shuffleLeft1 out1 in let out2 := shuffleLeft2 out2 in let out3 := shuffleLeft3 out3 in
  let '(out0, out1, out2, out3) := quarterRoundVec out0 out1 out2 out3 in
  let out1 := shuffleLeft3 out1 in let out2 := shuffleLeft2 out2 in let out3 := shuffleLeft1 out3 in
  mkVectors out0 out1 out2 out3.

(** The words in the order [toLittleVec] stores them. *)
Definition vec_words (v : vec) : list Z := [e0 v; e1 v; e2 v; e3 v].

Definition core_v (x : vectors) : list Z :=
  let o := Nat.iter 10 double_round_v x in
  vec_words (vadd (v0 o) (v0 x)) ++ vec_words (vadd (v1 o) (v1 x))
  ++ vec_words (vadd (v2 o) (v2 x)) ++ vec_words (vadd (v3 o) (v3 x)).

Definition bump_v (x : vectors) : vectors :=
  let c := u32 (e0 (v3 x) + 1) in
  let v := mkVec c (if c =? 0 then u32 (e1 (v3 x) + 1) else e1 (v3 x)) (e2 (v3 x)) (e3 (v3 x)) in
  mkVectors (v0 x) (v1 x) (v2 x) v.

#[export] Instance vector : Cipher := {
  ctx := vectors;
  keysetup := keysetup_v;
  ivsetup := ivsetup_v;
  core := core_v;
  bump := bump_v;
}.

End chacha_vector.
