(* ===== verification/ChaChaStream.v ===== *)
(** ChaCha20 is a stream cipher: the two versions compute the same, and encrypting is the
    exclusive or with a key stream, also in place. *)

From S2P Require Import Prelude Words ChaCha.
Import chacha.

(** * The two versions agree *)

Module chacha_agree.
Import chacha_scalar chacha_vector.

(** The same sixteen words, four to a vector. *)
Definition rows (x : words) : vectors :=
  mkVectors (mkVec (w0 x) (w1 x) (w2 x) (w3 x)) (mkVec (w4 x) (w5 x) (w6 x) (w7 x))
    (mkVec (w8 x) (w9 x) (w10 x) (w11 x)) (mkVec (w12 x) (w13 x) (w14 x) (w15 x)).

(** A quarter round of vectors is one of each column. *)
Lemma quarterRoundVec_columns a0 a1 a2 a3 b0 b1 b2 b3 c0 c1 c2 c3 d0 d1 d2 d3 :
  quarterRoundVec (mkVec a0 a1 a2 a3) (mkVec b0 b1 b2 b3) (mkVec c0 c1 c2 c3) (mkVec d0 d1 d2 d3)
  = let '(a0, b0, c0, d0) := quarterRound a0 b0 c0 d0 in
    let '(a1, b1, c1, d1) := quarterRound a1 b1 c1 d1 in
    let '(a2, b2, c2, d2) := quarterRound a2 b2 c2 d2 in
    let '(a3, b3, c3, d3) := quarterRound a3 b3 c3 d3 in
    (mkVec a0 a1 a2 a3, mkVec b0 b1 b2 b3, mkVec c0 c1 c2 c3, mkVec d0 d1 d2 d3).
Proof. reflexivity. Qed.

Lemma double_round_rows x : double_round_v (rows x) = rows (double_round_s x).
Proof.
  destruct x as [o0 o1 o2 o3 o4 o5 o6 o7 o8 o9 o10 o11 o12 o13 o14 o15].
  unfold double_round_v, double_round_s, rows. cbn [w0 w1 w2 w3 w4 w5 w6 w7 w8 w9 w10 w11 w12 w13 w14 w15].
  rewrite quarterRoundVec_columns.
  destruct (quarterRound o0 o4 o8 o12) as [[[p0 p4] p8] p12], (quarterRound o1 o5 o9 o13) as [[[p1 p5] p9] p13],
    (quarterRound o2 o6 o10 o14) as [[[p2 p6] p10] p14], (quarterRound o3 o7 o11 o15) as [[[p3 p7] p11] p15].
  unfold shuffleLeft1, shuffleLeft2, shuffleLeft3. cbn [e0 e1 e2 e3]. rewrite quarterRoundVec_columns.
  by destruct (quarterRound p0 p5 p10 p15) as [[[? ?] ?] ?], (quarterRound p1 p6 p11 p12) as [[[? ?] ?] ?],
    (quarterRound p2 p7 p8 p13) as [[[? ?] ?] ?], (quarterRound p3 p4 p9 p14) as [[[? ?] ?] ?].
Qed.

Lemma iter_rows n x : Nat.iter n double_round_v (rows x) = rows (Nat.iter n double_round_s x).
Proof. induction n as [|n IH]; [done|]. by rewrite !Nat.iter_succ, IH, double_round_rows. Qed.

Lemma core_rows x : core_v (rows x) = core_s x.
Proof. unfold core_v, core_s. by rewrite iter_rows. Qed.

Lemma bump_rows x : bump_v (rows x) = rows (bump_s x).
Proof. done. Qed.

Lemma keysetup_rows k kbits : keysetup_v k kbits = rows (keysetup_s k kbits).
Proof.
  unfold keysetup_v, keysetup_s, fromLittleVec, word. destruct (kbits =? 256); [|done].
  unfold rows. cbn [w0 w1 w2 w3 w4 w5 w6 w7 w8 w9 w10 w11 w12 w13 w14 w15]. by rewrite !zdrop_zdrop by lia.
Qed.

Lemma ivsetup_rows iv counter x : ivsetup_v iv counter (rows x) = rows (ivsetup_s iv counter x).
Proof. by destruct counter. Qed.

Lemma encrypt_loop_rows junk fuel : forall x m c bytes mem,
  encrypt_loop (C := vector) fuel junk (rows x) m c bytes mem
  = '(x', mem') ← encrypt_loop (C := scalar) fuel junk x m c bytes mem; Ret (rows x', mem').
Proof.
  induction fuel as [|fuel IH]; intros x m c bytes mem; cbn [encrypt_loop]; [done|].
  destruct (bytes =? 0); [done|]. change (@core vector (rows x)) with (core_v (rows x)). rewrite core_rows.
  destruct (64 <=? bytes).
  - destruct (peek m 64 mem) as [block| |]; cbn [mbind outcome_bind]; try done.
    destruct (poke c _ mem) as [mem'| |]; cbn [mbind outcome_bind]; try done. apply (IH (bump_s x)).
  - destruct (peek m bytes mem) as [part| |]; cbn [mbind outcome_bind]; try done.
    by destruct (poke c _ mem) as [mem'| |].
Qed.

End chacha_agree.

(** * Words and bytes *)

Definition word_bytes (ws : list Z) : list byte := flat_map toLittle ws.

(** Writing an exclusive or of words is writing the exclusive or of their bytes. *)
Lemma le_enc_lxor n : forall w (m : list byte), (n <= length m)%nat ->
  le_enc n (Z.lxor w (le_dec (take n m))) = zip_with bxor (le_enc n w) m.
Proof.
  induction n as [|n IH]; intros w m Hm; [done|]. destruct m as [|b m]; cbn [length] in Hm; [lia|].
  cbn [take le_dec le_enc zip_with]. pose proof (u8_range b) as Hb. set (y := le_dec (take n m)). f_equal.
  - apply u8_inj. rewrite u8_bxor, !u8_byte_of. change 256 with (2 ^ 8) in *.
    rewrite lxor_mod, (Z.mul_comm (2 ^ 8)), Z.mod_add, (Z.mod_small (u8 b)) by lia. done.
  - rewrite <- IH by lia. f_equal. change 256 with (2 ^ 8). rewrite <- !shiftr_div, Z.shiftr_lxor by lia. f_equal.
    rewrite shiftr_div, (Z.mul_comm (2 ^ 8)), Z.div_add, Z.div_small by lia. done.
Qed.

Lemma word_bytes_cons w ws : word_bytes (w :: ws) = le_enc 4 w ++ word_bytes ws.
Proof. unfold word_bytes. cbn [flat_map]. unfold toLittle. by rewrite store32_le. Qed.

Lemma zlen_word_bytes ws : zlen (word_bytes ws) = 4 * zlen ws.
Proof.
  induction ws as [|w ws IH]; [done|]. rewrite word_bytes_cons, zlen_app, zlen_le_enc, IH, zlen_cons. lia.
Qed.

Lemma xor_words_bytes ws : forall m, 4 * zlen ws <= zlen m -> xor_words ws m = zip_with bxor (word_bytes ws) m.
Proof.
  induction ws as [|w ws IH]; intros m Hm; [done|]. rewrite zlen_cons in Hm. pose proof (zlen_nonneg ws).
  cbn [xor_words]. rewrite word_bytes_cons. rewrite IH by (rewrite zlen_zdrop; lia).
  unfold toLittle, fromLittle. rewrite store32_le, load32_le.
  rewrite <- (ztake_zdrop 4 m) at 3. rewrite zip_with_app.
  - f_equal. rewrite <- (le_enc_lxor 4).
    + by rewrite take_ge by (unfold ztake; rewrite length_take; lia).
    + unfold ztake, zlen in *. rewrite length_take. lia.
  - rewrite le_enc_length. unfold ztake. rewrite length_take. unfold zlen in Hm. lia.
Qed.

(** * The key stream *)

(** What a version owes: a block is sixteen words. *)
Class Blocks (C : Cipher) := core_length : forall x : ctx, zlen (core x) = 16.

#[export] Instance scalar_blocks : Blocks chacha_scalar.scalar.
Proof. done. Qed.
#[export] Instance vector_blocks : Blocks chacha_vector.vector.
Proof. done. Qed.

Section Stream.
Context {C : Cipher} {B : Blocks C}.

Definition block_bytes (x : ctx) : list byte := word_bytes (core x).

Fixpoint keystream (n : nat) (x : ctx) : list byte :=
  match n with
  | O => []
  | S n => block_bytes x ++ keystream n (bump x)
  end.

(** The number of blocks of [n] bytes, and the exclusive or with the stream. *)
Definition block_count (n : Z) : nat := Z.to_nat ((n + 63) / 64).
Definition crypt (x : ctx) (data : list byte) : list byte :=
  zip_with bxor (keystream (block_count (zlen data)) x) data.

Lemma zlen_block_bytes x : zlen (block_bytes x) = 64.
Proof. unfold block_bytes. by rewrite zlen_word_bytes, core_length. Qed.

Lemma zlen_keystream n : forall x, zlen (keystream n x) = 64 * Z.of_nat n.
Proof.
  induction n as [|n IH]; intros x; cbn [keystream]; [done|]. rewrite zlen_app, zlen_block_bytes, IH. lia.
Qed.

Lemma block_count_bound n : 0 <= n -> n <= 64 * Z.of_nat (block_count n).
Proof.
  intros Hn. unfold block_count. pose proof (Z.div_mod (n + 63) 64 ltac:(lia)).
  pose proof (Z.mod_pos_bound (n + 63) 64 ltac:(lia)). pose proof (Z.div_pos (n + 63) 64 ltac:(lia) ltac:(lia)). lia.
Qed.

Lemma zlen_crypt x data : zlen (crypt x data) = zlen data.
Proof.
  unfold crypt, zlen. rewrite length_zip_with. pose proof (zlen_keystream (block_count (zlen data)) x) as E.
  pose proof (block_count_bound (zlen data) (zlen_nonneg data)). unfold zlen in *. lia.
Qed.

(** Encrypting twice gives the data back. *)
Lemma crypt_involutive x data : crypt x (crypt x data) = data.
Proof.
  unfold crypt at 1. rewrite zlen_crypt. unfold crypt.
  pose proof (block_count_bound (zlen data) (zlen_nonneg data)) as Hb.
  pose proof (zlen_keystream (block_count (zlen data)) x) as E.
  set (ks := keystream _ _) in *. clearbody ks. assert (zlen data <= zlen ks) as Hl by lia. clear Hb E.
  revert ks Hl. induction data as [|d data IH]; intros [|k ks] Hl; try done.
  rewrite !zlen_cons in Hl.
  cbn [zip_with]. f_equal; [|apply IH; lia]. apply u8_inj.
  by rewrite !u8_bxor, <- Z.lxor_assoc, Z.lxor_nilpotent, Z.lxor_0_l.
Qed.

Lemma block_count_step n : 64 <= n -> block_count n = S (block_count (n - 64)).
Proof.
  intros Hn. unfold block_count. replace (n + 63) with (n - 64 + 63 + 1 * 64) by lia. rewrite Z.div_add by lia.
  pose proof (Z.div_pos (n - 64 + 63) 64 ltac:(lia) ltac:(lia)). lia.
Qed.

Lemma block_count_last n : 0 < n < 64 -> block_count n = 1%nat.
Proof.
  intros Hn. unfold block_count. assert ((n + 63) / 64 = 1) as ->; [|done].
  symmetry. apply (Z.div_unique _ _ _ (n - 1)); lia.
Qed.

Lemma crypt_block x a data :
  zlen a = 64 -> crypt x (a ++ data) = zip_with bxor (block_bytes x) a ++ crypt (bump x) data.
Proof.
  intros Ha. unfold crypt. rewrite zlen_app, Ha. pose proof (zlen_nonneg data).
  rewrite block_count_step by lia. replace (64 + zlen data - 64) with (zlen data) by lia. cbn [keystream].
  apply zip_with_app. pose proof (zlen_block_bytes x). unfold zlen in *. lia.
Qed.

Lemma zip_with_prefix (k a r : list byte) :
  zlen a <= zlen k -> ztake (zlen a) (zip_with bxor k (a ++ r)) = zip_with bxor k a.
Proof.
  revert k. induction a as [|b a IH]; intros [|c k] H; try done.
  rewrite !zlen_cons in *. pose proof (zlen_nonneg a). cbn [zip_with app].
  unfold ztake. replace (Z.to_nat (1 + zlen a)) with (S (Z.to_nat (zlen a))) by lia. cbn [take]. f_equal.
  apply IH. lia.
Qed.

(** Source and destination are the same array or do not overlap. *)
Definition same_or_apart (m c n : Z) : Prop := m = c \/ m + n <= c \/ c + n <= m.

Lemma encrypt_loop_spec junk : zlen junk = 64 -> forall fuel x m c n mem,
  0 <= m -> 0 <= c -> 0 <= n -> m + n <= zlen mem -> c + n <= zlen mem -> (Z.to_nat n < fuel)%nat ->
  same_or_apart m c n ->
  encrypt_loop fuel junk x m c n mem
  = Ret (Nat.iter (block_count n) bump x, overwrite c (crypt x (region m n mem)) mem).
Proof.
  intros Hj. induction fuel as [|fuel IH]; intros x m c n mem Hm Hc Hn Rm Rc Hf Hd; [lia|].
  cbn [encrypt_loop]. destruct (Z.eqb_spec n 0) as [-> |Hz]; [by rewrite <- (overwrite_nil c mem) at 1|].
  destruct (Z.leb_spec 64 n) as [H64|H64].
  - rewrite peek_in by lia. cbn [mbind outcome_bind].
    pose proof (zlen_region m 64 mem ltac:(lia) ltac:(lia) ltac:(lia)) as Hr.
    rewrite xor_words_bytes by (rewrite core_length; lia). fold (block_bytes x).
    set (out := zip_with bxor (block_bytes x) (region m 64 mem)).
    assert (zlen out = 64) as Ho.
    { unfold out, zlen. rewrite length_zip_with. pose proof (zlen_block_bytes x). unfold zlen in *. lia. }
    rewrite poke_in by lia. cbn [mbind outcome_bind].
    rewrite IH by (rewrite ?zlen_overwrite by lia; unfold same_or_apart in *; lia).
    rewrite (block_count_step n), Nat.iter_succ_r by lia. do 2 f_equal.
    rewrite region_overwrite_disjoint by (unfold same_or_apart in Hd; lia).
    rewrite (region_split m 64 n), crypt_block by lia. fold out. rewrite <- Ho at 1.
    apply overwrite_overwrite; [lia|]. rewrite zlen_crypt, zlen_region; lia.
  - rewrite peek_in by lia. cbn [mbind outcome_bind].
    pose proof (zlen_region m n mem ltac:(lia) ltac:(lia) ltac:(lia)) as Hr.
    rewrite xor_words_bytes by (rewrite core_length, zlen_app, zlen_zdrop; lia). fold (block_bytes x).
    pose proof (zip_with_prefix (block_bytes x) (region m n mem) (zdrop n junk)) as Hp.
    rewrite Hr in Hp. rewrite Hp by (rewrite zlen_block_bytes; lia).
    assert (zip_with bxor (block_bytes x) (region m n mem) = crypt x (region m n mem)) as ->.
    { unfold crypt. rewrite Hr, block_count_last by lia. cbn [keystream]. by rewrite app_nil_r. }
    rewrite poke_in by (rewrite ?zlen_crypt; lia). cbn [mbind outcome_bind]. by rewrite block_count_last by lia.
Qed.

Lemma encrypt_bytes_spec junk x m c n mem :
  zlen junk = 64 -> 0 <= m -> 0 <= c -> 0 <= n -> m + n <= zlen mem -> c + n <= zlen mem -> same_or_apart m c n ->
  encrypt_bytes junk x m c n mem
  = Ret (Nat.iter (block_count n) bump x, overwrite c (crypt x (region m n mem)) mem).
Proof. intros. unfold encrypt_bytes. apply encrypt_loop_spec; (done || lia). Qed.

End Stream.

(** * The counter *)

Section Counter.
Import chacha_scalar.
#[local] Opaque core_s.

(** The block counter of a context, and the context without it. *)
Definition counter (x : words) : Z := w12 x + 2 ^ 32 * w13 x.
Definition with_counter (n : Z) (x : words) : words :=
  mkWords (w0 x) (w1 x) (w2 x) (w3 x) (w4 x) (w5 x) (w6 x) (w7 x)
    (w8 x) (w9 x) (w10 x) (w11 x) (n mod 2 ^ 32) (n / 2 ^ 32 mod 2 ^ 32) (w14 x) (w15 x).

Definition counter_ok (x : words) : Prop := 0 <= w12 x < 2 ^ 32 /\ 0 <= w13 x < 2 ^ 32.

Lemma bump_counter x : counter_ok x -> bump_s x = with_counter (counter x + 1) x.
Proof.
  intros [H12 H13]. unfold bump_s, with_counter, counter, u32.
  replace (w12 x + 2 ^ 32 * w13 x + 1) with (w12 x + 1 + w13 x * 2 ^ 32) by lia.
  rewrite Z.mod_add, Z.div_add by lia. f_equal. destruct (Z.eq_dec (w12 x) (2 ^ 32 - 1)) as [E|E].
  - rewrite E. change ((2 ^ 32 - 1 + 1) mod 2 ^ 32 =? 0) with true. cbv iota.
    change ((2 ^ 32 - 1 + 1) / 2 ^ 32) with 1. f_equal. lia.
  - rewrite (Z.mod_small (w12 x + 1)), (Z.div_small (w12 x + 1)), Z.add_0_l by lia.
    destruct (Z.eqb_spec (w12 x + 1) 0); [lia|]. symmetry. by apply Z.mod_small.
Qed.

Lemma with_counter_ok n x : counter_ok (with_counter n x).
Proof. split; apply mod_range; lia. Qed.

Lemma counter_with n x : counter (with_counter n x) = n mod 2 ^ 64.
Proof.
  unfold counter, with_counter. cbn [w12 w13]. change (2 ^ 64) with (2 ^ 32 * 2 ^ 32). rewrite Z.rem_mul_r by lia. lia.
Qed.

Lemma with_counter_mod n x : with_counter (n mod 2 ^ 64) x = with_counter n x.
Proof.
  unfold with_counter. change (2 ^ 64) with (2 ^ 32 * 2 ^ 32). rewrite (Z.rem_mul_r n) by lia. f_equal.
  - rewrite Z.mul_comm, Z.mod_add, Z.mod_mod by lia. done.
  - rewrite (Z.mul_comm (2 ^ 32)), Z.div_add, Z.div_small, Z.add_0_l, Z.mod_mod by (apply mod_range || lia; lia). done.
Qed.

(** After [n] blocks the counter is [n] larger, modulo [2^64]. *)
Lemma bump_iter n x : counter_ok x -> Nat.iter n bump_s x = with_counter (counter x + Z.of_nat n) x.
Proof.
  intros Hx. induction n as [|n IH].
  - cbn. rewrite Z.add_0_r. destruct x. unfold with_counter, counter, counter_ok in *. cbn [w0 w1 w2 w3 w4 w5 w6 w7 w8 w9 w10 w11 w12 w13 w14 w15] in *.
    rewrite Z.mul_comm, Z.mod_add, Z.div_add, Z.div_small, Z.add_0_l, !Z.mod_small by lia. done.
  - rewrite Nat.iter_succ, IH, bump_counter by apply with_counter_ok. rewrite counter_with.
    rewrite <- (with_counter_mod (_ mod _ + 1)), Z.add_mod_idemp_l, with_counter_mod by lia.
    unfold with_counter. cbn [w0 w1 w2 w3 w4 w5 w6 w7 w8 w9 w10 w11 w12 w13 w14 w15].
    by replace (counter x + Z.of_nat n + 1) with (counter x + Z.of_nat (S n)) by lia.
Qed.

(** The stream of a context, block by block. *)
Lemma keystream_blocks n : forall x, counter_ok x ->
  keystream n x = mjoin (map (fun i => word_bytes (core_s (with_counter (counter x + Z.of_nat i) x))) (seq 0 n)).
Proof.
  induction n as [|n IH]; intros x Hx; [done|]. cbn [keystream seq map mjoin list_join]. f_equal.
  - pose proof (bump_iter 0 x Hx) as E. cbn in E. unfold block_bytes. by rewrite <- E.
  - change (@bump scalar x) with (bump_s x). rewrite (bump_counter x Hx) in *. rewrite IH by apply with_counter_ok.
    rewrite <- seq_shift, map_map. apply (f_equal mjoin), map_ext. intros i. rewrite counter_with.
    rewrite <- (with_counter_mod (_ mod _ + _)), Z.add_mod_idemp_l, with_counter_mod by lia.
    unfold with_counter at 1. cbn [w0 w1 w2 w3 w4 w5 w6 w7 w8 w9 w10 w11 w12 w13 w14 w15].
    by replace (counter x + 1 + Z.of_nat i) with (counter x + Z.of_nat (S i)) by lia.
Qed.

(** Encrypting [n] bytes never reads or writes out of bounds when the arrays are in
    memory, and leaves in the destination (also when it is the source) the exclusive or of
    the source with the blocks of the counter, the counter after it, and so on modulo
    [2^64]; nothing else in memory changes, what the uninitialised [temp] holds does not
    matter, and the counter is left after the last block. *)
Theorem chacha_stream junk x m c n mem :
  zlen junk = 64 -> counter_ok x -> 0 <= m -> 0 <= c -> 0 <= n -> m + n <= zlen mem -> c + n <= zlen mem ->
  same_or_apart m c n ->
  let blocks := map (fun i => word_bytes (core_s (with_counter (counter x + Z.of_nat i) x))) (seq 0 (block_count n)) in
  encrypt_bytes junk x m c n mem
  = Ret (with_counter (counter x + Z.of_nat (block_count n)) x,
         overwrite c (zip_with bxor (mjoin blocks) (region m n mem)) mem).
Proof.
  intros Hj Hx Hm Hc Hn Rm Rc Hd blocks. rewrite encrypt_bytes_spec by done. f_equal. f_equal.
  - exact (bump_iter (block_count n) x Hx).
  - unfold crypt. rewrite zlen_region by lia. by rewrite (keystream_blocks _ x Hx).
Qed.

(** The first block of the RFC 8439 example (section 2.3.2), whose nonce is the upper
    half of the counter and the initialisation vector here. *)
Definition rfc_key : list byte := map (fun i => byte_of (Z.of_nat i)) (seq 0 32).
Definition rfc_ctx : words :=
  ivsetup_s [x00; x00; x00; x4a; x00; x00; x00; x00] (Some [x01; x00; x00; x00; x00; x00; x00; x09]) (keysetup_s rfc_key 256).

Lemma chacha_stream_witness :
  (zlen (replicate 64 x00) = 64 /\ counter_ok rfc_ctx /\ same_or_apart 0 0 16)
  /\ encrypt_bytes (replicate 64 x00) rfc_ctx 0 0 16 (replicate 16 x00)
     = Ret (with_counter (counter rfc_ctx + 1) rfc_ctx,
            [x10; xf1; xe7; xe4; xd1; x3b; x59; x15; x50; x0f; xdd; x1f; xa3; x20; x71; xc4]).
Proof.
  assert (zlen (replicate 64 x00) = 64) as Hj by reflexivity.
  assert (counter_ok rfc_ctx) as Hx by (unfold counter_ok; vm_compute; intuition congruence).
  assert (same_or_apart 0 0 16) as Hs by (left; reflexivity).
  split; [split; [exact Hj|split; [exact Hx|exact Hs]]|].
  rewrite (chacha_stream (replicate 64 x00) rfc_ctx 0 0 16 (replicate 16 x00) Hj Hx);
    [|lia..|vm_compute; congruence|vm_compute; congruence|exact Hs].
  vm_compute. reflexivity.
Defined.

End Counter.

(** * Both versions *)

(** The version a build has. *)
Definition cipher (vec : bool) : Cipher := if vec then chacha_vector.vector else chacha_scalar.scalar.
#[export] Instance cipher_blocks vec : Blocks (cipher vec).
Proof. by destruct vec. Qed.

Lemma crypt_rows x data :
  crypt (C := chacha_vector.vector) (chacha_agree.rows x) data = crypt (C := chacha_scalar.scalar) x data.
Proof.
  unfold crypt. generalize (block_count (zlen data)) as n. intros n. f_equal. revert x.
  induction n as [|n IH]; intros x; cbn [keystream]; [done|]. f_equal; [|apply (IH (chacha_scalar.bump_s x))].
  unfold block_bytes. exact (f_equal word_bytes (chacha_agree.core_rows x)).
Qed.

(** A key, an initialisation vector and a counter set up, and bytes encrypted. *)
Definition encrypt_with (C : Cipher) (junk k : list byte) (kbits : Z) (iv : list byte) (cnt : option (list byte))
    (m c n : Z) (mem : list byte) : outcome (list byte) :=
  '(_, mem) ← encrypt_bytes junk (ivsetup iv cnt (keysetup k kbits)) m c n mem;
  Ret mem.

(** The vector version and the scalar version do the same to memory for every key of
    either size, initialisation vector, counter, pair of pointers (overlapping or not) and
    length, undefined behaviour included. *)
Theorem chacha_versions_agree junk k kbits iv cnt m c n mem :
  encrypt_with chacha_vector.vector junk k kbits iv cnt m c n mem
  = encrypt_with chacha_scalar.scalar junk k kbits iv cnt m c n mem.
Proof.
  unfold encrypt_with, encrypt_bytes.
  change (@keysetup chacha_vector.vector) with chacha_vector.keysetup_v.
  change (@ivsetup chacha_vector.vector) with chacha_vector.ivsetup_v.
  rewrite chacha_agree.keysetup_rows, chacha_agree.ivsetup_rows, chacha_agree.encrypt_loop_rows.
  change (@keysetup chacha_scalar.scalar) with chacha_scalar.keysetup_s.
  change (@ivsetup chacha_scalar.scalar) with chacha_scalar.ivsetup_s.
  by destruct (encrypt_loop _ _ _ _ _ _ _) as [[x mem']| |].
Qed.
