(* ===== verification/ChaChaPoly.v ===== *)
(** The ChaCha20-Poly1305 construction ([crypto/chachapoly.c]): authenticated encryption
    of a message with additional data, over any version of the cipher and of the code.

    Pointers are offsets into one memory; [junk] and [buf] are what the uninitialised
    [temp] of the cipher and buffer of the code hold. *)

From S2P Require Import Prelude Words Poly1305 PolyReference Poly64 Poly32 ChaCha ChaChaStream.

Module chachapoly.
Import chacha poly1305.

Definition TAG_SIZE : Z := 16.
Definition DECRYPT_FAILED : Z := u64 (-1).

Definition write_le64 (v : Z) : list byte := store64 v.

Definition secure_compare (a b : list byte) : bool := differences a b =? 0.

Definition block0_counter : list byte := replicate 8 x00.
Definition block1_counter : list byte := x01 :: replicate 7 x00.

Section Construction.
Context {C : Cipher} {I : Impl}.

(** [rats_poly1305_pad16]. *)
Definition pad16 (data_len : Z) (st : state) : outcome state :=
  let pad := (16 - data_len mod 16) mod 16 in
  if 0 <? pad then update (replicate (Z.to_nat pad) x00) st else Ret st.

Definition context (key nonce counter : list byte) : ctx :=
  ivsetup (zdrop 4 nonce) (Some counter) (keysetup key 256).

(** The key of the code: the first block of the cipher. *)
Definition poly_key (junk key nonce : list byte) : outcome (list byte) :=
  '(_, block) ← encrypt_bytes junk (context key nonce block0_counter) 0 0 64 (replicate 64 x00);
  Ret block.

(** An array and its padding. *)
Definition absorb (off len : Z) (mem : list byte) (st : state) : outcome state :=
  if 0 <? len then
    data ← peek off len mem;
    st ← update data st;
    pad16 len st
  else Ret st.

(** The tag of the additional data at [ad] and the ciphertext at [ct]. *)
Definition compute_tag (buf pkey : list byte) (ad ad_len ct pt_len : Z) (mem : list byte) : outcome (list byte) :=
  st ← absorb ad ad_len mem (init buf (ztake 32 pkey));
  st ← absorb ct pt_len mem st;
  st ← update (write_le64 ad_len ++ write_le64 pt_len) st;
  '(tag, _) ← finish st;
  Ret tag.

Definition encrypt (junk buf key nonce : list byte) (ad ad_len plaintext pt_len ciphertext : Z) (mem : list byte)
  : outcome (Z * list byte) :=
  pkey ← poly_key junk key nonce;
  mem ← (if 0 <? pt_len then
           '(_, mem) ← encrypt_bytes junk (context key nonce block1_counter) plaintext ciphertext (u32 pt_len) mem;
           Ret mem
         else Ret mem);
  tag ← compute_tag buf pkey ad ad_len ciphertext pt_len mem;
  mem ← poke (ciphertext + pt_len) tag mem;
  Ret (u64 (pt_len + TAG_SIZE), mem).

Definition decrypt (junk buf key nonce : list byte) (ad ad_len ciphertext ct_len plaintext : Z) (mem : list byte)
  : outcome (Z * list byte) :=
  if ct_len <? TAG_SIZE then Ret (DECRYPT_FAILED, mem)
  else
    let pt_len := ct_len - TAG_SIZE in
    pkey ← poly_key junk key nonce;
    computed_tag ← compute_tag buf pkey ad ad_len ciphertext pt_len mem;
    tag ← peek (ciphertext + pt_len) TAG_SIZE mem;
    if negb (secure_compare computed_tag tag) then Ret (DECRYPT_FAILED, mem)
    else
      mem ← (if 0 <? pt_len then
               '(_, mem) ← encrypt_bytes junk (context key nonce block1_counter) ciphertext plaintext (u32 pt_len) mem;
               Ret mem
             else Ret mem);
      Ret (pt_len, mem).

Definition encrypt_inplace (junk buf key nonce : list byte) (ad ad_len data data_len : Z) (mem : list byte)
  : outcome (Z * list byte) :=
  encrypt junk buf key nonce ad ad_len data data_len data mem.

Definition decrypt_inplace (junk buf key nonce : list byte) (ad ad_len data data_len : Z) (mem : list byte)
  : outcome (Z * list byte) :=
  decrypt junk buf key nonce ad ad_len data data_len data mem.

End Construction.
End chachapoly.

(** * What it computes *)

Module aead.
Import chacha poly1305 chachapoly.

Section Reference.
Context {C : Cipher}.

Definition pad_of (n : Z) : list byte := replicate (Z.to_nat ((16 - n mod 16) mod 16)) x00.

Definition mac_data (ad ct : list byte) : list byte :=
  ad ++ pad_of (zlen ad) ++ ct ++ pad_of (zlen ct) ++ le_enc 8 (zlen ad) ++ le_enc 8 (zlen ct).

Definition tag_of (key nonce ad ct : list byte) : list byte :=
  poly1305_ref (ztake 32 (block_bytes (context key nonce block0_counter))) (mac_data ad ct).

Definition stream (key nonce data : list byte) : list byte := crypt (context key nonce block1_counter) data.

Definition seal (key nonce ad pt : list byte) : list byte :=
  let ct := stream key nonce pt in ct ++ tag_of key nonce ad ct.

Definition open (key nonce ad data : list byte) : option (list byte) :=
  let ct := ztake (zlen data - 16) data in
  if (16 <=? zlen data) && bool_decide (zdrop (zlen data - 16) data = tag_of key nonce ad ct)
  then Some (stream key nonce ct)
  else None.

Context {B : Blocks C}.

Lemma zlen_tag_of key nonce ad ct : zlen (tag_of key nonce ad ct) = 16.
Proof. unfold tag_of, poly1305_ref. by rewrite zlen_le_enc. Qed.

Lemma zlen_stream key nonce data : zlen (stream key nonce data) = zlen data.
Proof. apply zlen_crypt. Qed.

Lemma zlen_seal key nonce ad pt : zlen (seal key nonce ad pt) = zlen pt + 16.
Proof. unfold seal. by rewrite zlen_app, zlen_stream, zlen_tag_of. Qed.

(** Exactly what is sealed is opened. *)
Lemma open_seal key nonce ad data pt : open key nonce ad data = Some pt <-> data = seal key nonce ad pt.
Proof.
  unfold open. split.
  - destruct (Z.leb_spec 16 (zlen data)) as [Hl|Hl]; [|done]. cbn [andb]. case_bool_decide as Ht; [|done].
    intros [= <-]. unfold seal, stream. rewrite crypt_involutive, <- Ht. symmetry. apply ztake_zdrop.
  - intros ->. rewrite zlen_seal. pose proof (zlen_nonneg pt). rewrite (proj2 (Z.leb_le _ _)) by lia.
    replace (zlen pt + 16 - 16) with (zlen pt) by lia. unfold seal.
    rewrite ztake_app, zdrop_app by (by rewrite zlen_stream). cbn [andb]. rewrite bool_decide_true by done.
    unfold stream. by rewrite crypt_involutive.
Qed.

End Reference.
End aead.
