(* ===== verification/ChaChaPolyProofs.v ===== *)
(** ChaCha20-Poly1305 computes its reference: encrypting and decrypting in memory are
    [aead.seal] and [aead.open] of the arrays, in place too, so that exactly what was
    encrypted under the same key, nonce and additional data is decrypted. *)

From S2P Require Import Prelude Words Poly1305 PolyReference Poly64 Poly32 ChaCha ChaChaStream ChaChaPoly.
Import chacha poly1305 chachapoly aead.

Section Proofs.
Context {C : Cipher} {B : Blocks C} {I : Impl} {A : Arith I}.

(** An array in memory. *)
Definition inside (off len : Z) (mem : list byte) : Prop := 0 <= off /\ 0 <= len /\ off + len <= zlen mem.

Lemma poly_key_spec junk key nonce :
  zlen junk = 64 -> poly_key junk key nonce = Ret (block_bytes (context key nonce block0_counter)).
Proof.
  intros Hj. unfold poly_key. rewrite encrypt_bytes_spec by (done || by left). cbn [mbind outcome_bind]. f_equal.
  unfold overwrite, crypt. change (region 0 64 (replicate 64 x00)) with (replicate 64 x00).
  change (block_count (zlen (replicate 64 x00))) with 1%nat. cbn [keystream]. rewrite app_nil_r.
  set (x := context key nonce block0_counter). pose proof (zlen_block_bytes x) as Hl.
  assert (zip_with bxor (block_bytes x) (replicate 64 x00) = block_bytes x) as ->.
  { assert (length (block_bytes x) = 64%nat) as H64 by (unfold zlen in Hl; lia). rewrite <- H64. clear.
    induction (block_bytes x) as [|b l IH]; cbn [length replicate zip_with]; [done|]. f_equal; [|done].
    apply u8_inj. rewrite u8_bxor. apply Z.lxor_0_r. }
  rewrite Hl, ztake_0, zdrop_all, app_nil_r by done. done.
Qed.

Lemma absorb_holds key msg off len mem st :
  holds key msg st -> inside off len mem ->
  returns (absorb off len mem st) (holds key (msg ++ region off len mem ++ pad_of len)).
Proof.
  intros Hst (Ho & Hl & Hi). unfold absorb. destruct (Z.ltb_spec 0 len) as [Hp|Hp].
  - rewrite peek_in by lia. cbn [mbind outcome_bind].
    destruct (returns_inv _ _ (update_holds key msg (region off len mem) st Hst)) as (st1 & -> & H1).
    cbn [mbind outcome_bind]. unfold pad16, pad_of. rewrite app_assoc.
    destruct (Z.ltb_spec 0 ((16 - len mod 16) mod 16)); [by apply update_holds|].
    pose proof (Z.mod_pos_bound (16 - len mod 16) 16 ltac:(lia)).
    replace ((16 - len mod 16) mod 16) with 0 by lia. cbn [Z.to_nat replicate]. by rewrite app_nil_r.
  - assert (len = 0) as -> by lia. by rewrite app_nil_r.
Qed.

Lemma compute_tag_spec buf pkey ad ad_len ct pt_len mem :
  zlen buf = 16 -> zlen pkey = 64 -> inside ad ad_len mem -> inside ct pt_len mem ->
  compute_tag buf pkey ad ad_len ct pt_len mem
  = Ret (poly1305_ref (ztake 32 pkey) (mac_data (region ad ad_len mem) (region ct pt_len mem))).
Proof.
  intros Hb Hp Ha Hc. unfold compute_tag.
  assert (zlen (ztake 32 pkey) = 32) as Hk by (rewrite zlen_ztake; lia).
  destruct (returns_inv _ _ (absorb_holds _ [] ad ad_len mem _ (init_holds buf _ Hk Hb) Ha)) as (st1 & -> & H1).
  cbn [mbind outcome_bind]. destruct (returns_inv _ _ (absorb_holds _ _ ct pt_len mem _ H1 Hc)) as (st2 & -> & H2).
  cbn [mbind outcome_bind].
  destruct (returns_inv _ _ (update_holds _ _ (write_le64 ad_len ++ write_le64 pt_len) _ H2)) as (st3 & -> & H3).
  cbn [mbind outcome_bind]. destruct (returns_inv _ _ (finish_holds _ _ _ H3)) as ([tag st4] & -> & Et).
  cbn [mbind outcome_bind fst] in Et |- *. rewrite Et. do 2 f_equal. unfold mac_data, write_le64.
  destruct Ha as (? & ? & ?), Hc as (? & ? & ?). rewrite !store64_le, !zlen_region by lia.
  by rewrite <- !app_assoc.
Qed.

(** The cipher under the second counter. *)
Lemma crypt_step junk key nonce m c n mem :
  zlen junk = 64 -> inside m n mem -> inside c n mem -> n < 2 ^ 32 -> same_or_apart m c n ->
  (if 0 <? n then
     '(_, mem) ← encrypt_bytes junk (context key nonce block1_counter) m c (u32 n) mem; Ret mem
   else Ret mem)
  = Ret (overwrite c (stream key nonce (region m n mem)) mem).
Proof.
  intros Hj (? & ? & ?) (? & ? & ?) Hn Hd. destruct (Z.ltb_spec 0 n).
  - rewrite u32_small, encrypt_bytes_spec by (done || lia). done.
  - assert (n = 0) as -> by lia. change (region m 0 mem) with (@nil byte). change (stream key nonce []) with (@nil byte).
    by rewrite overwrite_nil.
Qed.

(** Encrypting writes the sealed message. *)
Lemma encrypt_spec junk buf key nonce ad ad_len pt n ct mem :
  zlen junk = 64 -> zlen buf = 16 -> inside ad ad_len mem -> inside pt n mem -> inside ct (n + 16) mem -> n < 2 ^ 32 ->
  same_or_apart pt ct n -> ad + ad_len <= ct \/ ct + n <= ad ->
  encrypt junk buf key nonce ad ad_len pt n ct mem
  = Ret (n + 16, overwrite ct (seal key nonce (region ad ad_len mem) (region pt n mem)) mem).
Proof.
  intros Hj Hb Ha Hp Hc Hn Hd Had. pose proof Ha as (? & ? & ?). pose proof Hp as (? & ? & ?). pose proof Hc as (? & ? & ?).
  unfold encrypt, TAG_SIZE. rewrite poly_key_spec by done. cbn [mbind outcome_bind].
  rewrite crypt_step by (done || unfold inside; lia). cbn [mbind outcome_bind].
  set (c := stream key nonce (region pt n mem)).
  assert (zlen c = n) as Hlc by (unfold c; rewrite zlen_stream, zlen_region; lia).
  set (mem1 := overwrite ct c mem). assert (zlen mem1 = zlen mem) as Hm1 by (apply zlen_overwrite; lia).
  rewrite compute_tag_spec by (try done; try apply zlen_block_bytes; unfold inside; lia).
  cbn [mbind outcome_bind]. unfold mem1. rewrite region_overwrite_disjoint by lia.
  assert (region ct n (overwrite ct c mem) = c) as -> by (rewrite <- Hlc; apply region_overwrite; lia). fold (tag_of key nonce (region ad ad_len mem) c).
  set (tag := tag_of _ _ _ _). assert (zlen tag = 16) as Ht by apply zlen_tag_of.
  rewrite poke_in by (rewrite ?zlen_overwrite; lia). cbn [mbind outcome_bind].
  replace (ct + n) with (ct + zlen c) by lia. rewrite overwrite_overwrite by lia. by rewrite u64_small by lia.
Qed.

(** Decrypting writes what is opened, or nothing. *)
Lemma decrypt_spec junk buf key nonce ad ad_len ct n pt mem :
  zlen junk = 64 -> zlen buf = 16 -> inside ad ad_len mem -> inside ct n mem -> inside pt (n - 16) mem \/ n < 16 ->
  n < 2 ^ 32 -> same_or_apart ct pt (n - 16) ->
  decrypt junk buf key nonce ad ad_len ct n pt mem
  = Ret match open key nonce (region ad ad_len mem) (region ct n mem) with
        | Some p => (n - 16, overwrite pt p mem)
        | None => (DECRYPT_FAILED, mem)
        end.
Proof.
  intros Hj Hb Ha Hc Hp Hn Hd. pose proof Ha as (? & ? & ?). pose proof Hc as (? & ? & ?).
  unfold decrypt, open, TAG_SIZE. rewrite zlen_region by lia. destruct (Z.ltb_spec n 16) as [Hlt|Hge].
  { by rewrite (proj2 (Z.leb_gt _ _)) by lia. }
  rewrite (proj2 (Z.leb_le _ _)) by lia. destruct Hp as [Hp|]; [|lia]. pose proof Hp as (? & ? & ?).
  rewrite poly_key_spec by done. cbn [mbind outcome_bind].
  rewrite compute_tag_spec by (try done; try apply zlen_block_bytes; unfold inside; lia). cbn [mbind outcome_bind].
  rewrite peek_in by lia. cbn [mbind outcome_bind andb].
  rewrite (region_split ct (n - 16) n) by lia. replace (n - (n - 16)) with 16 by lia.
  pose proof (zlen_region ct (n - 16) mem ltac:(lia) ltac:(lia) ltac:(lia)) as Hl.
  rewrite ztake_app, zdrop_app by lia. fold (tag_of key nonce (region ad ad_len mem) (region ct (n - 16) mem)).
  set (tag := tag_of _ _ _ _). set (sent := region (ct + (n - 16)) 16 mem).
  assert (zlen sent = 16) as Hs by (apply zlen_region; lia). assert (zlen tag = 16) as Ht by apply zlen_tag_of.
  unfold secure_compare. pose proof (differences_eq tag sent ltac:(unfold zlen in *; lia)) as He.
  case_bool_decide as Hd'; destruct (Z.eqb_spec (differences tag sent) 0) as [Hz|Hz]; cbn [negb].
  - rewrite crypt_step by (done || unfold inside; lia). done.
  - destruct Hz. by apply He.
  - destruct Hd'. symmetry. by apply He.
  - done.
Qed.

End Proofs.

(** * Every build *)

#[local] Opaque chacha_scalar.core_s chacha_vector.core_v.

(** A build: the version of the cipher and the implementation of the code. *)
Record build := mkBuild { vector_math : bool; wide_words : bool }.

Definition build_encrypt (b : build) := encrypt (C := cipher (vector_math b)) (I := mac_impl (wide_words b)).
Definition build_decrypt (b : build) := decrypt (C := cipher (vector_math b)) (I := mac_impl (wide_words b)).

(** The sealed message does not depend on the version of the cipher. *)
Definition sealed : list byte -> list byte -> list byte -> list byte -> list byte := seal (C := chacha_scalar.scalar).
Definition opened : list byte -> list byte -> list byte -> list byte -> option (list byte) := open (C := chacha_scalar.scalar).

Lemma context_rows key nonce counter :
  context (C := chacha_vector.vector) key nonce counter = chacha_agree.rows (context (C := chacha_scalar.scalar) key nonce counter).
Proof.
  unfold context. change (@keysetup chacha_vector.vector) with chacha_vector.keysetup_v.
  change (@ivsetup chacha_vector.vector) with chacha_vector.ivsetup_v.
  by rewrite chacha_agree.keysetup_rows, chacha_agree.ivsetup_rows.
Qed.

Lemma block_versions key nonce counter :
  block_bytes (C := chacha_vector.vector) (context key nonce counter)
  = block_bytes (C := chacha_scalar.scalar) (context key nonce counter).
Proof.
  rewrite context_rows. unfold block_bytes.
  exact (f_equal word_bytes (chacha_agree.core_rows (context (C := chacha_scalar.scalar) key nonce counter))).
Qed.

Lemma tag_of_versions vec key nonce ad ct :
  tag_of (C := cipher vec) key nonce ad ct = tag_of (C := chacha_scalar.scalar) key nonce ad ct.
Proof. destruct vec; [|done]. unfold tag_of. cbn [cipher]. by rewrite block_versions. Qed.

Lemma stream_versions vec key nonce data :
  stream (C := cipher vec) key nonce data = stream (C := chacha_scalar.scalar) key nonce data.
Proof. destruct vec; [|done]. unfold stream. cbn [cipher]. rewrite context_rows. apply crypt_rows. Qed.

Lemma seal_versions vec key nonce ad pt : seal (C := cipher vec) key nonce ad pt = sealed key nonce ad pt.
Proof. unfold sealed, seal. by rewrite tag_of_versions, stream_versions. Qed.

Lemma open_versions vec key nonce ad data : open (C := cipher vec) key nonce ad data = opened key nonce ad data.
Proof. unfold opened, open. by rewrite tag_of_versions, stream_versions. Qed.

Lemma build_encrypt_spec b junk buf key nonce ad ad_len pt n ct mem :
  zlen junk = 64 -> zlen buf = 16 -> inside ad ad_len mem -> inside pt n mem -> inside ct (n + 16) mem -> n < 2 ^ 32 ->
  same_or_apart pt ct n -> ad + ad_len <= ct \/ ct + n <= ad ->
  build_encrypt b junk buf key nonce ad ad_len pt n ct mem
  = Ret (n + 16, overwrite ct (sealed key nonce (region ad ad_len mem) (region pt n mem)) mem).
Proof. intros. unfold build_encrypt. rewrite encrypt_spec by done. by rewrite seal_versions. Qed.

Lemma build_decrypt_spec b junk buf key nonce ad ad_len ct n pt mem :
  zlen junk = 64 -> zlen buf = 16 -> inside ad ad_len mem -> inside ct n mem -> inside pt (n - 16) mem \/ n < 16 ->
  n < 2 ^ 32 -> same_or_apart ct pt (n - 16) ->
  build_decrypt b junk buf key nonce ad ad_len ct n pt mem
  = Ret match opened key nonce (region ad ad_len mem) (region ct n mem) with
        | Some p => (n - 16, overwrite pt p mem)
        | None => (DECRYPT_FAILED, mem)
        end.
Proof. intros. unfold build_decrypt. rewrite decrypt_spec by done. by rewrite open_versions. Qed.

(** C29: what one build encrypts every build decrypts: for all keys, nonces, additional data
    and messages (shorter than [2^32 - 16] bytes) in memory, encrypting returns the length
    plus sixteen, and decrypting the result, by the same or by another version of the
    cipher and of the code, in place or apart, returns the length and leaves the message in
    the output; no access is out of bounds. *)
Theorem aead_roundtrip b b' junk junk' buf buf' key nonce ad ad_len pt n ct out mem :
  zlen junk = 64 -> zlen buf = 16 -> zlen junk' = 64 -> zlen buf' = 16 ->
  inside ad ad_len mem -> inside pt n mem -> inside ct (n + 16) mem -> inside out n mem -> n + 16 < 2 ^ 32 ->
  same_or_apart pt ct n -> same_or_apart ct out n -> ad + ad_len <= ct \/ ct + (n + 16) <= ad ->
  exists mem1 mem2,
    build_encrypt b junk buf key nonce ad ad_len pt n ct mem = Ret (n + 16, mem1)
    /\ build_decrypt b' junk' buf' key nonce ad ad_len ct (n + 16) out mem1 = Ret (n, mem2)
    /\ region out n mem2 = region pt n mem.
Proof.
  intros Hj Hb Hj' Hb' Ha Hp Hc Ho Hn Hd Hd' Had. pose proof Ha as (? & ? & ?). pose proof Hp as (? & ? & ?).
  pose proof Hc as (? & ? & ?). pose proof Ho as (? & ? & ?).
  set (s := sealed key nonce (region ad ad_len mem) (region pt n mem)).
  assert (zlen s = n + 16) as Hs by (unfold s, sealed; rewrite zlen_seal, zlen_region; lia).
  exists (overwrite ct s mem), (overwrite out (region pt n mem) (overwrite ct s mem)).
  assert (zlen (overwrite ct s mem) = zlen mem) as Hl by (apply zlen_overwrite; lia).
  pose proof (zlen_region pt n mem ltac:(lia) ltac:(lia) ltac:(lia)) as Hlp.
  split; [|split].
  - rewrite build_encrypt_spec by (done || lia). done.
  - rewrite build_decrypt_spec by (try done; unfold inside, same_or_apart in *; lia).
    rewrite region_overwrite_disjoint by lia. rewrite <- Hs at 1. rewrite region_overwrite by lia.
    unfold opened. rewrite (proj2 (open_seal _ _ _ s (region pt n mem)) eq_refl). do 2 f_equal. lia.
  - rewrite <- Hlp at 1. apply region_overwrite; lia.
Qed.

(** Messages in memory: additional data, the message, room for the ciphertext. *)
Definition sample_mem : list byte := [x61; x64] ++ [x68; x65; x6c; x6c; x6f] ++ replicate 21 x00.
Definition sample_key : list byte := map (fun i => byte_of (Z.of_nat i)) (seq 128 32).
Definition sample_nonce : list byte := replicate 4 x00 ++ [x40; x41; x42; x43; x44; x45; x46; x47].

Lemma aead_roundtrip_witness :
  exists mem1 mem2,
    build_encrypt (mkBuild true true) (replicate 64 x00) (replicate 16 x00) sample_key sample_nonce 0 2 2 5 7 sample_mem
    = Ret (21, mem1)
    /\ build_decrypt (mkBuild false false) (replicate 64 xff) (replicate 16 xff) sample_key sample_nonce 0 2 7 21 7 mem1
       = Ret (5, mem2)
    /\ region 7 5 mem2 = [x68; x65; x6c; x6c; x6f].
Proof.
  assert (zlen sample_mem = 28) as Hm by reflexivity.
  apply (aead_roundtrip (mkBuild true true) (mkBuild false false) (replicate 64 x00) (replicate 64 xff)
           (replicate 16 x00) (replicate 16 xff) sample_key sample_nonce 0 2 2 5 7 7 sample_mem);
    try reflexivity; unfold inside, same_or_apart; rewrite ?Hm; lia.
Defined.

(** C30: decryption accepts exactly what was sealed: it returns the length of the message and
    writes the message when the input is the sealed message of some [p] under the key,
    the nonce and the additional data, and otherwise returns the failure value (which is
    not a length) and leaves memory as it was. *)
Theorem aead_accepts_sealed b junk buf key nonce ad ad_len ct n pt mem :
  zlen junk = 64 -> zlen buf = 16 -> inside ad ad_len mem -> inside ct n mem -> inside pt (n - 16) mem \/ n < 16 ->
  n < 2 ^ 32 -> same_or_apart ct pt (n - 16) ->
  exists r mem',
    build_decrypt b junk buf key nonce ad ad_len ct n pt mem = Ret (r, mem')
    /\ (forall p, region ct n mem = sealed key nonce (region ad ad_len mem) p ->
          r = n - 16 /\ r <> DECRYPT_FAILED /\ mem' = overwrite pt p mem)
    /\ ((forall p, region ct n mem <> sealed key nonce (region ad ad_len mem) p) ->
          r = DECRYPT_FAILED /\ mem' = mem).
Proof.
  intros Hj Hb Ha Hc Hp Hn Hd. pose proof Hc as (? & ? & ?). rewrite build_decrypt_spec by done.
  destruct (opened _ _ _ _) as [p|] eqn:Eo; eexists _, _; (split; [reflexivity|]); split.
  - intros p' Hp'. apply (proj2 (open_seal _ _ _ _ p')) in Hp'. unfold opened in Eo. rewrite Hp' in Eo.
    injection Eo as ->. split_and!; [done| |done]. change DECRYPT_FAILED with (2 ^ 64 - 1). lia.
  - intros Hno. destruct (Hno p). by apply open_seal.
  - intros p' Hp'. apply (proj2 (open_seal _ _ _ _ p')) in Hp'. unfold opened in Eo. by rewrite Hp' in Eo.
  - done.
Qed.

Lemma aead_accepts_sealed_witness :
  exists r mem',
    build_decrypt (mkBuild true true) (replicate 64 x00) (replicate 16 x00) sample_key sample_nonce 0 2 2 20 2 sample_mem
    = Ret (r, mem')
    /\ (forall p, region 2 20 sample_mem = sealed sample_key sample_nonce (region 0 2 sample_mem) p ->
          r = 20 - 16 /\ r <> DECRYPT_FAILED /\ mem' = overwrite 2 p sample_mem)
    /\ ((forall p, region 2 20 sample_mem <> sealed sample_key sample_nonce (region 0 2 sample_mem) p) ->
          r = DECRYPT_FAILED /\ mem' = sample_mem).
Proof.
  assert (zlen sample_mem = 28) as Hm by reflexivity.
  apply (aead_accepts_sealed (mkBuild true true) (replicate 64 x00) (replicate 16 x00) sample_key sample_nonce 0 2 2 20 2 sample_mem);
    try reflexivity; unfold inside, same_or_apart; rewrite ?Hm; lia.
Defined.

(** A message of [2^32] bytes or more is not encrypted whole: the length the cipher is
    given is the length modulo [2^32], so encrypting in place succeeds and leaves all the
    bytes from there on as they were, in the clear. *)
Theorem aead_length_wraps b junk buf key nonce ad ad_len data n mem :
  zlen junk = 64 -> zlen buf = 16 -> inside ad ad_len mem -> inside data (n + 16) mem ->
  2 ^ 32 <= n < 2 ^ 64 - 16 ->
  exists mem', build_encrypt b junk buf key nonce ad ad_len data n data mem = Ret (n + 16, mem')
    /\ region (data + n mod 2 ^ 32) (n - n mod 2 ^ 32) mem' = region (data + n mod 2 ^ 32) (n - n mod 2 ^ 32) mem.
Proof.
  intros Hj Hb Ha (? & ? & ?) Hn. pose proof Ha as (? & ? & ?). unfold build_encrypt, encrypt, TAG_SIZE.
  pose proof (mod_range n 32 ltac:(lia)). rewrite poly_key_spec by done. cbn [mbind outcome_bind].
  rewrite (proj2 (Z.ltb_lt _ _)) by lia. unfold u32. rewrite encrypt_bytes_spec by (try done; try (by left); lia).
  cbn [mbind outcome_bind]. set (c := crypt _ _).
  assert (zlen c = n mod 2 ^ 32) as Hlc by (unfold c; rewrite zlen_crypt, zlen_region; lia).
  assert (zlen (overwrite data c mem) = zlen mem) as Hl by (apply zlen_overwrite; lia).
  rewrite compute_tag_spec by (try done; try apply zlen_block_bytes; unfold inside; lia). cbn [mbind outcome_bind].
  set (tag := poly1305_ref _ _). assert (zlen tag = 16) as Ht by (unfold tag, poly1305_ref; by rewrite zlen_le_enc).
  rewrite poke_in by lia. cbn [mbind outcome_bind]. rewrite u64_small by lia. eexists. split; [reflexivity|].
  rewrite !region_overwrite_disjoint by lia. done.
Qed.

Lemma aead_length_wraps_witness :
  exists mem',
    build_encrypt (mkBuild true true) (replicate 64 x00) (replicate 16 x00) sample_key sample_nonce 0 0 0 (2 ^ 32) 0
      (replicate (Z.to_nat (2 ^ 32 + 16)) x2a) = Ret (2 ^ 32 + 16, mem')
    /\ region (0 + 2 ^ 32 mod 2 ^ 32) (2 ^ 32 - 2 ^ 32 mod 2 ^ 32) mem'
       = region (0 + 2 ^ 32 mod 2 ^ 32) (2 ^ 32 - 2 ^ 32 mod 2 ^ 32) (replicate (Z.to_nat (2 ^ 32 + 16)) x2a).
Proof.
  assert (zlen (replicate (Z.to_nat (2 ^ 32 + 16)) x2a) = 2 ^ 32 + 16) as Hm by (rewrite zlen_replicate; lia).
  apply (aead_length_wraps (mkBuild true true) (replicate 64 x00) (replicate 16 x00) sample_key sample_nonce 0 0 0 (2 ^ 32)).
  - reflexivity.
  - reflexivity.
  - unfold inside. rewrite Hm. lia.
  - unfold inside. rewrite Hm. lia.
  - lia.
Defined.
