(* ===== verification/Sha256.v ===== *)
(** SHA-256 ([crypto/sha256.c]): the compression function with its unrolled rounds and the
    streaming interface over a block buffer. *)

From S2P Require Import Prelude Words Pieces.

Module sha256.

(** * The code *)

(** [rats_sha256_context_t]. *)
Record context := mkContext { h : list Z; m : list byte; length : Z; posn : Z }.

(** [mem] is what the block buffer holds. *)
Definition reset (mem : list byte) : context :=
  mkContext [0x6a09e667; 0xbb67ae85; 0x3c6ef372; 0xa54ff53a; 0x510e527f; 0x9b05688c; 0x1f83d9ab; 0x5be0cd19]
    mem 0 0.

Definition rightRotate (v n : Z) : Z := Z.lor (Z.shiftr v n) (u32 (Z.shiftl v (32 - n))).

Definition k : list Z :=
  concat [
   [0x428a2f98; 0x71374491; 0xb5c0fbcf; 0xe9b5dba5]; [0x3956c25b; 0x59f111f1; 0x923f82a4; 0xab1c5ed5];
   [0xd807aa98; 0x12835b01; 0x243185be; 0x550c7dc3]; [0x72be5d74; 0x80deb1fe; 0x9bdc06a7; 0xc19bf174];
   [0xe49b69c1; 0xefbe4786; 0x0fc19dc6; 0x240ca1cc]; [0x2de92c6f; 0x4a7484aa; 0x5cb0a9dc; 0x76f988da];
   [0x983e5152; 0xa831c66d; 0xb00327c8; 0xbf597fc7]; [0xc6e00bf3; 0xd5a79147; 0x06ca6351; 0x14292967];
   [0x27b70a85; 0x2e1b2138; 0x4d2c6dfc; 0x53380d13]; [0x650a7354; 0x766a0abb; 0x81c2c92e; 0x92722c85];
   [0xa2bfe8a1; 0xa81a664b; 0xc24b8b70; 0xc76c51a3]; [0xd192e819; 0xd6990624; 0xf40e3585; 0x106aa070];
   [0x19a4c116; 0x1e376c08; 0x2748774c; 0x34b0bcb5]; [0x391c0cb3; 0x4ed8aa4a; 0x5b9cca4f; 0x682e6ff3];
   [0x748f82ee; 0x78a5636f; 0x84c87814; 0x8cc70208]; [0x90befffa; 0xa4506ceb; 0xbef9a3f7; 0xc67178f2]].

(** Arrays of words are only indexed within their bounds. *)
Definition at_ (w : list Z) (i : nat) : Z := nth i w 0.

(** The 16 message words from big endian to host byte order. *)
Fixpoint message_words (n : nat) (d : list byte) : list Z :=
  match n, d with
  | S n, b0 :: b1 :: b2 :: b3 :: d =>
      Z.lor (Z.lor (Z.lor (Z.shiftl (u8 b0) 24) (Z.shiftl (u8 b1) 16)) (Z.shiftl (u8 b2) 8)) (u8 b3)
      :: message_words n d
  | _, _ => []
  end.

Definition next_word (w : list Z) (index : nat) : Z :=
  let w15 := at_ w (index - 15) in
  let w2 := at_ w (index - 2) in
  u32 (at_ w (index - 16) + at_ w (index - 7)
       + Z.lxor (Z.lxor (rightRotate w15 7) (rightRotate w15 18)) (Z.shiftr w15 3)
       + Z.lxor (Z.lxor (rightRotate w2 17) (rightRotate w2 19)) (Z.shiftr w2 10)).

(** The first 16 words extended to 64. *)
Definition extend (w : list Z) : list Z :=
  foldl (fun w index => w ++ [next_word w index]) w (seq 16 48).

(** [temp1] and [temp2] of [SHA256_ROUND]. *)
Definition temp1 (e f g h kn wn : Z) : Z :=
  u32 (h + kn + wn
       + Z.lxor (Z.lxor (rightRotate e 6) (rightRotate e 11)) (rightRotate e 25)
       + Z.lxor (Z.land e f) (Z.land (u32 (Z.lnot e)) g)).
Definition temp2 (a b c : Z) : Z :=
  u32 (Z.lxor (Z.lxor (rightRotate a 2) (rightRotate a 13)) (rightRotate a 22)
       + Z.lxor (Z.lxor (Z.land a b) (Z.land a c)) (Z.land b c)).

(** [SHA256_ROUND]: the new [d] and the new [h]. *)
Definition SHA256_ROUND (a b c d e f g h kn wn : Z) : Z * Z :=
  let t1 := temp1 e f g h kn wn in
  let t2 := temp2 a b c in
  (u32 (d + t1), u32 (t1 + t2)).

Definition regs : Type := Z * Z * Z * Z * Z * Z * Z * Z.

(** One iteration of the main loop: eight rounds with the variables renamed. *)
Definition eight_rounds (w : list Z) (r : regs) (index : nat) : regs :=
  let '(a, b, c, d, e, f, g, h) := r in
  let kn n := at_ k (index + n) in
  let wn n := at_ w (index + n) in
  let '(d, h) := SHA256_ROUND a b c d e f g h (kn 0%nat) (wn 0%nat) in
  let '(c, g) := SHA256_ROUND h a b c d e f g (kn 1%nat) (wn 1%nat) in
  let '(b, f) := SHA256_ROUND g h a b c d e f (kn 2%nat) (wn 2%nat) in
  let '(a, e) := SHA256_ROUND f g h a b c d e (kn 3%nat) (wn 3%nat) in
  let '(h, d) := SHA256_ROUND e f g h a b c d (kn 4%nat) (wn 4%nat) in
  let '(g, c) := SHA256_ROUND d e f g h a b c (kn 5%nat) (wn 5%nat) in
  let '(f, b) := SHA256_ROUND c d e f g h a b (kn 6%nat) (wn 6%nat) in
  let '(e, a) := SHA256_ROUND b c d e f g h a (kn 7%nat) (wn 7%nat) in
  (a, b, c, d, e, f, g, h).

Definition load_regs (h : list Z) : regs :=
  (at_ h 0, at_ h 1, at_ h 2, at_ h 3, at_ h 4, at_ h 5, at_ h 6, at_ h 7).
Definition add_regs (h : list Z) (r : regs) : list Z :=
  let '(a, b, c, d, e, f, g, h') := r in
  zip_with (fun x y => u32 (x + y)) h [a; b; c; d; e; f; g; h'].

(** [rats_sha256_transform], on the hash value and a block. *)
Definition transform (hv : list Z) (block : list byte) : list Z :=
  let w := extend (message_words 16 block) in
  add_regs hv (foldl (eight_rounds w) (load_regs hv) [0; 8; 16; 24; 32; 40; 48; 56]%nat).

Fixpoint update_loop (fuel : nat) (d : list byte) (ctx : context) : outcome context :=
  match fuel with
  | O => Ret ctx
  | S fuel =>
      let size := zlen d in
      if size =? 0 then Ret ctx
      else if (posn ctx =? 0) && (64 <=? size) then
        update_loop fuel (zdrop 64 d)
          (mkContext (transform (h ctx) (ztake 64 d)) (m ctx) (u64 (length ctx + 64 * 8)) (posn ctx))
      else
        let temp := Z.min (64 - posn ctx) size in
        mem ← poke (posn ctx) (ztake temp d) (m ctx);
        let p := (posn ctx + temp mod 256) mod 256 in
        let full := 64 <=? p in
        update_loop fuel (zdrop temp d)
          (mkContext (if full then transform (h ctx) mem else h ctx) mem (u64 (length ctx + temp * 8)) (if full then 0 else p))
  end.

Definition update (d : list byte) (ctx : context) : outcome context := update_loop (List.length d) d ctx.

Definition write_be32 (value : Z) : list byte :=
  [byte_of (Z.shiftr value 24); byte_of (Z.shiftr value 16); byte_of (Z.shiftr value 8); byte_of value].

Definition finish (ctx : context) : outcome (list byte * context) :=
  let p := posn ctx in
  '(hv, mem) ← (if p <=? 64 - 9 then
                  mem ← poke p (x80 :: replicate (Z.to_nat (64 - 8 - (p + 1))) x00) (m ctx);
                  Ret (h ctx, mem)
                else
                  mem ← poke p (x80 :: replicate (Z.to_nat (64 - (p + 1))) x00) (m ctx);
                  mem' ← poke 0 (replicate (Z.to_nat (64 - 8)) x00) mem;
                  Ret (transform (h ctx) mem, mem'));
  mem ← poke (64 - 8) (write_be32 (u32 (Z.shiftr (length ctx) 32))) mem;
  mem ← poke (64 - 4) (write_be32 (u32 (length ctx))) mem;
  let hv := transform hv mem in
  Ret (flat_map write_be32 hv, mkContext hv mem (length ctx) 0).

(** [rats_sha256_hash]. *)
Definition hash (mem data : list byte) : outcome (list byte) :=
  ctx ← update data (reset mem);
  '(out, _) ← finish ctx;
  Ret out.

End sha256.

Example sha256_abc :
  sha256.hash (replicate 64 x00) [x61; x62; x63]
  = Ret (be_enc 32 0xba7816bf8f01cfea414140de5dae2223b00361a396177a9cb410ff61f20015ad).
Proof. by vm_compute. Qed.
