(* ===== verification/Sha256Proofs.v ===== *)
(** The streaming SHA-256 computes the hash of the padded message, and its unrolled rounds
    are the sixty-four rounds of the standard. *)

From S2P Require Import Prelude Words Pieces Sha256.
Import sha256.

(** * Big-endian words *)

Lemma write_be32_enc v : write_be32 v = be_enc 4 v.
Proof.
  unfold write_be32. cbn [be_enc app]. rewrite !Z.div_div by lia. rewrite !shiftr_div by lia. done.
Qed.

Lemma be_enc_8 z : be_enc 8 z = be_enc 4 (z / 2 ^ 32) ++ be_enc 4 z.
Proof. cbn [be_enc app]. rewrite !Z.div_div by lia. done. Qed.

Lemma byte_of_mod z n : 8 <= n -> byte_of (z mod 2 ^ n) = byte_of z.
Proof.
  intros Hn. apply u8_inj. rewrite !u8_byte_of. change 256 with (2 ^ 8). apply Z.mod_mod_divide.
  exists (2 ^ (n - 8)). rewrite <- Z.pow_add_r by lia. f_equal. lia.
Qed.

Lemma be_enc_mod n : forall z k, 8 * Z.of_nat n <= k -> be_enc n (z mod 2 ^ k) = be_enc n z.
Proof.
  induction n as [|n IH]; intros z k Hk; [done|]. cbn [be_enc]. rewrite byte_of_mod by lia. f_equal.
  change 256 with (2 ^ 8). pose proof (field_field z 0 k 8 (8 * Z.of_nat n)) as E. unfold field in E.
  rewrite Z.pow_0_r, !Z.div_1_r, Z.add_0_l in E.
  rewrite <- (IH (z mod 2 ^ k / 2 ^ 8) (8 * Z.of_nat n)), <- (IH (z / 2 ^ 8) (8 * Z.of_nat n)) by lia.
  by rewrite E by lia.
Qed.

(** * The rounds *)

(** A round of the standard: the registers move by one place. *)
Definition fips_round (w : list Z) (r : regs) (t : nat) : regs :=
  let '(a, b, c, d, e, f, g, h) := r in
  let t1 := temp1 e f g h (at_ k t) (at_ w t) in
  let t2 := temp2 a b c in
  (u32 (t1 + t2), a, b, c, u32 (d + t1), e, f, g).

Lemma fips_round_macro w a b c d e f g h t :
  fips_round w (a, b, c, d, e, f, g, h) t
  = let '(d, h) := SHA256_ROUND a b c d e f g h (at_ k t) (at_ w t) in (h, a, b, c, d, e, f, g).
Proof. done. Qed.

Lemma eight_rounds_fips w r index :
  eight_rounds w r index = foldl (fips_round w) r (map (Nat.add index) (seq 0 8)).
Proof.
  destruct r as [[[[[[[a b] c] d] e] f] g] h]. unfold eight_rounds. cbn [seq map foldl].
  do 8 (rewrite fips_round_macro; destruct (SHA256_ROUND _ _ _ _ _ _ _ _ _ _) as [? ?]). done.
Qed.

Definition fips_compress (hv : list Z) (block : list byte) : list Z :=
  add_regs hv (foldl (fips_round (extend (message_words 16 block))) (load_regs hv) (seq 0 64)).

Lemma transform_fips hv block : transform hv block = fips_compress hv block.
Proof.
  unfold transform, fips_compress. set (w := extend _). clearbody w. apply (f_equal (add_regs hv)).
  change (seq 0 64) with (flat_map (fun i => map (Nat.add i) (seq 0 8)) [0; 8; 16; 24; 32; 40; 48; 56]%nat).
  generalize [0; 8; 16; 24; 32; 40; 48; 56]%nat (load_regs hv). intros l.
  induction l as [|i l IH]; intros r; cbn [foldl flat_map]; [done|]. by rewrite foldl_app, IH, eight_rounds_fips.
Qed.

Lemma fips_compress_length hv block : zlen hv = 8 -> zlen (fips_compress hv block) = 8.
Proof.
  intros Hh. unfold fips_compress, add_regs. destruct (foldl _ _ _) as [[[[[[[a b] c] d] e] f] g] i].
  unfold zlen in *. rewrite length_zip_with. cbn [List.length]. lia.
Qed.

#[local] Opaque transform fips_compress.

(** * The reference *)

Definition sha_iv : list Z := h (reset []).

(** A one bit, zeros, and the length in bits; the whole pieces are compressed. *)
Definition sha_pad (n : Z) : list byte := x80 :: replicate (Z.to_nat ((55 - n) mod 64)) x00 ++ be_enc 8 (8 * n).
Definition sha256_pieces (msg : list byte) : list byte :=
  flat_map (be_enc 4) (fold_pieces 64 transform sha_iv (msg ++ sha_pad (zlen msg))).

Definition sha256_ref (msg : list byte) : list byte :=
  flat_map (be_enc 4) (fold_pieces 64 fips_compress sha_iv (msg ++ sha_pad (zlen msg))).

Lemma sha256_pieces_ref msg : sha256_pieces msg = sha256_ref msg.
Proof.
  unfold sha256_pieces, sha256_ref, fold_pieces. apply (f_equal (flat_map (be_enc 4))). generalize sha_iv.
  induction (chunks 64 _) as [|c cs IH]; intros hv; cbn [foldl]; [done|]. by rewrite transform_fips, IH.
Qed.

Lemma zlen_sha256_ref msg : zlen (sha256_ref msg) = 32.
Proof.
  unfold sha256_ref, fold_pieces. set (l := chunks 64 _). clearbody l.
  assert (forall hv, zlen hv = 8 -> zlen (foldl fips_compress hv l) = 8) as H8.
  { induction l as [|c l IH]; intros hv Hv; cbn [foldl]; [done|]. by apply IH, fips_compress_length. }
  pose proof (H8 sha_iv eq_refl) as E. set (hv := foldl _ _ _) in *. clearbody hv. clear H8.
  assert (forall ws, zlen (flat_map (be_enc 4) ws) = 4 * zlen ws) as Hf; [|rewrite Hf; lia].
  induction ws as [|w ws IH]; [done|]. cbn [flat_map]. rewrite zlen_app, zlen_be_enc, zlen_cons, IH. lia.
Qed.

(** * Streaming *)

Record sha_holds (msg : list byte) (ctx : context) : Prop := mkShaHolds {
  sh_mem : zlen (m ctx) = 64;
  sh_posn : 0 <= posn ctx < 64;
  sh_length : length ctx = u64 (8 * zlen msg);
  sh_msg : exists full, whole 64 full /\ msg = full ++ ztake (posn ctx) (m ctx)
             /\ h ctx = fold_pieces 64 transform sha_iv full;
}.

Lemma sha_reset_holds mem : zlen mem = 64 -> sha_holds [] (reset mem).
Proof. intros Hm. split; [done..|]. exists []. split; [constructor|]. done. Qed.

Lemma sha_length_step (msg d : list byte) (ctx : context) :
  length ctx = u64 (8 * zlen msg) -> u64 (length ctx + zlen d * 8) = u64 (8 * zlen (msg ++ d)).
Proof. intros ->. unfold u64. rewrite Z.add_mod_idemp_l, zlen_app by lia. f_equal. lia. Qed.

(** Filling the buffer. *)
Lemma sha_fill_holds msg d (ctx : context) temp :
  sha_holds msg ctx -> temp = Z.min (64 - posn ctx) (zlen d) -> 0 < zlen d ->
  poke (posn ctx) (ztake temp d) (m ctx) = Ret (overwrite (posn ctx) (ztake temp d) (m ctx))
  /\ let mem := overwrite (posn ctx) (ztake temp d) (m ctx) in
     let p := (posn ctx + temp mod 256) mod 256 in
     let full := 64 <=? p in
     sha_holds (msg ++ ztake temp d)
       (mkContext (if full then transform (h ctx) mem else h ctx) mem (u64 (length ctx + temp * 8)) (if full then 0 else p)).
Proof.
  intros [Hm Hp Hl (fl & Hw & -> & Hh)] -> Hd. set (temp := Z.min _ _).
  assert (0 < temp <= zlen d /\ posn ctx + temp <= 64) as [Ht Hpt] by lia.
  assert (zlen (ztake temp d) = temp) as Hzt by (rewrite zlen_ztake; lia).
  split; [apply poke_in; lia|]. cbv zeta. rewrite (Z.mod_small temp), (Z.mod_small (posn ctx + temp)) by lia.
  set (mem := overwrite _ _ _). assert (zlen mem = 64) as Hmem by (unfold mem; rewrite zlen_overwrite; lia).
  pose proof (sha_length_step (fl ++ ztake (posn ctx) (m ctx)) (ztake temp d) ctx Hl) as Hl'. rewrite Hzt in Hl'.
  assert (ztake (posn ctx + temp) mem = ztake (posn ctx) (m ctx) ++ ztake temp d) as Em.
  { unfold mem, overwrite. rewrite app_assoc. apply ztake_app. rewrite zlen_app, zlen_ztake; lia. }
  destruct (Z.leb_spec 64 (posn ctx + temp)) as [Hf|Hf].
  - split; cbn [m posn length h]; [done|lia|done|].
    exists (fl ++ mem). rewrite ztake_all in Em by lia. split; [apply whole_app; [done|by apply whole_one]|].
    split; [by rewrite Em, ztake_0, app_nil_r, app_assoc|]. rewrite fold_pieces_app, fold_pieces_one by done. by rewrite Hh.
  - split; cbn [m posn length h]; [done|lia|done|]. exists fl. by rewrite Em, app_assoc.
Qed.

Lemma sha_update_loop_holds fuel : forall d msg ctx,
  (List.length d <= fuel)%nat -> sha_holds msg ctx -> returns (update_loop fuel d ctx) (sha_holds (msg ++ d)).
Proof.
  induction fuel as [|fuel IH]; intros d msg ctx Hf Hh; cbn [update_loop].
  { destruct d; cbn in Hf; [|lia]. by rewrite app_nil_r. }
  pose proof (zlen_nonneg d) as Hd. destruct (Z.eqb_spec (zlen d) 0) as [Hz|Hz].
  { apply zlen_zero in Hz as ->. by rewrite app_nil_r. }
  destruct (Z.eqb_spec (posn ctx) 0) as [Hp|Hp]; [destruct (Z.leb_spec 64 (zlen d)) as [H64|H64]|]; cbn [andb].
  2,3: destruct (sha_fill_holds msg d ctx _ Hh eq_refl ltac:(lia)) as [-> Hh']; cbn [mbind outcome_bind];
    pose proof (sh_posn _ _ Hh); rewrite (app_ztake_zdrop (Z.min (64 - posn ctx) (zlen d)) msg d);
    apply IH; [|done]; unfold zdrop, zlen in *; rewrite length_drop; lia.
  rewrite (app_ztake_zdrop 64 msg d).
  assert (zlen (ztake 64 d) = 64) as Hzt by (rewrite zlen_ztake; lia).
  apply IH; [unfold zdrop, zlen in *; rewrite length_drop; lia|].
  destruct Hh as [Hm Hpp Hl (fl & Hw & -> & Hh)]. split; cbn [m posn length h]; [done|lia| |].
  - pose proof (sha_length_step (fl ++ ztake (posn ctx) (m ctx)) (ztake 64 d) ctx Hl) as E. by rewrite Hzt in E.
  - exists (fl ++ ztake 64 d). rewrite Hp, ztake_0, !app_nil_r. split; [apply whole_app; [done|by apply whole_one]|].
    split; [done|]. by rewrite fold_pieces_app, fold_pieces_one, Hh by done.
Qed.

Lemma sha_update_holds d msg ctx : sha_holds msg ctx -> returns (update d ctx) (sha_holds (msg ++ d)).
Proof. by apply sha_update_loop_holds. Qed.

(** The length field. *)
Lemma length_field n (ctx : context) :
  length ctx = u64 (8 * n) ->
  write_be32 (u32 (Z.shiftr (length ctx) 32)) ++ write_be32 (u32 (length ctx)) = be_enc 8 (8 * n).
Proof.
  intros ->. rewrite !write_be32_enc, <- (be_enc_mod 8 (8 * n) 64) by lia. rewrite be_enc_8.
  fold (u64 (8 * n)). unfold u32. by rewrite !be_enc_mod, shiftr_div by lia.
Qed.

Lemma zlen_write_be32 v : zlen (write_be32 v) = 4.
Proof. done. Qed.

(** The last bytes of a block: padding from [p] up, then the two halves of the length. *)
Lemma write_length {A} p a mem x y (f : list byte -> outcome A) :
  0 <= p -> zlen mem = 64 -> p + zlen a = 56 ->
  (mem ← poke 56 (write_be32 x) (overwrite p a mem); mem ← poke 60 (write_be32 y) mem; f mem)
  = f (ztake p mem ++ a ++ write_be32 x ++ write_be32 y).
Proof.
  intros Hp Hm Ha. pose proof (zlen_nonneg a). assert (zlen (overwrite p a mem) = 64) as Hl by (rewrite zlen_overwrite; lia).
  rewrite poke_in by (rewrite ?zlen_write_be32; lia). cbn [mbind outcome_bind]. replace 56 with (p + zlen a) by lia.
  rewrite overwrite_overwrite by (rewrite ?zlen_write_be32; lia).
  rewrite poke_in by (rewrite ?zlen_overwrite; rewrite ?zlen_app, ?zlen_write_be32; lia). cbn [mbind outcome_bind]. f_equal.
  replace 60 with (p + zlen (a ++ write_be32 x)) by (rewrite zlen_app, zlen_write_be32; lia).
  rewrite overwrite_overwrite by (rewrite ?zlen_app, ?zlen_write_be32; lia).
  unfold overwrite. rewrite !zlen_app, !zlen_write_be32, zdrop_all, app_nil_r by lia. by rewrite <- !app_assoc.
Qed.

(** What [finish] compresses after [rest], with room for the length or without. *)
Lemma finish_blocks (ctx : context) rest p :
  zlen (m ctx) = 64 -> 0 <= p < 64 -> p = posn ctx -> rest = ztake p (m ctx) ->
  let pad := x80 :: replicate (Z.to_nat ((55 - p) mod 64)) x00
             ++ write_be32 (u32 (Z.shiftr (length ctx) 32)) ++ write_be32 (u32 (length ctx)) in
  returns (finish ctx) (fun r => r.1 = flat_map (be_enc 4) (fold_pieces 64 transform (h ctx) (rest ++ pad))).
Proof.
  intros Hm Hp Ep Er. assert (zlen rest = p) as Hr by (rewrite Er, zlen_ztake; lia).
  unfold finish. rewrite <- Ep. set (hi := u32 (Z.shiftr (length ctx) 32)). set (lo := u32 (length ctx)).
  change (64 - 8) with 56. change (64 - 4) with 60. destruct (Z.leb_spec p (64 - 9)) as [Hle|Hgt].
  - set (z := x80 :: replicate (Z.to_nat (56 - (p + 1))) x00).
    assert (zlen z = 56 - p) as Hz by (unfold z; rewrite zlen_cons, zlen_replicate; lia).
    rewrite poke_in by lia. cbn [mbind outcome_bind]. rewrite write_length by lia. apply returns_Ret. cbn [fst].
    rewrite (flat_map_ext write_be32 (be_enc 4)) by apply write_be32_enc. f_equal. rewrite <- Er.
    rewrite (Z.mod_small (55 - p)) by lia. replace (Z.to_nat (55 - p)) with (Z.to_nat (56 - (p + 1))) by lia.
    symmetry. apply (fold_pieces_one 64).
    change (x80 :: replicate (Z.to_nat (56 - (p + 1))) x00 ++ write_be32 hi ++ write_be32 lo)
      with (z ++ write_be32 hi ++ write_be32 lo).
    rewrite !zlen_app, !zlen_write_be32. lia.
  - set (z := x80 :: replicate (Z.to_nat (64 - (p + 1))) x00). set (z' := replicate (Z.to_nat 56) x00).
    assert (zlen z = 64 - p) as Hz by (unfold z; rewrite zlen_cons, zlen_replicate; lia). assert (zlen z' = 56) as Hz' by done.
    rewrite poke_in by lia. cbn [mbind outcome_bind].
    assert (overwrite p z (m ctx) = rest ++ z) as Em by (unfold overwrite; rewrite zdrop_all, app_nil_r, <- Er by lia; done).
    assert (zlen (rest ++ z) = 64) as Hl by (rewrite zlen_app; lia).
    rewrite Em, poke_in by lia. cbn [mbind outcome_bind]. rewrite write_length by lia. apply returns_Ret. cbn [fst].
    rewrite (flat_map_ext write_be32 (be_enc 4)) by apply write_be32_enc. f_equal. rewrite ztake_0. cbn [app].
    replace ((55 - p) mod 64) with (64 - (p + 1) + 56) by (apply (Z.mod_unique _ _ (-1)); lia).
    rewrite Z2Nat.inj_add, replicate_add, <- app_assoc by lia. fold z'.
    match goal with |- _ = fold_pieces 64 transform (h ctx) ?l => assert (l = (rest ++ z) ++ z' ++ write_be32 hi ++ write_be32 lo) as -> end.
    { rewrite <- !app_assoc. reflexivity. }
    rewrite (fold_pieces_cons 64) by done. symmetry. apply (fold_pieces_one 64).
    rewrite !zlen_app, !zlen_write_be32. lia.
Qed.

Lemma sha_finish_holds msg ctx :
  sha_holds msg ctx -> returns (finish ctx) (fun r => r.1 = sha256_pieces msg).
Proof.
  intros [Hm Hp Hl (fl & Hw & Emsg & Hh)].
  assert ((55 - zlen msg) mod 64 = (55 - posn ctx) mod 64) as Epad.
  { rewrite Emsg, zlen_app, zlen_ztake by lia. pose proof (whole_length 64 fl Hw) as Hmod.
    rewrite Zminus_mod, (Z.add_mod (zlen fl)), Hmod, Z.add_0_l, Z.mod_mod, <- Zminus_mod by lia. done. }
  unfold sha256_pieces, sha_pad. rewrite Epad, <- (length_field _ ctx Hl), Emsg.
  rewrite <- app_assoc, fold_pieces_app, <- Hh by done. by apply finish_blocks.
Qed.

(** * The hash *)

(** The updates of a message in order. *)
Definition sha_update_all (ms : list (list byte)) (ctx : context) : outcome context :=
  foldl (fun ctx m => ctx ≫= update m) (Ret ctx) ms.

Lemma sha_update_all_holds ms : forall msg ctx,
  sha_holds msg ctx -> returns (sha_update_all ms ctx) (sha_holds (msg ++ mjoin ms)).
Proof.
  unfold sha_update_all. induction ms as [|m ms IH]; intros msg ctx Hh; cbn [foldl mjoin list_join].
  - by rewrite app_nil_r.
  - cbn [mbind outcome_bind]. destruct (returns_inv _ _ (sha_update_holds m msg ctx Hh)) as (ctx' & -> & Hctx').
    rewrite app_assoc. by apply IH.
Qed.

Lemma hash_ref mem data : zlen mem = 64 -> hash mem data = Ret (sha256_ref data).
Proof.
  intros Hm. unfold hash.
  destruct (returns_inv _ _ (sha_update_holds data [] _ (sha_reset_holds mem Hm))) as (ctx & -> & Hctx).
  cbn [mbind outcome_bind]. destruct (returns_inv _ _ (sha_finish_holds _ _ Hctx)) as ([out c] & -> & E).
  cbn [fst app] in E. cbn [mbind outcome_bind]. by rewrite E, sha256_pieces_ref.
Qed.


