(* ===== verification/Hkdf.v ===== *)
(** HMAC and HKDF over SHA-256 ([crypto/hkdf.c]), and that they compute the functions of
    RFC 2104 and RFC 5869. [mem] is what the uninitialised block buffer of a hash holds. *)

From S2P Require Import Prelude Words Pieces Sha256 Sha256Proofs.

Module hkdf.

(** * The code *)

(** [memset] with the pad byte, then the exclusive or with the key. *)
Definition k_pad (p : byte) (key : list byte) : list byte :=
  zip_with bxor (replicate (length key) p) key ++ replicate (64 - length key) p.

(** The key that is used: longer ones are hashed. *)
Definition short_key (mem key : list byte) : outcome (list byte) :=
  if 64 <? zlen key then sha256.hash mem key else Ret key.

(** A hash of the concatenation of several arrays. *)
Definition hash_parts (mem : list byte) (parts : list (list byte)) : outcome (list byte) :=
  '(out, _) ← sha_update_all parts (sha256.reset mem) ≫= sha256.finish;
  Ret out.

(** [rats_hmac_sha256]. *)
Definition hmac_sha256 (mem key data : list byte) : outcome (list byte) :=
  k ← short_key mem key;
  inner ← hash_parts mem [k_pad x36 k; data];
  hash_parts mem [k_pad x5c k; inner].

(** [rats_hmac_sha256_2]. *)
Definition hmac_sha256_2 (mem key data1 data2 : list byte) : outcome (list byte) :=
  k ← short_key mem key;
  inner ← hash_parts mem [k_pad x36 k; data1; data2];
  hash_parts mem [k_pad x5c k; inner].

(** [rats_hkdf_sha256_extract]; a null salt is [None]. *)
Definition hkdf_extract (mem : list byte) (salt : option (list byte)) (ikm : list byte) : outcome (list byte) :=
  let salt := match salt with
              | None | Some [] => replicate 32 x00
              | Some s => s
              end in
  hmac_sha256 mem salt ikm.

Fixpoint expand_loop (fuel : nat) (mem prk info T : list byte) (counter okm_len : Z) : outcome (list byte) :=
  match fuel with
  | O => Ret []
  | S fuel =>
      if okm_len =? 0 then Ret []
      else
        let parts := [k_pad x36 prk] ++ (if 0 <? zlen T then [T] else []) ++ (if 0 <? zlen info then [info] else [])
                     ++ [[byte_of counter]] in
        inner ← hash_parts mem parts;
        T ← hash_parts mem [k_pad x5c prk; inner];
        let copy_len := Z.min okm_len 32 in
        rest ← expand_loop fuel mem prk info T ((counter + 1) mod 256) (okm_len - copy_len);
        Ret (ztake copy_len T ++ rest)
  end.

(** [rats_hkdf_sha256_expand]. *)
Definition hkdf_expand (mem prk info : list byte) (okm_len : Z) : outcome (list byte) :=
  expand_loop (S (Z.to_nat okm_len)) mem prk info [] 1 okm_len.

Definition hkdf_sha256 (mem : list byte) (salt : option (list byte)) (ikm info : list byte) (okm_len : Z)
  : outcome (list byte) :=
  prk ← hkdf_extract mem salt ikm;
  hkdf_expand mem prk info okm_len.

(** [rats_noise_hkdf_2] and [rats_noise_hkdf_3]. *)
Definition noise_hkdf_2 (mem ck input : list byte) : outcome (list byte * list byte) :=
  temp_key ← hmac_sha256 mem ck input;
  output1 ← hmac_sha256 mem temp_key [x01];
  output2 ← hmac_sha256_2 mem temp_key output1 [x02];
  Ret (output1, output2).

Definition noise_hkdf_3 (mem ck input : list byte) : outcome (list byte * list byte * list byte) :=
  temp_key ← hmac_sha256 mem ck input;
  output1 ← hmac_sha256 mem temp_key [x01];
  output2 ← hmac_sha256_2 mem temp_key output1 [x02];
  output3 ← hmac_sha256_2 mem temp_key output2 [x03];
  Ret (output1, output2, output3).

(** * The references *)

(** The key padded with zeros to a block. *)
Definition block_key (key : list byte) : list byte :=
  let k := if 64 <? zlen key then sha256_ref key else key in k ++ replicate (64 - length k) x00.

Definition hmac (key msg : list byte) : list byte :=
  let k := block_key key in
  sha256_ref (map (bxor x5c) k ++ sha256_ref (map (bxor x36) k ++ msg)).

(** The blocks [T(1), T(2), ...] of RFC 5869 from the previous one. *)
Fixpoint t_blocks (n : nat) (prk info T : list byte) (i : Z) : list byte :=
  match n with
  | O => []
  | S n => let T := hmac prk (T ++ info ++ [byte_of i]) in T ++ t_blocks n prk info T (i + 1)
  end.
Definition hkdf_okm (prk info : list byte) (len : Z) : list byte :=
  ztake len (t_blocks (Z.to_nat ((len + 31) / 32)) prk info [] 1).

Definition noise_hkdf (ck input : list byte) : list byte * list byte :=
  let okm := hkdf_okm (hmac ck input) [] 64 in (ztake 32 okm, zdrop 32 okm).

(** * The code computes them *)

Section Exact.
Context (mem : list byte) (Hmem : zlen mem = 64).

Lemma hash_parts_ref parts : hash_parts mem parts = Ret (sha256_ref (mjoin parts)).
Proof.
  unfold hash_parts.
  destruct (returns_inv _ _ (sha_update_all_holds parts [] _ (sha_reset_holds mem Hmem))) as (ctx & -> & Hctx).
  cbn [mbind outcome_bind]. destruct (returns_inv _ _ (sha_finish_holds _ _ Hctx)) as ([out c] & -> & E).
  cbn [fst app] in E. cbn [mbind outcome_bind]. by rewrite E, sha256_pieces_ref.
Qed.

Lemma k_pad_block p key : zlen key <= 64 -> k_pad p key = map (bxor p) (key ++ replicate (64 - length key) x00).
Proof.
  intros Hk. unfold k_pad. rewrite map_app. f_equal.
  - clear. induction key as [|b key IH]; cbn [length replicate zip_with map]; [done|]. by rewrite IH.
  - generalize (64 - length key)%nat. intros n. induction n as [|n IH]; [done|].
    cbn [replicate map]. rewrite IH. f_equal. apply u8_inj. rewrite u8_bxor. symmetry. apply Z.lxor_0_r.
Qed.

Lemma short_key_block p key :
  exists k, short_key mem key = Ret k /\ k_pad p k = map (bxor p) (block_key key).
Proof.
  unfold short_key, block_key. destruct (Z.ltb_spec 64 (zlen key)).
  - rewrite hash_ref by done. eexists. split; [done|]. apply k_pad_block. rewrite zlen_sha256_ref. lia.
  - eexists. split; [done|]. by apply k_pad_block.
Qed.

(** The same short key for both pads. *)
Lemma short_key_pads key :
  exists k, short_key mem key = Ret k
  /\ k_pad x36 k = map (bxor x36) (block_key key) /\ k_pad x5c k = map (bxor x5c) (block_key key).
Proof.
  destruct (short_key_block x36 key) as (k & E & E1). destruct (short_key_block x5c key) as (k' & E' & E2).
  rewrite E in E'. injection E' as <-. eauto.
Qed.

Lemma hmac_ref key data : hmac_sha256 mem key data = Ret (hmac key data).
Proof.
  unfold hmac_sha256, hmac. destruct (short_key_pads key) as (k & -> & E1 & E2). cbn [mbind outcome_bind].
  rewrite hash_parts_ref. cbn [mbind outcome_bind]. rewrite hash_parts_ref, E1, E2. cbn [mjoin list_join].
  by rewrite !app_nil_r.
Qed.

Lemma hmac_2_ref key data1 data2 : hmac_sha256_2 mem key data1 data2 = Ret (hmac key (data1 ++ data2)).
Proof.
  unfold hmac_sha256_2, hmac. destruct (short_key_pads key) as (k & -> & E1 & E2). cbn [mbind outcome_bind].
  rewrite hash_parts_ref. cbn [mbind outcome_bind]. rewrite hash_parts_ref, E1, E2. cbn [mjoin list_join].
  by rewrite !app_nil_r.
Qed.

Lemma zlen_hmac key data : zlen (hmac key data) = 32.
Proof. apply zlen_sha256_ref. Qed.

Lemma block_key_short key : zlen key <= 64 -> block_key key = key ++ replicate (64 - length key) x00.
Proof. intros Hk. unfold block_key. by destruct (Z.ltb_spec 64 (zlen key)); [lia|]. Qed.

(** The arrays hashed for a block of output. *)
Lemma mjoin_parts (p T info : list byte) b :
  mjoin ([p] ++ (if 0 <? zlen T then [T] else []) ++ (if 0 <? zlen info then [info] else []) ++ [[b]])
  = p ++ T ++ info ++ [b].
Proof.
  assert (forall l : list byte, mjoin (if 0 <? zlen l then [l] else []) = l) as E.
  { intros l. pose proof (zlen_nonneg l). destruct (Z.ltb_spec 0 (zlen l)); [apply app_nil_r|].
    symmetry. apply zlen_zero. lia. }
  rewrite !join_app, !E. cbn [mjoin list_join]. by rewrite app_nil_r.
Qed.

Lemma byte_of_next c i : byte_of c = byte_of i -> byte_of ((c + 1) mod 256) = byte_of (i + 1).
Proof.
  intros H. apply (f_equal u8) in H. apply u8_inj. rewrite !u8_byte_of in *. rewrite Z.mod_mod by lia.
  by rewrite <- Z.add_mod_idemp_l, H, Z.add_mod_idemp_l by lia.
Qed.

Lemma expand_loop_ref prk info : zlen prk = 32 -> forall fuel T counter i len,
  0 <= len -> (Z.to_nat len < fuel)%nat -> byte_of counter = byte_of i ->
  expand_loop fuel mem prk info T counter len
  = Ret (ztake len (t_blocks (Z.to_nat ((len + 31) / 32)) prk info T i)).
Proof.
  intros Hprk. induction fuel as [|fuel IH]; intros T counter i len Hl Hf Hc; [lia|]. cbn [expand_loop].
  destruct (Z.eqb_spec len 0) as [-> |Hz]; [done|]. rewrite !hash_parts_ref, mjoin_parts. cbn [mbind outcome_bind].
  rewrite !hash_parts_ref. cbn [mbind outcome_bind mjoin list_join]. rewrite app_nil_r, Hc, !k_pad_block by lia.
  rewrite <- !block_key_short by lia. fold (hmac prk (T ++ info ++ [byte_of i])).
  set (T' := hmac prk _). assert (zlen T' = 32) as HT by apply zlen_hmac.
  rewrite (IH T' _ (i + 1)) by (lia || by apply byte_of_next). cbn [mbind outcome_bind].
  assert (Z.to_nat ((len + 31) / 32) = S (Z.to_nat ((len - Z.min len 32 + 31) / 32))) as ->.
  { destruct (Z.le_gt_cases 32 len).
    - replace (len + 31) with (len - Z.min len 32 + 31 + 1 * 32) by lia. rewrite Z.div_add by lia.
      pose proof (Z.div_pos (len - Z.min len 32 + 31) 32 ltac:(lia) ltac:(lia)). lia.
    - replace (len - Z.min len 32 + 31) with 31 by lia. assert ((len + 31) / 32 = 1) as ->; [|done].
      symmetry. apply (Z.div_unique _ _ _ (len - 1)); lia. }
  cbn [t_blocks]. fold T'. f_equal. destruct (Z.le_gt_cases 32 len).
  - rewrite Z.min_r, (ztake_all 32 T') by lia. unfold ztake. rewrite take_app. unfold zlen in HT.
    rewrite (take_ge T') by lia. do 2 f_equal. lia.
  - rewrite Z.min_l, Z.sub_diag, ztake_0, app_nil_r by lia. by rewrite ztake_app_le by lia.
Qed.

(** The two keys Noise derives are the first two blocks of the expansion. *)
Lemma noise_hkdf_2_ref ck input : noise_hkdf_2 mem ck input = Ret (noise_hkdf ck input).
Proof.
  unfold noise_hkdf_2. rewrite hmac_ref. cbn [mbind outcome_bind]. rewrite hmac_ref. cbn [mbind outcome_bind].
  rewrite hmac_2_ref. cbn [mbind outcome_bind]. unfold noise_hkdf, hkdf_okm.
  change (Z.to_nat ((64 + 31) / 32)) with 2%nat. cbn [t_blocks app]. rewrite app_nil_r.
  change (byte_of 1) with x01. change (byte_of (1 + 1)) with x02.
  set (T1 := hmac _ [_]). set (T2 := hmac _ (T1 ++ _)). pose proof (zlen_hmac (hmac ck input) [x01]) as H1.
  pose proof (zlen_hmac (hmac ck input) (T1 ++ [x02])) as H2. fold T1 in H1. fold T2 in H2.
  rewrite (ztake_all 64) by (rewrite zlen_app; lia). by rewrite ztake_app, zdrop_app by done.
Qed.

(** The routines compute HMAC-SHA256 of RFC 2104 and the expansion of RFC 5869, for keys
    of every length and outputs of every length, without an access out of bounds; the two
    keys Noise derives are the first two blocks of that expansion with an empty context. *)
Theorem hkdf_exact key data info len ck input :
  0 <= len ->
  hmac_sha256 mem key data = Ret (hmac key data)
  /\ hkdf_sha256 mem (Some key) data info len
     = Ret (hkdf_okm (hmac (if bool_decide (key = []) then replicate 32 x00 else key) data) info len)
  /\ noise_hkdf_2 mem ck input = Ret (noise_hkdf ck input).
Proof.
  intros Hl. split; [apply hmac_ref|]. split.
  - unfold hkdf_sha256, hkdf_extract, hkdf_expand, hkdf_okm. rewrite hmac_ref. cbn [mbind outcome_bind].
    rewrite (expand_loop_ref _ _ (zlen_hmac _ _) _ _ _ 1) by (done || lia). by destruct key.
  - apply noise_hkdf_2_ref.
Qed.

End Exact.

(** Test case 1 of RFC 5869. *)
Lemma hkdf_exact_witness :
  hkdf_sha256 (replicate 64 x00) (Some (be_enc 13 0x000102030405060708090a0b0c)) (replicate 22 x0b)
    (be_enc 10 0xf0f1f2f3f4f5f6f7f8f9) 42
  = Ret (be_enc 42 0x3cb25f25faacd57a90434f64d0362f2a2d2d0a90cf1a5a4c5db02d56ecc4c5bf34007208d5b887185865).
Proof.
  assert (zlen (replicate 64 x00) = 64) as Hm by reflexivity. assert (0 <= 42) as Hl by lia.
  destruct (hkdf_exact (replicate 64 x00) Hm (be_enc 13 0x000102030405060708090a0b0c) (replicate 22 x0b)
              (be_enc 10 0xf0f1f2f3f4f5f6f7f8f9) 42 [] [] Hl) as (_ & E & _).
  rewrite E. vm_compute. reflexivity.
Defined.

End hkdf.
