(* ===== verification/Noise.v ===== *)
(** The Noise XX handshake and its transport ([crypto/noise.cpp]) and their adapter to the
    security interface ([security/noise_security.cpp], [security/identity.h]).

    The hash, the key derivation and the authenticated encryption are the routines modelled
    in their own files. Curve25519 is used through its interface, the class [Agreement]:
    the scalar multiplication and the two laws its users rely on. Random bytes are
    arguments, and so is what uninitialised memory holds. *)

From S2P Require Import Prelude Words Interfaces PeerId Security Sha256 Hkdf ChaChaPoly ChaChaPolyProofs.

Module noise.

Definition KEY_SIZE : Z := 32.
Definition HASH_SIZE : Z := 32.
Definition DH_SIZE : Z := 32.
Definition NOISE_TAG_SIZE : Z := 16.
Definition MAX_MESSAGE_SIZE : Z := 65535.

(** [NOISE_PROTOCOL_NAME]. *)
Definition PROTOCOL_NAME : list byte :=
  [x4e; x6f; x69; x73; x65; x5f; x58; x58; x5f; x32; x35; x35; x31; x39; x5f; x43;
   x68; x61; x43; x68; x61; x50; x6f; x6c; x79; x5f; x53; x48; x41; x32; x35; x36].

Inductive NoiseError :=
| OK | INVALID_STATE | DECRYPT_FAILED | MESSAGE_TOO_LARGE | HANDSHAKE_NOT_COMPLETE
| HANDSHAKE_ALREADY_COMPLETE | INVALID_KEY | INTERNAL_ERROR.

(** [rats_curve25519_donna] and its base point. *)
Class Agreement := {
  curve25519 : list byte -> list byte -> list byte;
  basepoint : list byte;
  curve25519_length k p : zlen (curve25519 k p) = 32;
  curve25519_commutes j k :
    curve25519 j (curve25519 k basepoint) = curve25519 k (curve25519 j basepoint);
}.

(** What a build has and what its uninitialised memory holds. *)
Record platform := mkPlatform { pf_build : build; pf_temp : list byte; pf_poly : list byte; pf_sha : list byte }.

Definition platform_ok (pf : platform) : Prop :=
  zlen (pf_temp pf) = 64 /\ zlen (pf_poly pf) = 16 /\ zlen (pf_sha pf) = 64.

Section Noise.
Context `{Agreement} (pf : platform).

(** ** Transport ciphers *)

Record NoiseCipherState := mkCipher { ckey : list byte; nonce_ : Z; has_key : bool }.

Definition no_cipher : NoiseCipherState := mkCipher (replicate 32 x00) 0 false.
Definition initialize_key (key : list byte) : NoiseCipherState := mkCipher key 0 true.

Definition make_nonce (n : Z) : list byte := replicate 4 x00 ++ store64 n.

(** [memcpy] into a buffer of [cap] bytes. *)
Definition copy_out (cap : Z) (data : list byte) : outcome (list byte) := if cap <? zlen data then UB else Ret data.

(** The output buffer has [cap] bytes; it follows the plaintext in memory. *)
Definition encrypt_with_ad (cap : Z) (c : NoiseCipherState) (ad plaintext : list byte) : outcome (NoiseCipherState * list byte) :=
  if negb (has_key c) then
    out ← copy_out cap plaintext;
    Ret (c, out)
  else
    let a := zlen ad in
    let n := zlen plaintext in
    '(result, mem) ← build_encrypt (pf_build pf) (pf_temp pf) (pf_poly pf) (ckey c) (make_nonce (nonce_ c))
                       0 a a n (a + n) (ad ++ plaintext ++ replicate (Z.to_nat cap) x00);
    let c := if 0 <? result then mkCipher (ckey c) (u64 (nonce_ c + 1)) (has_key c) else c in
    Ret (c, region (a + n) result mem).

(** [None] is [NOISE_DECRYPT_FAILED]. *)
Definition decrypt_with_ad (cap : Z) (c : NoiseCipherState) (ad ciphertext : list byte)
  : outcome (NoiseCipherState * option (list byte)) :=
  if negb (has_key c) then
    out ← copy_out cap ciphertext;
    Ret (c, Some out)
  else if zlen ciphertext <? NOISE_TAG_SIZE then Ret (c, None)
  else
    let a := zlen ad in
    let n := zlen ciphertext in
    '(result, mem) ← build_decrypt (pf_build pf) (pf_temp pf) (pf_poly pf) (ckey c) (make_nonce (nonce_ c))
                       0 a a n (a + n) (ad ++ ciphertext ++ replicate (Z.to_nat cap) x00);
    if negb (result =? chachapoly.DECRYPT_FAILED)
    then Ret (mkCipher (ckey c) (u64 (nonce_ c + 1)) (has_key c), Some (region (a + n) result mem))
    else Ret (c, None).

(** ** The symmetric state *)

Record NoiseSymmetricState := mkSymmetric { ck_ : list byte; h_ : list byte; cipher_ : NoiseCipherState }.

Definition initialize_symmetric (name : list byte) (s : NoiseSymmetricState) : outcome NoiseSymmetricState :=
  h ← (if zlen name <=? HASH_SIZE then Ret (name ++ replicate (Z.to_nat (HASH_SIZE - zlen name)) x00)
       else sha256.hash (pf_sha pf) name);
  Ret (mkSymmetric h h (cipher_ s)).

Definition mix_key (input : list byte) (s : NoiseSymmetricState) : outcome NoiseSymmetricState :=
  '(ck, temp_k) ← hkdf.noise_hkdf_2 (pf_sha pf) (ck_ s) input;
  Ret (mkSymmetric ck (h_ s) (initialize_key temp_k)).

Definition mix_hash (data : list byte) (s : NoiseSymmetricState) : outcome NoiseSymmetricState :=
  h ← hkdf.hash_parts (pf_sha pf) [h_ s; data];
  Ret (mkSymmetric (ck_ s) h (cipher_ s)).

Definition encrypt_and_hash (cap : Z) (plaintext : list byte) (s : NoiseSymmetricState) : outcome (NoiseSymmetricState * list byte) :=
  '(c, ciphertext) ← encrypt_with_ad cap (cipher_ s) (h_ s) plaintext;
  s ← mix_hash ciphertext (mkSymmetric (ck_ s) (h_ s) c);
  Ret (s, ciphertext).

(** [cap] is the capacity of the output buffer. *)
Definition decrypt_and_hash (ciphertext : list byte) (cap : Z) (s : NoiseSymmetricState)
  : outcome (NoiseSymmetricState * option (list byte)) :=
  let ct_len := zlen ciphertext in
  let pt_max := if has_key (cipher_ s) then (if NOISE_TAG_SIZE <=? ct_len then ct_len - NOISE_TAG_SIZE else 0) else ct_len in
  if cap <? pt_max then Ret (s, None)
  else
    let h_backup := h_ s in
    s ← mix_hash ciphertext s;
    '(c, plaintext) ← decrypt_with_ad cap (cipher_ s) h_backup ciphertext;
    Ret (mkSymmetric (ck_ s) (h_ s) c, plaintext).

Definition split_symmetric (s : NoiseSymmetricState) : outcome (NoiseCipherState * NoiseCipherState) :=
  '(k1, k2) ← hkdf.noise_hkdf_2 (pf_sha pf) (ck_ s) [];
  Ret (initialize_key k1, initialize_key k2).

(** ** The handshake *)

Record NoiseKeyPair := mkKeyPair { private_key : list byte; public_key : list byte; has_keys : bool }.
Definition no_keys : NoiseKeyPair := mkKeyPair (replicate 32 x00) (replicate 32 x00) false.

(** [b &= 248] on the first byte, [b &= 127] and [b |= 64] on the last. *)
Definition clamp (key : list byte) : list byte :=
  map (fun b => byte_of (Z.land (u8 b) 248)) (ztake 1 key) ++ ztake 30 (zdrop 1 key)
  ++ map (fun b => byte_of (Z.lor (Z.land (u8 b) 127) 64)) (zdrop 31 key).

(** [noise_generate_keypair] and [generate_ephemeral] from 32 random bytes. *)
Definition generate_keypair (random : list byte) : NoiseKeyPair :=
  let private := clamp random in mkKeyPair private (curve25519 private basepoint) true.

Record NoiseHandshakeState := mkHandshake {
  symmetric_ : NoiseSymmetricState;
  s_ : NoiseKeyPair; e_ : NoiseKeyPair; rs_ : NoiseKeyPair; re_ : NoiseKeyPair;
  is_initiator_ : bool;
  message_index_ : Z;
  handshake_complete_ : bool;
  initialized_ : bool;
}.

Definition new_handshake : NoiseHandshakeState :=
  mkHandshake (mkSymmetric (replicate 32 x00) (replicate 32 x00) no_cipher)
    no_keys no_keys no_keys no_keys false 0 false false.

Definition with_symmetric (s : NoiseSymmetricState) (hs : NoiseHandshakeState) : NoiseHandshakeState :=
  mkHandshake s (s_ hs) (e_ hs) (rs_ hs) (re_ hs) (is_initiator_ hs) (message_index_ hs) (handshake_complete_ hs) (initialized_ hs).
Definition with_complete (hs : NoiseHandshakeState) : NoiseHandshakeState :=
  mkHandshake (symmetric_ hs) (s_ hs) (e_ hs) (rs_ hs) (re_ hs) (is_initiator_ hs) (message_index_ hs) true (initialized_ hs).
(** [message_index_++] on an [int]. *)
Definition next_index (hs : NoiseHandshakeState) : outcome NoiseHandshakeState :=
  if message_index_ hs =? 2 ^ 31 - 1 then UB
  else Ret (mkHandshake (symmetric_ hs) (s_ hs) (e_ hs) (rs_ hs) (re_ hs) (is_initiator_ hs) (message_index_ hs + 1)
              (handshake_complete_ hs) (initialized_ hs)).
Definition with_ephemeral (e : NoiseKeyPair) (hs : NoiseHandshakeState) : NoiseHandshakeState :=
  mkHandshake (symmetric_ hs) (s_ hs) e (rs_ hs) (re_ hs) (is_initiator_ hs) (message_index_ hs) (handshake_complete_ hs) (initialized_ hs).
Definition with_remote (rs re : NoiseKeyPair) (hs : NoiseHandshakeState) : NoiseHandshakeState :=
  mkHandshake (symmetric_ hs) (s_ hs) (e_ hs) rs re (is_initiator_ hs) (message_index_ hs) (handshake_complete_ hs) (initialized_ hs).

Definition mix_dh (local_private remote_public : list byte) (hs : NoiseHandshakeState) : outcome NoiseHandshakeState :=
  s ← mix_key (curve25519 local_private remote_public) (symmetric_ hs);
  Ret (with_symmetric s hs).

(** [cap] is the room left in the output buffer; [random] is what the generator gives if an
    ephemeral key is needed. *)
Definition write_e (cap : Z) (random : list byte) (hs : NoiseHandshakeState) : outcome (NoiseHandshakeState * list byte) :=
  let hs := if has_keys (e_ hs) then hs else with_ephemeral (generate_keypair random) hs in
  s ← mix_hash (public_key (e_ hs)) (symmetric_ hs);
  out ← copy_out cap (public_key (e_ hs));
  Ret (with_symmetric s hs, out).

Definition write_s (cap : Z) (hs : NoiseHandshakeState) : outcome (NoiseHandshakeState * list byte) :=
  '(s, out) ← encrypt_and_hash cap (public_key (s_ hs)) (symmetric_ hs);
  Ret (with_symmetric s hs, out).

(** The number of bytes consumed, 0 on failure. *)
Definition read_e (input : list byte) (hs : NoiseHandshakeState) : outcome (NoiseHandshakeState * Z) :=
  if zlen input <? DH_SIZE then Ret (hs, 0)
  else
    let key := ztake DH_SIZE input in
    s ← mix_hash key (symmetric_ hs);
    Ret (with_symmetric s (with_remote (rs_ hs) (mkKeyPair (private_key (re_ hs)) key true) hs), DH_SIZE).

Definition read_s (input : list byte) (hs : NoiseHandshakeState) : outcome (NoiseHandshakeState * Z) :=
  let expected_len := DH_SIZE + (if has_key (cipher_ (symmetric_ hs)) then NOISE_TAG_SIZE else 0) in
  if zlen input <? expected_len then Ret (hs, 0)
  else
    '(s, key) ← decrypt_and_hash (ztake expected_len input) DH_SIZE (symmetric_ hs);
    let hs := with_symmetric s hs in
    match key with
    | Some key =>
        if zlen key =? DH_SIZE
        then Ret (with_remote (mkKeyPair (private_key (rs_ hs)) key true) (re_ hs) hs, expected_len)
        else Ret (hs, 0)
    | None => Ret (hs, 0)
    end.

(** A null key pair is [None]; [random] is for a generated one. *)
Definition initialize (is_initiator : bool) (static_keypair : option NoiseKeyPair) (prologue random : list byte)
    (hs : NoiseHandshakeState) : outcome NoiseHandshakeState :=
  s ← initialize_symmetric PROTOCOL_NAME (symmetric_ hs);
  s ← mix_hash prologue s;
  let static := match static_keypair with
                | Some kp => if has_keys kp then kp else generate_keypair random
                | None => generate_keypair random
                end in
  Ret (mkHandshake s static (e_ hs) (rs_ hs) (re_ hs) is_initiator 0 false true).

(** The keys of the message that is due; [None] when the buffer is too small. *)
Definition write_tokens (random : list byte) (max_len : Z) (hs : NoiseHandshakeState)
  : outcome (NoiseHandshakeState * option (list byte)) :=
  if is_initiator_ hs then
    if message_index_ hs =? 0 then
      if max_len <? DH_SIZE then Ret (hs, None)
      else
        '(hs, e) ← write_e max_len random hs;
        Ret (hs, Some e)
    else if message_index_ hs =? 2 then
      if max_len <? DH_SIZE + NOISE_TAG_SIZE then Ret (hs, None)
      else
        '(hs, s) ← write_s max_len hs;
        hs ← mix_dh (private_key (s_ hs)) (public_key (re_ hs)) hs;
        Ret (with_complete hs, Some s)
    else Ret (hs, Some [])
  else if message_index_ hs =? 1 then
    if max_len <? DH_SIZE + DH_SIZE + NOISE_TAG_SIZE then Ret (hs, None)
    else
      '(hs, e) ← write_e max_len random hs;
      hs ← mix_dh (private_key (e_ hs)) (public_key (re_ hs)) hs;
      '(hs, s) ← write_s (max_len - zlen e) hs;
      hs ← mix_dh (private_key (s_ hs)) (public_key (re_ hs)) hs;
      Ret (hs, Some (e ++ s))
  else Ret (hs, Some []).

(** [payload] is empty for a null pointer; the message is empty on an error. *)
Definition write_message (random payload : list byte) (max_len : Z) (hs : NoiseHandshakeState)
  : outcome (NoiseHandshakeState * NoiseError * list byte) :=
  if negb (initialized_ hs) then Ret (hs, INVALID_STATE, [])
  else if handshake_complete_ hs then Ret (hs, HANDSHAKE_ALREADY_COMPLETE, [])
  else
    '(hs, tokens) ← write_tokens random max_len hs;
    match tokens with
    | None => Ret (hs, MESSAGE_TOO_LARGE, [])
    | Some out =>
        let tag := if has_key (cipher_ (symmetric_ hs)) then NOISE_TAG_SIZE else 0 in
        if max_len <? zlen out + zlen payload + tag then Ret (hs, MESSAGE_TOO_LARGE, [])
        else
          '(s, encrypted) ← encrypt_and_hash (max_len - zlen out) payload (symmetric_ hs);
          hs ← next_index (with_symmetric s hs);
          Ret (hs, OK, out ++ encrypted)
    end.

(** The keys of a received message: the bytes consumed, [None] on failure. *)
Definition read_tokens (message : list byte) (hs : NoiseHandshakeState) : outcome (NoiseHandshakeState * option Z) :=
  if is_initiator_ hs then
    if message_index_ hs =? 1 then
      '(hs, consumed) ← read_e message hs;
      if consumed =? 0 then Ret (hs, None)
      else
        let offset := consumed in
        hs ← mix_dh (private_key (e_ hs)) (public_key (re_ hs)) hs;
        '(hs, consumed) ← read_s (zdrop offset message) hs;
        if consumed =? 0 then Ret (hs, None)
        else
          hs ← mix_dh (private_key (e_ hs)) (public_key (rs_ hs)) hs;
          Ret (hs, Some (offset + consumed))
    else Ret (hs, Some 0)
  else if message_index_ hs =? 0 then
    '(hs, consumed) ← read_e message hs;
    if consumed =? 0 then Ret (hs, None) else Ret (hs, Some consumed)
  else if message_index_ hs =? 2 then
    '(hs, consumed) ← read_s message hs;
    if consumed =? 0 then Ret (hs, None)
    else
      hs ← mix_dh (private_key (e_ hs)) (public_key (rs_ hs)) hs;
      Ret (with_complete hs, Some consumed)
  else Ret (hs, Some 0).

Definition read_message (message : list byte) (payload_cap : Z) (hs : NoiseHandshakeState)
  : outcome (NoiseHandshakeState * NoiseError * list byte) :=
  if negb (initialized_ hs) then Ret (hs, INVALID_STATE, [])
  else if handshake_complete_ hs then Ret (hs, HANDSHAKE_ALREADY_COMPLETE, [])
  else
    '(hs, offset) ← read_tokens message hs;
    match offset with
    | None => Ret (hs, DECRYPT_FAILED, [])
    | Some offset =>
        '(s, payload) ← decrypt_and_hash (zdrop offset message) payload_cap (symmetric_ hs);
        let hs := with_symmetric s hs in
        match payload with
        | None => Ret (hs, DECRYPT_FAILED, [])
        | Some payload =>
            hs ← next_index hs;
            Ret (hs, OK, payload)
        end
    end.

(** The sending and the receiving cipher. *)
Definition split (hs : NoiseHandshakeState) : outcome (option (NoiseCipherState * NoiseCipherState)) :=
  if negb (handshake_complete_ hs) then Ret None
  else
    '(c1, c2) ← split_symmetric (symmetric_ hs);
    Ret (Some (if is_initiator_ hs then (c1, c2) else (c2, c1))).

(** ** Sessions *)

Record NoiseSession := mkNoiseSession {
  handshake_ : NoiseHandshakeState;
  send_cipher_ : NoiseCipherState;
  recv_cipher_ : NoiseCipherState;
  transport_ready_ : bool;
}.

Definition new_session : NoiseSession := mkNoiseSession new_handshake no_cipher no_cipher false.

Definition start_session (is_initiator : bool) (static_keypair : option NoiseKeyPair) (prologue random : list byte)
    (ns : NoiseSession) : outcome NoiseSession :=
  hs ← initialize is_initiator static_keypair prologue random (handshake_ ns);
  Ret (mkNoiseSession hs (send_cipher_ ns) (recv_cipher_ ns) false).

(** [received] is empty for a null pointer; the message to send, if there is one. *)
Definition handshake_step (random received : list byte) (max_len : Z) (ns : NoiseSession)
  : outcome (NoiseSession * NoiseError * option (list byte)) :=
  if transport_ready_ ns then Ret (ns, HANDSHAKE_ALREADY_COMPLETE, None)
  else
    '(hs, err, _) ← (if 0 <? zlen received then read_message received 256 (handshake_ ns)
                     else Ret (handshake_ ns, OK, []));
    let ns := mkNoiseSession hs (send_cipher_ ns) (recv_cipher_ ns) (transport_ready_ ns) in
    match err with
    | OK =>
        '(hs, sent) ← (if handshake_complete_ hs then Ret (hs, None)
                       else
                         '(hs, err, message) ← write_message random [] max_len hs;
                         Ret (hs, match err with OK => Some message | _ => None end));
        if handshake_complete_ hs then
          ciphers ← split hs;
          match ciphers with
          | None => Ret (mkNoiseSession hs (send_cipher_ ns) (recv_cipher_ ns) false, HANDSHAKE_NOT_COMPLETE, sent)
          | Some (send, recv) => Ret (mkNoiseSession hs send recv true, OK, sent)
          end
        else Ret (mkNoiseSession hs (send_cipher_ ns) (recv_cipher_ ns) false, OK, sent)
    | err => Ret (ns, err, None)
    end.

(** [NoiseSession::encrypt] and [decrypt]. *)
Definition session_encrypt (cap : Z) (ns : NoiseSession) (plaintext : list byte) : outcome (NoiseSession * list byte) :=
  if negb (transport_ready_ ns) then Ret (ns, [])
  else
    '(c, out) ← encrypt_with_ad cap (send_cipher_ ns) [] plaintext;
    Ret (mkNoiseSession (handshake_ ns) c (recv_cipher_ ns) (transport_ready_ ns), out).

Definition session_decrypt (cap : Z) (ns : NoiseSession) (ciphertext : list byte) : outcome (NoiseSession * option (list byte)) :=
  if negb (transport_ready_ ns) then Ret (ns, Some [])
  else
    '(c, out) ← decrypt_with_ad cap (recv_cipher_ ns) [] ciphertext;
    Ret (mkNoiseSession (handshake_ ns) (send_cipher_ ns) c (transport_ready_ ns), out).

(** ** The adapters *)

(** [NoiseSessionAdapter]. *)
Record NoiseSessionAdapter := mkAdapter { session_ : NoiseSession; noise_remote_id : list byte }.

Definition adapter_encrypt (a : NoiseSessionAdapter) (plain : list byte) : outcome (option (NoiseSessionAdapter * list byte)) :=
  '(ns, out) ← session_encrypt (zlen plain + NOISE_TAG_SIZE) (session_ a) plain;
  if (zlen out =? 0) && negb (zlen plain =? 0) then Ret None
  else Ret (Some (mkAdapter ns (noise_remote_id a), out)).

Definition adapter_decrypt (a : NoiseSessionAdapter) (cipher : list byte) : outcome (option (NoiseSessionAdapter * list byte)) :=
  if zlen cipher <? NOISE_TAG_SIZE then Ret None
  else
    '(ns, out) ← session_decrypt (zlen cipher) (session_ a) cipher;
    match out with
    | None => Ret None
    | Some out => Ret (Some (mkAdapter ns (noise_remote_id a), out))
    end.

(** [NoiseHandshaker]; the session is gone once it is handed over. [random] is what the
    generator gives for the ephemeral key. *)
Record NoiseHandshaker := mkNoiseHandshaker { hs_session : option NoiseSession; initiator_ : bool; random_ : list byte }.

Record Identity := mkIdentity { static_keypair : NoiseKeyPair; id : list byte }.

(** [PeerId::from_public_key]. *)
Definition from_public_key (key : list byte) : outcome (list byte) := sha256.hash (pf_sha pf) key.

Definition identity_of (kp : NoiseKeyPair) : outcome Identity :=
  id ← from_public_key (public_key kp);
  Ret (mkIdentity kp id).
Definition identity_generate (random : list byte) : outcome Identity := identity_of (generate_keypair random).
Definition derive_public_key (private : list byte) : list byte := curve25519 (clamp private) basepoint.
Definition identity_from_private_key (private : list byte) : outcome Identity :=
  identity_of (mkKeyPair private (derive_public_key private) true).

Definition new_handshaker (ident : Identity) (initiator : bool) (prologue random : list byte) : outcome NoiseHandshaker :=
  ns ← start_session initiator (Some (static_keypair ident)) prologue random new_session;
  Ret (mkNoiseHandshaker (Some ns) initiator random).

(** The message to append to the output, [None] on failure. Not called after the session
    was handed over. *)
Definition step (received : list byte) (hk : NoiseHandshaker) : outcome (NoiseHandshaker * option (list byte)) :=
  if MAX_MESSAGE_SIZE <? zlen received then Ret (hk, None)
  else
    match hs_session hk with
    | None => UB
    | Some ns =>
        '(ns, err, sent) ← handshake_step (random_ hk) received MAX_MESSAGE_SIZE ns;
        let hk := mkNoiseHandshaker (Some ns) (initiator_ hk) (random_ hk) in
        match err with
        | OK => Ret (hk, Some (default [] sent))
        | _ => Ret (hk, None)
        end
    end.

Definition noise_start (hk : NoiseHandshaker) : outcome (option (NoiseHandshaker * list byte)) :=
  if negb (initiator_ hk) then Ret (Some (hk, []))
  else
    '(hk, out) ← step [] hk;
    Ret (match out with Some out => Some (hk, out) | None => None end).

Definition noise_consume (incoming : list byte) (hk : NoiseHandshaker)
  : outcome (NoiseHandshaker * HsStatus NoiseSessionAdapter * list byte) :=
  '(hk, out) ← step incoming hk;
  match out, hs_session hk with
  | None, _ => Ret (hk, Failed, [])
  | Some out, Some ns =>
      if transport_ready_ ns then
        remote ← from_public_key (public_key (rs_ (handshake_ ns)));
        Ret (mkNoiseHandshaker None (initiator_ hk) (random_ hk), Done (mkAdapter ns remote) remote, out)
      else Ret (hk, NeedMore, out)
  | Some out, None => UB
  end.

End Noise.
End noise.
