(* ===== verification/NoiseProofs.v ===== *)
(** What the operations of the Noise ciphers and symmetric state compute, in terms of the
    reference hash, key derivation and authenticated encryption. *)

From S2P Require Import Prelude Words Interfaces PeerId Security Sha256 Sha256Proofs Hkdf.
From S2P Require Import ChaCha ChaChaStream ChaChaPoly ChaChaPolyProofs Noise.
Import noise.

(** * What the operations compute *)

Definition bump_nonce (c : NoiseCipherState) : NoiseCipherState := mkCipher (ckey c) (u64 (nonce_ c + 1)) (has_key c).

Definition sym_hash (d : list byte) (s : NoiseSymmetricState) : NoiseSymmetricState :=
  mkSymmetric (ck_ s) (sha256_ref (h_ s ++ d)) (cipher_ s).
Definition sym_key (ikm : list byte) (s : NoiseSymmetricState) : NoiseSymmetricState :=
  mkSymmetric (hkdf.noise_hkdf (ck_ s) ikm).1 (h_ s) (initialize_key (hkdf.noise_hkdf (ck_ s) ikm).2).

(** The ciphertext of a message, and the cipher after it. *)
Definition enc_text (c : NoiseCipherState) (ad p : list byte) : list byte :=
  if has_key c then sealed (ckey c) (make_nonce (nonce_ c)) ad p else p.
Definition enc_next (c : NoiseCipherState) : NoiseCipherState := if has_key c then bump_nonce c else c.

Definition sym_text (p : list byte) (s : NoiseSymmetricState) : list byte := enc_text (cipher_ s) (h_ s) p.
Definition sym_next (p : list byte) (s : NoiseSymmetricState) : NoiseSymmetricState :=
  sym_hash (sym_text p s) (mkSymmetric (ck_ s) (h_ s) (enc_next (cipher_ s))).

(** The length of the tag a cipher adds. *)
Definition tag_len (c : NoiseCipherState) : Z := if has_key c then 16 else 0.

Lemma tag_len_bounds c : 0 <= tag_len c <= 16.
Proof. unfold tag_len. destruct (has_key c); lia. Qed.

(** Side conditions about the room in a message buffer. *)
Ltac room :=
  try done; change MAX_MESSAGE_SIZE with 65535;
  repeat match goal with |- context [tag_len ?c] => pose proof (tag_len_bounds c); generalize dependent (tag_len c); intros end;
  change (zlen (@nil byte)) with 0; lia.

Section Operations.
Context `{Agreement} (pf : platform) (Hpf : platform_ok pf).

Lemma mix_hash_ref d s : mix_hash pf d s = Ret (sym_hash d s).
Proof.
  destruct Hpf as (_ & _ & Hs). unfold mix_hash. rewrite hkdf.hash_parts_ref by done. cbn [mbind outcome_bind].
  cbn [mjoin list_join]. by rewrite app_nil_r.
Qed.

Lemma mix_key_ref ikm s : mix_key pf ikm s = Ret (sym_key ikm s).
Proof.
  destruct Hpf as (_ & _ & Hs). unfold mix_key. rewrite hkdf.noise_hkdf_2_ref by done. cbn [mbind outcome_bind].
  unfold sym_key. by destruct (hkdf.noise_hkdf (ck_ s) ikm).
Qed.

Lemma zlen_sealed key nonce ad p : zlen (sealed key nonce ad p) = zlen p + 16.
Proof. apply (aead.zlen_seal key nonce ad p). Qed.

Lemma opened_sealed key nonce ad p : opened key nonce ad (sealed key nonce ad p) = Some p.
Proof. by apply (aead.open_seal key nonce ad). Qed.

Lemma opened_exact key nonce ad ct p : opened key nonce ad ct = Some p <-> ct = sealed key nonce ad p.
Proof. apply (aead.open_seal key nonce ad ct p). Qed.

Lemma opened_short key nonce ad ct : zlen ct < 16 -> opened key nonce ad ct = None.
Proof. intros Hc. unfold opened, aead.open. by rewrite (proj2 (Z.leb_gt _ _)) by lia. Qed.

Lemma copy_out_fits cap d : zlen d <= cap -> copy_out cap d = Ret d.
Proof. intros Hd. unfold copy_out. by rewrite (proj2 (Z.ltb_ge _ _)). Qed.

Lemma encrypt_ref cap c ad p :
  zlen p < 2 ^ 32 -> zlen p + tag_len c <= cap -> encrypt_with_ad pf cap c ad p = Ret (enc_next c, enc_text c ad p).
Proof.
  intros Hp Hcap. destruct Hpf as (Ht & Hb & _). unfold encrypt_with_ad, enc_next, enc_text. unfold tag_len in Hcap.
  destruct (has_key c) eqn:Hk; cbn [negb]; [|rewrite copy_out_fits by lia; done]. pose proof (zlen_nonneg ad). pose proof (zlen_nonneg p).
  set (mem := ad ++ p ++ replicate _ _).
  assert (zlen mem = zlen ad + zlen p + cap) as Hm by (unfold mem; rewrite !zlen_app, zlen_replicate; lia).
  rewrite build_encrypt_spec by (try done; unfold inside, ChaChaStream.same_or_apart; lia). cbn [mbind outcome_bind].
  assert (region 0 (zlen ad) mem = ad) as -> by (unfold region, mem; rewrite zdrop_0; by apply ztake_app).
  assert (region (zlen ad) (zlen p) mem = p) as ->.
  { unfold region, mem. rewrite zdrop_app by done. by apply ztake_app. }
  rewrite (proj2 (Z.ltb_lt _ _)) by lia. unfold bump_nonce. rewrite Hk. do 2 f_equal.
  rewrite <- (zlen_sealed (ckey c) (make_nonce (nonce_ c)) ad p). apply region_overwrite; rewrite ?zlen_sealed; lia.
Qed.

Lemma decrypt_ref cap c ad ct :
  zlen ct < 2 ^ 32 -> zlen ct - tag_len c <= cap ->
  decrypt_with_ad pf cap c ad ct
  = Ret (if has_key c
         then match opened (ckey c) (make_nonce (nonce_ c)) ad ct with
              | Some p => (bump_nonce c, Some p)
              | None => (c, None)
              end
         else (c, Some ct)).
Proof.
  intros Hc Hcap. destruct Hpf as (Ht & Hb & _). unfold decrypt_with_ad, NOISE_TAG_SIZE. unfold tag_len in Hcap.
  destruct (has_key c) eqn:Hk; cbn [negb]; [|rewrite copy_out_fits by lia; done]. pose proof (zlen_nonneg ad). pose proof (zlen_nonneg ct).
  destruct (Z.ltb_spec (zlen ct) 16) as [Hlt|Hge]; [by rewrite opened_short|].
  set (mem := ad ++ ct ++ replicate _ _).
  assert (zlen mem = zlen ad + zlen ct + Z.max 0 cap) as Hm by (unfold mem; rewrite !zlen_app, zlen_replicate; lia).
  rewrite build_decrypt_spec by (try done; unfold inside, ChaChaStream.same_or_apart; lia). cbn [mbind outcome_bind].
  assert (region 0 (zlen ad) mem = ad) as -> by (unfold region, mem; rewrite zdrop_0; by apply ztake_app).
  assert (region (zlen ad) (zlen ct) mem = ct) as ->.
  { unfold region, mem. rewrite zdrop_app by done. by apply ztake_app. }
  destruct (opened _ _ _ _) as [p|] eqn:Eo; [|done].
  apply opened_exact in Eo. pose proof (zlen_sealed (ckey c) (make_nonce (nonce_ c)) ad p) as Hl.
  rewrite <- Eo in Hl.
  change chachapoly.DECRYPT_FAILED with (2 ^ 64 - 1). destruct (Z.eqb_spec (zlen ct - 16) (2 ^ 64 - 1)); [lia|]. cbn [negb].
  unfold bump_nonce. rewrite Hk. do 3 f_equal. replace (zlen ct - 16) with (zlen p) by lia. apply region_overwrite; lia.
Qed.

Lemma encrypt_hash_ref cap p s :
  zlen p < 2 ^ 32 -> zlen p + tag_len (cipher_ s) <= cap ->
  encrypt_and_hash pf cap p s = Ret (sym_next p s, sym_text p s).
Proof.
  intros Hp Hcap. unfold encrypt_and_hash. rewrite encrypt_ref by done. cbn [mbind outcome_bind].
  by rewrite mix_hash_ref.
Qed.

(** What was encrypted in the same state is decrypted, and leads to the same state. *)
Lemma decrypt_hash_ref p s cap :
  zlen p < 2 ^ 32 - 16 -> zlen p <= cap ->
  decrypt_and_hash pf (sym_text p s) cap s = Ret (sym_next p s, Some p).
Proof.
  intros Hp Hcap. unfold decrypt_and_hash, NOISE_TAG_SIZE. set (c := cipher_ s).
  assert (zlen (sym_text p s) = zlen p + if has_key c then 16 else 0) as Hl.
  { unfold sym_text, enc_text. fold c. destruct (has_key c); [apply zlen_sealed|lia]. }
  pose proof (zlen_nonneg p). destruct (Z.ltb_spec cap
    (if has_key c then if 16 <=? zlen (sym_text p s) then zlen (sym_text p s) - 16 else 0 else zlen (sym_text p s))) as [Hlt|_].
  { rewrite Hl in Hlt. destruct (has_key c); [|lia]. rewrite (proj2 (Z.leb_le _ _)) in Hlt by lia. lia. }
  rewrite mix_hash_ref. cbn [mbind outcome_bind sym_hash cipher_ ck_ h_].
  rewrite decrypt_ref by (rewrite Hl; unfold tag_len; fold c; destruct (has_key c); lia). fold c. cbn [mbind outcome_bind].
  unfold sym_next, sym_text, enc_text, enc_next. fold c. destruct (has_key c) eqn:Hk; [|done].
  by rewrite opened_sealed.
Qed.

Lemma mix_dh_ref j p hs : mix_dh pf j p hs = Ret (with_symmetric (sym_key (curve25519 j p) (symmetric_ hs)) hs).
Proof. unfold mix_dh. by rewrite mix_key_ref. Qed.

End Operations.
