(* ===== verification/NoiseHandshake.v ===== *)
(** The three messages of the Noise handshake: what each side writes the other side reads,
    and both end in the same symmetric state. *)

From S2P Require Import Prelude Words Interfaces PeerId Security Sha256 Sha256Proofs Hkdf.
From S2P Require Import ChaCha ChaChaStream ChaChaPoly ChaChaPolyProofs Noise NoiseProofs.
Import noise.

#[local] Opaque sha256_ref hkdf.noise_hkdf sealed opened.

(** * The steps of a handshaker *)

Definition going (init : bool) (hs : NoiseHandshakeState) (random : list byte) : NoiseHandshaker :=
  mkNoiseHandshaker (Some (mkNoiseSession hs no_cipher no_cipher false)) init random.

(** The session of a completed handshake, and the result of its handshaker. *)
Definition established (hs : NoiseHandshakeState) : NoiseSession :=
  let k := hkdf.noise_hkdf (ck_ (symmetric_ hs)) [] in
  let one := initialize_key k.1 in
  let two := initialize_key k.2 in
  if is_initiator_ hs then mkNoiseSession hs one two true else mkNoiseSession hs two one true.
Definition adapter_of (hs : NoiseHandshakeState) : NoiseSessionAdapter :=
  mkAdapter (established hs) (sha256_ref (public_key (rs_ hs))).
Definition result_of (init : bool) (hs : NoiseHandshakeState) (random message : list byte)
  : NoiseHandshaker * HsStatus NoiseSessionAdapter * list byte :=
  if handshake_complete_ hs
  then (mkNoiseHandshaker None init random, Done (adapter_of hs) (sha256_ref (public_key (rs_ hs))), message)
  else (going init hs random, NeedMore, message).

Section Steps.
Context `{Agreement} (pf : platform) (Hpf : platform_ok pf).

Lemma split_ref hs :
  handshake_complete_ hs = true ->
  split pf hs = Ret (Some (send_cipher_ (established hs), recv_cipher_ (established hs))).
Proof.
  intros Hc. destruct Hpf as (_ & _ & Hs). unfold split, split_symmetric, established. rewrite Hc. cbn [negb].
  rewrite hkdf.noise_hkdf_2_ref by done. destruct (hkdf.noise_hkdf (ck_ (symmetric_ hs)) []) as [k1 k2].
  by destruct (is_initiator_ hs).
Qed.

Lemma identifier key : from_public_key pf key = Ret (sha256_ref key).
Proof. destruct Hpf as (_ & _ & Hs). unfold from_public_key. by apply hash_ref. Qed.

Lemma session_established hs :
  mkNoiseSession hs (send_cipher_ (established hs)) (recv_cipher_ (established hs)) true = established hs.
Proof. unfold established. by destruct (is_initiator_ hs). Qed.

(** A step that writes: after a message, or at the start for an empty [received]. *)
Lemma step_writes init received hs hs1 hs2 random message :
  zlen received <= 65535 ->
  (if 0 <? zlen received then read_message pf received 256 hs else Ret (hs, OK, [])) = Ret (hs1, OK, []) ->
  handshake_complete_ hs1 = false ->
  write_message pf random [] MAX_MESSAGE_SIZE hs1 = Ret (hs2, OK, message) ->
  step pf received (going init hs random)
  = Ret (mkNoiseHandshaker (Some (if handshake_complete_ hs2 then established hs2
                                  else mkNoiseSession hs2 no_cipher no_cipher false)) init random, Some message).
Proof.
  intros Hn Hr Hc Hw. unfold step, going. cbn [hs_session random_ initiator_].
  unfold handshake_step. cbn [transport_ready_ handshake_ send_cipher_ recv_cipher_].
  rewrite (proj2 (Z.ltb_ge MAX_MESSAGE_SIZE _)) by done. rewrite Hr. cbn [mbind outcome_bind]. rewrite Hc, Hw.
  cbn [mbind outcome_bind]. destruct (handshake_complete_ hs2) eqn:Hc2; [|done].
  rewrite split_ref by done. cbn [mbind outcome_bind]. by rewrite session_established.
Qed.

Lemma consume_writes init received hs hs1 hs2 random message :
  zlen received <= 65535 ->
  (if 0 <? zlen received then read_message pf received 256 hs else Ret (hs, OK, [])) = Ret (hs1, OK, []) ->
  handshake_complete_ hs1 = false ->
  write_message pf random [] MAX_MESSAGE_SIZE hs1 = Ret (hs2, OK, message) ->
  noise_consume pf received (going init hs random) = Ret (result_of init hs2 random message).
Proof.
  intros Hn Hr Hc Hw. unfold noise_consume. rewrite (step_writes init received hs hs1 hs2 random message) by done.
  cbn [mbind outcome_bind hs_session]. unfold result_of. destruct (handshake_complete_ hs2); [|done].
  assert (transport_ready_ (established hs2) = true /\ handshake_ (established hs2) = hs2) as [-> ->]
    by (unfold established; by destruct (is_initiator_ hs2)).
  by rewrite identifier.
Qed.

Lemma consume_completes init received hs hs1 random :
  0 < zlen received <= 65535 -> read_message pf received 256 hs = Ret (hs1, OK, []) ->
  handshake_complete_ hs1 = true ->
  noise_consume pf received (going init hs random) = Ret (result_of init hs1 random []).
Proof.
  intros Hn Hr Hc. unfold noise_consume, step, going. cbn [hs_session random_ initiator_].
  unfold handshake_step. cbn [transport_ready_ handshake_ send_cipher_ recv_cipher_].
  rewrite (proj2 (Z.ltb_ge MAX_MESSAGE_SIZE _)) by (change MAX_MESSAGE_SIZE with 65535; lia).
  rewrite (proj2 (Z.ltb_lt 0 _)) by lia. rewrite Hr. cbn [mbind outcome_bind]. rewrite Hc.
  cbn [mbind outcome_bind]. rewrite Hc, split_ref by done. cbn [mbind outcome_bind].
  rewrite session_established. cbn [hs_session]. unfold result_of. rewrite Hc.
  assert (transport_ready_ (established hs1) = true /\ handshake_ (established hs1) = hs1) as [-> ->]
    by (unfold established; by destruct (is_initiator_ hs1)).
  by rewrite identifier.
Qed.

End Steps.

(** * The three messages *)

Module messages.
Section Handshake.
Context `{Agreement}.
Context (pa pb : platform) (Hpa : platform_ok pa) (Hpb : platform_ok pb).

(** Key pairs whose public key belongs to the private one. *)
Definition pair_ok (kp : NoiseKeyPair) : Prop :=
  has_keys kp = true /\ public_key kp = curve25519 (private_key kp) basepoint.

Context (sa sb : NoiseKeyPair) (Hsa : pair_ok sa) (Hsb : pair_ok sb) (ra rb : list byte).
Context (x0 : NoiseSymmetricState) (Hx0 : has_key (cipher_ x0) = false).

Definition ea : NoiseKeyPair := generate_keypair ra.
Definition eb : NoiseKeyPair := generate_keypair rb.
Definition dh (mine theirs : NoiseKeyPair) : list byte := curve25519 (private_key mine) (public_key theirs).
Definition heard (kp : NoiseKeyPair) : NoiseKeyPair := mkKeyPair (replicate 32 x00) (public_key kp) true.

(** The symmetric states after the tokens and after the messages. *)
Definition y1 : NoiseSymmetricState := sym_hash (public_key ea) x0.
Definition x1 : NoiseSymmetricState := sym_next [] y1.
Definition y2 : NoiseSymmetricState := sym_key (dh eb ea) (sym_hash (public_key eb) x1).
Definition y3 : NoiseSymmetricState := sym_key (dh sb ea) (sym_next (public_key sb) y2).
Definition x2 : NoiseSymmetricState := sym_next [] y3.
Definition y4 : NoiseSymmetricState := sym_key (dh sa eb) (sym_next (public_key sa) x2).
Definition x3 : NoiseSymmetricState := sym_next [] y4.

Definition message1 : list byte := public_key ea ++ sym_text [] y1.
Definition message2 : list byte := (public_key eb ++ sym_text (public_key sb) y2) ++ sym_text [] y3.
Definition message3 : list byte := sym_text (public_key sa) x2 ++ sym_text [] y4.

Definition a0 : NoiseHandshakeState := mkHandshake x0 sa no_keys no_keys no_keys true 0 false true.
Definition a1 : NoiseHandshakeState := mkHandshake x1 sa ea no_keys no_keys true 1 false true.
Definition a2 : NoiseHandshakeState := mkHandshake x2 sa ea (heard sb) (heard eb) true 2 false true.
Definition a3 : NoiseHandshakeState := mkHandshake x3 sa ea (heard sb) (heard eb) true 3 true true.
Definition b0 : NoiseHandshakeState := mkHandshake x0 sb no_keys no_keys no_keys false 0 false true.
Definition b1 : NoiseHandshakeState := mkHandshake x1 sb no_keys no_keys (heard ea) false 1 false true.
Definition b2 : NoiseHandshakeState := mkHandshake x2 sb eb no_keys (heard ea) false 2 false true.
Definition b3 : NoiseHandshakeState := mkHandshake x3 sb eb (heard sa) (heard ea) false 3 true true.

Lemma ea_ok : pair_ok ea.
Proof. done. Qed.
Lemma eb_ok : pair_ok eb.
Proof. done. Qed.

Lemma pair_length kp : pair_ok kp -> zlen (public_key kp) = 32.
Proof. intros [_ ->]. apply curve25519_length. Qed.

(** Both sides of an agreement. *)
Lemma dh_same k k' : pair_ok k -> pair_ok k' -> dh k k' = dh k' k.
Proof. intros [_ E] [_ E']. unfold dh. rewrite E, E'. apply curve25519_commutes. Qed.

Lemma sym_text_nil s : has_key (cipher_ s) = false -> sym_text [] s = [].
Proof. intros Hk. unfold sym_text, enc_text. by rewrite Hk. Qed.

Lemma zlen_sym_text p s : zlen (sym_text p s) = zlen p + if has_key (cipher_ s) then 16 else 0.
Proof. unfold sym_text, enc_text. destruct (has_key (cipher_ s)); [apply zlen_sealed|lia]. Qed.

Lemma y1_key : has_key (cipher_ y1) = false.
Proof. exact Hx0. Qed.
Lemma x1_key : has_key (cipher_ x1) = false.
Proof. unfold x1, sym_next, sym_hash, enc_next. cbn [cipher_]. by rewrite y1_key. Qed.
Lemma x2_key : has_key (cipher_ x2) = true.
Proof. done. Qed.

Lemma next_index_small (hs : NoiseHandshakeState) :
  0 <= message_index_ hs < 10 ->
  next_index hs = Ret (mkHandshake (symmetric_ hs) (s_ hs) (e_ hs) (rs_ hs) (re_ hs) (is_initiator_ hs)
                         (message_index_ hs + 1) (handshake_complete_ hs) (initialized_ hs)).
Proof. intros Hi. unfold next_index. destruct (Z.eqb_spec (message_index_ hs) (2 ^ 31 - 1)); [lia|done]. Qed.

Ltac fields := cbn [mbind outcome_bind symmetric_ s_ e_ rs_ re_ is_initiator_ message_index_ handshake_complete_ initialized_
  with_symmetric with_complete with_ephemeral with_remote heard has_keys private_key public_key no_keys negb
  Z.eqb Z.add Pos.add Pos.succ Pos.eqb].

Lemma y1_eq : sym_hash (public_key ea) x0 = y1.
Proof. done. Qed.

Lemma write_one : write_message pa ra [] MAX_MESSAGE_SIZE a0 = Ret (a1, OK, message1).
Proof.
  pose proof y1_eq as E1. pose proof y1_key as K1. unfold a0, a1, message1, x1. generalize dependent y1. intros y E1 K1.
  unfold write_message, write_tokens, write_e. fields.
  change (MAX_MESSAGE_SIZE <? DH_SIZE) with false. fields. rewrite mix_hash_ref by done. fields.
  fold ea. rewrite copy_out_fits by (rewrite (pair_length _ ea_ok); done). fields. rewrite E1, K1, (pair_length _ ea_ok).
  change (MAX_MESSAGE_SIZE <? 32 + zlen [] + 0) with false. cbv iota.
  rewrite encrypt_hash_ref by room. fields. rewrite next_index_small by (fields; lia). reflexivity.
Qed.

Lemma read_one : read_message pb message1 256 b0 = Ret (b1, OK, []).
Proof.
  pose proof y1_eq as E1. pose proof y1_key as K1. pose proof (pair_length _ ea_ok) as Hea.
  unfold b0, b1, message1, x1. generalize dependent y1. intros y E1 K1.
  unfold read_message, read_tokens, read_e. fields. rewrite sym_text_nil, app_nil_r by done.
  rewrite Hea. change (32 <? DH_SIZE) with false. fields.
  rewrite ztake_all by (rewrite Hea; done).
  rewrite mix_hash_ref by done. fields. change (DH_SIZE =? 0) with false. fields.
  rewrite zdrop_all by (rewrite Hea; done). rewrite E1.
  rewrite <- (sym_text_nil y K1) at 1. rewrite decrypt_hash_ref by done. fields.
  rewrite next_index_small by (fields; lia). reflexivity.
Qed.


(** The agreements as each side computes them. *)
Lemma y2_eq : sym_key (curve25519 (private_key eb) (public_key ea)) (sym_hash (public_key eb) x1) = y2.
Proof. done. Qed.
Lemma y2_eq' : sym_key (curve25519 (private_key ea) (public_key eb)) (sym_hash (public_key eb) x1) = y2.
Proof. unfold y2. by rewrite (dh_same eb ea eb_ok ea_ok). Qed.
Lemma y3_eq : sym_key (curve25519 (private_key sb) (public_key ea)) (sym_next (public_key sb) y2) = y3.
Proof. done. Qed.
Lemma y3_eq' : sym_key (curve25519 (private_key ea) (public_key sb)) (sym_next (public_key sb) y2) = y3.
Proof. unfold y3. by rewrite (dh_same sb ea Hsb ea_ok). Qed.
Lemma y4_eq : sym_key (curve25519 (private_key sa) (public_key eb)) (sym_next (public_key sa) x2) = y4.
Proof. done. Qed.
Lemma y4_eq' : sym_key (curve25519 (private_key eb) (public_key sa)) (sym_next (public_key sa) x2) = y4.
Proof. unfold y4. by rewrite (dh_same sa eb Hsa eb_ok). Qed.
Lemma y2_key : has_key (cipher_ y2) = true.
Proof. done. Qed.
Lemma y3_key : has_key (cipher_ y3) = true.
Proof. done. Qed.
Lemma y4_key : has_key (cipher_ y4) = true.
Proof. done. Qed.

(** The states are variables in the proofs about the messages: only these facts count. *)
Lemma write_two : write_message pb rb [] MAX_MESSAGE_SIZE b1 = Ret (b2, OK, message2).
Proof.
  pose proof y2_eq as E2. pose proof y3_eq as E3. pose proof y2_key as K2. pose proof y3_key as K3.
  pose proof (pair_length _ Hsb) as Hlb. pose proof (pair_length _ eb_ok) as Heb.
  unfold b1, b2, message2, x2. generalize dependent y3. generalize dependent y2. generalize x1. intros x y E2 K2 y' E3 K3.
  unfold write_message, write_tokens, write_e, write_s. fields.
  change (MAX_MESSAGE_SIZE <? DH_SIZE + DH_SIZE + NOISE_TAG_SIZE) with false. fields.
  rewrite mix_hash_ref by done. fields. fold eb. rewrite copy_out_fits by (rewrite Heb; done). fields.
  rewrite mix_dh_ref by done. fields. rewrite E2, encrypt_hash_ref by (done || (rewrite ?Heb, Hlb; room)). fields.
  rewrite mix_dh_ref by done. fields. rewrite E3, K3. cbv iota.
  rewrite zlen_app, zlen_sym_text, Heb, Hlb, K2. cbv iota.
  change (MAX_MESSAGE_SIZE <? 32 + (32 + 16) + zlen [] + NOISE_TAG_SIZE) with false. cbv iota.
  rewrite encrypt_hash_ref by room. fields. rewrite next_index_small by (fields; lia). reflexivity.
Qed.

Lemma read_two : read_message pa message2 256 a1 = Ret (a2, OK, []).
Proof.
  pose proof y2_eq' as E2. pose proof y3_eq' as E3. pose proof y2_key as K2. pose proof y3_key as K3.
  pose proof (pair_length _ eb_ok) as Heb. pose proof (pair_length _ Hsb) as Hlb.
  assert (zlen (sym_text (public_key sb) y2) = 48) as H48 by (rewrite zlen_sym_text, Hlb, K2; done).
  assert (zlen (sym_text [] y3) = 16) as H16 by (rewrite zlen_sym_text, K3; done).
  unfold a1, a2, message2, x2. generalize dependent y3. generalize dependent y2. generalize x1.
  intros x y E2 K2 H48 y' E3 K3 H16. unfold read_message, read_tokens, read_e, read_s. fields. rewrite <- !app_assoc.
  rewrite !zlen_app, Heb, H48, H16. change (32 + (48 + 16) <? DH_SIZE) with false. fields.
  rewrite ztake_app by done. rewrite mix_hash_ref by done. fields. change (DH_SIZE =? 0) with false. fields.
  rewrite mix_dh_ref by done. fields. rewrite zdrop_app by done. rewrite E2, K2. cbv iota.
  change (DH_SIZE + NOISE_TAG_SIZE) with 48. rewrite zlen_app, H48, H16. change (48 + 16 <? 48) with false. cbv iota.
  rewrite ztake_app by done. rewrite decrypt_hash_ref by (rewrite ?Hlb; done). fields. rewrite Hlb.
  change (32 =? DH_SIZE) with true. fields. change (48 =? 0) with false. cbv iota. rewrite mix_dh_ref by done. fields. rewrite E3.
  replace (zdrop (DH_SIZE + 48) _) with (sym_text [] y')
    by (rewrite app_assoc; symmetry; apply zdrop_app; rewrite zlen_app, Heb, H48; done).
  rewrite decrypt_hash_ref by done. fields. rewrite next_index_small by (fields; lia). reflexivity.
Qed.

Lemma write_three : write_message pa ra [] MAX_MESSAGE_SIZE a2 = Ret (a3, OK, message3).
Proof.
  pose proof x2_key as Hx. pose proof y4_key as Hy. pose proof y4_eq as Ey.
  unfold a2, a3, message3, x3. generalize dependent y4. generalize dependent x2. intros x Hx y Hy Ey.
  unfold write_message, write_tokens, write_s. fields.
  change (MAX_MESSAGE_SIZE <? DH_SIZE + NOISE_TAG_SIZE) with false. fields.
  rewrite encrypt_hash_ref by (done || (rewrite (pair_length _ Hsa); room)). fields. rewrite mix_dh_ref by done. fields.
  rewrite Ey, Hy. cbv iota.
  rewrite zlen_sym_text, (pair_length _ Hsa), Hx. change (MAX_MESSAGE_SIZE <? 32 + 16 + zlen [] + NOISE_TAG_SIZE) with false.
  cbv iota. rewrite encrypt_hash_ref by room. fields. rewrite next_index_small by (fields; lia). reflexivity.
Qed.

Lemma read_three : read_message pb message3 256 b2 = Ret (b3, OK, []).
Proof.
  pose proof x2_key as Hx. pose proof y4_key as Hy. pose proof y4_eq' as Ey. pose proof (pair_length _ Hsa) as Hla.
  assert (zlen (sym_text (public_key sa) x2) = 48) as H48 by (rewrite zlen_sym_text, Hla, Hx; done).
  assert (zlen (sym_text [] y4) = 16) as H16 by (rewrite zlen_sym_text, Hy; done).
  unfold b2, b3, message3, x3. generalize dependent y4. generalize dependent x2. intros x Hx H48 y Hy Ey H16.
  unfold read_message, read_tokens, read_s. fields. rewrite Hx. cbv iota.
  change (DH_SIZE + NOISE_TAG_SIZE) with 48. rewrite zlen_app, H48, H16. change (48 + 16 <? 48) with false. cbv iota.
  rewrite ztake_app by done. rewrite decrypt_hash_ref by (rewrite ?Hla; done). fields. rewrite Hla.
  change (32 =? DH_SIZE) with true. fields. change (48 =? 0) with false. cbv iota. rewrite mix_dh_ref by done. fields.
  rewrite Ey. rewrite zdrop_app by done. rewrite decrypt_hash_ref by done. fields.
  rewrite next_index_small by (fields; lia). reflexivity.
Qed.

(** ** The exchange *)

Lemma message_lengths : zlen message1 = 32 /\ zlen message2 = 96 /\ zlen message3 = 64.
Proof.
  unfold message1, message2, message3. rewrite !zlen_app, !zlen_sym_text.
  rewrite (pair_length _ ea_ok), (pair_length _ eb_ok), (pair_length _ Hsa), (pair_length _ Hsb).
  rewrite y1_key, x2_key, y2_key, y3_key, y4_key. done.
Qed.

Lemma start_a : noise_start pa (going true a0 ra) = Ret (Some (going true a1 ra, message1)).
Proof.
  unfold noise_start. cbn [going initiator_ negb]. fold (going true a0 ra).
  by rewrite (step_writes pa Hpa true [] a0 a0 a1 ra message1) by (done || apply write_one).
Qed.

Lemma consume_b1 : noise_consume pb message1 (going false b0 rb) = Ret (going false b2 rb, NeedMore, message2).
Proof.
  destruct message_lengths as (L & _).
  apply (consume_writes pb Hpb false message1 b0 b1 b2); [by rewrite L|rewrite L; apply read_one|done|apply write_two].
Qed.

Lemma consume_a2 : noise_consume pa message2 (going true a1 ra) = Ret (result_of true a3 ra message3).
Proof.
  destruct message_lengths as (_ & L & _).
  apply (consume_writes pa Hpa true message2 a1 a2 a3); [by rewrite L|rewrite L; apply read_two|done|apply write_three].
Qed.

Lemma consume_b3 : noise_consume pb message3 (going false b2 rb) = Ret (result_of false b3 rb []).
Proof.
  destruct message_lengths as (_ & _ & L).
  apply (consume_completes pb Hpb false message3 b2 b3); [rewrite L; done|apply read_three|done].
Qed.

End Handshake.
End messages.
