(* ===== verification/NoiseSession.v ===== *)
(** The Noise sessions and handshakers as instances of the security interface, and what they
    give the transport: after the handshake the two sessions pair in both directions. *)

From S2P Require Import Prelude Words Interfaces Frame PeerId Security Connection Transport Sha256 Sha256Proofs Hkdf.
From S2P Require Import ChaCha ChaChaStream ChaChaPoly ChaChaPolyProofs Noise NoiseProofs NoiseHandshake.
Import noise.

#[local] Opaque sha256_ref hkdf.noise_hkdf sealed opened.

(** * The instances

    The interface has no place for undefined behaviour; that none occurs is part of the
    theorems below. *)

Section Instances.
Context `{Agreement} (pf : platform).

Definition or_fail {A} (m : outcome (option A)) : option A := match m with Ret r => r | _ => None end.

Definition noise_session : Session NoiseSessionAdapter := {|
  encrypt a plain := or_fail (adapter_encrypt pf a plain);
  decrypt a cipher := or_fail (adapter_decrypt pf a cipher);
  is_secure _ := true;
|}.

(** [NoiseSecurity::create] for an identity, a prologue and the randomness of one connection. *)
Definition noise_provider (ident : Identity) (prologue random : list byte)
  : SecurityProvider NoiseHandshaker NoiseSessionAdapter := {|
  create role :=
    match new_handshaker pf ident (bool_decide (role = Outbound)) prologue random with
    | Ret hk => hk
    | _ => mkNoiseHandshaker None false []
    end;
  hs_start hk := or_fail (noise_start pf hk);
  hs_consume hk incoming :=
    match noise_consume pf incoming hk with
    | Ret r => r
    | _ => (hk, Failed, [])
    end;
|}.

End Instances.

(** * Sessions that pair *)

Section Pair.
Context `{Agreement} (pf : platform) (Hpf : platform_ok pf).

Definition keyed (ns : NoiseSession) : Prop :=
  transport_ready_ ns = true /\ has_key (send_cipher_ ns) = true /\ has_key (recv_cipher_ ns) = true.

(** What [a] sends [b] receives, at the same nonce. *)
Definition one_way (a b : NoiseSessionAdapter) : Prop :=
  keyed (session_ a) /\ keyed (session_ b) /\ send_cipher_ (session_ a) = recv_cipher_ (session_ b).

Definition after_send (a : NoiseSessionAdapter) : NoiseSessionAdapter :=
  mkAdapter (mkNoiseSession (handshake_ (session_ a)) (bump_nonce (send_cipher_ (session_ a)))
               (recv_cipher_ (session_ a)) (transport_ready_ (session_ a))) (noise_remote_id a).
Definition after_receive (b : NoiseSessionAdapter) : NoiseSessionAdapter :=
  mkAdapter (mkNoiseSession (handshake_ (session_ b)) (send_cipher_ (session_ b))
               (bump_nonce (recv_cipher_ (session_ b))) (transport_ready_ (session_ b))) (noise_remote_id b).

Lemma adapter_encrypt_ref a plain :
  keyed (session_ a) -> zlen plain < 2 ^ 32 ->
  let c := send_cipher_ (session_ a) in
  adapter_encrypt pf a plain = Ret (Some (after_send a, sealed (ckey c) (make_nonce (nonce_ c)) [] plain)).
Proof.
  intros (Hr & Hk & _) Hn c. fold c in Hk. unfold adapter_encrypt, session_encrypt. rewrite Hr. cbn [negb].
  rewrite encrypt_ref by (unfold NOISE_TAG_SIZE; room). cbn [mbind outcome_bind]. unfold enc_text, enc_next. fold c. rewrite Hk. cbn [mbind outcome_bind].
  rewrite zlen_sealed. pose proof (zlen_nonneg plain). rewrite (proj2 (Z.eqb_neq (_ + 16) 0)) by lia.
  unfold after_send. by rewrite Hr.
Qed.

Lemma adapter_decrypt_ref b cipher :
  keyed (session_ b) -> zlen cipher < 2 ^ 32 ->
  let c := recv_cipher_ (session_ b) in
  adapter_decrypt pf b cipher
  = Ret (match opened (ckey c) (make_nonce (nonce_ c)) [] cipher with
         | Some plain => Some (after_receive b, plain)
         | None => None
         end).
Proof.
  intros (Hr & _ & Hk) Hn c. fold c in Hk. unfold adapter_decrypt, session_decrypt, NOISE_TAG_SIZE.
  destruct (Z.ltb_spec (zlen cipher) 16) as [Hlt|_]; [by rewrite opened_short|].
  rewrite Hr. cbn [negb]. rewrite decrypt_ref by room. fold c. rewrite Hk.
  unfold after_receive. rewrite Hr. by destruct (opened _ _ _ _).
Qed.

#[local] Existing Instance noise_session.

Lemma one_way_step a b plain a' cipher :
  one_way a b -> zlen plain <= framer.kMaxBlockSize -> or_fail (adapter_encrypt pf a plain) = Some (a', cipher) ->
  zlen cipher <= zlen plain + 16
  /\ exists b', or_fail (adapter_decrypt pf b cipher) = Some (b', plain) /\ one_way a' b'.
Proof.
  intros (Ka & Kb & E) Hn. change framer.kMaxBlockSize with 67108864 in Hn.
  rewrite adapter_encrypt_ref by (done || lia). cbn [or_fail]. intros [= <- <-].
  rewrite zlen_sealed. split; [lia|]. exists (after_receive b).
  rewrite adapter_decrypt_ref by (done || rewrite zlen_sealed; lia). cbn [or_fail]. rewrite E, opened_sealed.
  split; [done|].
  destruct Ka as (? & ? & ?), Kb as (? & ? & ?). unfold one_way, keyed. cbn. rewrite <- E. by split_and!.
Qed.

Lemma one_way_send a b b' plain cipher :
  one_way a b -> or_fail (adapter_encrypt pf b plain) = Some (b', cipher) -> one_way a b'.
Proof.
  intros (Ka & Kb & E). unfold adapter_encrypt, session_encrypt, encrypt_with_ad.
  destruct Kb as (Hr & Hk & Hk'). rewrite Hr, Hk. cbn [negb].
  destruct (build_encrypt _ _ _ _ _ _ _ _ _ _ _) as [[result mem]| |]; cbn [mbind outcome_bind or_fail]; try done.
  destruct (_ && _); cbn [or_fail]; [done|]. intros [= <- _].
  destruct Ka as (? & ? & ?). unfold one_way, keyed. cbn. by destruct (0 <? result); split_and!.
Qed.

#[program] Definition noise_pair : @SessionPair NoiseSessionAdapter (noise_session pf) := {|
  paired := one_way;
  max_overhead := 16;
|}.
Next Obligation. done. Qed.
Next Obligation. apply one_way_step. Qed.
Next Obligation. apply one_way_send. Qed.

End Pair.

(** * The handshake *)

(** An identity as [Identity::generate] builds it. *)
Definition identity_ok `{Agreement} (pf : platform) (ident : Identity) : Prop :=
  messages.pair_ok (static_keypair ident) /\ identity_of pf (static_keypair ident) = Ret ident.

Section Exchange.
Context `{Agreement} (pa pb : platform) (Hpa : platform_ok pa) (Hpb : platform_ok pb).

(** The symmetric state both sides start from. *)
Definition opening (prologue : list byte) : NoiseSymmetricState :=
  sym_hash prologue (mkSymmetric PROTOCOL_NAME PROTOCOL_NAME no_cipher).

Lemma opening_name pf s :
  initialize_symmetric pf PROTOCOL_NAME s = Ret (mkSymmetric PROTOCOL_NAME PROTOCOL_NAME (cipher_ s)).
Proof. reflexivity. Qed.

Lemma new_handshaker_ref pf ident init prologue random :
  platform_ok pf -> has_keys (static_keypair ident) = true ->
  new_handshaker pf ident init prologue random
  = Ret (going init (mkHandshake (opening prologue) (static_keypair ident) no_keys no_keys no_keys init 0 false true) random).
Proof.
  intros Hpf Hk. unfold new_handshaker, start_session, initialize. rewrite opening_name. unfold opening.
  generalize PROTOCOL_NAME. intros name. cbn [mbind outcome_bind]. rewrite mix_hash_ref by done.
  cbn [mbind outcome_bind]. by rewrite Hk.
Qed.

Lemma identity_ok_id pf ident : platform_ok pf -> identity_ok pf ident -> id ident = sha256_ref (public_key (static_keypair ident)).
Proof.
  intros Hpf [_ E]. unfold identity_of in E. rewrite identifier in E by done. cbn [mbind outcome_bind] in E.
  injection E as E. by rewrite <- E.
Qed.

(** C24: the Noise XX handshake. Two identities with the same prologue exchange the three
    messages through their handshakers, without undefined behaviour on either side and
    whatever the build and its uninitialised memory: each side completes with the other
    side's identity, and the two sessions pair in both directions, each with the key and
    the nonce the other one uses. *)
Theorem noise_handshake (ia ib : Identity) (prologue ra rb : list byte)
    (Hia : identity_ok pa ia) (Hib : identity_ok pb ib) :
  exists ha hb m1 ha1 m2 hb1 m3 A B,
    new_handshaker pa ia true prologue ra = Ret ha /\ new_handshaker pb ib false prologue rb = Ret hb
    /\ noise_start pa ha = Ret (Some (ha1, m1)) /\ noise_start pb hb = Ret (Some (hb, []))
    /\ noise_consume pb m1 hb = Ret (hb1, NeedMore, m2)
    /\ noise_consume pa m2 ha1 = Ret (mkNoiseHandshaker None true ra, Done A (id ib), m3)
    /\ noise_consume pb m3 hb1 = Ret (mkNoiseHandshaker None false rb, Done B (id ia), [])
    /\ one_way A B /\ one_way B A /\ noise_remote_id A = id ib /\ noise_remote_id B = id ia.
Proof.
  pose proof (identity_ok_id _ _ Hpa Hia) as Ia. pose proof (identity_ok_id _ _ Hpb Hib) as Ib.
  destruct Hia as [Ka _], Hib as [Kb _].
  pose proof (messages.start_a pa Hpa (static_keypair ia) ra (opening prologue) eq_refl) as S1.
  pose proof (messages.consume_b1 pb Hpb (static_keypair ia) (static_keypair ib) Ka Kb ra rb (opening prologue) eq_refl) as S2.
  pose proof (messages.consume_a2 pa Hpa (static_keypair ia) (static_keypair ib) Ka Kb ra rb (opening prologue) eq_refl) as S3.
  pose proof (messages.consume_b3 pb Hpb (static_keypair ia) (static_keypair ib) Ka Kb ra rb (opening prologue) eq_refl) as S4.
  do 9 eexists. split_and!.
  - apply new_handshaker_ref; [done|apply Ka].
  - apply new_handshaker_ref; [done|apply Kb].
  - exact S1.
  - done.
  - exact S2.
  - rewrite Ib. exact S3.
  - rewrite Ia. exact S4.
  - done.
  - done.
  - by rewrite Ib.
  - by rewrite Ia.
Qed.

End Exchange.

(** * Any input *)

Section AnyInput.
Context `{Agreement} (pf : platform) (Hpf : platform_ok pf).

(** At most [k] messages later, with the keys at their lengths. *)
Definition keys_ok (hs : NoiseHandshakeState) : Prop :=
  zlen (public_key (s_ hs)) = 32 /\ zlen (public_key (e_ hs)) = 32.
Definition later (k : Z) (hs hs' : NoiseHandshakeState) : Prop :=
  (keys_ok hs -> keys_ok hs') /\ message_index_ hs <= message_index_ hs' <= message_index_ hs + k.

Lemma later_trans j k hs1 hs2 hs3 : later j hs1 hs2 -> later k hs2 hs3 -> later (j + k) hs1 hs3.
Proof. intros (E & ?) (E' & ?). split; [by auto|lia]. Qed.

Lemma later_1 hs hs' : later 0 hs hs' -> later 1 hs hs'.
Proof. intros (? & ?). split; [done|lia]. Qed.

Lemma later_fields hs hs' :
  message_index_ hs' = message_index_ hs -> s_ hs' = s_ hs -> e_ hs' = e_ hs -> later 0 hs hs'.
Proof. intros Ei Es Ee. unfold later, keys_ok. rewrite Ei, Es, Ee. split; [done|lia]. Qed.

Lemma zlen_zdrop_le n (l : list byte) : zlen (zdrop n l) <= zlen l.
Proof. unfold zlen, zdrop. rewrite length_drop. lia. Qed.

Lemma decrypt_hash_returns ct cap s : zlen ct < 2 ^ 32 -> returns (decrypt_and_hash pf ct cap s) (fun _ => True).
Proof.
  intros Hc. unfold decrypt_and_hash. destruct (Z.ltb_spec cap
    (if has_key (cipher_ s) then if NOISE_TAG_SIZE <=? zlen ct then zlen ct - NOISE_TAG_SIZE else 0 else zlen ct)) as [|Hcap]; [done|].
  rewrite mix_hash_ref by done. cbn [mbind outcome_bind]. rewrite decrypt_ref; [|done..|].
  2:{ unfold tag_len. cbn [sym_hash cipher_]. unfold NOISE_TAG_SIZE in *. destruct (has_key (cipher_ s)); [|lia].
      destruct (Z.leb_spec 16 (zlen ct)); lia. } cbn [mbind outcome_bind]. cbn [sym_hash cipher_]. by destruct (has_key (cipher_ s)); [destruct (opened _ _ _ _)|].
Qed.

Lemma mix_dh_later j q hs : returns (mix_dh pf j q hs) (later 0 hs).
Proof. rewrite mix_dh_ref by done. by apply later_fields. Qed.

Lemma write_e_later cap random hs :
  keys_ok hs -> 32 <= cap -> returns (write_e pf cap random hs) (fun r => later 0 hs r.1 /\ zlen r.2 = 32).
Proof.
  intros [Hs He] Hcap. unfold write_e. rewrite mix_hash_ref by done. cbn [mbind outcome_bind].
  destruct (has_keys (e_ hs)).
  - rewrite copy_out_fits by (cbn [with_symmetric e_]; lia). by split; [apply later_fields|].
  - pose proof (messages.pair_length _ (messages.ea_ok random)) as Hl.
    cbn [with_ephemeral e_]. rewrite copy_out_fits by (etrans; [|exact Hcap]; apply Z.eq_le_incl, Hl).
    split; [|exact Hl]. split; [|cbn; lia]. intros _. by split.
Qed.

Lemma write_s_later cap hs :
  keys_ok hs -> 48 <= cap -> returns (write_s pf cap hs) (fun r => later 0 hs r.1 /\ zlen r.2 <= 48).
Proof.
  intros [Hs He] Hcap. unfold write_s. rewrite encrypt_hash_ref by (done || (rewrite Hs; room)). cbn [mbind outcome_bind returns fst snd].
  split; [by apply later_fields|]. rewrite messages.zlen_sym_text. destruct (has_key _); lia.
Qed.

Lemma read_e_later input hs :
  returns (read_e pf input hs) (fun r => later 0 hs r.1 /\ 0 <= r.2).
Proof.
  unfold read_e. destruct (zlen input <? DH_SIZE); [by split; [apply later_fields|]|].
  rewrite mix_hash_ref by done. by split; [apply later_fields|].
Qed.

Lemma read_s_later input hs : returns (read_s pf input hs) (fun r => later 0 hs r.1 /\ 0 <= r.2).
Proof.
  unfold read_s. set (n := DH_SIZE + _). assert (32 <= n <= 48) as Hn
    by (unfold n, DH_SIZE, NOISE_TAG_SIZE; destruct (has_key _); lia). clearbody n.
  destruct (Z.ltb_spec (zlen input) n); [by split; [apply later_fields|]|].
  eapply returns_bind; [apply decrypt_hash_returns; rewrite zlen_ztake; lia|]. intros [s key] _.
  destruct key as [key|]; [|by split; [apply later_fields|]].
  destruct (zlen key =? DH_SIZE); (split; [by apply later_fields|cbn; lia]).
Qed.

Lemma write_tokens_later random max_len hs :
  keys_ok hs -> returns (write_tokens pf random max_len hs) (fun r => later 0 hs r.1).
Proof.
  intros Hk. unfold write_tokens, DH_SIZE, NOISE_TAG_SIZE.
  destruct (is_initiator_ hs); [destruct (message_index_ hs =? 0); [|destruct (message_index_ hs =? 2)]|
    destruct (message_index_ hs =? 1)]; try by apply later_fields.
  - destruct (Z.ltb_spec max_len 32); [by apply later_fields|].
    eapply returns_bind; [by apply write_e_later|]. by intros [hs1 out] [].
  - destruct (Z.ltb_spec max_len (32 + 16)); [by apply later_fields|].
    eapply returns_bind; [by apply write_s_later|]. intros [hs1 out] [L1 _].
    eapply returns_bind; [by apply mix_dh_later|]. intros hs2 L2.
    apply (later_trans 0 0 _ hs2); [by apply (later_trans 0 0 _ hs1)|by apply later_fields].
  - destruct (Z.ltb_spec max_len (32 + 32 + 16)); [by apply later_fields|].
    eapply returns_bind; [apply write_e_later; [done|lia]|]. intros [hs1 out] [L1 Hout]. cbn [fst snd] in *.
    eapply returns_bind; [by apply mix_dh_later|]. intros hs2 L2.
    pose proof (later_trans 0 0 _ _ _ L1 L2) as L12.
    eapply returns_bind; [apply write_s_later; [by apply L12|lia]|]. intros [hs3 out3] [L3 _].
    eapply returns_bind; [by apply mix_dh_later|]. intros hs4 L4.
    apply (later_trans 0 0 _ hs2); [done|by apply (later_trans 0 0 _ hs3)].
Qed.

Lemma read_tokens_later message hs :
  returns (read_tokens pf message hs) (fun r => later 0 hs r.1 /\ match r.2 with Some n => 0 <= n | None => True end).
Proof.
  unfold read_tokens.
  destruct (is_initiator_ hs); [destruct (message_index_ hs =? 1)|
    destruct (message_index_ hs =? 0); [|destruct (message_index_ hs =? 2)]]; try by split; [apply later_fields|].
  - eapply returns_bind; [by apply read_e_later|]. intros [hs1 n] [L1 Hn]. destruct (n =? 0); [done|].
    eapply returns_bind; [by apply mix_dh_later|]. intros hs2 L2.
    pose proof (later_trans 0 0 _ _ _ L1 L2) as L12.
    eapply returns_bind; [by apply read_s_later|]. intros [hs3 n'] [L3 Hn']. cbn [fst snd] in *.
    pose proof (later_trans 0 0 _ _ _ L12 L3) as L13. destruct (n' =? 0); [done|].
    eapply returns_bind; [by apply mix_dh_later|]. intros hs4 L4.
    split; [by apply (later_trans 0 0 _ hs3)|cbn; lia].
  - eapply returns_bind; [by apply read_e_later|]. intros [hs1 n] [L1 Hn]. by destruct (n =? 0).
  - eapply returns_bind; [by apply read_s_later|]. intros [hs1 n] [L1 Hn]. destruct (n =? 0); [done|].
    eapply returns_bind; [by apply mix_dh_later|]. intros hs2 L2. cbn [fst snd] in *.
    split; [|done]. apply (later_trans 0 0 _ hs2); [by apply (later_trans 0 0 _ hs1)|by apply later_fields].
Qed.

Lemma next_index_later hs : message_index_ hs < 2 ^ 31 - 1 -> returns (next_index hs) (later 1 hs).
Proof.
  intros Hi. unfold next_index. destruct (Z.eqb_spec (message_index_ hs) (2 ^ 31 - 1)); [lia|].
  split; [done|cbn; lia].
Qed.

Lemma write_message_later random hs :
  keys_ok hs -> message_index_ hs < 2 ^ 31 - 1 ->
  returns (write_message pf random [] MAX_MESSAGE_SIZE hs) (fun r => later 1 hs r.1.1).
Proof.
  intros Hk Hi. assert (later 1 hs hs) as Hself by (split; [done|lia]). unfold write_message.
  destruct (negb _); [done|]. destruct (handshake_complete_ hs); [done|].
  eapply returns_bind; [by apply write_tokens_later|]. intros [hs1 [out|]] L1; cbn [fst snd] in *; [|by apply later_1].
  destruct (Z.ltb_spec MAX_MESSAGE_SIZE
    (zlen out + zlen (@nil byte) + (if has_key (cipher_ (symmetric_ hs1)) then NOISE_TAG_SIZE else 0))) as [|Hroom]; [by apply later_1|].
  rewrite encrypt_hash_ref by (done || (unfold tag_len, NOISE_TAG_SIZE in *; lia)). cbn [mbind outcome_bind].
  eapply returns_bind; [apply next_index_later; destruct L1; cbn; lia|]. intros hs2 L2.
  apply (later_trans 0 1 _ hs1); [done|]. eapply (later_trans 0 1); [|exact L2]. by apply later_fields.
Qed.

Lemma read_message_later message hs :
  zlen message <= 65535 -> message_index_ hs < 2 ^ 31 - 1 ->
  returns (read_message pf message 256 hs) (fun r => later 1 hs r.1.1).
Proof.
  intros Hm Hi. assert (later 1 hs hs) as Hself by (split; [done|lia]). unfold read_message.
  destruct (negb _); [done|]. destruct (handshake_complete_ hs); [done|].
  eapply returns_bind; [by apply read_tokens_later|]. intros [hs1 [n|]] [L1 Hn]; cbn [fst snd] in *;
    [|by apply later_1].
  eapply returns_bind; [apply decrypt_hash_returns; pose proof (zlen_zdrop_le n message); lia|]. intros [s [p|]] _.
  2:{ apply later_1, (later_trans 0 0 _ hs1); [done|]. by apply later_fields. }
  eapply returns_bind; [apply next_index_later; destruct L1; cbn; lia|]. intros hs2 L2.
  apply (later_trans 0 1 _ hs1); [done|]. eapply (later_trans 0 1); [|exact L2]. by apply later_fields.
Qed.

(** A handshaker that has its session and has seen at most [n] blocks. *)
Definition running (n : Z) (hk : NoiseHandshaker) : Prop :=
  exists ns, hs_session hk = Some ns /\ transport_ready_ ns = false
  /\ keys_ok (handshake_ ns) /\ 0 <= message_index_ (handshake_ ns) <= 2 * n.

Lemma handshake_step_later random received ns :
  transport_ready_ ns = false -> keys_ok (handshake_ ns) -> message_index_ (handshake_ ns) < 2 ^ 31 - 2 ->
  zlen received <= 65535 ->
  returns (handshake_step pf random received MAX_MESSAGE_SIZE ns) (fun r => later 2 (handshake_ ns) (handshake_ r.1.1)).
Proof.
  intros Hr Hk Hi Hn. unfold handshake_step. rewrite Hr.
  eapply (returns_bind _ _ (fun r => later 1 (handshake_ ns) r.1.1)).
  { destruct (0 <? zlen received); [apply read_message_later; lia|]. split; [done|cbn; lia]. }
  intros [[hs1 err] p] L1. cbn [fst] in L1.
  assert (later 2 (handshake_ ns) hs1) as L1' by (destruct L1; split; [done|lia]).
  destruct err; try done.
  eapply (returns_bind _ _ (fun r => later 1 hs1 r.1)).
  { destruct (handshake_complete_ hs1); [by split; [|cbn; lia]|].
    eapply returns_bind; [apply write_message_later; destruct L1; [by auto|lia]|]. by intros [[hs2 e] m] L2. }
  intros [hs2 sent] L2. pose proof (later_trans 1 1 _ _ _ L1 L2) as L. cbn [fst] in L.
  destruct (handshake_complete_ hs2) eqn:Hc; [|done]. rewrite split_ref by done. done.
Qed.

Lemma noise_consume_running n incoming hk :
  running n hk -> 0 <= n < 2 ^ 30 - 1 ->
  returns (noise_consume pf incoming hk) (fun r => match r.1.2 with NeedMore => running (n + 1) r.1.1 | _ => True end).
Proof.
  intros (ns & Es & Hr & Hk & Hi) Hn. unfold noise_consume, step.
  destruct (Z.ltb_spec MAX_MESSAGE_SIZE (zlen incoming)) as [|Hlen]; [done|]. rewrite Es.
  change MAX_MESSAGE_SIZE with 65535 in Hlen.
  pose proof (handshake_step_later (random_ hk) incoming ns Hr Hk ltac:(lia) Hlen) as Hstep.
  apply returns_inv in Hstep as ([[ns1 err] sent] & -> & L). cbn [mbind outcome_bind fst] in *.
  destruct err; cbn [mbind outcome_bind hs_session]; try done.
  destruct (transport_ready_ ns1) eqn:Hr1; [by rewrite identifier|].
  exists ns1. split_and!; [done..|by apply L|destruct L; lia|destruct L; lia].
Qed.

(** The blocks of a peer, until the handshake is over one way or the other. *)
Fixpoint consume_all (blocks : list (list byte)) (hk : NoiseHandshaker) : outcome (HsStatus NoiseSessionAdapter) :=
  match blocks with
  | [] => Ret NeedMore
  | block :: blocks =>
      '(hk, status, _) ← noise_consume pf block hk;
      match status with
      | NeedMore => consume_all blocks hk
      | status => Ret status
      end
  end.

Lemma consume_all_running blocks n hk :
  running n hk -> 0 <= n -> n + zlen blocks < 2 ^ 30 - 1 -> returns (consume_all blocks hk) (fun _ => True).
Proof.
  revert n hk. induction blocks as [|block blocks IH]; intros n hk R Hn Hb; [done|]. rewrite zlen_cons in Hb.
  pose proof (zlen_nonneg blocks). cbn [consume_all]. eapply returns_bind; [apply (noise_consume_running n); [done|lia]|].
  intros [[hk1 st] out] Hst. cbn [fst snd] in Hst. destruct st; [|done..]. apply (IH (n + 1)); [done|lia..].
Qed.

(** C25: no input breaks the Noise handshaker. Whatever blocks a peer sends to a handshaker
    of either role (fewer than a billion of them), of whatever size and content, every call
    returns: no read or write outside a buffer, no other undefined behaviour and no
    exhausted memory, in every build and for every content of uninitialised memory. *)
Theorem noise_any_input (ident : Identity) (init : bool) (prologue random : list byte) (blocks : list (list byte))
    (Hid : messages.pair_ok (static_keypair ident)) (Hblocks : zlen blocks < 1000000000) :
  returns (hk ← new_handshaker pf ident init prologue random;
           started ← noise_start pf hk;
           match started with
           | Some (hk, _) => consume_all blocks hk
           | None => Ret Failed
           end) (fun _ => True).
Proof.
  rewrite new_handshaker_ref by (done || apply Hid). cbn [mbind outcome_bind].
  pose proof (messages.pair_length _ Hid) as Hs. destruct init.
  - pose proof (messages.start_a pf Hpf (static_keypair ident) random (opening prologue) eq_refl) as E.
    unfold messages.a0 in E. rewrite E. cbn [mbind outcome_bind].
    apply (consume_all_running _ 1); [|lia..]. eexists. split_and!; [done..| |done|done].
    split; [done|]. apply messages.pair_length, messages.ea_ok.
  - cbn [noise_start going initiator_ negb mbind outcome_bind].
    apply (consume_all_running _ 0); [|lia..]. eexists. by split_and!.
Qed.

End AnyInput.

(** * Single blocks *)

Section Blocks.
Context `{Agreement} (pa pb : platform) (Hpa : platform_ok pa) (Hpb : platform_ok pb).

(** C26: a session accepts the next block of its peer and nothing else. When [a] sends to [b],
    a block decrypts to a plaintext exactly if it is the block into which [a] encrypts that
    plaintext now; every other block is refused, and leaves no session behind. *)
Theorem noise_next_block (a b : NoiseSessionAdapter) (plain cipher : list byte)
    (Hp : one_way a b) (Hplain : zlen plain <= framer.kMaxBlockSize) (Hcipher : zlen cipher <= framer.kMaxBlockSize + 16) :
  adapter_decrypt pb b cipher = Ret (Some (after_receive b, plain))
  <-> adapter_encrypt pa a plain = Ret (Some (after_send a, cipher)).
Proof.
  destruct Hp as (Ka & Kb & E). change framer.kMaxBlockSize with 67108864 in *.
  rewrite adapter_encrypt_ref, adapter_decrypt_ref by (done || lia). rewrite E.
  set (c := recv_cipher_ (session_ b)). split.
  - destruct (opened _ _ _ _) as [p|] eqn:Eo; [|done]. intros [= ->]. apply opened_exact in Eo. by rewrite Eo.
  - intros [= <-]. by rewrite opened_sealed.
Qed.

(** The handshake state of an initiator that was sent one empty block. *)
Definition skipped (ident : Identity) (prologue random : list byte) : NoiseHandshakeState :=
  mkHandshake (sym_next [] (messages.x1 random (opening prologue))) (static_keypair ident) (messages.ea random)
    no_keys no_keys true 2 false true.

Lemma write_skipped ident prologue random :
  write_message pa random [] MAX_MESSAGE_SIZE (messages.a1 (static_keypair ident) random (opening prologue))
  = Ret (skipped ident prologue random, OK, []).
Proof.
  unfold messages.a1, skipped. pose proof (messages.x1_key random (opening prologue) eq_refl) as K.
  generalize dependent (messages.x1 random (opening prologue)). intros x K.
  unfold write_message, write_tokens. cbn [initialized_ handshake_complete_ is_initiator_ message_index_ negb Z.eqb Pos.eqb mbind outcome_bind symmetric_].
  rewrite K, encrypt_hash_ref by room. cbn [mbind outcome_bind]. rewrite messages.sym_text_nil by done.
  rewrite messages.next_index_small by (cbn; lia). reflexivity.
Qed.

(** Its handshake state after the second one: the only agreement is with 32 zero bytes. *)
Definition unauthenticated (ident : Identity) (prologue random : list byte) : NoiseSymmetricState :=
  sym_key (curve25519 (private_key (static_keypair ident)) (replicate 32 x00))
    (sym_next (public_key (static_keypair ident)) (symmetric_ (skipped ident prologue random))).
Definition bypassed (ident : Identity) (prologue random : list byte) : NoiseHandshakeState :=
  mkHandshake (sym_next [] (unauthenticated ident prologue random)) (static_keypair ident) (messages.ea random)
    no_keys no_keys true 3 true true.

Lemma write_bypassed ident prologue random :
  zlen (public_key (static_keypair ident)) = 32 ->
  write_message pa random [] MAX_MESSAGE_SIZE (skipped ident prologue random)
  = Ret (bypassed ident prologue random, OK,
         public_key (static_keypair ident) ++ sym_text [] (unauthenticated ident prologue random)).
Proof.
  intros Hl. unfold bypassed. assert (has_key (cipher_ (unauthenticated ident prologue random)) = true) as K by done.
  assert (has_key (cipher_ (symmetric_ (skipped ident prologue random))) = false) as K0.
  { unfold skipped. cbn [symmetric_ sym_next sym_hash cipher_ enc_next]. unfold enc_next.
    rewrite messages.x1_key by done. by apply messages.x1_key. }
  unfold unauthenticated in *. unfold skipped in *. cbn [symmetric_] in *.
  generalize dependent (sym_next [] (messages.x1 random (opening prologue))). intros x K K0.
  unfold write_message, write_tokens, write_s.
  cbn [initialized_ handshake_complete_ is_initiator_ message_index_ negb Z.eqb Pos.eqb symmetric_ s_].
  change (MAX_MESSAGE_SIZE <? DH_SIZE + NOISE_TAG_SIZE) with false. cbv iota.
  rewrite encrypt_hash_ref by (done || (rewrite Hl; room)). cbn [mbind outcome_bind with_symmetric s_ re_ no_keys public_key]. rewrite mix_dh_ref by done.
  cbn [mbind outcome_bind with_symmetric with_complete symmetric_]. rewrite K. cbv iota.
  assert (sym_text (public_key (static_keypair ident)) x = public_key (static_keypair ident)) as ->
    by (unfold sym_text, enc_text; by rewrite K0).
  rewrite Hl. change (MAX_MESSAGE_SIZE <? 32 + zlen [] + NOISE_TAG_SIZE) with false. cbv iota.
  rewrite encrypt_hash_ref by room. cbn [mbind outcome_bind]. rewrite messages.next_index_small by (cbn; lia). reflexivity.
Qed.

(** two empty blocks complete the handshake of an initiator. [handshake_step] reads only
    a block that is not empty, and writes in any case: after its first message the initiator
    answers one empty block by moving on, and a second one by sending its static public key
    in the clear and completing, with the hash of 32 zero bytes as the identity of a peer
    that has proved nothing, and with keys that come from its agreement with 32 zero bytes. *)
Theorem noise_empty_blocks (ident : Identity) (prologue random : list byte)
    (Hid : messages.pair_ok (static_keypair ident)) :
  exists hk hk1 m1 hk2 tag,
    new_handshaker pa ident true prologue random = Ret hk
    /\ noise_start pa hk = Ret (Some (hk1, m1))
    /\ noise_consume pa [] hk1 = Ret (hk2, NeedMore, [])
    /\ noise_consume pa [] hk2
       = Ret (mkNoiseHandshaker None true random,
              Done (mkAdapter (established (bypassed ident prologue random)) (sha256_ref (replicate 32 x00)))
                (sha256_ref (replicate 32 x00)),
              public_key (static_keypair ident) ++ tag).
Proof.
  set (hs := messages.a1 (static_keypair ident) random (opening prologue)).
  exists (going true (messages.a0 (static_keypair ident) (opening prologue)) random), (going true hs random).
  eexists. exists (going true (skipped ident prologue random) random). eexists. split_and!.
  - apply new_handshaker_ref; [done|apply Hid].
  - by apply (messages.start_a pa Hpa).
  - by apply (consume_writes pa Hpa true [] hs hs (skipped ident prologue random)); [| | |apply write_skipped].
  - apply (consume_writes pa Hpa true [] (skipped ident prologue random) (skipped ident prologue random)
             (bypassed ident prologue random)); [done..|]. by apply write_bypassed, messages.pair_length.
Qed.

End Blocks.

(** * Concrete parties

    An agreement with the two laws (multiplication modulo 2^256), a vectorised 64-bit build
    and a plain 32-bit one with different garbage in their memory. *)

#[refine] Definition sample_agreement : Agreement := {|
  curve25519 k q := le_enc 32 ((le_dec k * le_dec q) mod 2 ^ 256);
  basepoint := le_enc 32 9;
|}.
Proof.
  - intros k q. by rewrite zlen_le_enc.
  - intros j k. rewrite !le_dec_enc. change (8 * Z.of_nat 32) with 256. f_equal.
    rewrite !Z.mod_mod, !Z.mul_mod_idemp_r by done. f_equal. lia.
Defined.
#[local] Existing Instance sample_agreement.

Definition fast_platform : platform := mkPlatform (mkBuild true true) (replicate 64 x00) (replicate 16 x00) (replicate 64 x00).
Definition plain_platform : platform := mkPlatform (mkBuild false false) (replicate 64 xff) (replicate 16 xff) (replicate 64 xff).

Definition sample_identity (random : list byte) : Identity :=
  let kp := generate_keypair random in mkIdentity kp (sha256_ref (public_key kp)).

Lemma sample_identity_ok pf random :
  platform_ok pf -> identity_ok pf (sample_identity random).
Proof. intros Hpf. split; [done|]. unfold identity_of. by rewrite identifier. Qed.

Lemma noise_handshake_witness :
  let ia := sample_identity (replicate 32 x07) in
  let ib := sample_identity (replicate 32 x09) in
  let ra := replicate 32 x11 in
  let rb := replicate 32 x22 in
  exists ha hb m1 ha1 m2 hb1 m3 A B,
    new_handshaker fast_platform ia true [x70] ra = Ret ha /\ new_handshaker plain_platform ib false [x70] rb = Ret hb
    /\ noise_start fast_platform ha = Ret (Some (ha1, m1))
    /\ noise_start plain_platform hb = Ret (Some (hb, []))
    /\ noise_consume plain_platform m1 hb = Ret (hb1, NeedMore, m2)
    /\ noise_consume fast_platform m2 ha1 = Ret (mkNoiseHandshaker None true ra, Done A (id ib), m3)
    /\ noise_consume plain_platform m3 hb1 = Ret (mkNoiseHandshaker None false rb, Done B (id ia), [])
    /\ one_way A B /\ one_way B A /\ noise_remote_id A = id ib /\ noise_remote_id B = id ia.
Proof.
  apply (noise_handshake fast_platform plain_platform); [done..| |]; by apply sample_identity_ok.
Defined.

Lemma noise_any_input_witness :
  returns (hk ← new_handshaker fast_platform (sample_identity (replicate 32 x07)) false [x70] [];
           started ← noise_start fast_platform hk;
           match started with
           | Some (hk, _) => consume_all fast_platform [[]; [x01]; replicate 40 xff] hk
           | None => Ret Failed
           end) (fun _ => True).
Proof. by apply noise_any_input. Defined.

Definition sample_session (send recv : list byte) : NoiseSessionAdapter :=
  mkAdapter (mkNoiseSession (new_handshake) (initialize_key send) (initialize_key recv) true) [].

Lemma noise_next_block_witness :
  let a := sample_session (replicate 32 x01) (replicate 32 x02) in
  let b := sample_session (replicate 32 x02) (replicate 32 x01) in
  adapter_decrypt plain_platform b (replicate 18 x00) = Ret (Some (after_receive b, [x68; x69]))
  <-> adapter_encrypt fast_platform a [x68; x69] = Ret (Some (after_send a, replicate 18 x00)).
Proof. by apply noise_next_block. Defined.

Lemma noise_empty_blocks_witness :
  let ident := sample_identity (replicate 32 x07) in
  exists hk hk1 m1 hk2 tag,
    new_handshaker fast_platform ident true [x70] [x01] = Ret hk
    /\ noise_start fast_platform hk = Ret (Some (hk1, m1))
    /\ noise_consume fast_platform [] hk1 = Ret (hk2, NeedMore, [])
    /\ noise_consume fast_platform [] hk2
       = Ret (mkNoiseHandshaker None true [x01],
              Done (mkAdapter (established (bypassed ident [x70] [x01])) (sha256_ref (replicate 32 x00)))
                (sha256_ref (replicate 32 x00)),
              public_key (static_keypair ident) ++ tag).
Proof. by apply noise_empty_blocks. Defined.
