(* ===== verification/Lookup.v ===== *)
(** Iterative DHT lookups ([dht/traversal.{h,cpp}], [dht/find_peers.{h,cpp}],
    [dht/announce.{h,cpp}]) over the manager of outstanding queries
    ([dht/rpc_manager.{h,cpp}], [dht/observer.h]), with the liveness pings of [dht/node.cpp]
    as its other user.

    Observers live in a store that only grows; a pointer to one is its position. Calls that
    leave the lookup (datagrams, reports to the routing table, callbacks) are logged in order:
    nothing they return is used. Random transaction ids, the iteration order of the table of
    outstanding queries and the clock are arguments. *)

From S2P Require Import Prelude PeerId Address DhtId Bencode Krpc RoutingTable.
Import dht_id.

Module lookup.

(** * Observers *)

Inductive Flag := kQueried | kAlive | kFailed | kShortTimeout | kInitial | kDone.
Definition bit (f : Flag) : Z :=
  match f with kQueried => 0 | kAlive => 1 | kFailed => 2 | kShortTimeout => 3 | kInitial => 4 | kDone => 5 end.

(** A [FindPeersObserver] of the lookup or a [PingObserver]. *)
Inductive Kind := InLookup | IsPing.

Record Observer := mkObserver { kind : Kind; oid : NodeId; oep : Address; flags : Z; txn : Z }.

Definition has (f : Flag) (o : Observer) : bool := Z.testbit (flags o) (bit f).
Definition set_flag (f : Flag) (o : Observer) : Observer :=
  mkObserver (kind o) (oid o) (oep o) (Z.setbit (flags o) (bit f)) (txn o).
Definition set_txn (t : Z) (o : Observer) : Observer := mkObserver (kind o) (oid o) (oep o) (flags o) t.
Definition set_oid (i : NodeId) (o : Observer) : Observer := mkObserver (kind o) i (oep o) (flags o) (txn o).

(** Sent, not answered, not given up and not abandoned. *)
Definition in_flight (o : Observer) : bool :=
  has kQueried o && negb (has kAlive o) && negb (has kFailed o) && negb (has kDone o).

Record Pending := mkPending { p_obs : nat; p_endpoint : Address; p_sent : Z }.

(** What leaves the lookup. *)
Inductive Effect :=
| SendTo (to : Address) (data : list byte)
| NodeSeen (i : NodeId) (ep : Address) (rtt : Z) (verified : bool)
| HeardAbout (i : NodeId) (ep : Address) (verified : bool)
| NodeFailed (i : NodeId) (ep : Address)
| OnPeers (fresh : list Address)
| OnDone (all : list Address).

(** The fixed part: the node, the target, the family to ask for, the announced port, the
    presence of callbacks, the transaction ids drawn and the order in which the table of
    outstanding queries is visited. *)
Record Config := mkConfig {
  self_ : NodeId; target_ : NodeId; want_ : list (list byte);
  announce_ : option (Z * bool);
  on_peers_ : bool; on_done_ : bool;
  draws : nat -> Z;
  order : gmap Z Pending -> list Z;
}.

Record State := mkState {
  pending_ : gmap Z Pending; drawn : nat;
  store : list Observer;
  results_ : list nat; sorted_ : Z;
  branch_factor_ : Z; invoke_count_ : Z; done_ : bool;
  subnet4_ : gset Z; subnet6_ : gset Z;
  tokens_ : gmap NodeId (list byte); peers_ : list Address;
  log : list Effect;
}.

Definition kMaxResults : Z := 100.
Definition kShortTimeout_ns : Z := 2000 * 1000000.
Definition kFullTimeout_ns : Z := 15000 * 1000000.

Definition new_state : State := mkState ∅ 0 [] [] 0 kAlpha 0 false ∅ ∅ ∅ [] [].

Definition set_pending (m : gmap Z Pending) (s : State) : State :=
  mkState m (drawn s) (store s) (results_ s) (sorted_ s) (branch_factor_ s) (invoke_count_ s) (done_ s)
    (subnet4_ s) (subnet6_ s) (tokens_ s) (peers_ s) (log s).
Definition set_drawn (n : nat) (s : State) : State :=
  mkState (pending_ s) n (store s) (results_ s) (sorted_ s) (branch_factor_ s) (invoke_count_ s) (done_ s)
    (subnet4_ s) (subnet6_ s) (tokens_ s) (peers_ s) (log s).
Definition set_store (l : list Observer) (s : State) : State :=
  mkState (pending_ s) (drawn s) l (results_ s) (sorted_ s) (branch_factor_ s) (invoke_count_ s) (done_ s)
    (subnet4_ s) (subnet6_ s) (tokens_ s) (peers_ s) (log s).
Definition set_results (l : list nat) (n : Z) (s : State) : State :=
  mkState (pending_ s) (drawn s) (store s) l n (branch_factor_ s) (invoke_count_ s) (done_ s)
    (subnet4_ s) (subnet6_ s) (tokens_ s) (peers_ s) (log s).
Definition set_counts (branch count : Z) (s : State) : State :=
  mkState (pending_ s) (drawn s) (store s) (results_ s) (sorted_ s) branch count (done_ s)
    (subnet4_ s) (subnet6_ s) (tokens_ s) (peers_ s) (log s).
Definition set_done (s : State) : State :=
  mkState (pending_ s) (drawn s) (store s) (results_ s) (sorted_ s) (branch_factor_ s) (invoke_count_ s) true
    (subnet4_ s) (subnet6_ s) (tokens_ s) (peers_ s) (log s).
Definition set_subnets (n4 n6 : gset Z) (s : State) : State :=
  mkState (pending_ s) (drawn s) (store s) (results_ s) (sorted_ s) (branch_factor_ s) (invoke_count_ s) (done_ s)
    n4 n6 (tokens_ s) (peers_ s) (log s).
Definition set_found (toks : gmap NodeId (list byte)) (ps : list Address) (s : State) : State :=
  mkState (pending_ s) (drawn s) (store s) (results_ s) (sorted_ s) (branch_factor_ s) (invoke_count_ s) (done_ s)
    (subnet4_ s) (subnet6_ s) toks ps (log s).
Definition emit (e : Effect) (s : State) : State :=
  mkState (pending_ s) (drawn s) (store s) (results_ s) (sorted_ s) (branch_factor_ s) (invoke_count_ s) (done_ s)
    (subnet4_ s) (subnet6_ s) (tokens_ s) (peers_ s) (log s ++ [e]).

(** Dereferencing a pointer to an observer, and changing what it points to. *)
Definition obs_at (n : nat) (s : State) : outcome Observer :=
  match store s !! n with Some o => Ret o | None => UB end.
Definition update (n : nat) (f : Observer -> Observer) (s : State) : State :=
  set_store (alter f n (store s)) s.

Section Lookup.
Context (cfg : Config).

(** * The manager of outstanding queries *)

Definition txn_to_string (t : Z) : list byte := [byte_of (Z.land (Z.shiftr t 8) 255); byte_of (Z.land t 255)].
Definition string_to_txn (s : list byte) : option Z :=
  match s with
  | [a; b] => Some (u16 (Z.lor (Z.shiftl (u8 a) 8) (u8 b)))
  | _ => None
  end.

Fixpoint draw_loop (tries : nat) (s : State) : Z * State :=
  let t := u16 (draws cfg (drawn s)) in
  let s := set_drawn (S (drawn s)) s in
  match tries with
  | O => (t, s)
  | S tries => if decide (pending_ s !! t = None) then (t, s) else draw_loop tries s
  end.
Definition next_txn (s : State) : Z * State := draw_loop (Z.to_nat 65536) s.

Definition with_txn (t : Z) (m : krpc.KrpcMessage) : krpc.KrpcMessage :=
  krpc.mkMessage (krpc.type m) (txn_to_string t) (krpc.query_type m) (krpc.sender_id m) (krpc.target_id m)
    (krpc.info_hash m) (krpc.port m) (krpc.implied_port m) (krpc.token m) (krpc.want m) (krpc.response_id m)
    (krpc.nodes m) (krpc.peers m) (krpc.external_ip m) (krpc.external_port m) (krpc.error_code m) (krpc.error_message m).

Definition encoded (m : krpc.KrpcMessage) : list byte := default [] (krpc.encode_message m).

(** [RpcManager::invoke] for the observer [n]. *)
Definition rpc_invoke (m : krpc.KrpcMessage) (to : Address) (n : nat) (now : Z) (s : State) : bool * State :=
  let '(t, s) := next_txn s in
  match encoded (with_txn t m) with
  | [] => (false, s)
  | data =>
      let s := emit (SendTo to data) s in
      let s := update n (set_txn t) s in
      (true, set_pending (<[t := mkPending n to now]> (pending_ s)) s)
  end.

Definition send_oneshot (m : krpc.KrpcMessage) (to : Address) (s : State) : State :=
  let '(t, s) := next_txn s in
  match encoded (with_txn t m) with
  | [] => s
  | data => emit (SendTo to data) s
  end.

(** [RpcManager::cancel]. *)
Definition cancel (n : nat) (s : State) : outcome State :=
  o ← obs_at n s;
  match pending_ s !! txn o with
  | Some p => if bool_decide (p_obs p = n) then Ret (set_pending (delete (txn o) (pending_ s)) s) else Ret s
  | None => Ret s
  end.

(** * The candidates *)

(** [make_observer]: the new observer and its address. *)
Definition make_observer (k : Kind) (i : NodeId) (ep : Address) (s : State) : nat * State :=
  (length (store s), set_store (store s ++ [mkObserver k i ep 0 0]) s).

(** [std::lower_bound], which requires a partitioned range. *)
Fixpoint prefix_len {A} (p : A -> bool) (l : list A) : nat :=
  match l with
  | x :: l => if p x then S (prefix_len p l) else O
  | [] => O
  end.
Definition lower_bound {A} (p : A -> bool) (l : list A) : outcome nat :=
  let n := prefix_len p l in
  if existsb p (drop n l) then UB else Ret n.

(** The observers a list of pointers points to. *)
Fixpoint deref (l : list nat) (s : State) : outcome (list Observer) :=
  match l with
  | [] => Ret []
  | n :: l => o ← obs_at n s; os ← deref l s; Ret (o :: os)
  end.

(** The place of an id among the sorted candidates, and the candidate already there. *)
Definition find_place (i : NodeId) (s : State) : outcome (nat * option Observer) :=
  if (sorted_ s <? 0) || (zlen (results_ s) <? sorted_ s) then UB
  else
    os ← deref (ztake (sorted_ s) (results_ s)) s;
    pos ← lower_bound (fun o => closer_to (oid o) i (target_ cfg)) os;
    Ret (pos, os !! pos).

(** Abandoning a candidate past the cutoff. *)
Definition release (n : nat) (s : State) : outcome State :=
  o ← obs_at n s;
  if in_flight o then
    let s := update n (set_flag kDone) s in
    let count := if 0 <? invoke_count_ s then invoke_count_ s - 1 else invoke_count_ s in
    let branch := if has kShortTimeout o && (kAlpha <? branch_factor_ s) then branch_factor_ s - 1 else branch_factor_ s in
    cancel n (set_counts branch count s)
  else Ret s.

Fixpoint each (f : nat -> State -> outcome State) (l : list nat) (s : State) : outcome State :=
  match l with
  | [] => Ret s
  | n :: l => s ← f n s; each f l s
  end.

Definition truncate (s : State) : outcome State :=
  if kMaxResults <? zlen (results_ s) then
    s ← each release (zdrop kMaxResults (results_ s)) s;
    Ret (set_results (ztake kMaxResults (results_ s)) (Z.min (sorted_ s) kMaxResults) s)
  else Ret s.

(** True if the block of the address is taken already. *)
Definition register_subnet (ep : Address) (s : State) : bool * State :=
  if negb (bep42.is_public_address (ip ep)) then (false, s)
  else
    let b := ip_address.bytes (ip ep) in
    if bool_decide (family (ip ep) = V6) then
      let prefix := foldl (fun p x => Z.lor (u64 (Z.shiftl p 8)) (u8 x)) 0 (ztake 8 b) in
      (bool_decide (prefix ∈ subnet6_ s), set_subnets (subnet4_ s) ({[prefix]} ∪ subnet6_ s) s)
    else
      let at_ i := u8 (default x00 (b !! i)) in
      let prefix := Z.lor (Z.lor (Z.shiftl (at_ 0%nat) 24) (Z.shiftl (at_ 1%nat) 16)) (Z.shiftl (at_ 2%nat) 8) in
      (bool_decide (prefix ∈ subnet4_ s), set_subnets ({[prefix]} ∪ subnet4_ s) (subnet6_ s) s).

Definition insert_at {A} (pos : nat) (x : A) (l : list A) : list A := take pos l ++ x :: drop pos l.

Definition add_entry (i : NodeId) (ep : Address) (s : State) : outcome State :=
  if done_ s then Ret s
  else
    '(pos, there) ← find_place i s;
    if (match there with Some o => bool_decide (oid o = i) | None => false end) then Ret s
    else
      let '(taken, s) := register_subnet ep s in
      if taken then Ret s
      else
        let '(n, s) := make_observer InLookup i ep s in
        truncate (set_results (insert_at pos n (results_ s)) (sorted_ s + 1) s).

(** A seed whose id is not known. *)
Definition add_seed (ep : Address) (s : State) : State :=
  if done_ s then s
  else
    let '(n, s) := make_observer InLookup zero_id ep s in
    let s := update n (set_flag kInitial) s in
    set_results (results_ s ++ [n]) (sorted_ s) s.

(** * Queries *)

Definition invoke (n : nat) (now : Z) (s : State) : outcome (bool * State) :=
  o ← obs_at n s;
  let m := krpc.create_get_peers_query [] (self_ cfg) (target_ cfg) in
  let m := krpc.mkMessage (krpc.type m) (krpc.transaction_id m) (krpc.query_type m) (krpc.sender_id m) (krpc.target_id m)
    (krpc.info_hash m) (krpc.port m) (krpc.implied_port m) (krpc.token m) (want_ cfg) (krpc.response_id m)
    (krpc.nodes m) (krpc.peers m) (krpc.external_ip m) (krpc.external_port m) (krpc.error_code m) (krpc.error_message m) in
  Ret (rpc_invoke m (oep o) n now s).

(** The loop of [add_requests]: the number of fresh queries it met or sent. *)
Fixpoint request_loop (l : list nat) (alive_needed fresh : Z) (now : Z) (s : State) : outcome (Z * State) :=
  match l with
  | [] => Ret (fresh, s)
  | n :: l =>
      if alive_needed <=? 0 then Ret (fresh, s)
      else
        o ← obs_at n s;
        if has kAlive o then request_loop l (alive_needed - 1) fresh now s
        else if has kFailed o || has kDone o then request_loop l alive_needed fresh now s
        else if has kQueried o then
          request_loop l alive_needed (if has kShortTimeout o then fresh else fresh + 1) now s
        else if branch_factor_ s <=? invoke_count_ s then request_loop l alive_needed fresh now s
        else
          '(ok, s) ← invoke n now (update n (set_flag kQueried) s);
          if (ok : bool) then
            request_loop l alive_needed (fresh + 1) now (set_counts (branch_factor_ s) (invoke_count_ s + 1) s)
          else request_loop l alive_needed fresh now (update n (set_flag kFailed) s)
  end.

Definition add_requests (now : Z) (s : State) : outcome (bool * State) :=
  if done_ s then Ret (true, s)
  else
    '(fresh, s) ← request_loop (results_ s) kBucketSize 0 now s;
    Ret (fresh =? 0, s).

(** * Completion *)

(** [Announce::on_complete]: the loop over the candidates, then the callback. *)
Fixpoint announce_loop (l : list nat) (port : Z) (implied : bool) (announced : Z) (s : State) : outcome State :=
  match l with
  | [] => Ret s
  | n :: l =>
      if kBucketSize <=? announced then Ret s
      else
        o ← obs_at n s;
        if negb (has kAlive o) then announce_loop l port implied announced s
        else
          match tokens_ s !! oid o with
          | None => announce_loop l port implied announced s
          | Some token =>
              let m := krpc.create_announce_peer_query [] (self_ cfg) (target_ cfg) port token implied in
              announce_loop l port implied (announced + 1) (send_oneshot m (oep o) s)
          end
  end.

Definition on_complete (s : State) : outcome State :=
  s ← match announce_ cfg with
      | Some (port, implied) => announce_loop (results_ s) port implied 0 s
      | None => Ret s
      end;
  Ret (if on_done_ cfg then emit (OnDone (peers_ s)) s else s).

Definition abandon (n : nat) (s : State) : outcome State :=
  o ← obs_at n s;
  if in_flight o then cancel n (update n (set_flag kDone) s) else Ret s.

Definition finish (s : State) : outcome State :=
  if done_ s then Ret s
  else
    s ← each abandon (results_ s) (set_done s);
    on_complete s.

(** [Traversal::~Traversal]. *)
Definition detach (n : nat) (s : State) : outcome State :=
  o ← obs_at n s;
  if has kQueried o && negb (has kAlive o) && negb (has kFailed o) then cancel n s else Ret s.
Definition destroy (s : State) : outcome State := each detach (results_ s) s.

(** [if (add_requests(now)) finish();] *)
Definition proceed (now : Z) (s : State) : outcome State :=
  '(complete, s) ← add_requests now s;
  if (complete : bool) then finish s else Ret s.

(** * What happens to a query *)

Definition verified (i : NodeId) (ep : Address) : bool := bep42.verify_node_id_for_ip i (ip ep).

Definition free_slot (o : Observer) (s : State) : State :=
  let branch := if has kShortTimeout o && (kAlpha <? branch_factor_ s) then branch_factor_ s - 1 else branch_factor_ s in
  let count := if 0 <? invoke_count_ s then invoke_count_ s - 1 else invoke_count_ s in
  set_counts branch count s.

Definition on_responded (n : nat) (rtt now : Z) (s : State) : outcome State :=
  if done_ s then Ret s
  else
    o ← obs_at n s;
    let s := free_slot o s in
    proceed now (emit (NodeSeen (oid o) (oep o) rtt (verified (oid o) (oep o))) s).

Definition on_failed (n : nat) (short_timeout : bool) (now : Z) (s : State) : outcome State :=
  if done_ s then Ret s
  else
    o ← obs_at n s;
    if has kDone o || has kAlive o || has kFailed o then Ret s
    else if short_timeout then
      proceed now
        (if has kShortTimeout o then s
         else set_counts (branch_factor_ s + 1) (invoke_count_ s) (update n (set_flag kShortTimeout) s))
    else
      let s := free_slot o (update n (set_flag kFailed) s) in
      proceed now (if has kInitial o then s else emit (NodeFailed (oid o) (oep o)) s).

Definition traverse (i : NodeId) (ep : Address) (s : State) : outcome State :=
  if done_ s then Ret s
  else add_entry i ep (emit (HeardAbout i ep (verified i ep)) s).

Fixpoint traverse_all (ns : list KrpcNode) (s : State) : outcome State :=
  match ns with
  | [] => Ret s
  | k :: ns => s ← traverse (Krpc.id k) (mkAddress (node_ip k) (node_port k)) s; traverse_all ns s
  end.

Definition resort_result (n : nat) (s : State) : outcome State :=
  if done_ s then Ret s
  else
    match list_find (eq n) (results_ s) with
    | None => Ret s
    | Some (at_, _) =>
        let sorted := if Z.of_nat at_ <? sorted_ s then sorted_ s - 1 else sorted_ s in
        let s := set_results (delete at_ (results_ s)) sorted s in
        o ← obs_at n s;
        '(pos, _) ← find_place (oid o) s;
        Ret (set_results (insert_at pos n (results_ s)) (sorted_ s + 1) s)
    end.

Definition got_peers (ps : list Address) (s : State) : State :=
  let '(all, fresh) := foldl (fun '(all, fresh) p =>
      if bool_decide (p ∈ all) then (all, fresh) else (all ++ [p], fresh ++ [p])) (peers_ s, []) ps in
  let s := set_found (tokens_ s) all s in
  match fresh with
  | [] => s
  | _ => if on_peers_ cfg then emit (OnPeers fresh) s else s
  end.

Definition got_token (i : NodeId) (token : list byte) (s : State) : State :=
  match token with
  | [] => s
  | _ => match tokens_ s !! i with
         | Some _ => s
         | None => set_found (<[i := token]> (tokens_ s)) (peers_ s) s
         end
  end.

Definition parse_reply (m : krpc.KrpcMessage) (s : State) : State :=
  let s := match krpc.token m with [] => s | token => got_token (krpc.response_id m) token s end in
  match krpc.peers m with [] => s | ps => got_peers ps s end.

(** [TraversalObserver::on_response]. *)
Definition lookup_response (n : nat) (m : krpc.KrpcMessage) (rtt now : Z) (s : State) : outcome State :=
  o ← obs_at n s;
  if has kDone o || has kAlive o then Ret s
  else if done_ s then Ret s
  else
    let s := update n (set_flag kAlive) s in
    s ← (if has kInitial o && negb (bool_decide (krpc.response_id m = zero_id))
         then resort_result n (update n (set_oid (krpc.response_id m)) s)
         else Ret s);
    s ← traverse_all (krpc.nodes m) (parse_reply m s);
    on_responded n rtt now s.

(** * Dispatch *)

Definition on_response (n : nat) (m : krpc.KrpcMessage) (rtt now : Z) (s : State) : outcome State :=
  o ← obs_at n s;
  match kind o with
  | InLookup => lookup_response n m rtt now s
  | IsPing => Ret (emit (NodeSeen (krpc.response_id m) (oep o) rtt (verified (krpc.response_id m) (oep o))) s)
  end.
Definition on_timeout (n : nat) (now : Z) (s : State) : outcome State :=
  o ← obs_at n s;
  match kind o with
  | InLookup => on_failed n false now s
  | IsPing => Ret (emit (NodeFailed (oid o) (oep o)) s)
  end.
Definition on_short_timeout (n : nat) (now : Z) (s : State) : outcome State :=
  o ← obs_at n s;
  match kind o with
  | InLookup => on_failed n true now s
  | IsPing => Ret s
  end.

(** [RpcManager::handle_response]; times are in nanoseconds. *)
Definition handle_response (m : krpc.KrpcMessage) (from : Address) (now : Z) (s : State) : outcome (bool * State) :=
  match string_to_txn (krpc.transaction_id m) with
  | None => Ret (false, s)
  | Some t =>
      match pending_ s !! t with
      | None => Ret (false, s)
      | Some p =>
          if negb (bool_decide (p_endpoint p = from)) then Ret (false, s)
          else
            let elapsed := Z.quot (now - p_sent p) 1000000 in
            let rtt := if elapsed <? 0 then 0 else if 65534 <? elapsed then 65534 else elapsed in
            let s := set_pending (delete t (pending_ s)) s in
            s ← match krpc.type m with
                | Error => on_timeout (p_obs p) now s
                | _ => on_response (p_obs p) m rtt now s
                end;
            Ret (true, s)
      end
  end.

(** The queries past their timeouts, in the order of the table. *)
Fixpoint overdue (l : list Z) (now : Z) (s : State) : outcome (list nat * list nat) :=
  match l with
  | [] => Ret ([], [])
  | t :: l =>
      match pending_ s !! t with
      | None => overdue l now s
      | Some p =>
          o ← obs_at (p_obs p) s;
          '(shorts, fulls) ← overdue l now s;
          if kFullTimeout_ns <=? now - p_sent p then Ret (shorts, p_obs p :: fulls)
          else if (kShortTimeout_ns <=? now - p_sent p) && negb (has kShortTimeout o) then Ret (p_obs p :: shorts, fulls)
          else Ret (shorts, fulls)
      end
  end.

Definition rpc_tick (now : Z) (s : State) : outcome State :=
  '(shorts, fulls) ← overdue (order cfg (pending_ s)) now s;
  s ← each (fun n => on_short_timeout n now) shorts s;
  each (fun n s => s ← cancel n s; on_timeout n now s) fulls s.

(** [Node::ping]. *)
Definition ping (i : NodeId) (ep : Address) (now : Z) (s : State) : State :=
  let '(n, s) := make_observer IsPing i ep s in
  snd (rpc_invoke (krpc.create_ping_query [] (self_ cfg)) ep n now s).

(** [Traversal::start] with what the routing table's [find_closest] returned. *)
Fixpoint add_closest (closest : list NodeEntry) (s : State) : outcome State :=
  match closest with
  | [] => Ret s
  | e :: closest => s ← add_entry (RoutingTable.id e) (endpoint e) s; add_closest closest s
  end.
Definition start (closest : list NodeEntry) (now : Z) (s : State) : outcome State :=
  s ← add_closest closest s;
  proceed now s.

(** * Histories *)

Inductive Event :=
| Reply (m : krpc.KrpcMessage) (from : Address) (now : Z)
| Tick (now : Z)
| PingOut (i : NodeId) (ep : Address) (now : Z).

Definition step (e : Event) (s : State) : outcome State :=
  match e with
  | Reply m from now => '(_, s) ← handle_response m from now s; Ret s
  | Tick now => rpc_tick now s
  | PingOut i ep now => Ret (ping i ep now s)
  end.

Fixpoint run (es : list Event) (s : State) : outcome State :=
  match es with
  | [] => Ret s
  | e :: es => s ← step e s; run es s
  end.

(** A lookup from its seeds and the closest contacts of the table. *)
Definition begin (seeds : list Address) (closest : list NodeEntry) (now : Z) (s : State) : outcome State :=
  start closest now (foldl (fun s ep => add_seed ep s) s seeds).

End Lookup.
End lookup.
