(* ===== verification/LookupInvariant.v ===== *)
(** The invariant of a DHT lookup: its candidates and their order, its counters, and the
    correspondence between queries in flight and the table of outstanding queries. *)

From S2P Require Import Prelude PeerId Address DhtId Bencode Krpc RoutingTable Lookup.
Import dht_id lookup.

#[global] Instance Flag_eq_dec : EqDecision Flag.
Proof. solve_decision. Defined.

(** * Flags *)

Lemma has_set f g o : has f (set_flag g o) = bool_decide (f = g) || has f o.
Proof.
  unfold has, set_flag. cbn [flags]. rewrite Z.setbit_eqb by (destruct g; cbn; lia).
  f_equal. by destruct f, g.
Qed.
Lemma has_set_txn f t o : has f (set_txn t o) = has f o.
Proof. done. Qed.
Lemma has_set_oid f i o : has f (set_oid i o) = has f o.
Proof. done. Qed.
Lemma has_new f k i ep : has f (mkObserver k i ep 0 0) = false.
Proof. unfold has. cbn [flags]. apply Z.testbit_0_l. Qed.
Create Rewrite HintDb flags.
#[export] Hint Rewrite has_set has_set_txn has_set_oid has_new : flags.

(** In flight within and past the short timeout, and not yet queried. *)
Definition fresh (o : Observer) : bool := in_flight o && negb (has kShortTimeout o).
Definition stale (o : Observer) : bool := in_flight o && has kShortTimeout o.
Definition idle (o : Observer) : bool :=
  negb (has kQueried o) && negb (has kAlive o) && negb (has kFailed o) && negb (has kDone o).

Definition b2z (b : bool) : Z := if b then 1 else 0.

(** Case analysis on flags. *)
Ltac by_flags :=
  unfold fresh, stale, idle, in_flight in *; autorewrite with flags in *;
  repeat match goal with
    | H : context [has ?f ?o] |- _ => lazymatch type of H with has f o = _ => fail | _ => let E := fresh "E" in destruct (has f o) eqn:E end
    | |- context [has ?f ?o] => let E := fresh "E" in destruct (has f o) eqn:E
    end; cbn in *; try done; try congruence; try lia.

(** * Counting candidates *)

Definition tally (P : Observer -> bool) (st : list Observer) (l : list nat) : Z :=
  foldr (fun n k => (match st !! n with Some o => b2z (P o) | None => 0 end) + k) 0 l.

Lemma tally_head P st n l :
  tally P st (n :: l) = (match st !! n with Some o => b2z (P o) | None => 0 end) + tally P st l.
Proof. done. Qed.

Lemma tally_app P st l k : tally P st (l ++ k) = tally P st l + tally P st k.
Proof. induction l as [|n l IH]; [done|]. cbn [app]. rewrite !tally_head, IH. lia. Qed.

Lemma tally_bounds P st l : 0 <= tally P st l <= zlen l.
Proof.
  induction l as [|n l IH]; [done|]. rewrite tally_head, zlen_cons.
  destruct (st !! n) as [o|]; [destruct (P o)|]; cbn [b2z]; lia.
Qed.

Lemma tally_alter_notin P st f n l : n ∉ l -> tally P (alter f n st) l = tally P st l.
Proof.
  induction l as [|m l IH]; [done|]. intros Hn. apply not_elem_of_cons in Hn as [Hm Hn].
  rewrite !tally_head, IH by done. by rewrite list_lookup_alter_ne.
Qed.

Lemma tally_alter P st f n l o :
  NoDup l -> n ∈ l -> st !! n = Some o ->
  tally P (alter f n st) l = tally P st l - b2z (P o) + b2z (P (f o)).
Proof.
  induction l as [|m l IH]; [by intros _ ?%elem_of_nil|]. intros [Hm Hl]%NoDup_cons Hn Ho.
  rewrite !tally_head. destruct (decide (m = n)) as [->|Hne].
  - rewrite list_lookup_alter_eq, Ho, tally_alter_notin by done. cbn [fmap option_fmap option_map]. lia.
  - apply elem_of_cons in Hn as [->|Hn]; [done|]. rewrite list_lookup_alter_ne by done. rewrite IH by done. lia.
Qed.

Lemma tally_grow P st o l : Forall (fun n => (n < length st)%nat) l -> tally P (st ++ [o]) l = tally P st l.
Proof.
  induction 1 as [|n l Hn _ IH]; [done|]. rewrite !tally_head, IH. by rewrite lookup_app_l.
Qed.

Lemma tally_perm P st l k : l ≡ₚ k -> tally P st l = tally P st k.
Proof. induction 1; rewrite ?tally_head in *; lia. Qed.

Lemma tally_some P st l : 0 < tally P st l -> exists n o, n ∈ l /\ st !! n = Some o /\ P o = true.
Proof.
  induction l as [|n l IH]; [done|]. rewrite tally_head. intros Hp.
  destruct (st !! n) as [o|] eqn:E; [destruct (P o) eqn:EP|].
  - exists n, o. split; [by left|done].
  - destruct IH as (m & o' & ? & ? & ?); [cbn in Hp; lia|]. exists m, o'. split; [by right|done].
  - destruct IH as (m & o' & ? & ? & ?); [lia|]. exists m, o'. split; [by right|done].
Qed.

Lemma tally_member P st l n o : n ∈ l -> st !! n = Some o -> P o = true -> 0 < tally P st l.
Proof.
  intros Hn Ho HP. apply list_elem_of_split in Hn as (l1 & l2 & ->). rewrite tally_app, tally_head, Ho, HP.
  pose proof (tally_bounds P st l1). pose proof (tally_bounds P st l2). cbn. lia.
Qed.

(** * The invariant *)

(** The generator hits a free transaction id in 65536 draws, unless there is none. *)
Definition fair_draws (cfg : Config) : Prop :=
  forall n (m : gmap Z Pending), Z.of_nat (size m) < 65536 ->
  exists i, Z.of_nat i < 65536 /\ m !! u16 (draws cfg (n + i)) = None.

Section Invariant.
Context (cfg : Config).

(** Distances to the target. *)
Definition far (o : Observer) : Z := dist (oid o) (target_ cfg).
Definition dists (st : list Observer) (l : list nat) : list Z := (fun n => match st !! n with Some o => far o | None => 0 end) <$> l.

Definition is_ping (k : Kind) : bool := match k with IsPing => true | InLookup => false end.
Definition pings (s : State) : Z := zlen (List.filter is_ping (kind <$> store s)).

(** At all times. [z] is 1 while a query that was just taken from the table is still counted. *)
Record base (z : Z) (s : State) : Prop := {
  b_ids : Forall (fun o => id_ok (oid o) /\ (has kShortTimeout o = true -> has kQueried o = true)) (store s);
  b_ptr : forall t p, pending_ s !! t = Some p -> exists o, store s !! p_obs p = Some o /\ txn o = t;
  b_size : Z.of_nat (size (pending_ s)) + z <= invoke_count_ s + pings s;
}.

(** While the lookup runs. [x] is a query in flight that was just taken from the table;
    [e] and [es] are the slots of an observer that was just answered. *)
Record active (x : option nat) (e es : Z) (s : State) : Prop := {
  a_nodup : NoDup (results_ s);
  a_ptr : Forall (fun n => exists o, store s !! n = Some o /\ kind o = InLookup) (results_ s);
  a_sorted : 0 <= sorted_ s <= zlen (results_ s);
  a_order : StronglySorted Z.le (dists (store s) (ztake (sorted_ s) (results_ s)));
  a_head : forall n o, n ∈ ztake (sorted_ s) (results_ s) -> store s !! n = Some o ->
    has kInitial o = true -> has kAlive o = true;
  a_count : invoke_count_ s = tally in_flight (store s) (results_ s) + e;
  a_branch : branch_factor_ s = kAlpha + tally stale (store s) (results_ s) + es;
  a_wait : forall n o, n ∈ results_ s -> store s !! n = Some o -> in_flight o = true -> x <> Some n ->
    exists p, pending_ s !! txn o = Some p /\ p_obs p = n;
  a_own : forall t p o, pending_ s !! t = Some p -> store s !! p_obs p = Some o -> kind o = InLookup ->
    p_obs p ∈ results_ s /\ in_flight o = true;
}.

Lemma obs_update n f s m :
  store (update n f s) !! m = if decide (m = n) then f <$> store s !! m else store s !! m.
Proof.
  unfold update, set_store. cbn [store]. destruct (decide (m = n)) as [->|Hne].
  - by rewrite list_lookup_alter_eq.
  - by rewrite list_lookup_alter_ne.
Qed.

Lemma obs_at_Some n s o : store s !! n = Some o -> obs_at n s = Ret o.
Proof. unfold obs_at. by intros ->. Qed.

Lemma a_obs x e es s n : active x e es s -> n ∈ results_ s -> exists o, store s !! n = Some o /\ kind o = InLookup.
Proof. intros A Hn. pose proof (a_ptr _ _ _ _ A) as Hp. rewrite Forall_forall in Hp. by apply Hp. Qed.

Lemma a_below x e es s : active x e es s -> Forall (fun n => (n < length (store s))%nat) (results_ s).
Proof.
  intros A. eapply Forall_impl; [apply (a_ptr _ _ _ _ A)|]. intros n (o & Ho & _). by apply lookup_lt_Some in Ho.
Qed.

Lemma dists_alter st f n l :
  (forall o, oid (f o) = oid o) -> dists (alter f n st) l = dists st l.
Proof.
  intros Hf. unfold dists. apply list_fmap_ext. intros _ m _. destruct (decide (m = n)) as [->|Hne].
  - rewrite list_lookup_alter_eq. destruct (st !! n) as [o|]; [|done]. cbn. unfold far. by rewrite Hf.
  - by rewrite list_lookup_alter_ne.
Qed.

Lemma dists_grow st o l : Forall (fun n => (n < length st)%nat) l -> dists (st ++ [o]) l = dists st l.
Proof.
  induction 1 as [|n l Hn _ IH]; [done|]. unfold dists in *. cbn [fmap list_fmap]. rewrite IH. by rewrite lookup_app_l.
Qed.

Lemma pings_alter n f s : (forall o, kind (f o) = kind o) -> pings (update n f s) = pings s.
Proof.
  intros Hf. unfold pings, update, set_store. cbn [store]. do 2 f_equal. apply list_eq. intros m. rewrite !list_lookup_fmap.
  destruct (decide (m = n)) as [->|Hne]; [|by rewrite list_lookup_alter_ne].
  rewrite list_lookup_alter_eq. destruct (store s !! n) as [o|]; [|done]. cbn. by rewrite Hf.
Qed.

Lemma pings_kinds s s' :
  length (store s') = length (store s) ->
  (forall n o, store s !! n = Some o -> exists o', store s' !! n = Some o' /\ kind o' = kind o) -> pings s' = pings s.
Proof.
  intros L O. unfold pings. do 2 f_equal. apply list_eq. intros n. rewrite !list_lookup_fmap.
  destruct (store s !! n) as [o|] eqn:E.
  - destruct (O n o E) as (o' & -> & Hk). cbn. by rewrite Hk.
  - apply lookup_ge_None in E. rewrite <- L in E. by rewrite (proj2 (lookup_ge_None (store s') n) E).
Qed.

(** Changing flags of one observer, ids and kind aside. *)
Lemma base_update z n f s :
  (forall o, kind (f o) = kind o /\ txn (f o) = txn o) ->
  (forall o, store s !! n = Some o -> id_ok (oid o) -> (has kShortTimeout o = true -> has kQueried o = true) ->
     id_ok (oid (f o)) /\ (has kShortTimeout (f o) = true -> has kQueried (f o) = true)) ->
  base z s -> base z (update n f s).
Proof.
  intros Hf Hn [B1 B2 B3]. split.
  - unfold update, set_store. cbn [store]. apply Forall_alter; [done|]. intros o Ho [? ?]. by apply Hn.
  - intros t p Hp. destruct (B2 t p Hp) as (o & Ho & Ht). rewrite obs_update, Ho.
    destruct (decide _); [exists (f o); split; [done|by rewrite (proj2 (Hf o))]|by exists o].
  - rewrite pings_alter by (intros o; apply Hf). done.
Qed.

Lemma base_flag z n f s : f <> kShortTimeout -> base z s -> base z (update n (set_flag f) s).
Proof.
  intros Hne. apply base_update; [done|]. intros o _ ? Hs. split; [done|]. rewrite !has_set. destruct f; try done; cbn; auto.
Qed.

(** * Outstanding queries *)

Context (Hfair : fair_draws cfg).

Lemma draw_loop_spec tries s :
  (exists i, (i < tries)%nat /\ pending_ s !! u16 (draws cfg (drawn s + i)) = None) ->
  exists t k, draw_loop cfg tries s = (t, set_drawn k s) /\ pending_ s !! t = None.
Proof.
  revert s. induction tries as [|tries IH]; intros s (i & Hi & Hf); [lia|]. cbn [draw_loop].
  change (pending_ (set_drawn (S (drawn s)) s)) with (pending_ s).
  destruct (decide (pending_ s !! u16 (draws cfg (drawn s)) = None)) as [Hn|Hn]; [by eauto|].
  destruct i as [|i]; [by rewrite Nat.add_0_r in Hf|].
  destruct (IH (set_drawn (S (drawn s)) s)) as (t & k & E & Ht).
  { exists i. split; [lia|]. cbn [set_drawn pending_ drawn]. by rewrite Nat.add_succ_l, <- Nat.add_succ_r. }
  exists t, k. split; [|done]. by rewrite E.
Qed.

Lemma next_txn_spec s :
  Z.of_nat (size (pending_ s)) < 65536 ->
  exists t k, next_txn cfg s = (t, set_drawn k s) /\ pending_ s !! t = None.
Proof.
  intros Hs. destruct (Hfair (drawn s) (pending_ s) Hs) as (i & Hi & Hf).
  apply draw_loop_spec. exists i. split; [lia|done].
Qed.

(** A query for an observer without one: sent and registered under a free id, or not sent. *)
Lemma rpc_invoke_spec m to n now s o :
  Z.of_nat (size (pending_ s)) < 65536 -> store s !! n = Some o ->
  exists t k, pending_ s !! t = None
  /\ (rpc_invoke cfg m to n now s = (false, set_drawn k s)
      \/ exists data, rpc_invoke cfg m to n now s
         = (true, set_pending (<[t := mkPending n to now]> (pending_ s))
                    (update n (set_txn t) (emit (SendTo to data) (set_drawn k s))))).
Proof.
  intros Hs Ho. destruct (next_txn_spec s Hs) as (t & k & E & Ht). exists t, k. split; [done|].
  unfold rpc_invoke. rewrite E. destruct (encoded (with_txn t m)) as [|b data]; [by left|right]. by exists (b :: data).
Qed.

(** Forgetting the query of an observer that has one. *)
Lemma cancel_spec z n s o :
  base z s -> store s !! n = Some o ->
  (exists p, pending_ s !! txn o = Some p /\ p_obs p = n
     /\ cancel n s = Ret (set_pending (delete (txn o) (pending_ s)) s))
  \/ ((forall t p, pending_ s !! t = Some p -> p_obs p <> n) /\ cancel n s = Ret s).
Proof.
  intros B Ho. unfold cancel. rewrite (obs_at_Some n s o) by done. cbn [mbind outcome_bind].
  destruct (pending_ s !! txn o) as [p|] eqn:Ep; [case_bool_decide as Hp|].
  - left. by exists p.
  - right. split; [|done]. intros t q Hq <-. destruct (b_ptr _ _ B t q Hq) as (o' & Ho' & <-).
    rewrite Ho in Ho'. injection Ho' as <-. rewrite Ep in Hq. injection Hq as <-. done.
  - right. split; [|done]. intros t q Hq <-. destruct (b_ptr _ _ B t q Hq) as (o' & Ho' & <-).
    rewrite Ho in Ho'. injection Ho' as <-. by rewrite Ep in Hq.
Qed.

(** Entries of the same observer are the same. *)
Lemma pending_inj z s t t' p p' :
  base z s -> pending_ s !! t = Some p -> pending_ s !! t' = Some p' -> p_obs p = p_obs p' -> t = t'.
Proof.
  intros B Hp Hp' E. destruct (b_ptr _ _ B t p Hp) as (o & Ho & <-). destruct (b_ptr _ _ B t' p' Hp') as (o' & Ho' & <-).
  rewrite E, Ho' in Ho. by injection Ho as <-.
Qed.

Lemma size_delete_pending (m : gmap Z Pending) t p :
  m !! t = Some p -> Z.of_nat (size (delete t m)) = Z.of_nat (size m) - 1.
Proof.
  intros Hp. rewrite map_size_delete, Hp. assert (size m <> 0%nat) as Hs; [|lia].
  intros E%map_size_empty_inv. by rewrite E, lookup_empty in Hp.
Qed.

(** Taking an entry from the table. *)
Lemma base_take z s t p :
  base z s -> pending_ s !! t = Some p -> base (z + 1) (set_pending (delete t (pending_ s)) s).
Proof.
  intros [B1 B2 B3] Hp. split; cbn [set_pending store pending_ invoke_count_]; [done| |].
  - intros t' p' [_ Hp']%lookup_delete_Some. by apply B2.
  - rewrite (size_delete_pending _ _ p) by done. change (pings (set_pending _ s)) with (pings s). lia.
Qed.

(** * From in flight to settled, in three moves *)

Definition no_entry (n : nat) (s : State) : Prop := forall t p, pending_ s !! t = Some p -> p_obs p <> n.

(** An entry for an observer that is counted already. *)
Lemma base_insert z s n o t p to k data :
  base (z + 1) s -> store s !! n = Some o -> no_entry n s -> pending_ s !! t = None -> p_obs p = n ->
  base z (set_pending (<[t := p]> (pending_ s)) (update n (set_txn t) (emit (SendTo to data) (set_drawn k s)))).
Proof.
  intros [B1 B2 B3] Ho N Ht Hpn. set (s' := set_pending _ _).
  assert (forall m, store s' !! m = if decide (m = n) then set_txn t <$> store s !! m else store s !! m) as Hst
    by (intros m; apply (obs_update n (set_txn t) s)).
  assert (pings s' = pings s) as Hp by exact (pings_alter n (set_txn t) s (fun _ => eq_refl)).
  assert (pending_ s' = <[t := p]> (pending_ s)) as Epend by done.
  split.
  - apply (Forall_alter _ (set_txn t) (store s) n B1). by intros o' _ [? ?].
  - intros t' q. rewrite Epend. intros [[<- <-]|[Hne Hq]]%lookup_insert_Some; rewrite Hst.
    + rewrite decide_True, Hpn, Ho by done. by eexists.
    + rewrite decide_False by (by eapply N). by apply B2.
  - rewrite Epend, map_size_insert_None by done. change (invoke_count_ s') with (invoke_count_ s). lia.
Qed.

(** The entry of a query leaves the table. *)
Lemma unpend_ok z e es s t p :
  base z s -> active None e es s -> pending_ s !! t = Some p ->
  let s1 := set_pending (delete t (pending_ s)) s in
  base (z + 1) s1 /\ active (Some (p_obs p)) e es s1 /\ no_entry (p_obs p) s1.
Proof.
  intros B A Hp s1. split_and!; [by eapply base_take| |].
  - destruct A as [A1 A2 A3 A4 A5 A6 A7 A8 A9]. split; try done.
    + intros n o Hn Ho Hf Hne. destruct (A8 n o Hn Ho Hf) as (q & Hq & Eq); [done|]. exists q. split; [|done].
      cbn [s1 set_pending pending_]. rewrite lookup_delete_ne; [done|]. intros ->. rewrite Hp in Hq. injection Hq as <-. congruence.
    + intros t' p' o Hp'. apply (lookup_delete_Some (pending_ s)) in Hp' as [_ Hp']. exact (A9 t' p' o Hp').
  - intros t' p' Hp' E. apply (lookup_delete_Some (pending_ s)) in Hp' as [Hne Hp']. by apply Hne, (pending_inj z s t t' p p').
Qed.

(** A query without an entry is answered, given up or abandoned. *)
Lemma retire_ok x e es s n o f :
  active x e es s -> n ∈ results_ s -> store s !! n = Some o -> in_flight o = true -> no_entry n s ->
  (x = None \/ x = Some n) -> f = kAlive \/ f = kFailed \/ f = kDone ->
  active None (e + 1) (es + b2z (has kShortTimeout o)) (update n (set_flag f) s).
Proof.
  intros A Hn Ho Hf Hno Hx Hflag. destruct A as [A1 A2 A3 A4 A5 A6 A7 A8 A9].
  assert (in_flight (set_flag f o) = false /\ stale (set_flag f o) = false /\ stale o = has kShortTimeout o) as (E1 & E2 & E3)
    by (destruct Hflag as [->|[->| ->]]; clear -Hf; by_flags).
  split; cbn [update set_store results_ sorted_ invoke_count_ branch_factor_ pending_]; try done.
  - rewrite Forall_forall in A2 |- *. intros m Hm. destruct (A2 m Hm) as (o' & Ho' & Hk).
    change (alter _ n (store s)) with (store (update n (set_flag f) s)). rewrite obs_update, Ho'.
    destruct (decide _); eexists; by split.
  - change (store (update n (set_flag f) s)) with (alter (set_flag f) n (store s)). by rewrite dists_alter.
  - intros m o' Hm. rewrite obs_update. destruct (decide (m = n)) as [->|]; [|by apply A5].
    rewrite Ho. intros [= <-]. rewrite !has_set. intros HI. destruct (has kAlive o) eqn:Ea; [by rewrite orb_true_r|].
    exfalso. assert (has kInitial o = true) as HI' by (destruct Hflag as [->|[->| ->]]; clear -HI; by_flags).
    rewrite (A5 n o Hm Ho HI') in Ea. done.
  - change (store (update n (set_flag f) s)) with (alter (set_flag f) n (store s)).
    rewrite (tally_alter in_flight _ _ n _ o), Hf, E1, A6 by done. cbn [b2z]. lia.
  - change (store (update n (set_flag f) s)) with (alter (set_flag f) n (store s)).
    rewrite (tally_alter stale _ _ n _ o), E3, E2, A7 by done. cbn [b2z]. lia.
  - intros m o' Hm. rewrite obs_update. destruct (decide (m = n)) as [->|Hne].
    + rewrite Ho. intros [= <-]. by rewrite E1.
    + intros Ho' Hf' _. apply (A8 m o' Hm Ho' Hf'). destruct Hx as [->| ->]; congruence.
  - intros t p o' Hp. rewrite obs_update. destruct (decide (p_obs p = n)) as [Hpn|]; [|exact (A9 t p o' Hp)].
    exfalso. by apply (Hno t p Hp).
Qed.

(** Its slot is freed. *)
Lemma slot_ok x e es d s :
  active x (e + 1) (es + d) s -> active x e es (set_counts (branch_factor_ s - d) (invoke_count_ s - 1) s).
Proof.
  intros [A1 A2 A3 A4 A5 A6 A7 A8 A9].
  split; cbn [set_counts results_ sorted_ invoke_count_ branch_factor_ pending_ store]; try done; lia.
Qed.

(** The guards of the decrements never bind. *)
Lemma free_slot_eq x e es s o :
  active x (e + 1) (es + b2z (has kShortTimeout o)) s -> 0 <= e -> 0 <= es ->
  free_slot o s = set_counts (branch_factor_ s - b2z (has kShortTimeout o)) (invoke_count_ s - 1) s.
Proof.
  intros A He Hes. unfold free_slot. pose proof (a_count _ _ _ _ A) as Hc. pose proof (a_branch _ _ _ _ A) as Hb.
  pose proof (tally_bounds in_flight (store s) (results_ s)). pose proof (tally_bounds stale (store s) (results_ s)).
  rewrite (proj2 (Z.ltb_lt 0 _)) by lia. destruct (has kShortTimeout o); cbn [b2z andb] in *; [|by rewrite Z.sub_0_r].
  by rewrite (proj2 (Z.ltb_lt kAlpha _)) by lia.
Qed.

Lemma base_slot z d s : base (z + 1) s -> base z (set_counts (branch_factor_ s - d) (invoke_count_ s - 1) s).
Proof.
  intros [B1 B2 B3]. split; [done|done|]. cbn [set_counts pending_ invoke_count_]. change (pings (set_counts _ _ s)) with (pings s). lia.
Qed.

(** * Candidates come and go *)

(** Effects other than the callbacks of the lookup. *)
Definition is_quiet (e : Effect) : Prop := match e with OnPeers _ | OnDone _ => False | _ => True end.
Definition quiet (s s' : State) : Prop :=
  peers_ s' = peers_ s /\ exists l, log s' = log s ++ l /\ Forall is_quiet l.

Lemma quiet_silent s s' : peers_ s' = peers_ s -> log s' = log s -> quiet s s'.
Proof. intros E L. split; [done|]. exists []. by rewrite L, app_nil_r. Qed.
Lemma quiet_trans s1 s2 s3 : quiet s1 s2 -> quiet s2 s3 -> quiet s1 s3.
Proof.
  intros (E1 & l1 & L1 & F1) (E2 & l2 & L2 & F2). split; [congruence|]. exists (l1 ++ l2).
  rewrite L2, L1, app_assoc. split; [done|]. by apply Forall_app.
Qed.
Lemma quiet_emit e s : is_quiet e -> quiet s (emit e s).
Proof. intros He. split; [done|]. exists [e]. split; [done|by constructor]. Qed.

(** Observers stay, with their ids, short timeouts and answers. *)
Definition grows (s s' : State) : Prop :=
  (done_ s' = done_ s /\ pings s' = pings s) /\ quiet s s'
  /\ forall n o, store s !! n = Some o -> exists o', store s' !! n = Some o' /\ kind o' = kind o /\ oid o' = oid o
     /\ has kShortTimeout o' = has kShortTimeout o /\ (has kAlive o = true -> has kAlive o' = true)
     /\ (in_flight o = false -> in_flight o' = false).

Lemma grows_refl s : grows s s.
Proof. split_and!; [done|done|by apply quiet_silent|]. intros n o Ho. by exists o. Qed.
Lemma grows_trans s1 s2 s3 : grows s1 s2 -> grows s2 s3 -> grows s1 s3.
Proof.
  intros ((E1 & P1) & Q1 & G1) ((E2 & P2) & Q2 & G2). split_and!; [congruence|congruence|by eapply quiet_trans|]. intros n o Ho.
  destruct (G1 n o Ho) as (o1 & Ho1 & ? & ? & ? & ? & ?).
  destruct (G2 n o1 Ho1) as (o2 & Ho2 & ? & ? & ? & ? & ?). exists o2. split_and!; try congruence; by auto.
Qed.
Lemma grows_update n f s :
  f = kAlive \/ f = kFailed \/ f = kDone -> grows s (update n (set_flag f) s).
Proof.
  intros Hf. split_and!; [done|by apply pings_alter|by apply quiet_silent|]. intros m o Ho. rewrite obs_update, Ho. destruct (decide (m = n)); [|by exists o].
  exists (set_flag f o). split_and!; try done; destruct Hf as [->|[->| ->]]; clear; by_flags.
Qed.

(** The result of an operation on the candidates. *)
Definition kept (z e es : Z) (s s' : State) : Prop := base z s' /\ active None e es s' /\ grows s s'.

Lemma release_ok z e es s n :
  base z s -> active None e es s -> 0 <= e -> 0 <= es -> n ∈ results_ s ->
  returns (release n s) (fun s' => kept z e es s s' /\ results_ s' = results_ s /\ sorted_ s' = sorted_ s
    /\ forall o, store s' !! n = Some o -> in_flight o = false).
Proof.
  intros B A He Hes Hn. destruct (a_obs _ _ _ _ _ A Hn) as (o & Ho & Hk). unfold release.
  rewrite (obs_at_Some n s o) by done. cbn [mbind outcome_bind].
  destruct (in_flight o) eqn:Hf.
  2:{ split_and!; [split_and!; [done|done|apply grows_refl]|done|done|]. intros o' Ho'. rewrite Ho in Ho'. by injection Ho' as <-. }
  destruct (a_wait _ _ _ _ A n o Hn Ho Hf) as (p & Hp & <-); [done|].
  destruct (unpend_ok z e es s (txn o) p B A Hp) as (B1 & A1 & N1).
  pose proof (retire_ok _ _ _ _ _ o kDone A1 Hn Ho Hf N1 (or_intror eq_refl) (or_intror (or_intror eq_refl))) as A2.
  pose proof (free_slot_eq _ _ _ _ o A2 He Hes) as Efree.
  apply (base_flag _ (p_obs p) kDone) in B1; [|done].
  pose proof (slot_ok _ _ _ _ _ A2) as A3. pose proof (base_slot _ (b2z (has kShortTimeout o)) _ B1) as B3.
  set (s3 := set_counts _ _ _) in *. unfold free_slot in Efree. cbn [set_pending update set_store branch_factor_ invoke_count_] in Efree.
  injection Efree as Eb Ec.
  match goal with |- returns (cancel _ ?s0) _ => set (sc := s0) end.
  assert (cancel (p_obs p) sc = Ret s3) as ->.
  { unfold cancel. rewrite (obs_at_Some _ _ (set_flag kDone o)).
    2:{ change (store sc) with (store (update (p_obs p) (set_flag kDone) s)). rewrite obs_update, decide_True, Ho by done. done. }
    cbn [mbind outcome_bind]. change (txn (set_flag kDone o)) with (txn o). change (pending_ sc) with (pending_ s).
    rewrite Hp, bool_decide_true by done. unfold s3, sc. cbn [update set_store invoke_count_ branch_factor_].
    by rewrite Eb, Ec. }
  split_and!; [split_and!; [done|done|]|done|done|].
  - apply (grows_trans _ (update (p_obs p) (set_flag kDone) s)); [apply grows_update; by auto|].
    split_and!; [done|done|by apply quiet_silent|]. intros m o' Ho'. by exists o'.
  - intros o' Ho'. change (store s3) with (store (update (p_obs p) (set_flag kDone) s)) in Ho'.
    rewrite obs_update, decide_True, Ho in Ho' by done. injection Ho' as <-. clear. by_flags.
Qed.

End Invariant.
