(* ===== verification/LookupCandidates.v ===== *)
(** The candidates of a DHT lookup: adding, placing and truncating them keeps the invariant. *)

From S2P Require Import Prelude PeerId Address DhtId Bencode Krpc RoutingTable TableClosest Lookup LookupInvariant.
Import dht_id lookup.

Section Candidates.
Context (cfg : Config) (Hfair : fair_draws cfg) (Htarget : id_ok (target_ cfg)).

Abbreviation active := (active cfg).
Abbreviation kept := (kept cfg).

(** * Truncation *)

Lemma each_release_ok z e es l s :
  base z s -> active None e es s -> 0 <= e -> 0 <= es -> l ⊆ results_ s ->
  returns (each release l s) (fun s' => kept z e es s s' /\ results_ s' = results_ s /\ sorted_ s' = sorted_ s
    /\ forall n o, n ∈ l -> store s' !! n = Some o -> in_flight o = false).
Proof.
  intros B A He Hes. revert s B A. induction l as [|n l IH]; intros s B A Hl; cbn [each].
  { split_and!; [split_and!; [done|done|apply grows_refl]|done|done|]. intros n o Hn. by apply not_elem_of_nil in Hn. }
  eapply returns_bind; [apply (release_ok cfg z e es s n); try done; apply Hl; by left|].
  intros s1 ((B1 & A1 & G1) & Hr1 & Hs1 & Hn1).
  eapply returns_mono; [apply (IH s1); [done|done|]; rewrite Hr1; intros m Hm; apply Hl; by right|].
  intros s2 ((B2 & A2 & G2) & Hr2 & Hs2 & Hn2). split_and!; [split_and!; [done|done|by eapply grows_trans]|congruence..|].
  intros m o Hm Ho. apply elem_of_cons in Hm as [->|Hm]; [|by eapply Hn2].
  destruct (a_obs cfg None e es s1 n A1) as (o1 & Ho1 & _); [rewrite Hr1; apply Hl; by left|].
  destruct G2 as (_ & _ & G2). destruct (G2 n o1 Ho1) as (o2 & Ho2 & _ & _ & _ & _ & Hf). rewrite Ho in Ho2. injection Ho2 as <-.
  by apply Hf, Hn1.
Qed.

Lemma tally_zero P st l : (forall n o, n ∈ l -> st !! n = Some o -> P o = false) -> tally P st l = 0.
Proof.
  induction l as [|n l IH]; [done|]. intros Hl. rewrite tally_head, IH by (intros; eapply Hl; [by right|done]).
  destruct (st !! n) as [o|] eqn:E; [|done]. by rewrite (Hl n o) by (done || by left).
Qed.

Lemma sorted_take k (l : list Z) : StronglySorted Z.le l -> StronglySorted Z.le (take k l).
Proof. intros Hl. apply (StronglySorted_app_1_l _ _ (drop k l)). by rewrite take_drop. Qed.

(** Dropping candidates that are not in flight. *)
Lemma active_take z e es s k :
  base z s -> active None e es s -> 0 <= k ->
  (forall n o, n ∈ zdrop k (results_ s) -> store s !! n = Some o -> in_flight o = false) ->
  active None e es (set_results (ztake k (results_ s)) (Z.min (sorted_ s) k) s).
Proof.
  intros B A Hk Hd. destruct A as [A1 A2 A3 A4 A5 A6 A7 A8 A9].
  assert (results_ s = ztake k (results_ s) ++ zdrop k (results_ s)) as Hsplit by (unfold ztake, zdrop; by rewrite take_drop).
  assert (ztake (Z.min (sorted_ s) k) (ztake k (results_ s)) = ztake (Z.min (sorted_ s) k) (results_ s)) as Et.
  { unfold ztake. rewrite take_take. f_equal. lia. }
  assert (forall n, n ∈ ztake k (results_ s) -> n ∈ results_ s) as Hin by (intros n Hn; rewrite Hsplit; set_solver).
  assert (forall n, n ∈ ztake (Z.min (sorted_ s) k) (results_ s) -> n ∈ ztake (sorted_ s) (results_ s)) as Hin'.
  { intros n. unfold ztake. replace (Z.to_nat (Z.min (sorted_ s) k)) with (Z.to_nat k `min` Z.to_nat (sorted_ s))%nat by lia.
    rewrite <- take_take. apply subseteq_take. }
  split; cbn [set_results results_ sorted_ invoke_count_ branch_factor_ pending_ store].
  - rewrite Hsplit in A1. by apply NoDup_app in A1 as (? & _).
  - rewrite Hsplit, Forall_app in A2. by destruct A2.
  - unfold zlen, ztake in *. rewrite length_take. lia.
  - rewrite Et. unfold dists, ztake in *. replace (Z.to_nat (Z.min (sorted_ s) k)) with (Z.to_nat k `min` Z.to_nat (sorted_ s))%nat by lia.
    rewrite <- take_take, fmap_take. by apply sorted_take.
  - intros n o. rewrite Et. intros Hn. by apply A5, Hin'.
  - rewrite A6, Hsplit, tally_app, (tally_zero _ _ (zdrop k _)), <- Hsplit by done. lia.
  - rewrite A7, Hsplit, tally_app, (tally_zero _ _ (zdrop k _)), <- Hsplit; [lia|].
    intros n o Hn Ho. specialize (Hd n o Hn Ho). clear -Hd. by_flags.
  - intros n o Hn. by apply A8, Hin.
  - intros t p o Hp Ho Hko. destruct (A9 t p o Hp Ho Hko) as [Hr Hf]. split; [|done].
    rewrite Hsplit in Hr. apply elem_of_app in Hr as [?|Hr]; [done|]. by rewrite (Hd _ o Hr Ho) in Hf.
Qed.

Lemma grows_set_results l k s : grows s (set_results l k s).
Proof. split_and!; [done|done|by apply quiet_silent|]. intros n o Ho. by exists o. Qed.

Lemma base_set_results z l k s : base z s -> base z (set_results l k s).
Proof. intros [B1 B2 B3]. by split. Qed.

Lemma truncate_ok z e es s :
  base z s -> active None e es s -> 0 <= e -> 0 <= es ->
  returns (truncate s) (fun s' => kept z e es s s' /\ zlen (results_ s') <= Z.min (zlen (results_ s)) kMaxResults).
Proof.
  intros B A He Hes. unfold truncate. destruct (Z.ltb_spec kMaxResults (zlen (results_ s))) as [Hlt|Hge].
  2:{ split; [split_and!; [done|done|apply grows_refl]|lia]. }
  eapply returns_bind; [apply (each_release_ok z e es); try done; unfold zdrop; apply subseteq_drop|].
  intros s1 ((B1 & A1 & G1) & Hr & Hs & Hd). split; [split_and!|].
  - by apply base_set_results.
  - eapply active_take; [done..|]. intros n o Hn. apply Hd. by rewrite <- Hr.
  - eapply grows_trans; [done|apply grows_set_results].
  - cbn [set_results results_]. rewrite Hr, zlen_ztake; unfold kMaxResults in *; lia.
Qed.

(** * The place of a candidate *)

Lemma deref_ok e es x s l :
  active x e es s -> l ⊆ results_ s -> exists os, deref l s = Ret os /\ Forall2 (fun n o => store s !! n = Some o) l os.
Proof.
  intros A. induction l as [|n l IH]; intros Hl; cbn [deref]; [by exists []|].
  destruct (a_obs cfg x e es s n A) as (o & Ho & _); [apply Hl; by left|].
  destruct IH as (os & -> & Hos); [intros m Hm; apply Hl; by right|].
  rewrite (obs_at_Some n s o) by done. exists (o :: os). split; [done|by constructor].
Qed.

Lemma dists_Forall2 st l os : Forall2 (fun n o => st !! n = Some o) l os -> dists cfg st l = far cfg <$> os.
Proof. induction 1 as [|n o l os Ho _ IH]; [done|]. unfold dists in *. cbn [fmap list_fmap]. by rewrite Ho, IH. Qed.

Lemma prefix_len_spec {A} (p : A -> bool) l : Forall (fun x => p x = true) (take (prefix_len p l) l).
Proof.
  induction l as [|x l IH]; cbn [prefix_len]; [done|]. destruct (p x) eqn:E; [|done]. by constructor.
Qed.
Lemma prefix_len_head {A} (p : A -> bool) l x : l !! prefix_len p l = Some x -> p x = false.
Proof.
  induction l as [|y l IH]; cbn [prefix_len]; [done|]. destruct (p y) eqn:E; [done|]. cbn. by intros [= <-].
Qed.
Lemma prefix_len_le {A} (p : A -> bool) l : (prefix_len p l <= length l)%nat.
Proof. induction l as [|x l IH]; cbn [prefix_len length]; [done|]. destruct (p x); lia. Qed.

(** Searching a list sorted by distance. *)
Lemma lower_bound_sorted i os :
  id_ok i -> Forall (fun o => id_ok (oid o)) os -> StronglySorted Z.le (far cfg <$> os) ->
  exists pos, lower_bound (fun o => closer_to (oid o) i (target_ cfg)) os = Ret pos
  /\ (pos <= length os)%nat
  /\ Forall (fun o => far cfg o < dist i (target_ cfg)) (take pos os)
  /\ Forall (fun o => dist i (target_ cfg) <= far cfg o) (drop pos os).
Proof.
  intros Hi Hos Hs. unfold lower_bound. set (p := fun o => closer_to (oid o) i (target_ cfg)).
  assert (forall o, o ∈ os -> p o = (far cfg o <? dist i (target_ cfg))) as Hp.
  { intros o Ho. rewrite Forall_forall in Hos. by apply closer_to_dist; [apply Hos|..]. }
  assert (Forall (fun o => dist i (target_ cfg) <= far cfg o) (drop (prefix_len p os) os)) as Hdrop.
  { destruct (drop (prefix_len p os) os) as [|o rest] eqn:Ed; [done|].
    assert (os !! prefix_len p os = Some o) as Ho by (rewrite <- (Nat.add_0_r (prefix_len p os)), <- lookup_drop, Ed; done).
    pose proof (prefix_len_head _ _ _ Ho) as Hf. rewrite Hp in Hf by (by eapply list_elem_of_lookup_2).
    apply Z.ltb_ge in Hf. assert (StronglySorted Z.le (far cfg <$> (o :: rest))) as Hsr.
    { rewrite <- Ed, fmap_drop. eapply (StronglySorted_app_1_r _ (take (prefix_len p os) (far cfg <$> os))). by rewrite take_drop. }
    cbn [fmap list_fmap] in Hsr. apply StronglySorted_cons in Hsr as [Hall _]. constructor; [done|].
    rewrite Forall_fmap in Hall. eapply Forall_impl; [exact Hall|]. cbn. intros; lia. }
  exists (prefix_len p os). rewrite Forall_forall in Hdrop. split_and!.
  - destruct (existsb p (drop (prefix_len p os) os)) eqn:Ex; [|done]. apply existsb_exists in Ex as (o & Ho & Hpo).
    apply list_elem_of_In in Ho. rewrite Hp in Hpo by (by eapply subseteq_drop). apply Z.ltb_lt in Hpo. specialize (Hdrop o Ho). lia.
  - apply prefix_len_le.
  - rewrite Forall_forall. intros o Ho. pose proof (prefix_len_spec p os) as Hpre. rewrite Forall_forall in Hpre.
    specialize (Hpre o Ho). rewrite Hp in Hpre by (by eapply subseteq_take). by apply Z.ltb_lt in Hpre.
  - by rewrite Forall_forall.
Qed.

(** * What does not matter to the invariant *)

Definition same (s s' : State) : Prop :=
  pending_ s' = pending_ s /\ store s' = store s /\ results_ s' = results_ s /\ sorted_ s' = sorted_ s
  /\ branch_factor_ s' = branch_factor_ s /\ invoke_count_ s' = invoke_count_ s /\ done_ s' = done_ s.

Lemma base_same z s s' : same s s' -> base z s -> base z s'.
Proof.
  intros (E1 & E2 & E3 & E4 & E5 & E6 & E7) [B1 B2 B3]. split; rewrite ?E1, ?E2, ?E6; try done.
  unfold pings in *. by rewrite E2.
Qed.
Lemma active_same x e es s s' : same s s' -> active x e es s -> active x e es s'.
Proof.
  intros (E1 & E2 & E3 & E4 & E5 & E6 & E7) [A1 A2 A3 A4 A5 A6 A7 A8 A9].
  split; rewrite ?E1, ?E2, ?E3, ?E4, ?E5, ?E6; done.
Qed.
Lemma grows_same s s' : same s s' -> quiet s s' -> grows s s'.
Proof. intros (_ & E2 & _ & _ & _ & _ & E7) Q. split_and!; [done|unfold pings; by rewrite E2|done|]. rewrite E2. intros n o Ho. by exists o. Qed.

Lemma kept_same z e es s s' : same s s' -> quiet s s' -> base z s -> active None e es s -> kept z e es s s'.
Proof. intros E Q B A. split_and!; [by eapply base_same|by eapply active_same|by apply grows_same]. Qed.

Lemma kept_trans z e es z' e' es' s1 s2 s3 : kept z e es s1 s2 -> kept z' e' es' s2 s3 -> kept z' e' es' s1 s3.
Proof. intros (_ & _ & G1) (B & A & G2). split_and!; [done|done|by eapply grows_trans]. Qed.

Lemma subnet_same ep s : same s (register_subnet ep s).2 /\ quiet s (register_subnet ep s).2.
Proof.
  unfold register_subnet. destruct (negb _); [split; [done|by apply quiet_silent]|].
  destruct (bool_decide _); (split; [done|by apply quiet_silent]).
Qed.

(** A new observer. *)
Lemma base_grow z k i ep s :
  base z s -> id_ok i ->
  let s' := set_store (store s ++ [mkObserver k i ep 0 0]) s in
  base (z + b2z (is_ping k)) s' /\ pings s' = pings s + b2z (is_ping k).
Proof.
  intros [B1 B2 B3] Hi s'.
  assert (pings s' = pings s + b2z (is_ping k)) as Hpings.
  { unfold pings. cbn [s' set_store store]. rewrite fmap_app, List.filter_app, zlen_app. cbn [fmap list_fmap List.filter kind].
    by destruct k. }
  split; [|done]. split; cbn [s' set_store store pending_ invoke_count_].
  - apply Forall_app. split; [done|]. constructor; [|done]. split; [done|]. by rewrite has_new.
  - intros t p Hp. destruct (B2 t p Hp) as (o & Ho & Ht). exists o. split; [|done]. by apply lookup_app_l_Some.
  - change (pings (set_store _ s)) with (pings s'). lia.
Qed.

Lemma grow_ok z e es k i ep s :
  base z s -> active None e es s -> id_ok i ->
  let s' := set_store (store s ++ [mkObserver k i ep 0 0]) s in
  base (z + b2z (is_ping k)) s' /\ active None e es s' /\ pings s' = pings s + b2z (is_ping k)
  /\ (is_ping k = false -> grows s s').
Proof.
  intros B A Hi s'. pose proof (a_below cfg None e es s A) as Hb.
  destruct (base_grow z k i ep s B Hi) as [B' Hpings]. fold s' in B', Hpings. split_and!; [done| |done|].
  - destruct A as [A1 A2 A3 A4 A5 A6 A7 A8 A9].
    assert (forall n o, n ∈ results_ s -> store s' !! n = Some o -> store s !! n = Some o) as Hold.
    { intros n o Hn. rewrite Forall_forall in Hb. cbn [s' set_store store]. by rewrite lookup_app_l by (by apply Hb). }
    split; cbn [s' set_store store results_ sorted_ invoke_count_ branch_factor_ pending_]; try done.
    + eapply Forall_impl; [exact A2|]. intros n (o & Ho & Hk). exists o. split; [|done]. by apply lookup_app_l_Some.
    + rewrite dists_grow by (by apply Forall_take). done.
    + intros n o Hn Ho. apply (A5 n o Hn). apply Hold; [by eapply subseteq_take|done].
    + by rewrite tally_grow.
    + by rewrite tally_grow.
    + intros n o Hn Ho. apply (A8 n o Hn). by apply Hold.
    + intros t p o Hp Ho Hk. destruct (b_ptr _ _ B t p Hp) as (o' & Ho' & _).
      rewrite lookup_app_l in Ho by (by eapply lookup_lt_Some). by apply (A9 t p o).
  - intros Hk. rewrite Hk, Z.add_0_r in Hpings.
    split_and!; [done|done|by apply quiet_silent|]. intros n o Ho. exists o. split; [|done]. by apply lookup_app_l_Some.
Qed.

(** * Placing a candidate *)

Lemma find_place_ok z x e es i s :
  base z s -> active x e es s -> id_ok i ->
  exists pos there, find_place cfg i s = Ret (pos, there) /\ Z.of_nat pos <= sorted_ s
  /\ Forall (fun d => d < dist i (target_ cfg)) (dists cfg (store s) (take pos (results_ s)))
  /\ Forall (fun d => dist i (target_ cfg) <= d) (dists cfg (store s) (drop pos (ztake (sorted_ s) (results_ s)))).
Proof.
  intros B A Hi. pose proof (a_sorted _ _ _ _ _ A) as Hs. unfold find_place.
  rewrite (proj2 (Z.ltb_ge (sorted_ s) 0)), (proj2 (Z.ltb_ge (zlen (results_ s)) _)) by lia. cbn [orb].
  destruct (deref_ok e es x s (ztake (sorted_ s) (results_ s)) A) as (os & -> & Hos); [apply subseteq_take|].
  cbn [mbind outcome_bind]. pose proof (a_order _ _ _ _ _ A) as Ho. rewrite (dists_Forall2 _ _ _ Hos) in Ho.
  destruct (lower_bound_sorted i os Hi) as (pos & -> & Hle & Hlt & Hge); [|done|].
  { clear Ho. pose proof (b_ids _ _ B) as Hids. rewrite Forall_forall in Hids. induction Hos as [|n o l os Hn _ IH]; [done|].
    constructor; [|done]. apply (Hids o). by eapply list_elem_of_lookup_2. }
  exists pos, (os !! pos). pose proof (Forall2_length _ _ _ Hos) as Hlen. unfold ztake in Hlen. rewrite length_take in Hlen.
  unfold zlen in Hs. split_and!; [done|lia| |].
  - assert (take pos (results_ s) = take pos (ztake (sorted_ s) (results_ s))) as ->.
    { unfold ztake. rewrite take_take. f_equal. lia. }
    rewrite (dists_Forall2 _ _ (take pos os)) by (by apply Forall2_take). by apply Forall_fmap.
  - rewrite (dists_Forall2 _ _ (drop pos os)) by (by apply Forall2_drop). by apply Forall_fmap.
Qed.

Lemma insert_at_perm {A} pos (x : A) l : insert_at pos x l ≡ₚ x :: l.
Proof. unfold insert_at. rewrite <- Permutation_middle. by rewrite take_drop. Qed.

Lemma insert_at_take {A} pos k (x : A) l :
  Z.of_nat pos <= k <= zlen l -> ztake (k + 1) (insert_at pos x l) = insert_at pos x (ztake k l).
Proof.
  intros Hk. unfold insert_at, ztake, zlen in *. rewrite take_take, take_app, length_take.
  replace (Z.to_nat (k + 1)) with (S (Z.to_nat k)) by lia.
  rewrite take_take. f_equal; [f_equal; lia|].
  replace (S (Z.to_nat k) - pos `min` length l)%nat with (S (Z.to_nat k - pos)) by lia. cbn [take]. f_equal.
  by rewrite skipn_firstn_comm.
Qed.

Lemma active_insert e es s n o pos :
  active None e es s -> n ∉ results_ s -> store s !! n = Some o -> kind o = InLookup -> in_flight o = false ->
  (has kInitial o = true -> has kAlive o = true) -> Z.of_nat pos <= sorted_ s ->
  Forall (fun d => d < far cfg o) (dists cfg (store s) (take pos (results_ s))) ->
  Forall (fun d => far cfg o <= d) (dists cfg (store s) (drop pos (ztake (sorted_ s) (results_ s)))) ->
  active None e es (set_results (insert_at pos n (results_ s)) (sorted_ s + 1) s).
Proof.
  intros A Hn Ho Hk Hf HI Hpos Hlt Hge. destruct A as [A1 A2 A3 A4 A5 A6 A7 A8 A9].
  pose proof (insert_at_perm pos n (results_ s)) as Hperm.
  assert (ztake (sorted_ s + 1) (insert_at pos n (results_ s)) = insert_at pos n (ztake (sorted_ s) (results_ s))) as Et
    by (apply insert_at_take; lia).
  assert (take pos (ztake (sorted_ s) (results_ s)) = take pos (results_ s)) as Ep.
  { unfold ztake. rewrite take_take. f_equal. lia. }
  split; cbn [set_results results_ sorted_ invoke_count_ branch_factor_ pending_ store].
  - rewrite Hperm. by constructor.
  - rewrite Hperm. constructor; [by exists o|done].
  - unfold zlen in *. rewrite Hperm. cbn [length]. lia.
  - rewrite Et. unfold insert_at, dists. rewrite Ep, fmap_app. cbn [fmap list_fmap]. rewrite Ho.
    fold (dists cfg (store s) (take pos (results_ s))). 
    change ((fun m => match store s !! m with Some o => far cfg o | None => 0 end) <$> drop pos (ztake (sorted_ s) (results_ s)))
      with (dists cfg (store s) (drop pos (ztake (sorted_ s) (results_ s)))).
    assert (StronglySorted Z.le (dists cfg (store s) (take pos (results_ s)) ++ dists cfg (store s) (drop pos (ztake (sorted_ s) (results_ s))))) as Hs.
    { unfold dists in *. rewrite <- fmap_app, <- Ep, take_drop. exact A4. }
    apply StronglySorted_app in Hs as (Hx & Hl & Hr). apply StronglySorted_app. split_and!; [|done|].
    + intros x1 x2 H1 H2. rewrite Forall_forall in Hlt. specialize (Hlt x1 H1).
      apply elem_of_cons in H2 as [->|H2]; [lia|by apply Hx].
    + apply StronglySorted_cons. by split.
  - intros m o' Hm Ho'. rewrite Et in Hm. rewrite (insert_at_perm pos n) in Hm. apply elem_of_cons in Hm as [->|Hm]; [|exact (A5 m o' Hm Ho')].
    rewrite Ho in Ho'. injection Ho' as <-. exact HI.
  - rewrite (tally_perm _ _ _ _ Hperm), tally_head, Ho, Hf. cbn [b2z]. lia.
  - rewrite (tally_perm _ _ _ _ Hperm), tally_head, Ho. assert (stale o = false) as -> by (clear -Hf; by_flags). cbn [b2z]. lia.
  - intros m o' Hm Ho' Hf'. rewrite Hperm in Hm. apply elem_of_cons in Hm as [->|Hm]; [|exact (A8 m o' Hm Ho' Hf')].
    rewrite Ho in Ho'. injection Ho' as <-. congruence.
  - intros t p o' Hp Ho' Hk'. destruct (A9 t p o' Hp Ho' Hk') as [Hr ?]. split; [|done]. rewrite Hperm. by right.
Qed.

(** Taking out a candidate that is not in flight. *)
Lemma active_delete e es s n o at_ :
  active None e es s -> results_ s !! at_ = Some n -> store s !! n = Some o -> in_flight o = false ->
  active None e es (set_results (delete at_ (results_ s)) (if Z.of_nat at_ <? sorted_ s then sorted_ s - 1 else sorted_ s) s)
  /\ n ∉ delete at_ (results_ s).
Proof.
  intros A Hat Ho Hf. destruct A as [A1 A2 A3 A4 A5 A6 A7 A8 A9].
  pose proof (delete_Permutation _ _ _ Hat) as Hperm. pose proof (lookup_lt_Some _ _ _ Hat) as Hlt.
  assert (n ∉ delete at_ (results_ s)) as Hnot by (rewrite Hperm in A1; by apply NoDup_cons in A1 as [? _]).
  split; [|done].
  assert (exists j, ztake (if Z.of_nat at_ <? sorted_ s then sorted_ s - 1 else sorted_ s) (delete at_ (results_ s))
    = (if Z.of_nat at_ <? sorted_ s then delete j (ztake (sorted_ s) (results_ s)) else ztake (sorted_ s) (results_ s))) as [j Et].
  { exists at_. unfold ztake, zlen in *. rewrite !delete_take_drop. destruct (Z.ltb_spec (Z.of_nat at_) (sorted_ s)).
    - rewrite take_app, length_take, !take_take, skipn_firstn_comm. f_equal; [f_equal; lia|]. f_equal. lia.
    - rewrite take_app, length_take, take_take. replace (Z.to_nat (sorted_ s) - _)%nat with 0%nat by lia.
      cbn [take]. rewrite app_nil_r. f_equal. lia. }
  assert (forall m, m ∈ ztake (if Z.of_nat at_ <? sorted_ s then sorted_ s - 1 else sorted_ s) (delete at_ (results_ s)) ->
    m ∈ ztake (sorted_ s) (results_ s)) as Hin.
  { intros m. rewrite Et. destruct (_ <? _); [|done]. rewrite delete_take_drop. intros [Hm|Hm]%elem_of_app;
      [by eapply subseteq_take|by eapply subseteq_drop]. }
  split; cbn [set_results results_ sorted_ invoke_count_ branch_factor_ pending_ store].
  - rewrite Hperm in A1. by apply NoDup_cons in A1 as [_ ?].
  - rewrite Hperm in A2. by apply Forall_cons in A2 as [_ ?].
  - unfold zlen in *. rewrite length_delete by done. destruct (Z.ltb_spec (Z.of_nat at_) (sorted_ s)); lia.
  - rewrite Et. destruct (_ <? _); [|done]. unfold dists in *. rewrite delete_take_drop.
    rewrite <- (take_drop j (ztake (sorted_ s) (results_ s))), fmap_app in A4. rewrite fmap_app.
    apply StronglySorted_app in A4 as (Hx & Hl & Hr). apply StronglySorted_app.
    assert (drop (S j) (ztake (sorted_ s) (results_ s)) ⊆ drop j (ztake (sorted_ s) (results_ s))) as Hsub.
    { rewrite <- Nat.add_1_r, <- drop_drop. apply subseteq_drop. }
    split_and!; [|done|].
    + intros x1 x2 H1 H2. apply Hx; [done|]. apply list_elem_of_fmap in H2 as (m & -> & Hm).
      apply list_elem_of_fmap. exists m. split; [done|by apply Hsub].
    + rewrite <- Nat.add_1_r, <- drop_drop, fmap_drop.
      eapply (StronglySorted_app_1_r _ (take 1 _)). by rewrite take_drop.
  - intros m o' Hm. apply (A5 m o'). by apply Hin.
  - rewrite A6, (tally_perm _ _ _ _ Hperm), tally_head, Ho, Hf. cbn [b2z]. lia.
  - rewrite A7, (tally_perm _ _ _ _ Hperm), tally_head, Ho. assert (stale o = false) as -> by (clear -Hf; by_flags). cbn [b2z]. lia.
  - intros m o' Hm. apply (A8 m o'). rewrite Hperm. by right.
  - intros t p o' Hp Ho' Hk'. destruct (A9 t p o' Hp Ho' Hk') as [Hr Hf']. split; [|done].
    rewrite Hperm in Hr. apply elem_of_cons in Hr as [Hr|?]; [|done]. rewrite Hr, Ho in Ho'. injection Ho' as <-. congruence.
Qed.

(** The list of candidates grows to a hundred at most. *)
Definition bounded (s s' : State) : Prop := zlen (results_ s') <= Z.max (zlen (results_ s)) kMaxResults.

Lemma bounded_trans s1 s2 s3 : bounded s1 s2 -> bounded s2 s3 -> bounded s1 s3.
Proof. unfold bounded. lia. Qed.

Lemma kept_refl z e es s : base z s -> active None e es s -> kept z e es s s.
Proof. intros B A. split_and!; [done|done|apply grows_refl]. Qed.

Lemma add_entry_ok z e es i ep s :
  base z s -> active None e es s -> 0 <= e -> 0 <= es -> id_ok i ->
  returns (add_entry cfg i ep s) (fun s' => kept z e es s s' /\ bounded s s').
Proof.
  intros B A He Hes Hi. unfold add_entry. destruct (done_ s); [split; [by apply kept_refl|unfold bounded; cbn; lia]|].
  destruct (find_place_ok z None e es i s B A Hi) as (pos & there & -> & Hpos & Hlt & Hge). cbn [mbind outcome_bind].
  destruct (match there with Some o => _ | None => _ end); [split; [by apply kept_refl|unfold bounded; cbn; lia]|].
  pose proof (subnet_same ep s) as [Hsame Q1]. destruct (register_subnet ep s) as [taken s1]. cbn [snd] in Hsame, Q1.
  pose proof Hsame as (_ & Est & Er & Eso & _).
  pose proof (kept_same z e es s s1 Hsame Q1 B A) as K1. pose proof K1 as (B1 & A1 & _).
  destruct taken; [split; [done|unfold bounded; rewrite Er; lia]|].
  unfold make_observer. set (o := mkObserver InLookup i ep 0 0). set (n := length (store s1)).
  destruct (grow_ok z e es InLookup i ep s1 B1 A1 Hi) as (B2 & A2 & _ & G2). cbn [is_ping b2z] in B2. rewrite Z.add_0_r in B2.
  fold o in B2, A2, G2. set (s2 := set_store (store s1 ++ [o]) s1) in *.
  assert (kept z e es s1 s2) as K2 by (split_and!; [done|done|by apply G2]).
  pose proof (a_below cfg None e es s1 A1) as Hb.
  assert (store s2 !! n = Some o) as Hn by (cbn [s2 set_store store]; by apply list_lookup_middle).
  assert (n ∉ results_ s2) as Hnot.
  { intros Hin. change (results_ s2) with (results_ s1) in Hin. rewrite Forall_forall in Hb. specialize (Hb n Hin). unfold n in Hb. lia. }
  assert (active None e es (set_results (insert_at pos n (results_ s2)) (sorted_ s2 + 1) s2)) as A3.
  { apply (active_insert e es s2 n o pos); try done.
    - change (sorted_ s2) with (sorted_ s1). lia.
    - change (results_ s2) with (results_ s1). cbn [s2 set_store store]. rewrite dists_grow by (by apply Forall_take).
      by rewrite Est, Er.
    - change (results_ s2) with (results_ s1). change (sorted_ s2) with (sorted_ s1). cbn [s2 set_store store].
      rewrite dists_grow by (apply Forall_drop; by apply Forall_take). by rewrite Est, Er, Eso. }
  eapply returns_mono; [apply (truncate_ok z e es); [by apply base_set_results|done..]|].
  intros s4 [K4 Hlen]. split.
  - eapply kept_trans; [exact K1|]. eapply kept_trans; [exact K2|]. destruct K4 as (B4 & A4 & G4).
    split_and!; [done|done|]. eapply grows_trans; [apply grows_set_results|done].
  - unfold bounded. cbn [set_results results_] in Hlen. lia.
Qed.

Lemma traverse_ok z e es i ep s :
  base z s -> active None e es s -> 0 <= e -> 0 <= es -> id_ok i ->
  returns (traverse cfg i ep s) (fun s' => kept z e es s s' /\ bounded s s').
Proof.
  intros B A He Hes Hi. unfold traverse. destruct (done_ s); [split; [by apply kept_refl|unfold bounded; cbn; lia]|].
  set (s1 := emit _ s). pose proof (kept_same z e es s s1 ltac:(done) ltac:(by apply quiet_emit) B A) as K1. pose proof K1 as (B1 & A1 & _).
  eapply returns_mono; [by apply (add_entry_ok z e es)|]. intros s2 [K2 Hb]. split; [eapply kept_trans; [exact K1|exact K2]|done].
Qed.

Definition nodes_ok (m : krpc.KrpcMessage) : Prop := Forall (fun k => id_ok (Krpc.id k)) (krpc.nodes m).

Lemma traverse_all_ok z e es ns s :
  base z s -> active None e es s -> 0 <= e -> 0 <= es -> Forall (fun k => id_ok (Krpc.id k)) ns ->
  returns (traverse_all cfg ns s) (fun s' => kept z e es s s' /\ bounded s s').
Proof.
  intros B A He Hes Hns. revert s B A. induction Hns as [|k ns Hk _ IH]; intros s B A; cbn [traverse_all].
  { split; [by apply kept_refl|unfold bounded; lia]. }
  eapply returns_bind; [by apply (traverse_ok z e es)|]. intros s1 [K1 Hb1]. pose proof K1 as (B1 & A1 & _).
  eapply returns_mono; [by apply (IH s1)|]. intros s2 [K2 Hb2]. split; [eapply kept_trans; [exact K1|exact K2]|by eapply bounded_trans].
Qed.

(** A seed is added at the end. *)
Lemma add_seed_ok z e es ep s :
  base z s -> active None e es s ->
  base z (add_seed ep s) /\ active None e es (add_seed ep s) /\ done_ (add_seed ep s) = done_ s
  /\ zlen (results_ (add_seed ep s)) <= zlen (results_ s) + 1 /\ pings (add_seed ep s) = pings s /\ quiet s (add_seed ep s).
Proof.
  intros B A. unfold add_seed. destruct (done_ s) eqn:Hd; [split_and!; [done..|lia|done|by apply quiet_silent]|].
  unfold make_observer. set (o := mkObserver InLookup zero_id ep 0 0). set (n := length (store s)).
  pose proof (grow_ok z e es InLookup zero_id ep s B A ltac:(done)) as (B2 & A2 & P2 & _). cbn [is_ping b2z] in B2, P2. rewrite Z.add_0_r in B2, P2.
  fold o in B2, A2, P2. set (s2 := set_store (store s ++ [o]) s) in *. pose proof (a_below cfg None e es s A) as Hb.
  assert (store s2 !! n = Some o) as Hn by (cbn [s2 set_store store]; by apply list_lookup_middle).
  assert (n ∉ results_ s) as Hnot.
  { intros Hin. rewrite Forall_forall in Hb. specialize (Hb n Hin). unfold n in Hb. lia. }
  split_and!.
  - apply base_set_results. by apply base_flag.
  - destruct A2 as [A1 A3 A4 A5 A6 A7 A8 A9 A10]. set (s3 := update n (set_flag kInitial) s2).
    assert (store s3 !! n = Some (set_flag kInitial o)) as Hn3 by (unfold s3; by rewrite obs_update, decide_True, Hn).
    assert (forall m, m <> n -> store s3 !! m = store s2 !! m) as Hne3 by (intros m Hm; unfold s3; by rewrite obs_update, decide_False).
    assert (forall P, tally P (store s3) (results_ s) = tally P (store s2) (results_ s)) as Ht
      by (intros P; unfold s3; cbn [update set_store store]; by apply tally_alter_notin).
    assert (ztake (sorted_ s) (results_ s ++ [n]) = ztake (sorted_ s) (results_ s)) as Et.
    { change (sorted_ s2) with (sorted_ s) in A4. change (results_ s2) with (results_ s) in A4.
      unfold ztake, zlen in *. rewrite take_app_le; [done|lia]. }
    change (results_ s3) with (results_ s). change (sorted_ s3) with (sorted_ s).
    split; cbn [set_results results_ sorted_ invoke_count_ branch_factor_ pending_ store].
    + apply NoDup_app. split_and!; [done| |apply NoDup_singleton]. intros m Hm ->%list_elem_of_singleton. done.
    + apply Forall_app. split; [|by constructor; [exists (set_flag kInitial o)|]].
      rewrite Forall_forall in A3 |- *. intros m Hm. rewrite Hne3 by (intros ->; done). by apply A3.
    + change (sorted_ s2) with (sorted_ s) in A4. change (results_ s2) with (results_ s) in A4. rewrite zlen_app.
      pose proof (zlen_nonneg [n]). lia.
    + rewrite Et. unfold s3. cbn [update set_store store]. by rewrite dists_alter.
    + intros m o' Hm. rewrite Et in Hm. rewrite Hne3; [by apply A6|]. intros ->. apply Hnot. by eapply subseteq_take.
    + rewrite tally_app, Ht, tally_head, Hn3. replace (in_flight _) with false by (clear; unfold o; by_flags).
      change (invoke_count_ s3) with (invoke_count_ s2). rewrite A7. cbn [b2z tally foldr]. change (results_ s2) with (results_ s). lia.
    + rewrite tally_app, Ht, tally_head, Hn3. replace (stale _) with false by (clear; unfold o; by_flags).
      change (branch_factor_ s3) with (branch_factor_ s2). rewrite A8. cbn [b2z tally foldr]. change (results_ s2) with (results_ s). lia.
    + intros m o' [Hm|Hm]%elem_of_app.
      * rewrite Hne3 by (intros ->; done). by apply (A9 m o').
      * apply list_elem_of_singleton in Hm as ->. rewrite Hn3. intros [= <-] Hf. exfalso. revert Hf. clear. unfold o. by_flags.
    + intros t p o' Hp Ho' Hk'. assert (p_obs p <> n) as Hpn.
      { intros E. destruct (b_ptr _ _ B t p Hp) as (o1 & Ho1 & _). rewrite E in Ho1. apply lookup_lt_Some in Ho1. unfold n in Ho1. lia. }
      rewrite Hne3 in Ho' by done. destruct (A10 t p o' Hp Ho' Hk') as [? ?]. split; [|done]. apply elem_of_app. by left.
  - done.
  - cbn [set_results results_]. change (results_ (update n _ s2)) with (results_ s). rewrite zlen_app. done.
  - rewrite <- P2. change (pings (set_results _ _ ?s)) with (pings s). by rewrite pings_alter.
  - by apply quiet_silent.
Qed.

End Candidates.
