(* ===== verification/LookupRequests.v ===== *)
(** Queries of a DHT lookup: sending them, giving them up, and the end of the lookup. *)

From S2P Require Import Prelude PeerId Address DhtId Bencode Krpc RoutingTable TableClosest.
From S2P Require Import Lookup LookupInvariant LookupCandidates.
Import dht_id lookup.

(** Candidates that are not queried yet, or whose query may still be answered in time. *)
Definition live (o : Observer) : bool := fresh o || idle o.
Definition work (s : State) : Z := tally live (store s) (results_ s).

(** What a wave of queries does: only idle observers change. *)
Definition sends (s s' : State) : Prop :=
  done_ s' = done_ s /\ quiet s s' /\ results_ s' = results_ s /\ sorted_ s' = sorted_ s /\ work s' <= work s
  /\ length (store s') = length (store s)
  /\ forall n o, store s !! n = Some o -> exists o', store s' !! n = Some o' /\ kind o' = kind o /\ oid o' = oid o
     /\ (idle o = false -> flags o' = flags o) /\ (has kAlive o' = has kAlive o).

Lemma sends_silent s s' :
  done_ s' = done_ s -> quiet s s' -> results_ s' = results_ s -> sorted_ s' = sorted_ s -> store s' = store s -> sends s s'.
Proof.
  intros Hd Hq Hr Hs Hst. unfold sends, work. rewrite Hr, Hst. split_and!; try (done || lia). intros n o Ho. by exists o.
Qed.

Lemma idle_flags o o' : flags o' = flags o -> idle o' = idle o /\ fresh o' = fresh o /\ in_flight o' = in_flight o.
Proof. intros E. unfold idle, fresh, in_flight, has. by rewrite E. Qed.

Lemma sends_trans s1 s2 s3 : sends s1 s2 -> sends s2 s3 -> sends s1 s3.
Proof.
  intros (D1 & Q1 & R1 & S1 & W1 & L1 & O1) (D2 & Q2 & R2 & S2 & W2 & L2 & O2).
  split_and!; try congruence; [by eapply quiet_trans|lia|]. intros n o Ho.
  destruct (O1 n o Ho) as (o1 & Ho1 & ? & ? & F1 & ?). destruct (O2 n o1 Ho1) as (o2 & Ho2 & ? & ? & F2 & ?).
  exists o2. split_and!; try congruence. intros Hi. specialize (F1 Hi). destruct (idle_flags _ _ F1) as (Ei & _).
  rewrite F2; [done|congruence].
Qed.

Section Requests.
Context (cfg : Config) (Hfair : fair_draws cfg) (Htarget : id_ok (target_ cfg)).

Abbreviation active := (active cfg).

(** * One query *)

(** The query that is sent puts an idle candidate in flight. *)
Lemma send_active s n o t p k data :
  base 0 s -> active None 0 0 s -> n ∈ results_ s -> store s !! n = Some o -> idle o = true ->
  pending_ s !! t = None -> p_obs p = n ->
  let s1 := update n (set_flag kQueried) s in
  let s2 := update n (set_txn t) (emit (SendTo (p_endpoint p) data) (set_drawn k s1)) in
  let s3 := set_pending (<[t := p]> (pending_ s)) s2 in
  let s' := set_counts (branch_factor_ s) (invoke_count_ s + 1) s3 in
  base 0 s' /\ active None 0 0 s'.
Proof.
  intros B A Hn Ho Hi Ht Hp s1 s2 s3 s'.
  assert (kind o = InLookup) as Hk.
  { destruct (a_obs cfg _ _ _ _ _ A Hn) as (o1 & Ho1 & ?). rewrite Ho in Ho1. by injection Ho1 as <-. }
  pose proof (b_ids _ _ B) as Hids. rewrite Forall_forall in Hids.
  destruct (Hids o) as [Hid Hsq]; [by eapply list_elem_of_lookup_2|].
  set (o' := set_txn t (set_flag kQueried o)).
  assert (forall m, store s' !! m = if decide (m = n) then Some o' else store s !! m) as Hst.
  { intros m. change (store s') with (store s2). unfold s2. rewrite obs_update.
    change (store (emit _ (set_drawn k s1))) with (store s1). unfold s1. rewrite obs_update.
    destruct (decide (m = n)) as [->|]; [by rewrite Ho|done]. }
  assert (store s' = alter (fun _ => o') n (store s)) as Est.
  { apply list_eq. intros m. rewrite Hst. destruct (decide (m = n)) as [->|]; [by rewrite list_lookup_alter_eq, Ho|by rewrite list_lookup_alter_ne]. }
  assert (in_flight o = false /\ in_flight o' = true /\ stale o = false /\ stale o' = false) as (E1 & E2 & E3 & E4).
  { unfold o'. clear -Hi Hsq. by_flags; by specialize (Hsq eq_refl). }
  assert (forall t' q, pending_ s !! t' = Some q -> p_obs q <> n) as Hno.
  { intros t' q Hq E. destruct (b_ptr _ _ B t' q Hq) as (o1 & Ho1 & _). rewrite E, Ho in Ho1. injection Ho1 as <-.
    destruct (a_own _ _ _ _ _ A t' q o Hq) as [_ Hf]; [by rewrite E|done|congruence]. }
  split.
  - assert (base 0 s1) as B1 by (by apply base_flag).
    assert (base (0 + 1) (set_counts (branch_factor_ s) (invoke_count_ s + 1) s1)) as B2.
    { destruct B1 as [C1 C2 C3]. split; [done|done|]. change (pings (set_counts _ _ s1)) with (pings s1).
      change (invoke_count_ (set_counts _ _ s1)) with (invoke_count_ s1 + 1). cbn [set_counts pending_]. lia. }
    eapply base_same; [|eapply (base_insert 0 _ n (set_flag kQueried o) t p (p_endpoint p) k data B2)]; try done.
    change (store (set_counts _ _ s1)) with (store s1). unfold s1. by rewrite obs_update, decide_True, Ho.
  - destruct A as [A1 A2 A3 A4 A5 A6 A7 A8 A9].
    split; cbn [s' s3 s2 s1 set_counts set_pending update set_store emit set_drawn pending_ invoke_count_ branch_factor_ results_ sorted_]; try done.
    + rewrite Forall_forall in A2 |- *. intros m Hm. change (store _) with (store s'). rewrite Hst.
      destruct (decide (m = n)); [by exists o'|by apply A2].
    + change (store _) with (store s'). rewrite Est. unfold dists in *.
      erewrite list_fmap_ext; [exact A4|]. intros _ m _. cbn beta.
      destruct (decide (m = n)) as [->|]; [by rewrite list_lookup_alter_eq, Ho|by rewrite list_lookup_alter_ne].
    + intros m o1 Hm. change (store _) with (store s'). rewrite Hst. destruct (decide (m = n)) as [->|]; [|by apply A5].
      intros [= <-]. unfold o'. rewrite !has_set_txn, !has_set. exact (A5 n o Hm Ho).
    + change (store _) with (store s'). rewrite Est, (tally_alter _ _ _ n _ o), E1, E2, A6 by done. cbn [b2z]. lia.
    + change (store _) with (store s'). rewrite Est, (tally_alter _ _ _ n _ o), E3, E4, A7 by done. cbn [b2z]. lia.
    + intros m o1 Hm. change (store _) with (store s'). rewrite Hst. destruct (decide (m = n)) as [->|Hne].
      * intros [= <-] _ _. exists p. by rewrite lookup_insert_eq.
      * intros Ho1 Hf Hx. destruct (A8 m o1 Hm Ho1 Hf Hx) as (q & Hq & Eq). exists q. split; [|done].
        rewrite lookup_insert_ne; [done|]. intros ->. congruence.
    + intros t' q o1 [[<- <-]|[Hne Hq]]%lookup_insert_Some; change (store _) with (store s'); rewrite Hst.
      * rewrite decide_True by done. intros [= <-] _. by rewrite Hp.
      * rewrite decide_False by (by eapply Hno). by apply (A9 t' q o1).
Qed.

(** Flags of a candidate that is not in flight. *)
Lemma active_settled x e es s n o f :
  active x e es s -> store s !! n = Some o -> in_flight o = false -> in_flight (f o) = false ->
  (forall o, kind (f o) = kind o /\ oid (f o) = oid o) ->
  (has kInitial (f o) = true -> has kInitial o = true) -> (has kAlive o = true -> has kAlive (f o) = true) ->
  active x e es (update n f s).
Proof.
  intros A Ho Hf Hf' Hko HI HA. destruct A as [A1 A2 A3 A4 A5 A6 A7 A8 A9].
  assert (stale o = false /\ stale (f o) = false) as [E1 E2] by (unfold stale; by rewrite Hf, Hf').
  assert (forall P, P o = false -> P (f o) = false -> tally P (store (update n f s)) (results_ s) = tally P (store s) (results_ s)) as Ht.
  { intros P HP HP'. unfold update, set_store. cbn [store]. destruct (decide (n ∈ results_ s)) as [Hn|Hn].
    - rewrite (tally_alter P _ f n _ o), HP, HP' by done. lia.
    - by rewrite tally_alter_notin. }
  split; change (results_ (update n f s)) with (results_ s); change (sorted_ (update n f s)) with (sorted_ s); try done.
  - rewrite Forall_forall in A2 |- *. intros m Hm. rewrite obs_update. destruct (A2 m Hm) as (o1 & Ho1 & Hk1).
    rewrite Ho1. destruct (decide _); [|by exists o1]. exists (f o1). split; [done|]. by rewrite (proj1 (Hko o1)).
  - unfold update, set_store. cbn [store]. rewrite dists_alter by (intros; apply Hko). done.
  - intros m o1 Hm. rewrite obs_update. destruct (decide (m = n)) as [->|]; [|by apply A5]. rewrite Ho. intros [= <-] Hi.
    by apply HA, (A5 n o Hm Ho), HI.
  - rewrite Ht by done. exact A6.
  - rewrite Ht by done. exact A7.
  - intros m o1 Hm. rewrite obs_update. destruct (decide (m = n)) as [->|]; [|by apply (A8 m o1)].
    rewrite Ho. intros [= <-]. by rewrite Hf'.
  - intros t p o1 Hp. rewrite obs_update. destruct (decide (p_obs p = n)) as [E|]; [|by apply (A9 t p o1)].
    rewrite E, Ho. intros [= <-] Hk. rewrite (proj1 (Hko o)) in Hk. destruct (A9 t p o Hp) as [_ ?]; [by rewrite E|done|congruence].
Qed.

Lemma sends_alter s s' n o f :
  active None 0 0 s -> n ∈ results_ s -> store s !! n = Some o -> idle o = true ->
  kind (f o) = kind o -> oid (f o) = oid o -> has kAlive (f o) = has kAlive o ->
  done_ s' = done_ s -> quiet s s' -> results_ s' = results_ s -> sorted_ s' = sorted_ s -> store s' = alter f n (store s) ->
  sends s s'.
Proof.
  intros A Hn Ho Hi Hk Hoid Ha Hd Hq Hr Hs Est. split_and!; try done.
  - unfold work. rewrite Hr, Est, (tally_alter _ _ _ n _ o) by (done || apply (a_nodup _ _ _ _ _ A)).
    unfold live at 2. rewrite Hi, orb_true_r. destruct (live (f o)); cbn [b2z]; lia.
  - by rewrite Est, length_alter.
  - intros m o1 Ho1. rewrite Est. destruct (decide (m = n)) as [->|Hne].
    + rewrite list_lookup_alter_eq, Ho. rewrite Ho in Ho1. injection Ho1 as <-. exists (f o). split_and!; try done. by rewrite Hi.
    + rewrite list_lookup_alter_ne by done. by exists o1.
Qed.

(** * A wave of queries *)

Lemma sends_pings s s' : sends s s' -> pings s' = pings s.
Proof.
  intros (_ & _ & _ & _ & _ & L & O). apply pings_kinds; [done|]. intros n o Ho. destruct (O n o Ho) as (o' & ? & ? & _). by exists o'.
Qed.

(** The number of candidates and pings fits into the space of transaction ids. *)
Definition roomy (s : State) : Prop := zlen (results_ s) + pings s < 65536.

Lemma roomy_size s : base 0 s -> active None 0 0 s -> roomy s -> Z.of_nat (size (pending_ s)) < 65536.
Proof.
  intros B A Hr. pose proof (b_size _ _ B). rewrite (a_count _ _ _ _ _ A) in H. unfold roomy in Hr.
  pose proof (tally_bounds in_flight (store s) (results_ s)). lia.
Qed.

(** What a try to query the idle candidate [n] leaves behind. *)
Definition queried (ok : bool) (n : nat) (s s' : State) : Prop :=
  base 0 s' /\ active None 0 0 s' /\ sends s s'
  /\ branch_factor_ s' = branch_factor_ s /\ invoke_count_ s <= invoke_count_ s'
  /\ exists o', store s' !! n = Some o' /\ idle o' = false /\ fresh o' = ok.

Lemma alter_twice {A} (f g : A -> A) n (l : list A) : alter g n (alter f n l) = alter (fun x => g (f x)) n l.
Proof.
  apply list_eq. intros j. destruct (decide (n = j)) as [<-|]; [|by rewrite !list_lookup_alter_ne].
  rewrite !list_lookup_alter_eq. by destruct (l !! n).
Qed.

Lemma query_unsent s n o k :
  base 0 s -> active None 0 0 s -> n ∈ results_ s -> store s !! n = Some o -> idle o = true ->
  queried false n s (update n (set_flag kFailed) (set_drawn k (update n (set_flag kQueried) s))).
Proof.
  intros B A Hn Ho Hi. set (s' := update _ _ _). assert (in_flight o = false) as Hf by (clear -Hi; by_flags).
  set (f := fun o => set_flag kFailed (set_flag kQueried o)).
  assert (store s' = store (update n f s)) as Est by exact (alter_twice (set_flag kQueried) (set_flag kFailed) n (store s)).
  assert (active None 0 0 (update n f s)) as A'.
  { apply (active_settled None 0 0 s n o f); try done; clear -Hf Hi; unfold f; by_flags. }
  split_and!; try done.
  - apply base_flag; [done|]. apply (base_same _ (update n (set_flag kQueried) s)); [done|]. by apply base_flag.
  - apply (active_same cfg None 0 0 (update n f s)); [|done]. by split_and!.
  - apply (sends_alter s _ n o f); try done; [unfold f; by rewrite !has_set|by apply quiet_silent].
  - rewrite Est. exists (f o). rewrite obs_update, decide_True, Ho by done. split_and!; [done|..]; clear -Hi; unfold f; by_flags.
Qed.

Lemma query_sent s n o t to now k data :
  base 0 s -> active None 0 0 s -> n ∈ results_ s -> store s !! n = Some o -> idle o = true -> pending_ s !! t = None ->
  queried true n s (set_counts (branch_factor_ s) (invoke_count_ s + 1)
    (set_pending (<[t := mkPending n to now]> (pending_ s))
       (update n (set_txn t) (emit (SendTo to data) (set_drawn k (update n (set_flag kQueried) s)))))).
Proof.
  intros B A Hn Ho Hi Ht. destruct (send_active s n o t (mkPending n to now) k data B A Hn Ho Hi Ht eq_refl) as [B' A'].
  set (s' := set_counts _ _ _) in *. pose proof (b_ids _ _ B) as Hids. rewrite Forall_forall in Hids.
  destruct (Hids o) as [_ Hsq]; [by eapply list_elem_of_lookup_2|].
  set (f := fun o => set_txn t (set_flag kQueried o)).
  assert (store s' = store (update n f s)) as Est by exact (alter_twice (set_flag kQueried) (set_txn t) n (store s)).
  split_and!; try done.
  - apply (sends_alter s _ n o f); try done; [unfold f; by rewrite has_set_txn, has_set|].
    split; [done|]. exists [SendTo to data]. split; [done|by constructor].
  - change (invoke_count_ s') with (invoke_count_ s + 1). lia.
  - rewrite Est. exists (f o). rewrite obs_update, decide_True, Ho by done. unfold f. split_and!; [done|..]; clear -Hi Hsq;
      by_flags; by specialize (Hsq eq_refl).
Qed.

(** The outcome of a try to query an idle candidate. *)
Lemma query_ok s n o now :
  base 0 s -> active None 0 0 s -> roomy s -> n ∈ results_ s -> store s !! n = Some o -> idle o = true ->
  exists ok s1, invoke cfg n now (update n (set_flag kQueried) s) = Ret (ok, s1)
  /\ queried ok n s (if (ok : bool) then set_counts (branch_factor_ s1) (invoke_count_ s1 + 1) s1 else update n (set_flag kFailed) s1).
Proof.
  intros B A Hroom Hn Ho Hi. unfold invoke. set (s0 := update n (set_flag kQueried) s).
  assert (store s0 !! n = Some (set_flag kQueried o)) as Ho0 by (unfold s0; by rewrite obs_update, decide_True, Ho).
  rewrite (obs_at_Some n s0 _ Ho0). cbn [mbind outcome_bind]. set (m := krpc.mkMessage _ _ _ _ _ _ _ _ _ _ _ _ _ _ _ _ _).
  generalize m. clear m. intros m.
  destruct (rpc_invoke_spec cfg Hfair m (oep (set_flag kQueried o)) n now s0 (set_flag kQueried o)) as (t & k & Ht & [E|[data E]]);
    [exact (roomy_size s B A Hroom)|done| |].
  all: rewrite E; eexists _, _; (split; [reflexivity|]); cbn beta iota.
  - by apply (query_unsent s n o).
  - by apply (query_sent s n o).
Qed.

(** The candidates up to the last of the [needed] closest that are alive. *)
Fixpoint scanned (st : list Observer) (needed : Z) (l : list nat) : list nat :=
  match l with
  | [] => []
  | n :: l =>
      if needed <=? 0 then []
      else n :: scanned st (match st !! n with Some o => if has kAlive o then needed - 1 else needed | None => needed end) l
  end.

Lemma scanned_ext st st' needed l :
  (forall n o, st !! n = Some o -> exists o', st' !! n = Some o' /\ has kAlive o' = has kAlive o) -> length st' = length st ->
  scanned st' needed l = scanned st needed l.
Proof.
  intros Hst Hl. revert needed. induction l as [|n l IH]; intros needed; cbn [scanned]; [done|].
  destruct (needed <=? 0); [done|]. f_equal. destruct (st !! n) as [o|] eqn:E.
  - destruct (Hst n o E) as (o' & -> & ->). apply IH.
  - apply lookup_ge_None in E. rewrite <- Hl in E. rewrite (proj2 (lookup_ge_None st' n) E). apply IH.
Qed.

Lemma scanned_sends s s' needed l : sends s s' -> scanned (store s') needed l = scanned (store s) needed l.
Proof. intros (_ & _ & _ & _ & _ & L & O). apply scanned_ext; [|done]. intros n o Ho. destruct (O n o Ho) as (o' & ? & ? & ? & ? & ?). by exists o'. Qed.

(** After a wave, the idle candidates it came by found no free slot. *)
Definition slots_taken (needed : Z) (l : list nat) (s : State) : Prop :=
  forall n o, n ∈ scanned (store s) needed l -> store s !! n = Some o -> idle o = true -> branch_factor_ s <= invoke_count_ s.

Lemma idle_fresh o : idle o = true -> fresh o = false.
Proof. intros Hi. by_flags. Qed.

(** The outcome of a wave over [l]: the state it leaves and the fresh queries it counted. *)
Definition wave (needed fr : Z) (l : list nat) (s : State) (r : Z * State) : Prop :=
  let '(fr', s') := r in
  base 0 s' /\ active None 0 0 s' /\ sends s s' /\ fr <= fr' <= fr + tally fresh (store s') l
  /\ branch_factor_ s' = branch_factor_ s /\ invoke_count_ s <= invoke_count_ s' /\ slots_taken needed l s'.

Lemma wave_nil needed fr l s : base 0 s -> active None 0 0 s -> l = [] \/ needed <= 0 -> wave needed fr l s (fr, s).
Proof.
  intros B A Hl. assert (scanned (store s) needed l = []) as Hsc.
  { destruct Hl as [->|Hle]; [done|]. destruct l; [done|]. cbn [scanned]. by rewrite (proj2 (Z.leb_le _ _)). }
  unfold wave. split_and!; [done|done|apply sends_silent; (done || by apply quiet_silent)|lia| |done|done|].
  - pose proof (tally_bounds fresh (store s) l). lia.
  - intros n o. rewrite Hsc. intros Hn. by apply not_elem_of_nil in Hn.
Qed.

(** The head of the list was looked at, or queried before, or just now in [s1]. *)
Lemma wave_cons needed fr n l s s1 o r :
  sends s s1 -> branch_factor_ s1 = branch_factor_ s -> invoke_count_ s <= invoke_count_ s1 -> 0 < needed ->
  store s1 !! n = Some o -> (idle o = true -> branch_factor_ s1 <= invoke_count_ s1) ->
  wave (if has kAlive o then needed - 1 else needed) (fr + b2z (fresh o)) l s1 r -> wave needed fr (n :: l) s r.
Proof.
  intros S1 Hb1 Hi1 Hneed Ho Hidle. destruct r as [f2 s2]. intros (B2 & A2 & S2 & (F1 & F2) & Hb & Hi & Hslots).
  pose proof S2 as (_ & _ & _ & _ & _ & _ & O2). destruct (O2 n o Ho) as (o2 & Ho2 & _ & _ & Hfl & Hal).
  unfold wave. split_and!; [done|done|by eapply sends_trans|destruct (fresh o); cbn in *; lia| |congruence|lia|].
  - rewrite tally_head, Ho2. assert (b2z (fresh o) <= b2z (fresh o2)); [|lia].
    destruct (idle o) eqn:Ei; [rewrite idle_fresh by done; destruct (fresh o2); cbn; lia|].
    destruct (idle_flags o o2 (Hfl eq_refl)) as (_ & -> & _). lia.
  - intros m o' Hm Ho' Him. cbn [scanned] in Hm. rewrite (proj2 (Z.leb_gt _ _)), Ho2, Hal in Hm by done.
    apply elem_of_cons in Hm as [->|Hm]; [|by apply (Hslots m o')]. rewrite Ho2 in Ho'. injection Ho' as <-.
    destruct (idle o) eqn:Ei; [specialize (Hidle eq_refl); lia|]. destruct (idle_flags o o2 (Hfl eq_refl)) as (E & _). congruence.
Qed.

Lemma sends_refl s : sends s s.
Proof. apply sends_silent; (done || by apply quiet_silent). Qed.

Lemma request_loop_ok l : forall needed fr now s,
  base 0 s -> active None 0 0 s -> roomy s -> l ⊆ results_ s ->
  returns (request_loop cfg l needed fr now s) (wave needed fr l s).
Proof.
  induction l as [|n l IH]; intros needed fr now s B A Hroom Hl; cbn [request_loop]; [apply wave_nil; by auto|].
  destruct (Z.leb_spec needed 0); [apply wave_nil; by auto|].
  assert (n ∈ results_ s) as Hn by (apply Hl; by left). assert (l ⊆ results_ s) as Hl' by (intros m Hm; apply Hl; by right).
  destruct (a_obs cfg _ _ _ _ _ A Hn) as (o & Ho & _). rewrite (obs_at_Some n s o Ho). cbn [mbind outcome_bind].
  assert (forall needed' fr', needed' = (if has kAlive o then needed - 1 else needed) -> fr' = fr + b2z (fresh o) ->
    (idle o = true -> branch_factor_ s <= invoke_count_ s) ->
    returns (request_loop cfg l needed' fr' now s) (wave needed fr (n :: l) s)) as Hpass.
  { intros needed' fr' -> -> Hidle. eapply returns_mono; [by apply IH|]. intros r. by apply wave_cons; [apply sends_refl|..]. }
  destruct (has kAlive o) eqn:Ea; [apply Hpass; try done; clear -Ea; by_flags|].
  destruct (has kFailed o || has kDone o) eqn:Efd; [apply Hpass; try done; clear -Ea Efd; by_flags|].
  destruct (has kQueried o) eqn:Eq; [apply Hpass; try done; clear -Ea Efd Eq; by_flags|].
  destruct (Z.leb_spec (branch_factor_ s) (invoke_count_ s)); [apply Hpass; try done; clear -Ea Efd Eq; by_flags|].
  assert (idle o = true) as Hi by (clear -Ea Efd Eq; by_flags).
  destruct (query_ok s n o now B A Hroom Hn Ho Hi) as (ok & s1 & -> & (B2 & A2 & S2 & Hb2 & Hc2 & o2 & Ho2 & Hi2 & Hf2)).
  cbn [mbind outcome_bind]. pose proof S2 as (_ & _ & Hr2 & _ & _ & _ & O2).
  assert (has kAlive o2 = false) as Ha2 by (destruct (O2 n o Ho) as (o3 & Ho3 & _ & _ & _ & Hal); congruence).
  set (s2 := if ok then _ else _) in *.
  assert (returns (request_loop cfg l needed (fr + b2z ok) now s2) (wave needed fr (n :: l) s)) as Hgoal.
  { eapply returns_mono; [apply IH; try done; [unfold roomy; by rewrite Hr2, (sends_pings s s2)|by rewrite Hr2]|].
    intros r Hw. apply (wave_cons _ _ _ _ _ s2 o2); try done; [by rewrite Hi2|]. by rewrite Ha2, Hf2. }
  destruct ok; cbn [b2z] in Hgoal; [exact Hgoal|]. by rewrite Z.add_0_r in Hgoal.
Qed.

End Requests.
