(* ===== verification/LookupFinish.v ===== *)
(** The end of a DHT lookup: abandoning what is in flight, announcing, and the completion
    callback. *)

From S2P Require Import Prelude PeerId Address DhtId Bencode Krpc RoutingTable TableClosest.
From S2P Require Import Lookup LookupInvariant LookupCandidates LookupRequests.
Import dht_id lookup.

Section Finish.
Context (cfg : Config) (Hfair : fair_draws cfg) (Htarget : id_ok (target_ cfg)).

Abbreviation active := (active cfg).

(** * The end of a lookup *)

(** Abandoned before the short timeout. *)
Definition cut (o : Observer) : bool :=
  has kQueried o && negb (has kAlive o) && negb (has kFailed o) && has kDone o && negb (has kShortTimeout o).

(** No outstanding query belongs to the lookup. *)
Definition no_lookup (s : State) : Prop :=
  forall t p o, pending_ s !! t = Some p -> store s !! p_obs p = Some o -> kind o = IsPing.

(** All the closest candidates were queried, unless farther queries took all the slots. *)
Definition converged (s : State) : Prop :=
  forall n o, n ∈ scanned (store s) kBucketSize (results_ s) -> store s !! n = Some o -> idle o = true ->
  kAlpha <= tally cut (store s) (results_ s).

Lemma base_weaken z z' s : base z s -> z' <= z -> base z' s.
Proof. intros [B1 B2 B3] Hz. split; [done|done|lia]. Qed.

(** The observers after the candidates in [l] were abandoned. *)
Definition closes (l : list nat) (s s' : State) : Prop :=
  done_ s' = done_ s /\ quiet s s' /\ log s' = log s /\ results_ s' = results_ s /\ invoke_count_ s' = invoke_count_ s
  /\ tokens_ s' = tokens_ s /\ length (store s') = length (store s)
  /\ forall n o, store s !! n = Some o ->
     store s' !! n = Some (if bool_decide (n ∈ l) && in_flight o then set_flag kDone o else o).

Lemma abandon_ok n l s :
  base 0 s -> n ∉ l -> (exists o, store s !! n = Some o) ->
  (forall t p o, pending_ s !! t = Some p -> store s !! p_obs p = Some o -> kind o = InLookup -> p_obs p ∈ n :: l /\ in_flight o = true) ->
  returns (abandon n s) (fun s' => base 0 s' /\ closes [n] s s'
    /\ forall t p o, pending_ s' !! t = Some p -> store s' !! p_obs p = Some o -> kind o = InLookup -> p_obs p ∈ l /\ in_flight o = true).
Proof.
  intros B Hnl (o & Ho) Hown. unfold abandon. rewrite (obs_at_Some n s o Ho). cbn [mbind outcome_bind].
  destruct (in_flight o) eqn:Hf.
  - set (s1 := update n (set_flag kDone) s). assert (base 0 s1) as B1 by by apply base_flag.
    assert (store s1 !! n = Some (set_flag kDone o)) as Ho1 by (unfold s1; by rewrite obs_update, decide_True, Ho).
    assert (closes [n] s s1) as C1.
    { split_and!; try done; [by apply quiet_silent|unfold s1; cbn [update set_store store]; by rewrite length_alter|].
      intros m o' Ho'. unfold s1. rewrite obs_update, Ho'. destruct (decide (m = n)) as [->|Hne].
      - rewrite Ho in Ho'. injection Ho' as <-. by rewrite bool_decide_true, Hf by (by left).
      - by rewrite bool_decide_false by (by intros ?%list_elem_of_singleton). }
    assert (forall t p o, pending_ s !! t = Some p -> store s1 !! p_obs p = Some o -> kind o = InLookup -> p_obs p <> n ->
      p_obs p ∈ l /\ in_flight o = true) as Hrest.
    { intros t p o' Hp Ho' Hk Hne. unfold s1 in Ho'. rewrite obs_update, decide_False in Ho' by done.
      destruct (Hown t p o' Hp Ho' Hk) as [[?|?]%elem_of_cons ?]; [done|done]. }
    destruct (cancel_spec 0 n s1 _ B1 Ho1) as [(p & Hp & Hpn & ->)|[Hnone ->]].
    + split_and!; [by eapply base_weaken; [by eapply base_take|lia]|exact C1|].
      intros t q o' Hq Ho' Hk. apply (lookup_delete_Some (pending_ s1)) in Hq as [Hne Hq]. eapply Hrest; [exact Hq|done..|].
      intros E. apply Hne. eapply (pending_inj 0 s1 _ t p q); [done..|congruence].
    + split_and!; [done|exact C1|]. intros t q o' Hq Ho' Hk. eapply Hrest; [exact Hq|done..|]. by eapply Hnone.
  - split_and!; [done| |].
    + split_and!; try done; [by apply quiet_silent|]. intros m o' Ho'. destruct (decide (m = n)) as [->|Hne].
      * rewrite Ho in Ho'. injection Ho' as <-. by rewrite Hf, andb_false_r.
      * by rewrite bool_decide_false by (by intros ?%list_elem_of_singleton).
    + intros t q o' Hq Ho' Hk. destruct (Hown t q o' Hq Ho' Hk) as [[E|?]%elem_of_cons ?]; [|done].
      rewrite E, Ho in Ho'. injection Ho' as <-. congruence.
Qed.

Lemma each_abandon_ok l s :
  base 0 s -> NoDup l -> Forall (fun n => exists o, store s !! n = Some o) l ->
  (forall t p o, pending_ s !! t = Some p -> store s !! p_obs p = Some o -> kind o = InLookup -> p_obs p ∈ l /\ in_flight o = true) ->
  returns (each abandon l s) (fun s' => base 0 s' /\ closes l s s' /\ no_lookup s').
Proof.
  revert s. induction l as [|n l IH]; intros s B Hnd Hl Hown; cbn [each].
  { split_and!; [done| |].
    - split_and!; try done; by apply quiet_silent.
    - intros t p o Hp Ho. destruct (kind o) eqn:Hk; [|done]. destruct (Hown t p o Hp Ho Hk) as [Hn _]. by apply not_elem_of_nil in Hn. }
  apply NoDup_cons in Hnd as [Hnl Hnd]. apply Forall_cons in Hl as [Hn Hl].
  eapply returns_bind; [by apply (abandon_ok n l s)|]. intros s1 (B1 & C1 & Hown1).
  pose proof C1 as (D1 & Q1 & Lg1 & R1 & I1 & T1 & L1 & O1).
  eapply returns_mono; [apply (IH s1); try done|].
  { eapply Forall_impl; [exact Hl|]. intros m (o & Ho). eexists. by apply O1. }
  intros s2 (B2 & (D2 & Q2 & Lg2 & R2 & I2 & T2 & L2 & O2) & N2). split_and!; [done| |done].
  split_and!; try congruence; [by eapply quiet_trans|]. intros m o Ho. rewrite (O2 m _ (O1 m o Ho)). f_equal.
  destruct (decide (m = n)) as [->|Hne].
  - rewrite (bool_decide_false (n ∈ l)), (bool_decide_true (n ∈ [n])), (bool_decide_true (n ∈ n :: l)) by (done || by left).
    by rewrite andb_false_l.
  - rewrite (bool_decide_false (m ∈ [n])) by (by intros ?%list_elem_of_singleton). cbn [andb].
    rewrite (bool_decide_ext (m ∈ n :: l) (m ∈ l)); [done|]. rewrite elem_of_cons. naive_solver.
Qed.

(** [send_oneshot] only draws a transaction id and sends. *)
Definition oneshots (s s' : State) : Prop :=
  exists k l, s' = mkState (pending_ s) k (store s) (results_ s) (sorted_ s) (branch_factor_ s) (invoke_count_ s) (done_ s)
    (subnet4_ s) (subnet6_ s) (tokens_ s) (peers_ s) (log s ++ l) /\ Forall is_quiet l.

Lemma oneshots_refl s : oneshots s s.
Proof. exists (drawn s), []. rewrite app_nil_r. split; [by destruct s|done]. Qed.
Lemma oneshots_trans s1 s2 s3 : oneshots s1 s2 -> oneshots s2 s3 -> oneshots s1 s3.
Proof.
  intros (k1 & l1 & -> & F1) (k2 & l2 & -> & F2). exists k2, (l1 ++ l2). cbn. rewrite app_assoc. split; [done|by apply Forall_app].
Qed.
Lemma oneshots_same s s' : oneshots s s' -> same s s' /\ quiet s s' /\ tokens_ s' = tokens_ s.
Proof. intros (k & l & -> & F). split_and!; try done. split; [done|by exists l]. Qed.

Lemma send_oneshot_ok m to s : oneshots s (send_oneshot cfg m to s).
Proof.
  assert (forall tries s, exists t k, draw_loop cfg tries s = (t, set_drawn k s)) as Hdraw.
  { clear. induction tries as [|tries IH]; intros s; cbn [draw_loop]; [by eauto|]. destruct (decide _); [by eauto|].
    destruct (IH (set_drawn (S (drawn s)) s)) as (t & k & ->). by eauto. }
  unfold send_oneshot, next_txn. destruct (Hdraw (Z.to_nat 65536) s) as (t & k & ->).
  destruct (encoded _) as [|b data]; [exists k, []|exists k, [SendTo to (b :: data)]]; rewrite ?app_nil_r; (split; [done|]).
  - done.
  - by constructor.
Qed.

Lemma announce_loop_ok l port implied : forall announced s,
  Forall (fun n => exists o, store s !! n = Some o) l ->
  returns (announce_loop cfg l port implied announced s) (oneshots s).
Proof.
  induction l as [|n l IH]; intros announced s Hl; cbn [announce_loop]; [apply oneshots_refl|].
  destruct (kBucketSize <=? announced); [apply oneshots_refl|]. apply Forall_cons in Hl as [(o & Ho) Hl].
  rewrite (obs_at_Some n s o Ho). cbn [mbind outcome_bind]. destruct (negb (has kAlive o)); [by apply IH|].
  destruct (tokens_ s !! oid o) as [token|]; [|by apply IH]. set (s1 := send_oneshot cfg _ _ s).
  assert (oneshots s s1) as H1 by apply send_oneshot_ok. pose proof (oneshots_same _ _ H1) as ((_ & E & _) & _).
  eapply returns_mono; [apply (IH _ s1); by rewrite E|]. intros s2. by apply oneshots_trans.
Qed.

(** The completion callback. *)
Definition farewell (ps : list Address) : list Effect := if on_done_ cfg then [OnDone ps] else [].

(** A lookup that is over: none of its queries is outstanding. *)
Definition over (s : State) : Prop :=
  done_ s = true /\ base 0 s /\ no_lookup s /\ converged s
  /\ (invoke_count_ s <= zlen (results_ s) /\ Forall (fun n => (n < length (store s))%nat) (results_ s)).

(** The end of a lookup. *)
Definition ends (s s' : State) : Prop :=
  over s' /\ results_ s' = results_ s /\ peers_ s' = peers_ s
  /\ (exists l, log s' = log s ++ l ++ farewell (peers_ s) /\ Forall is_quiet l)
  /\ length (store s') = length (store s)
  /\ forall n o, store s !! n = Some o -> exists o', store s' !! n = Some o' /\ kind o' = kind o.

Lemma on_complete_ok s : 
  over s -> Forall (fun n => exists o, store s !! n = Some o) (results_ s) -> returns (on_complete cfg s) (ends s).
Proof.
  intros (D & B & N & C & I) Hl. unfold on_complete.
  eapply (returns_bind _ _ (oneshots s)).
  { destruct (announce_ cfg) as [[port implied]|]; [by apply announce_loop_ok|apply oneshots_refl]. }
  intros s1 H1. pose proof (oneshots_same _ _ H1) as (S1 & Q1 & _). pose proof S1 as (E1 & E2 & E3 & E4 & E5 & E6 & E7).
  destruct Q1 as (P1 & l & L1 & F1).
  set (s2 := if on_done_ cfg then _ else _).
  assert (same s1 s2) as S2 by (unfold s2; by destruct (on_done_ cfg)).
  assert (base 0 s2) as B2 by (by eapply base_same; [exact S2|eapply base_same; [exact S1|]]).
  destruct S2 as (E1' & E2' & E3' & E4' & E5' & E6' & E7'). cbn [returns]. split_and!.
  - split; [congruence|]. split; [done|]. split; [|split; [|by rewrite E6', E6, E3', E3, E2', E2]].
    + unfold no_lookup in *. by rewrite E1', E1, E2', E2.
    + unfold converged in *. by rewrite E3', E3, E2', E2.
  - congruence.
  - unfold s2. by destruct (on_done_ cfg).
  - exists l. unfold s2, farewell. rewrite <- P1. destruct (on_done_ cfg); cbn [emit log]; rewrite L1, ?app_nil_r, ?app_assoc; done.
  - congruence.
  - intros n o Ho. exists o. by rewrite E2', E2.
Qed.

Lemma tally_le P Q st st' l :
  (forall n o, n ∈ l -> st !! n = Some o -> P o = true -> exists o', st' !! n = Some o' /\ Q o' = true) -> tally P st l <= tally Q st' l.
Proof.
  induction l as [|n l IH]; intros Hl; [done|]. rewrite !tally_head.
  assert (tally P st l <= tally Q st' l) by (apply IH; intros m o Hm; apply Hl; by right).
  destruct (st !! n) as [o|] eqn:E; [destruct (P o) eqn:EP|].
  - destruct (Hl n o) as (o' & -> & ->); [by left|done|done|]. cbn. lia.
  - destruct (st' !! n) as [o'|]; [destruct (Q o')|]; cbn; lia.
  - destruct (st' !! n) as [o'|]; [destruct (Q o')|]; cbn; lia.
Qed.

(** Abandoning what is in flight keeps the reason for the idle candidates left. *)
Lemma closes_converged s s' :
  active None 0 0 s -> slots_taken kBucketSize (results_ s) s -> closes (results_ s) (set_done s) s' -> converged s'.
Proof.
  intros A Hslots (_ & _ & _ & R & _ & _ & L & O) n o' Hn Ho' Hi.
  change (results_ (set_done s)) with (results_ s) in R. change (store (set_done s)) with (store s) in L, O.
  assert (exists o, store s !! n = Some o /\ has kAlive o' = has kAlive o /\ idle o = true) as (o & Ho & Ha & Hio).
  { assert (n < length (store s))%nat as (o & Ho)%lookup_lt_is_Some_2 by (rewrite <- L; by eapply lookup_lt_Some).
    exists o. rewrite (O n o Ho) in Ho'. injection Ho' as <-. split; [done|]. clear -Hi.
    destruct (bool_decide _ && in_flight o) eqn:E; [|done]. apply andb_prop in E as [_ E]. exfalso. by_flags. }
  rewrite R in Hn |- *. rewrite (scanned_ext (store s)) in Hn; [| |done].
  2:{ intros m p Hp. rewrite (O m p Hp). eexists. split; [done|]. destruct (_ && _); [by rewrite has_set|done]. }
  pose proof (Hslots n o Hn Ho Hio) as Hle. rewrite (a_count _ _ _ _ _ A), (a_branch _ _ _ _ _ A) in Hle.
  assert (tally in_flight (store s) (results_ s) = tally stale (store s) (results_ s) + tally fresh (store s) (results_ s)) as Hsum.
  { clear. induction (results_ s) as [|m l IH]; [done|]. rewrite !tally_head. destruct (store s !! m) as [p|]; [|lia].
    assert (b2z (in_flight p) = b2z (stale p) + b2z (fresh p)); [|lia]. unfold stale, fresh. destruct (in_flight p), (has kShortTimeout p); done. }
  assert (tally fresh (store s) (results_ s) <= tally cut (store s') (results_ s)); [|lia].
  apply tally_le. intros m p Hm Hp Hf. rewrite (O m p Hp), bool_decide_true by done. cbn [andb].
  eexists. split; [done|]. assert (in_flight p = true) as Hp' by (clear -Hf; by_flags). rewrite Hp'. unfold cut. clear -Hf. by_flags.
Qed.

Lemma finish_ok s :
  base 0 s -> active None 0 0 s -> done_ s = false -> slots_taken kBucketSize (results_ s) s ->
  returns (finish cfg s) (ends s).
Proof.
  intros B A Hd Hslots. unfold finish. rewrite Hd.
  assert (Forall (fun n => exists o, store s !! n = Some o) (results_ s)) as Hptr.
  { eapply Forall_impl; [exact (a_ptr _ _ _ _ _ A)|]. intros n (o & Ho & _). by exists o. }
  eapply returns_bind; [apply (each_abandon_ok (results_ s) (set_done s)); try done|].
  { by destruct B. }
  { exact (a_nodup _ _ _ _ _ A). }
  { exact (a_own _ _ _ _ _ A). }
  intros s1 (B1 & C1 & N1). assert (converged s1) as V1 by (eapply (closes_converged s); [done|done|]; exact C1).
  destruct C1 as (D1 & Q1 & L1 & R1 & I1 & _ & Ln1 & O1).
  change (results_ (set_done s)) with (results_ s) in *. change (store (set_done s)) with (store s) in *.
  change (invoke_count_ (set_done s)) with (invoke_count_ s) in *. change (log (set_done s)) with (log s) in *.
  eapply returns_mono; [apply on_complete_ok|].
  - split_and!; try done.
    + rewrite I1, R1, (a_count _ _ _ _ _ A). pose proof (tally_bounds in_flight (store s) (results_ s)). lia.
    + rewrite Ln1, R1. exact (a_below _ _ _ _ _ A).
  - rewrite R1. eapply Forall_impl; [exact Hptr|]. intros n (o & Ho). eexists. by apply O1.
  - intros s2 (V2 & R2 & P2 & (l & L2 & F2) & Ln2 & O2). destruct Q1 as [P1 _].
    change (peers_ (set_done s)) with (peers_ s) in P1. split_and!; try congruence; try done.
    + exists l. rewrite L2, L1, P1. done.
    + intros n o Ho. destruct (O2 n _ (O1 n o Ho)) as (o' & Ho' & Hk'). exists o'. split; [done|]. rewrite Hk'. by destruct (_ && _).
Qed.

(** * A wave, and the end if it leaves nothing to wait for *)

Definition runs (s : State) : Prop :=
  done_ s = false /\ base 0 s /\ active None 0 0 s /\ 0 < tally fresh (store s) (results_ s).

Lemma proceed_ok now s :
  base 0 s -> active None 0 0 s -> done_ s = false -> roomy s ->
  returns (proceed cfg now s) (fun s' => runs s' /\ sends s s' \/ ends s s').
Proof.
  intros B A Hd Hroom. unfold proceed, add_requests. rewrite Hd.
  pose proof (request_loop_ok cfg Hfair (results_ s) kBucketSize 0 now s B A Hroom ltac:(done)) as Hw.
  destruct (request_loop _ _ _ _ _ _) as [[fr s1]| |]; [|done..]. cbn [mbind outcome_bind returns] in *.
  destruct Hw as (B1 & A1 & S1 & (F1 & F2) & _ & _ & Hslots). pose proof S1 as (D1 & Q1 & R1 & _ & _ & L1 & O1).
  destruct (Z.eqb_spec fr 0) as [->|Hne].
  - eapply returns_mono; [apply finish_ok; try done; [congruence|by rewrite R1]|].
    intros s2 (V2 & R2 & P2 & (l & L2 & Fl) & Ln2 & O2). right. destruct Q1 as (P1 & l1 & Lg1 & Fl1).
    split_and!; try congruence; try done.
    + exists (l1 ++ l). rewrite L2, Lg1, P1, <- !app_assoc. split; [done|by apply Forall_app].
    + intros n o Ho. destruct (O1 n o Ho) as (o1 & Ho1 & Hk1 & _). destruct (O2 n o1 Ho1) as (o2 & Ho2 & Hk2). exists o2. by rewrite <- Hk1.
  - left. split; [|done]. split_and!; try done; [congruence|]. rewrite R1. lia.
Qed.

End Finish.
