(* ===== verification/LookupEvents.v ===== *)
(** What happens to the queries of a DHT lookup: short and full timeouts, replies. *)

From S2P Require Import Prelude PeerId Address DhtId Bencode Krpc RoutingTable TableClosest.
From S2P Require Import Lookup LookupInvariant LookupCandidates LookupRequests LookupFinish.
Import dht_id lookup.

(** Steps of a running lookup that settle the queries of the observers [l] and send others. *)
Definition moves (l : list nat) (s s' : State) : Prop :=
  done_ s' = done_ s /\ quiet s s' /\ results_ s' = results_ s /\ length (store s') = length (store s) /\ work s' <= work s
  /\ forall n o, store s !! n = Some o -> exists o', store s' !! n = Some o' /\ kind o' = kind o
     /\ (has kQueried o = true -> has kQueried o' = true) /\ (n ∉ l -> idle o = false -> flags o' = flags o).

Lemma queried_busy o : has kQueried o = true -> idle o = false.
Proof. intros Hq. unfold idle. by rewrite Hq. Qed.

Lemma moves_refl l s : moves l s s.
Proof. split_and!; try (done || lia); [by apply quiet_silent|]. intros n o Ho. by exists o. Qed.

Lemma moves_trans l1 l2 s1 s2 s3 : moves l1 s1 s2 -> moves l2 s2 s3 -> moves (l1 ++ l2) s1 s3.
Proof.
  intros (D1 & Q1 & R1 & L1 & W1 & O1) (D2 & Q2 & R2 & L2 & W2 & O2).
  split_and!; try congruence; [by eapply quiet_trans|lia|]. intros n o Ho.
  destruct (O1 n o Ho) as (o1 & Ho1 & K1 & U1 & F1). destruct (O2 n o1 Ho1) as (o2 & Ho2 & K2 & U2 & F2).
  exists o2. split_and!; [done|congruence|by auto|]. intros Hn Hi. apply not_elem_of_app in Hn as [Hn1 Hn2].
  specialize (F1 Hn1 Hi). destruct (idle_flags _ _ F1) as (Ei & _). rewrite F2; [done|done|congruence].
Qed.

Lemma sends_moves l s s' : sends s s' -> moves l s s'.
Proof.
  intros (D & Q & R & _ & W & L & O). split_and!; try done. intros n o Ho. destruct (O n o Ho) as (o' & Ho' & K & _ & F & _).
  exists o'. split_and!; [done|done| |by auto]. intros Hq. unfold has in *. rewrite F; [done|by apply queried_busy].
Qed.

Lemma moves_pings l s s' : moves l s s' -> pings s' = pings s.
Proof.
  intros (_ & _ & _ & L & _ & O). apply pings_kinds; [done|]. intros n o Ho. destruct (O n o Ho) as (o' & ? & ? & _). by exists o'.
Qed.

(** Setting a flag of a queried candidate other than its liveness. *)
Lemma moves_flag n o f s s' :
  store s !! n = Some o -> has kQueried o = true -> f = kShortTimeout \/ f = kFailed ->
  NoDup (results_ s) -> n ∈ results_ s ->
  done_ s' = done_ s -> quiet s s' -> results_ s' = results_ s -> store s' = store (update n (set_flag f) s) ->
  moves [n] s s' /\ work s' + b2z (fresh o) <= work s.
Proof.
  intros Ho Hq Hf Hnd Hn Hd Q R E.
  assert (work s' = work s - b2z (live o) + b2z (live (set_flag f o))) as Hw.
  { unfold work. rewrite R, E. unfold update, set_store. cbn [store]. by apply tally_alter. }
  assert (b2z (live (set_flag f o)) + b2z (fresh o) <= b2z (live o)) as Hl
    by (destruct Hf as [->| ->]; clear -Hq; unfold live; by_flags).
  assert (0 <= b2z (fresh o)) by (destruct (fresh o); cbn; lia).
  split; [|lia]. split_and!; try done; [|lia|].
  - rewrite E. unfold update, set_store. cbn [store]. by rewrite length_alter.
  - intros m o' Ho'. rewrite E, obs_update. destruct (decide (m = n)) as [->|Hne]; [|exists o'; by rewrite Ho'].
    rewrite Ho'. eexists. split_and!; [done|done| |].
    + intros Hq'. rewrite has_set, Hq'. apply orb_true_r.
    + intros Hm. exfalso. apply Hm. by left.
Qed.

Section Events.
Context (cfg : Config) (Hfair : fair_draws cfg) (Htarget : id_ok (target_ cfg)).

Abbreviation active := (active cfg).
Abbreviation ends := (ends cfg).
Abbreviation runs := (runs cfg).

Lemma moves_ends l s s1 s2 : moves l s s1 -> ends s1 s2 -> ends s s2.
Proof.
  intros (D1 & (P1 & l1 & Lg1 & F1) & R1 & L1 & W1 & O1) (V2 & R2 & P2 & (l2 & Lg2 & F2) & L2 & O2).
  split_and!; try congruence; try done.
  - exists (l1 ++ l2). rewrite Lg2, Lg1, P1, <- !app_assoc. split; [done|by apply Forall_app].
  - intros n o Ho. destruct (O1 n o Ho) as (o1 & Ho1 & K1 & _). destruct (O2 n o1 Ho1) as (o2 & Ho2 & K2). exists o2. by rewrite K2.
Qed.

(** * Timeouts *)

(** A step that settles the query of [n], whose observer is [o]: the lookup goes on with less
    to wait for, or ends. *)
Definition timed (n : nat) (o : Observer) (s s' : State) : Prop :=
  runs s' /\ moves [n] s s' /\ work s' + b2z (fresh o) <= work s \/ ends s s'.

Lemma timed_proceed n o now s s1 :
  base 0 s1 -> active None 0 0 s1 -> done_ s1 = false -> roomy s ->
  moves [n] s s1 -> work s1 + b2z (fresh o) <= work s ->
  returns (proceed cfg now s1) (timed n o s).
Proof.
  intros B A Hd Hroom M W. eapply returns_mono; [apply (proceed_ok cfg Hfair now s1); try done|].
  { unfold roomy. rewrite (moves_pings _ _ _ M). destruct M as (_ & _ & -> & _). exact Hroom. }
  intros s2 [[R2 S2]|E2]; [left|right; by eapply moves_ends].
  pose proof (sends_moves [] _ _ S2) as M2. split_and!; [done| |].
  - rewrite <- (app_nil_r [n]). by eapply moves_trans.
  - destruct S2 as (_ & _ & _ & _ & W2 & _). lia.
Qed.

(** Past its short timeout a query takes no slot any more. *)
Lemma stale_ok s n o :
  active None 0 0 s -> n ∈ results_ s -> store s !! n = Some o -> fresh o = true ->
  active None 0 0 (set_counts (branch_factor_ s + 1) (invoke_count_ s) (update n (set_flag kShortTimeout) s)).
Proof.
  intros [A1 A2 A3 A4 A5 A6 A7 A8 A9] Hn Ho Hf. set (s' := set_counts _ _ _).
  assert (store s' = alter (set_flag kShortTimeout) n (store s)) as Est by done.
  assert (forall m, store s' !! m = if decide (m = n) then set_flag kShortTimeout <$> store s !! m else store s !! m) as Hst
    by (intros m; apply (obs_update n (set_flag kShortTimeout) s)).
  assert (in_flight o = true /\ in_flight (set_flag kShortTimeout o) = true /\ stale o = false /\ stale (set_flag kShortTimeout o) = true)
    as (E1 & E2 & E3 & E4) by (clear -Hf; by_flags).
  split; change (results_ s') with (results_ s); change (sorted_ s') with (sorted_ s); change (pending_ s') with (pending_ s); try done.
  - rewrite Forall_forall in A2 |- *. intros m Hm. rewrite Hst. destruct (A2 m Hm) as (o1 & Ho1 & Hk1). rewrite Ho1.
    destruct (decide _); by eexists.
  - by rewrite Est, dists_alter.
  - intros m o1 Hm. rewrite Hst. destruct (decide (m = n)) as [->|]; [|by apply A5]. rewrite Ho. intros [= <-].
    rewrite !has_set. exact (A5 n o Hm Ho).
  - rewrite Est, (tally_alter _ _ _ n _ o), E1, E2 by done. cbn [s' set_counts invoke_count_ b2z]. lia.
  - rewrite Est, (tally_alter _ _ _ n _ o), E3, E4 by done. cbn [s' set_counts branch_factor_ b2z]. lia.
  - intros m o1 Hm. rewrite Hst. destruct (decide (m = n)) as [->|]; [|by apply (A8 m o1)]. rewrite Ho. intros [= <-] _.
    exact (A8 n o Hn Ho E1).
  - intros t p o1 Hp. rewrite Hst. destruct (decide (p_obs p = n)) as [E|]; [|by apply (A9 t p o1)].
    rewrite E, Ho. intros [= <-] Hk. split; [done|]. exact E2.
Qed.

(** A step that has nothing to settle. *)
Lemma timed_still n o s : runs s -> fresh o = false -> timed n o s s.
Proof. intros R F. left. rewrite F. split_and!; [done|apply moves_refl|cbn; lia]. Qed.

Lemma short_ok n o now s :
  runs s -> roomy s -> n ∈ results_ s -> store s !! n = Some o -> has kQueried o = true ->
  returns (on_failed cfg n true now s) (timed n o s).
Proof.
  intros R Hroom Hn Ho Hq. pose proof R as (Hd & B & A & _). unfold on_failed.
  rewrite Hd, (obs_at_Some n s o Ho). cbn [mbind outcome_bind].
  destruct (has kDone o || has kAlive o || has kFailed o) eqn:Ef.
  { apply timed_still; [done|]. clear -Ef. by_flags. }
  destruct (has kShortTimeout o) eqn:Es.
  { apply timed_proceed; try done; [apply moves_refl|]. unfold fresh. rewrite Es, andb_false_r. cbn. lia. }
  assert (fresh o = true) as Hf by (clear -Ef Es Hq; by_flags).
  destruct (moves_flag n o kShortTimeout s (set_counts (branch_factor_ s + 1) (invoke_count_ s) (update n (set_flag kShortTimeout) s)))
    as [M W]; try done; [by left|exact (a_nodup _ _ _ _ _ A)|by apply quiet_silent|].
  apply timed_proceed; try done.
  - apply (base_update 0 n (set_flag kShortTimeout) s) in B; [by destruct B|done|].
    intros o' Ho' Hid _. rewrite Ho in Ho'. injection Ho' as <-. split; [done|]. intros _. by rewrite has_set, Hq.
  - by apply (stale_ok s n o).
Qed.

(** A query whose entry was just taken from the table. *)
Definition taken (n : nat) (s : State) : Prop :=
  base 1 s /\ active (Some n) 0 0 s /\ no_entry n s /\ done_ s = false.

Lemma fail_ok n o now s :
  taken n s -> roomy s -> n ∈ results_ s -> store s !! n = Some o -> in_flight o = true ->
  returns (on_failed cfg n false now s) (timed n o s).
Proof.
  intros (B & A & N & Hd) Hroom Hn Ho Hf. unfold on_failed. rewrite Hd, (obs_at_Some n s o Ho). cbn [mbind outcome_bind].
  replace (has kDone o || has kAlive o || has kFailed o) with false by (clear -Hf; by_flags).
  pose proof (retire_ok _ _ _ _ _ _ o kFailed A Hn Ho Hf N (or_intror eq_refl) (or_intror (or_introl eq_refl))) as A1.
  rewrite (free_slot_eq cfg _ _ _ _ o A1) by lia. apply (base_flag _ n kFailed) in B; [|done].
  pose proof (slot_ok cfg _ _ _ _ _ A1) as A2. pose proof (base_slot 0 (b2z (has kShortTimeout o)) _ B) as B2.
  set (s2 := set_counts _ _ _) in *. set (s3 := if has kInitial o then s2 else _).
  assert (same s2 s3 /\ quiet s2 s3) as [S3 Q3].
  { unfold s3. destruct (has kInitial o); (split; [done|]); [by apply quiet_silent|by apply quiet_emit]. }
  assert (store s3 = store (update n (set_flag kFailed) s)) as Est by (by destruct S3 as (_ & -> & _)).
  destruct (moves_flag n o kFailed s s3) as [M W]; try done.
  - clear -Hf. by_flags.
  - by right.
  - exact (a_nodup _ _ _ _ _ A).
  - destruct S3 as (_ & _ & _ & _ & _ & _ & ->). done.
  - by destruct S3 as (_ & _ & -> & _).
  - apply timed_proceed; try done; [by eapply base_same|by eapply active_same|]. destruct S3 as (_ & _ & _ & _ & _ & _ & ->). done.
Qed.

(** * Replies *)

(** A candidate outside the sorted part may change its id. *)
Lemma active_set_oid x e es s n i :
  active x e es s -> n ∉ ztake (sorted_ s) (results_ s) -> active x e es (update n (set_oid i) s).
Proof.
  intros [A1 A2 A3 A4 A5 A6 A7 A8 A9] Hn.
  assert (forall P, (forall o, P (set_oid i o) = P o) -> tally P (store (update n (set_oid i) s)) (results_ s) = tally P (store s) (results_ s)) as Ht.
  { intros P HP. clear -HP. induction (results_ s) as [|m l IH]; [done|]. rewrite !tally_head, IH, obs_update.
    destruct (decide _); [|done]. destruct (store s !! m); [|done]. cbn. by rewrite HP. }
  split; change (results_ (update n (set_oid i) s)) with (results_ s); change (sorted_ (update n (set_oid i) s)) with (sorted_ s); try done.
  - rewrite Forall_forall in A2 |- *. intros m Hm. rewrite obs_update. destruct (A2 m Hm) as (o1 & Ho1 & Hk1). rewrite Ho1.
    destruct (decide _); by eexists.
  - unfold dists in *. erewrite list_fmap_ext; [exact A4|]. intros j m Hm. cbn beta. rewrite obs_update, decide_False; [done|].
    intros ->. by apply Hn, (list_elem_of_lookup_2 _ j).
  - intros m o1 Hm. rewrite obs_update, decide_False by (by intros ->). by apply A5.
  - by rewrite Ht.
  - by rewrite Ht.
  - intros m o1 Hm. rewrite obs_update. destruct (decide (m = n)) as [->|]; [|by apply (A8 m o1)].
    destruct (store s !! n) as [o|] eqn:Ho; [|done]. intros [= <-]. exact (A8 n o Hm Ho).
  - intros t p o1 Hp. rewrite obs_update. destruct (decide (p_obs p = n)) as [E|]; [|by apply (A9 t p o1)].
    destruct (store s !! p_obs p) as [o|] eqn:Ho; [|done]. intros [= <-]. exact (A9 t p o Hp Ho).
Qed.

(** A seed that answered moves to its place among the sorted candidates. *)
Lemma resort_ok z e es n o s :
  base z s -> active None e es s -> n ∈ results_ s -> store s !! n = Some o -> has kAlive o = true ->
  returns (resort_result cfg n s) (fun s' => kept cfg z e es s s' /\ zlen (results_ s') = zlen (results_ s)).
Proof.
  intros B A Hn Ho Ha. unfold resort_result. destruct (done_ s) eqn:Hd; [split; [by apply kept_refl|done]|].
  destruct (list_find (eq n) (results_ s)) as [[at_ m]|] eqn:E.
  2:{ apply list_find_None in E. rewrite Forall_forall in E. by destruct (E n Hn). }
  apply list_find_Some in E as (Hat & <- & _). pose proof (lookup_lt_Some _ _ _ Hat) as Hlt.
  assert (in_flight o = false) as Hf by (clear -Ha; by_flags).
  destruct (active_delete cfg e es s n o at_ A Hat Ho Hf) as [A1 Hnot]. set (s1 := set_results _ _ s) in *.
  assert (base z s1) as B1 by by apply base_set_results.
  assert (store s1 !! n = Some o) as Ho1 by done. rewrite (obs_at_Some n s1 o Ho1). cbn [mbind outcome_bind].
  pose proof (b_ids _ _ B) as Hids. rewrite Forall_forall in Hids. destruct (Hids o) as [Hid _]; [by eapply list_elem_of_lookup_2|].
  destruct (find_place_ok cfg Htarget z None e es (oid o) s1 B1 A1 Hid) as (pos & there & -> & Hpos & Hlo & Hhi).
  cbn [mbind outcome_bind returns]. destruct (a_obs cfg _ _ _ _ _ A Hn) as (o1 & Ho1' & Hk). rewrite Ho in Ho1'. injection Ho1' as <-.
  split.
  - split_and!; [by apply base_set_results|by apply (active_insert cfg e es s1 n o pos)|].
    apply (grows_trans _ s1); apply grows_set_results.
  - cbn [set_results results_]. unfold zlen. rewrite (insert_at_perm pos n (results_ s1)). cbn [length s1 set_results results_].
    rewrite length_delete; [lia|by eexists].
Qed.

(** ** Callbacks *)

Definition told (l : list Effect) : list Address := concat (omap (fun e => match e with OnPeers ps => Some ps | _ => None end) l).
Definition farewells (l : list Effect) : list (list Address) := omap (fun e => match e with OnDone ps => Some ps | _ => None end) l.

(** Every peer is handed out once, when it is found; the completion callback runs once, with
    all of them. *)
Record reported (s : State) : Prop := {
  r_nodup : NoDup (peers_ s);
  r_told : told (log s) = if on_peers_ cfg then peers_ s else [];
  r_done : farewells (log s) = if done_ s && on_done_ cfg then [peers_ s] else [];
}.

Lemma told_app l k : told (l ++ k) = told l ++ told k.
Proof. unfold told. by rewrite omap_app, concat_app. Qed.
Lemma farewells_app l k : farewells (l ++ k) = farewells l ++ farewells k.
Proof. unfold farewells. by rewrite omap_app. Qed.
Lemma quiet_callbacks l : Forall is_quiet l -> told l = [] /\ farewells l = [].
Proof. induction 1 as [|e l He _ [IH1 IH2]]; [done|]. unfold told, farewells in *. by destruct e. Qed.

Lemma reported_quiet s s' : quiet s s' -> done_ s' = done_ s -> reported s -> reported s'.
Proof.
  intros (P & l & L & F) D [R1 R2 R3]. destruct (quiet_callbacks l F) as [E1 E2].
  split; rewrite ?P, ?D, ?L; [done| |].
  - by rewrite told_app, E1, app_nil_r.
  - by rewrite farewells_app, E2, app_nil_r.
Qed.

Lemma reported_ends s s' : ends s s' -> done_ s = false -> reported s -> reported s'.
Proof.
  intros ((D & _) & _ & P & (l & L & F) & _) Hd [R1 R2 R3]. destruct (quiet_callbacks l F) as [E1 E2].
  rewrite Hd in R3. cbn [andb] in R3. unfold farewell in L.
  split; rewrite ?P, ?D, ?L; [done| |].
  - rewrite !told_app, E1. destruct (on_done_ cfg); by rewrite app_nil_r.
  - rewrite !farewells_app, E2, R3. by destruct (on_done_ cfg).
Qed.

Lemma found_ok (all fr ps : list Address) :
  NoDup all -> 
  let r := foldl (fun '(all, fresh) p => if bool_decide (p ∈ all) then (all, fresh) else (all ++ [p], fresh ++ [p])) (all, fr) ps in
  NoDup r.1 /\ exists new, r = (all ++ new, fr ++ new).
Proof.
  revert all fr. induction ps as [|p ps IH]; intros all fr Hnd; cbn [foldl].
  { split; [done|]. exists []. by rewrite !app_nil_r. }
  case_bool_decide as Hp; [by apply IH|]. destruct (IH (all ++ [p]) (fr ++ [p])) as (Hn & new & E).
  - apply NoDup_app. split_and!; [done|by intros q Hq ->%list_elem_of_singleton|apply NoDup_singleton].
  - split; [done|]. exists (p :: new). rewrite E. by rewrite <- !app_assoc.
Qed.

Lemma got_peers_ok ps s : done_ s = false -> reported s -> same s (got_peers cfg ps s) /\ reported (got_peers cfg ps s).
Proof.
  intros Hd [R1 R2 R3]. unfold got_peers. destruct (found_ok (peers_ s) [] ps R1) as (Hn & new & E).
  set (r := foldl _ _ _) in *. rewrite E in Hn |- *. cbn [fst] in Hn. cbn [app].
  destruct new as [|a new].
  - rewrite app_nil_r. by split; [|split].
  - destruct (on_peers_ cfg) eqn:Eo; (split; [done|]); split; cbn [emit set_found peers_ log done_]; rewrite ?Hd, ?Eo in *; cbn [andb] in *; try done.
    + rewrite told_app, R2. unfold told. cbn. by rewrite app_nil_r.
    + by rewrite farewells_app, R3.
Qed.

Lemma parse_reply_ok m s : done_ s = false -> reported s -> same s (parse_reply cfg m s) /\ reported (parse_reply cfg m s).
Proof.
  intros Hd R. unfold parse_reply. set (s1 := match krpc.token m with [] => s | token => _ end).
  assert (same s s1 /\ quiet s s1) as [S1 Q1].
  { unfold s1, got_token. destruct (krpc.token m); [split; [done|by apply quiet_silent]|].
    destruct (tokens_ s !! _); (split; [done|by apply quiet_silent]). }
  pose proof S1 as (E1 & E2 & E3 & E4 & E5 & E6 & E7). assert (reported s1) as R1 by (by eapply reported_quiet).
  destruct (krpc.peers m) as [|p ps]; [done|]. destruct (got_peers_ok (p :: ps) s1) as [S2 R2]; [congruence|done|].
  split; [|done]. destruct S2 as (F1 & F2 & F3 & F4 & F5 & F6 & F7). unfold same. by rewrite F1, F2, F3, F4, F5, F6, F7.
Qed.

(** Steps of the lookup as a whole. *)
Definition settles (s s' : State) : Prop :=
  (runs s' \/ over s') /\ reported s' /\ bounded s s' /\ pings s' = pings s.

Lemma ends_pings s s' : ends s s' -> pings s' = pings s.
Proof. intros (_ & _ & _ & _ & L & O). by apply pings_kinds. Qed.

Lemma settles_moves l s s' : runs s' /\ moves l s s' \/ ends s s' -> done_ s = false -> reported s -> settles s s'.
Proof.
  intros [(R & M)|E] Hd Hrep; split_and!.
  - by left.
  - destruct M as (D & Q & _). by eapply reported_quiet.
  - destruct M as (_ & _ & E & _). unfold bounded. rewrite E. lia.
  - by eapply moves_pings.
  - right. by destruct E.
  - by eapply reported_ends.
  - destruct E as (_ & E & _). unfold bounded. rewrite E. lia.
  - by apply ends_pings.
Qed.

Lemma settles_timed n o s s' : timed n o s s' -> done_ s = false -> reported s -> settles s s'.
Proof. intros [(R & M & _)|E]; apply (settles_moves [n]); [by left|by right]. Qed.

Lemma proceed_settles now s :
  base 0 s -> active None 0 0 s -> done_ s = false -> roomy s -> reported s -> returns (proceed cfg now s) (settles s).
Proof.
  intros B A Hd Hroom Hrep. eapply returns_mono; [by apply (proceed_ok cfg Hfair now s)|].
  intros s' [[R S]|E]; apply (settles_moves []); try done; [left; split; [done|by apply sends_moves]|by right].
Qed.

(** Room for a full list of candidates. *)
Definition spacious (s : State) : Prop := Z.max (zlen (results_ s)) kMaxResults + pings s < 65536.

Definition reply_ids (m : krpc.KrpcMessage) : Prop := id_ok (krpc.response_id m) /\ nodes_ok m.

(** The candidate that answered is alive, at its place. *)
Lemma arrive_ok n o i s :
  taken n s -> n ∈ results_ s -> store s !! n = Some o -> in_flight o = true -> id_ok i ->
  returns (if has kInitial o && negb (bool_decide (i = zero_id))
           then resort_result cfg n (update n (set_oid i) (update n (set_flag kAlive) s)) else Ret (update n (set_flag kAlive) s))
    (fun s' => base 1 s' /\ active None 1 (b2z (has kShortTimeout o)) s' /\ done_ s' = false /\ quiet s s'
       /\ zlen (results_ s') = zlen (results_ s) /\ pings s' = pings s
       /\ exists o', store s' !! n = Some o' /\ has kShortTimeout o' = has kShortTimeout o).
Proof.
  intros (B & A & N & Hd) Hn Ho Hf Hi.
  pose proof (retire_ok _ _ _ _ _ _ o kAlive A Hn Ho Hf N (or_intror eq_refl) (or_introl eq_refl)) as A1.
  apply (base_flag _ n kAlive) in B as B1; [|done]. set (s1 := update n (set_flag kAlive) s) in *.
  assert (store s1 !! n = Some (set_flag kAlive o)) as Ho1 by (unfold s1; by rewrite obs_update, decide_True, Ho).
  assert (pings s1 = pings s) as P1 by by apply pings_alter.
  destruct (has kInitial o && negb (bool_decide (i = zero_id))) eqn:E.
  2:{ cbn [returns]. split_and!; try done; [by apply quiet_silent|]. eexists. split; [done|]. by rewrite has_set. }
  apply andb_prop in E as [Hini _]. set (s2 := update n (set_oid i) s1).
  assert (n ∉ ztake (sorted_ s1) (results_ s1)) as Hout.
  { intros Hin. assert (has kAlive o = true) as Ha by exact (a_head _ _ _ _ _ A n o Hin Ho Hini). clear -Hf Ha. by_flags. }
  assert (active None (0 + 1) (0 + b2z (has kShortTimeout o)) s2) as A2 by (by apply active_set_oid).
  assert (base 1 s2) as B2 by (by apply base_update; [..|exact B1]).
  assert (store s2 !! n = Some (set_oid i (set_flag kAlive o))) as Ho2 by (unfold s2; by rewrite obs_update, decide_True, Ho1).
  eapply returns_mono; [apply (resort_ok 1 _ _ n _ s2 B2 A2 Hn Ho2); by rewrite has_set_oid, has_set|].
  intros s3 ((B3 & A3 & ((D3 & P3) & Q3 & O3)) & L3). split_and!; try done.
  - by rewrite D3.
  - rewrite P3. unfold s2. by rewrite pings_alter.
  - destruct (O3 n _ Ho2) as (o3 & Ho3 & _ & _ & Hs3 & _). exists o3. split; [done|]. by rewrite Hs3, has_set_oid, has_set.
Qed.

Lemma reply_ok n o m rtt now s :
  taken n s -> spacious s -> reported s -> n ∈ results_ s -> store s !! n = Some o -> in_flight o = true -> reply_ids m ->
  returns (lookup_response cfg n m rtt now s) (settles s).
Proof.
  intros T Hsp Hrep Hn Ho Hf [Hid Hnodes]. unfold lookup_response. rewrite (obs_at_Some n s o Ho). cbn [mbind outcome_bind].
  replace (has kDone o || has kAlive o) with false by (clear -Hf; by_flags). pose proof T as (_ & _ & _ & Hd). rewrite Hd.
  eapply returns_bind; [by apply (arrive_ok n o (krpc.response_id m) s)|].
  intros s1 (B1 & A1 & D1 & Q1 & L1 & P1 & o1 & Ho1 & Hs1).
  assert (reported s1) as R1 by (apply (reported_quiet s); [done|congruence|done]).
  destruct (parse_reply_ok m s1 D1 R1) as [S2 R2]. set (s2 := parse_reply cfg m s1) in *.
  assert (0 <= b2z (has kShortTimeout o)) as Hb by (destruct (has kShortTimeout o); cbn; lia).
  eapply returns_bind; [apply (traverse_all_ok cfg Hfair Htarget 1 1 (b2z (has kShortTimeout o)) (krpc.nodes m) s2); try done;
    [by eapply base_same|by eapply active_same]|].
  intros s3 ((B3 & A3 & ((D3 & P3) & Q3 & O3)) & L3). destruct S2 as (_ & E2 & E3 & _ & _ & _ & E7).
  assert (reported s3) as R3 by (by eapply reported_quiet).
  destruct (O3 n o1) as (o3 & Ho3 & _ & _ & Hs3 & _); [congruence|]. unfold on_responded. rewrite D3, E7, D1, (obs_at_Some n s3 o3 Ho3).
  cbn [mbind outcome_bind]. assert (has kShortTimeout o3 = has kShortTimeout o) as Hs by congruence.
  rewrite <- Hs in A3, Hb. rewrite (free_slot_eq cfg None 0 0 s3 o3 A3) by lia.
  set (s4 := set_counts _ _ s3). set (s5 := emit _ s4).
  assert (base 0 s5) as B5 by (eapply base_same; [|exact (base_slot 0 (b2z (has kShortTimeout o3)) s3 B3)]; done).
  assert (active None 0 0 s5) as A5 by (eapply active_same; [|exact (slot_ok cfg None 0 0 (b2z (has kShortTimeout o3)) s3 A3)]; done).
  assert (reported s5) as R5 by (apply (reported_quiet s3); [exact (quiet_emit (NodeSeen _ _ _ _) s4 I)|done|done]).
  assert (bounded s s5 /\ pings s5 = pings s) as [L5 P5].
  { split; [unfold bounded in *; change (results_ s5) with (results_ s3); rewrite E3 in L3; lia|].
    change (pings s5) with (pings s3). rewrite P3. unfold pings at 1. rewrite E2. exact P1. }
  eapply returns_mono; [apply proceed_settles; try done; [cbn; congruence|unfold roomy, spacious, bounded in *; lia]|].
  intros s6 (V6 & R6 & L6 & P6). split_and!; [done|done|by eapply bounded_trans|congruence].
Qed.

(** * The table of outstanding queries *)

(** A lookup under way or over. *)
Definition good (s : State) : Prop := (runs s \/ over s) /\ reported s /\ spacious s.

Lemma settles_good s s' : spacious s -> settles s s' -> good s'.
Proof.
  intros Hsp (V & R & L & P). split_and!; [done|done|]. unfold spacious, bounded in *. rewrite P. lia.
Qed.

Lemma good_base s : good s -> base 0 s.
Proof. intros ([(_ & B & _)|(_ & B & _)] & _); done. Qed.

Lemma over_same s s' : same s s' -> over s -> over s'.
Proof.
  intros S (D & B & N & C & I & J). pose proof S as (E1 & E2 & E3 & _ & _ & E6 & E7).
  split_and!; [congruence|by eapply base_same|unfold no_lookup in *; by rewrite E1, E2|unfold converged in *; by rewrite E2, E3|by rewrite E6, E3|by rewrite E2, E3].
Qed.

Lemma runs_same s s' : same s s' -> runs s -> runs s'.
Proof.
  intros S (D & B & A & F). pose proof S as (E1 & E2 & E3 & _ & _ & E6 & E7).
  split_and!; [congruence|by eapply base_same|by eapply active_same|by rewrite E2, E3].
Qed.

(** Steps that touch no candidate. *)
Definition drifts (s s' : State) : Prop :=
  good s' /\ store s' = store s /\ results_ s' = results_ s /\ done_ s' = done_ s /\ quiet s s'.

Lemma drifts_emit e s : is_quiet e -> good s -> drifts s (emit e s).
Proof.
  intros He (V & R & Hsp). split; [|split_and!; try done; by apply quiet_emit].
  split_and!; [|by apply (reported_quiet s); [apply quiet_emit| |]|done].
  destruct V as [V|V]; [left; by apply (runs_same s)|right; by apply (over_same s)].
Qed.

Lemma drifts_trans s1 s2 s3 : drifts s1 s2 -> drifts s2 s3 -> drifts s1 s3.
Proof.
  intros (_ & E1 & R1 & D1 & Q1) (G & E2 & R2 & D2 & Q2). split; [done|]. split_and!; try congruence. by eapply quiet_trans.
Qed.

Lemma drifts_refl s : good s -> drifts s s.
Proof. intros G. split; [done|]. split_and!; try done. by apply quiet_silent. Qed.

(** The entry of a ping leaves the table. *)
Lemma drop_ping s t p o :
  good s -> pending_ s !! t = Some p -> store s !! p_obs p = Some o -> kind o = IsPing ->
  drifts s (set_pending (delete t (pending_ s)) s).
Proof.
  intros (V & R & Hsp) Hp Ho Hk. split; [|split_and!; try done; by apply quiet_silent].
  split_and!; [|by destruct R|done]. destruct V as [(D & B & A & F)|(D & B & N & C & I & J)].
  - left. destruct (unpend_ok cfg 0 0 0 s t p B A Hp) as (B1 & A1 & _). split_and!; try done.
    + by eapply base_weaken; [exact B1|lia].
    + destruct A1 as [A1 A2 A3 A4 A5 A6 A7 A8 A9]. split; try done. intros n o' Hn Ho' Hf _. apply (A8 n o' Hn Ho' Hf).
      intros [= <-]. rewrite Forall_forall in A2. destruct (A2 _ Hn) as (o1 & Ho1 & Hk1).
      change (store (set_pending _ s)) with (store s) in Ho1. congruence.
  - right. split_and!; try done.
    + eapply base_weaken; [by eapply base_take|lia].
    + intros t' p' o' Hp'. apply (lookup_delete_Some (pending_ s)) in Hp' as [_ Hp']. exact (N t' p' o' Hp').
Qed.

Lemma drifts_settles s s' : drifts s s' -> settles s s'.
Proof.
  intros ((V & R & _) & E & Er & D & Q). split_and!; [done|done|unfold bounded; rewrite Er; lia|]. unfold pings. by rewrite E.
Qed.

Lemma handle_response_ok m from now s :
  good s -> reply_ids m -> returns (handle_response cfg m from now s) (fun '(_, s') => settles s s').
Proof.
  intros G Hm. pose proof (good_base _ G) as B. unfold handle_response.
  destruct (string_to_txn _) as [t|]; [|by apply drifts_settles, drifts_refl].
  destruct (pending_ s !! t) as [p|] eqn:Hp; [|by apply drifts_settles, drifts_refl].
  destruct (negb _); [by apply drifts_settles, drifts_refl|].
  set (rtt := if _ <? 0 then 0 else _). set (s1 := set_pending _ s).
  enough (returns (match krpc.type m with Error => on_timeout cfg (p_obs p) now s1 | _ => on_response cfg (p_obs p) m rtt now s1 end) (settles s)) as He.
  { eapply returns_bind; [exact He|]. by intros s2 Hs2. }
  destruct (b_ptr _ _ B t p Hp) as (o & Ho & _).
  destruct (kind o) eqn:Hk.
  2:{ pose proof (drop_ping s t p o G Hp Ho Hk) as D1. fold s1 in D1.
      assert (forall e, is_quiet e -> settles s (emit e s1)) as Hemit.
      { intros e He. apply drifts_settles. eapply drifts_trans; [exact D1|]. apply drifts_emit; [done|]. by destruct D1. }
      unfold on_timeout, on_response. rewrite (obs_at_Some _ s1 o Ho). cbn [mbind outcome_bind]. rewrite Hk.
      destruct (krpc.type m); by apply Hemit. }
  destruct G as ([(D & _ & A & _)|(_ & _ & N & _)] & R & Hsp); [|by rewrite (N t p o Hp Ho) in Hk].
  destruct (a_own _ _ _ _ _ A t p o Hp Ho Hk) as [Hn Hf]. destruct (unpend_ok cfg 0 0 0 s t p B A Hp) as (B1 & A1 & N1). fold s1 in B1, A1, N1.
  assert (taken (p_obs p) s1) as T by done. assert (reported s1) as R1 by (by destruct R).
  unfold on_timeout, on_response. rewrite (obs_at_Some _ s1 o Ho). cbn [mbind outcome_bind]. rewrite Hk.
  assert (returns (on_failed cfg (p_obs p) false now s1) (settles s)) as Hfail.
  { eapply returns_mono; [apply (fail_ok (p_obs p) o now s1); try done|].
    - unfold roomy, spacious in *. change (results_ s1) with (results_ s). change (pings s1) with (pings s). lia.
    - intros s2 H2. exact (settles_timed _ _ s1 s2 H2 D R1). }
  assert (returns (lookup_response cfg (p_obs p) m rtt now s1) (settles s)) as Hresp by (by refine (reply_ok (p_obs p) o m rtt now s1 T _ R1 Hn Ho Hf Hm)).
  by destruct (krpc.type m).
Qed.

End Events.
