(* ===== verification/LookupTicks.v ===== *)
(** The periodic sweep over the outstanding queries of a DHT lookup, and its pings. *)

From S2P Require Import Prelude PeerId Address DhtId Bencode Krpc RoutingTable TableClosest.
From S2P Require Import Lookup LookupInvariant LookupCandidates LookupRequests LookupFinish LookupEvents.
Import dht_id lookup.

(** An observer that may be told of a timeout: while the lookup runs, a candidate it queried. *)
Definition expected (s : State) (n : nat) : Prop :=
  exists o, store s !! n = Some o
  /\ (kind o = InLookup -> done_ s = false -> n ∈ results_ s /\ has kQueried o = true).

Section Ticks.
Context (cfg : Config) (Hfair : fair_draws cfg) (Htarget : id_ok (target_ cfg)).

Abbreviation active := (active cfg).
Abbreviation runs := (runs cfg).
Abbreviation good := (good cfg).
Abbreviation settles := (settles cfg).
Abbreviation drifts := (drifts cfg).

(** Timeouts of the observers [l]: the lookup is over afterwards, or every fresh query among
    them makes less to wait for. *)
Definition sweeps (l : list nat) (s s' : State) : Prop :=
  settles s s' /\ (forall n, expected s n -> expected s' n)
  /\ (done_ s' = true \/ done_ s = false /\ moves l s s'
      /\ forall n o, n ∈ l -> store s !! n = Some o -> kind o = InLookup -> fresh o = true -> work s' < work s).

Lemma sweeps_trans l1 l2 s1 s2 s3 : sweeps l1 s1 s2 -> sweeps l2 s2 s3 -> sweeps (l1 ++ l2) s1 s3.
Proof.
  intros ((_ & _ & L1 & P1) & X1 & C1) ((V & R & L2 & P2) & X2 & C2). split_and!; try done.
  - split_and!; [done|done|by eapply bounded_trans|congruence].
  - by auto.
  - destruct C2 as [|(D2 & M2 & W2)]; [by left|]. destruct C1 as [|(D1 & M1 & W1)]; [congruence|]. right.
    split_and!; [done|by eapply moves_trans|]. intros n o Hn Ho Hk Hf.
    pose proof M2 as (_ & _ & _ & _ & Hw2 & _). pose proof M1 as (_ & _ & _ & _ & Hw1 & O1).
    destruct (decide (n ∈ l1)) as [Hn1|Hn1]; [specialize (W1 n o Hn1 Ho Hk Hf); lia|].
    apply elem_of_app in Hn as [|Hn]; [done|]. destruct (O1 n o Ho) as (o1 & Ho1 & Hk1 & _ & F1).
    assert (flags o1 = flags o) as E by (apply F1; [done|]; clear -Hf; by_flags).
    destruct (idle_flags _ _ E) as (_ & Ef & _). enough (work s3 < work s2) by lia. apply (W2 n o1); congruence.
Qed.

Lemma sweeps_drifts n o s s' :
  drifts s s' -> store s !! n = Some o -> (kind o = InLookup -> done_ s = false -> fresh o = false) -> sweeps [n] s s'.
Proof.
  intros D Ho Hf. pose proof D as (G & E & Er & Ed & Q). split_and!; [by apply drifts_settles| |].
  - intros m (o' & Ho' & H'). exists o'. by rewrite E, Er, Ed.
  - destruct (done_ s) eqn:Hd; [by left|]. right. split_and!; [done| |].
    + unfold moves, work. rewrite Ed, Er, E. split_and!; try (done || lia). intros m o' Ho'. by exists o'.
    + intros m o' ->%list_elem_of_singleton Ho' Hk Hfr. rewrite Ho in Ho'. injection Ho' as <-. by rewrite Hf in Hfr.
Qed.

Lemma sweeps_timed n o s s' :
  timed cfg n o s s' -> done_ s = false -> reported cfg s -> store s !! n = Some o -> sweeps [n] s s'.
Proof.
  intros T Hd Hr Ho. split_and!; [by eapply settles_timed| |].
  - intros m (o1 & Ho1 & H1). destruct T as [(_ & (D & _ & R & _ & _ & O) & _)|((D & _) & _ & _ & _ & _ & O)].
    + destruct (O m o1 Ho1) as (o2 & Ho2 & K2 & U2 & _). exists o2. split; [done|]. rewrite K2, D, R. intros Hk _.
      destruct (H1 Hk Hd) as [? ?]. by auto.
    + destruct (O m o1 Ho1) as (o2 & Ho2 & K2). exists o2. split; [done|]. by rewrite D.
  - destruct T as [(_ & M & W)|((D & _) & _)]; [right|by left]. split_and!; [done|done|].
    intros m o' ->%list_elem_of_singleton Ho' _ Hf. rewrite Ho in Ho'. injection Ho' as <-. rewrite Hf in W. cbn in W. lia.
Qed.

(** A pass over a list of observers. *)
Lemma each_sweeps (f : nat -> State -> outcome State) :
  (forall n s, good s -> expected s n -> returns (f n s) (sweeps [n] s)) ->
  forall l s, good s -> Forall (expected s) l -> returns (each f l s) (sweeps l s).
Proof.
  intros Hf. induction l as [|n l IH]; intros s G Hl; cbn [each].
  { split_and!; [by apply drifts_settles, drifts_refl|done|]. destruct (done_ s) eqn:Hd; [by left|]. right.
    split_and!; [done|apply moves_refl|]. intros n o Hn. by apply not_elem_of_nil in Hn. }
  apply Forall_cons in Hl as [Hn Hl]. eapply returns_bind; [by apply Hf|]. intros s1 S1.
  eapply returns_mono; [apply (IH s1)|].
  - destruct S1 as (S1 & _). eapply settles_good; [|exact S1]. by destruct G as (_ & _ & ?).
  - destruct S1 as (_ & X1 & _). eapply Forall_impl; [exact Hl|]. exact X1.
  - intros s2 S2. by apply (sweeps_trans [n] l s s1 s2).
Qed.

Lemma on_failed_done n b now s : done_ s = true -> on_failed cfg n b now s = Ret s.
Proof. intros Hd. unfold on_failed. by rewrite Hd. Qed.

Lemma short_sweeps now n s : good s -> expected s n -> returns (on_short_timeout cfg n now s) (sweeps [n] s).
Proof.
  intros G (o & Ho & Hexp). unfold on_short_timeout. rewrite (obs_at_Some n s o Ho). cbn [mbind outcome_bind].
  destruct (kind o) eqn:Hk; [|apply (sweeps_drifts n o); [by apply drifts_refl|done|by rewrite Hk]].
  destruct (done_ s) eqn:Hd.
  { rewrite on_failed_done by done. apply (sweeps_drifts n o); [by apply drifts_refl|done|]. by rewrite Hd. }
  destruct (Hexp eq_refl eq_refl) as [Hn Hq]. pose proof G as ([Hr|(? & _)] & R & Hsp); [|congruence].
  eapply returns_mono; [apply (short_ok cfg Hfair n o now s); try done; unfold roomy, spacious in *; lia|].
  intros s' T. by apply (sweeps_timed n o).
Qed.

(** Forgetting a query that is not a candidate's, or has no entry. *)
Lemma cancel_drifts n o s :
  good s -> store s !! n = Some o -> (kind o = InLookup -> done_ s = false -> in_flight o = false) ->
  returns (cancel n s) (drifts s).
Proof.
  intros G Ho Hf. destruct (cancel_spec 0 n s o (good_base _ _ G) Ho) as [(p & Hp & <- & ->)|[_ ->]]; [|by apply drifts_refl].
  apply (drop_ping cfg s _ p o); try done. destruct (kind o) eqn:Hk; [exfalso|done].
  destruct G as ([(D & _ & A & _)|(_ & _ & N & _)] & _).
  - destruct (a_own _ _ _ _ _ A _ p o Hp Ho Hk) as [_ E]. rewrite Hf in E by done. done.
  - by rewrite (N _ p o Hp Ho) in Hk.
Qed.

Lemma full_sweeps now n s :
  good s -> expected s n -> returns (s ← cancel n s; on_timeout cfg n now s) (sweeps [n] s).
Proof.
  intros G (o & Ho & Hexp). destruct (in_flight o && negb (is_ping (kind o)) && negb (done_ s)) eqn:E.
  - apply andb_prop in E as [[Hf Hk]%andb_prop Hd]. apply negb_true_iff in Hd.
    assert (kind o = InLookup) as Hk' by (by destruct (kind o)). clear Hk. rename Hk' into Hk.
    destruct (Hexp Hk Hd) as [Hn Hq]. pose proof G as ([(_ & B & A & _)|(? & _)] & R & Hsp); [|congruence].
    destruct (a_wait _ _ _ _ _ A n o Hn Ho Hf) as (p & Hp & <-); [done|].
    destruct (cancel_spec 0 (p_obs p) s o B Ho) as [(q & Hq' & _ & ->)|[Hno _]]; [|by destruct (Hno (txn o) p Hp)].
    destruct (unpend_ok cfg 0 0 0 s (txn o) p B A Hp) as (B1 & A1 & N1). cbn [mbind outcome_bind].
    set (s1 := set_pending _ s) in *. unfold on_timeout. rewrite (obs_at_Some _ s1 o Ho). cbn [mbind outcome_bind]. rewrite Hk.
    eapply returns_mono; [apply (fail_ok cfg Hfair (p_obs p) o now s1); try done|].
    + unfold roomy, spacious in *. change (results_ s1) with (results_ s). change (pings s1) with (pings s). lia.
    + intros s' T. exact (sweeps_timed (p_obs p) o s s' T Hd R Ho).
  - assert (kind o = InLookup -> done_ s = false -> in_flight o = false) as Hf.
    { intros Hk Hd. rewrite Hk, Hd in E. by destruct (in_flight o). }
    eapply returns_bind; [by apply (cancel_drifts n o)|]. intros s1 D1. pose proof D1 as (G1 & E1 & Er1 & Ed1 & _).
    assert (forall s2, drifts s1 s2 -> sweeps [n] s s2) as Hdone.
    { intros s2 D2. apply (sweeps_drifts n o); [by eapply drifts_trans|done|]. intros Hk Hd. unfold fresh. by rewrite Hf. }
    unfold on_timeout. rewrite (obs_at_Some n s1 o) by congruence. cbn [mbind outcome_bind].
    destruct (kind o) eqn:Hk; [|apply Hdone; by apply drifts_emit].
    destruct (done_ s) eqn:Hd; [rewrite on_failed_done by congruence; by apply Hdone, drifts_refl|].
    unfold on_failed. rewrite Ed1, (obs_at_Some n s1 o) by congruence. cbn [mbind outcome_bind].
    destruct (Hexp eq_refl eq_refl) as [_ Hq]. specialize (Hf eq_refl eq_refl).
    replace (has kDone o || has kAlive o || has kFailed o) with true by (clear -Hq Hf; by_flags).
    by apply Hdone, drifts_refl.
Qed.

(** The queries found to be overdue. *)
Lemma overdue_ok l now s :
  base 0 s ->
  returns (overdue l now s) (fun '(shorts, fulls) =>
    Forall (fun n => exists t p, pending_ s !! t = Some p /\ p_obs p = n) (shorts ++ fulls)
    /\ forall t p o, t ∈ l -> pending_ s !! t = Some p -> store s !! p_obs p = Some o -> fresh o = true ->
       kShortTimeout_ns <= now - p_sent p -> p_obs p ∈ shorts ++ fulls).
Proof.
  intros B. induction l as [|t l IH]; cbn [overdue].
  { split; [done|]. intros t p o Ht. by apply not_elem_of_nil in Ht. }
  destruct (pending_ s !! t) as [p|] eqn:Hp.
  2:{ eapply returns_mono; [exact IH|]. intros [shorts fulls] [H1 H2]. split; [done|].
      intros t' p' o' [->|Ht']%elem_of_cons Hp'; [congruence|]. exact (H2 t' p' o' Ht' Hp'). }
  destruct (b_ptr _ _ B t p Hp) as (o & Ho & _). rewrite (obs_at_Some _ s o Ho). cbn [mbind outcome_bind].
  eapply returns_bind; [exact IH|]. intros [shorts fulls] [H1 H2].
  assert (forall l', Forall (fun n => exists t p, pending_ s !! t = Some p /\ p_obs p = n) l' ->
    (forall n, n ∈ shorts ++ fulls -> n ∈ l') ->
    (fresh o = true -> kShortTimeout_ns <= now - p_sent p -> p_obs p ∈ l') ->
    Forall (fun n => exists t p, pending_ s !! t = Some p /\ p_obs p = n) l'
    /\ forall t' p' o', t' ∈ t :: l -> pending_ s !! t' = Some p' -> store s !! p_obs p' = Some o' -> fresh o' = true ->
       kShortTimeout_ns <= now - p_sent p' -> p_obs p' ∈ l') as Hext.
  { intros l' Hall Hin Hhead. split; [done|]. intros t' p' o' [->|Ht']%elem_of_cons Hp' Ho' Hf' Hs'.
    - rewrite Hp in Hp'. injection Hp' as <-. rewrite Ho in Ho'. injection Ho' as <-. by apply Hhead.
    - apply Hin. by apply (H2 t' p' o'). }
  apply Forall_app in H1 as [Hs Hf].
  destruct (Z.leb_spec kFullTimeout_ns (now - p_sent p)).
  - apply Hext; [apply Forall_app; split; [done|]; constructor; [by exists t, p|done]| |].
    + intros n. rewrite !elem_of_app, elem_of_cons. tauto.
    + intros _ _. apply elem_of_app. right. by left.
  - destruct ((kShortTimeout_ns <=? now - p_sent p) && negb (has kShortTimeout o)) eqn:E.
    + apply (Hext ((p_obs p :: shorts) ++ fulls)); [apply Forall_app; split; [constructor; [by exists t, p|done]|done]| |].
      * intros n Hn. by right.
      * intros _ _. by left.
    + apply Hext; [by apply Forall_app|done|]. intros Hfr Hs'. rewrite (proj2 (Z.leb_le _ _)) in E by done.
      cbn [andb] in E. clear -E Hfr. exfalso. by_flags.
Qed.

(** A sweep over the table. *)
Lemma rpc_tick_ok now s :
  good s -> returns (rpc_tick cfg now s) (fun s' => settles s s'
    /\ ((forall t p, pending_ s !! t = Some p -> t ∈ order cfg (pending_ s) /\ kShortTimeout_ns <= now - p_sent p) ->
        done_ s' = true \/ done_ s = false /\ work s' < work s)).
Proof.
  intros G. pose proof (good_base _ _ G) as B. unfold rpc_tick.
  eapply returns_bind; [by apply overdue_ok|]. intros [shorts fulls] [Hall Hfound].
  assert (Forall (expected s) (shorts ++ fulls)) as Hexp.
  { eapply Forall_impl; [exact Hall|]. intros n (t & p & Hp & <-). destruct (b_ptr _ _ B t p Hp) as (o & Ho & _).
    exists o. split; [done|]. intros Hk Hd. destruct G as ([(_ & _ & A & _)|(? & _)] & _); [|congruence].
    destruct (a_own _ _ _ _ _ A t p o Hp Ho Hk) as [Hn Hf]. split; [done|]. clear -Hf. by_flags. }
  apply Forall_app in Hexp as [He1 He2].
  eapply returns_bind; [apply (each_sweeps (fun n => on_short_timeout cfg n now)); [apply short_sweeps|done|exact He1]|]. intros s1 S1.
  assert (good s1) as G1 by (destruct S1 as (S1 & _); eapply settles_good; [|exact S1]; by destruct G as (_ & _ & ?)).
  eapply returns_mono; [apply (each_sweeps (fun n s => s ← cancel n s; on_timeout cfg n now s)); [apply full_sweeps|done|]|].
  { destruct S1 as (_ & X1 & _). eapply Forall_impl; [exact He2|exact X1]. }
  intros s2 S2. pose proof (sweeps_trans _ _ _ _ _ S1 S2) as (S & _ & C). split; [done|]. intros Hlate.
  destruct C as [|(D & M & W)]; [by left|]. right. split; [done|].
  destruct G as ([(_ & _ & A & F)|(? & _)] & _); [|congruence].
  destruct (tally_some _ _ _ F) as (n & o & Hn & Ho & Hfr).
  destruct (a_wait _ _ _ _ _ A n o Hn Ho) as (p & Hp & <-); [clear -Hfr; by_flags|done|].
  destruct (Hlate _ p Hp) as [Hord Hs]. destruct (a_obs cfg _ _ _ _ _ A Hn) as (o' & Ho' & Hk').
  rewrite Ho in Ho'. injection Ho' as <-. apply (W (p_obs p) o); try done. by apply (Hfound (txn o) p o).
Qed.

End Ticks.
