(* ===== verification/LookupTimes.v ===== *)
(** When the outstanding queries of a DHT lookup were sent: no entry of the table is younger
    than the last event. *)

From S2P Require Import Prelude PeerId Address DhtId Bencode Krpc RoutingTable TableClosest.
From S2P Require Import Lookup LookupInvariant LookupCandidates.
Import dht_id lookup.

Definition event_time (e : Event) : Z := match e with Reply _ _ now | Tick now | PingOut _ _ now => now end.

Definition sent_by (T : Z) (s : State) : Prop := forall t p, pending_ s !! t = Some p -> p_sent p <= T.

(** What an operation returns was sent by [T] at the latest. *)
Definition stamped {A} (f : A -> State) (T : Z) (m : outcome A) : Prop :=
  match m with Ret a => sent_by T (f a) | _ => True end.

Section Stamps.
Context (cfg : Config) (T : Z).

Lemma stamped_bind {A B} (f : A -> State) (g : B -> State) m k :
  stamped f T m -> (forall a, sent_by T (f a) -> stamped g T (k a)) -> stamped g T (m ≫= k).
Proof. destruct m; cbn; auto. Qed.
Lemma stamped_any {A B} (g : B -> State) (m : outcome A) k :
  (forall a, stamped g T (k a)) -> stamped g T (m ≫= k).
Proof. destruct m; cbn; auto. Qed.
Lemma sent_by_same s s' : pending_ s' = pending_ s -> sent_by T s -> sent_by T s'.
Proof. unfold sent_by. by intros ->. Qed.
Lemma sent_by_delete t s : sent_by T s -> sent_by T (set_pending (delete t (pending_ s)) s).
Proof. intros H t' p Hp. apply (lookup_delete_Some (pending_ s)) in Hp as [_ Hp]. exact (H t' p Hp). Qed.

Abbreviation whole := (fun s : State => s).

Lemma cancel_stamped n s : sent_by T s -> stamped whole T (cancel n s).
Proof.
  intros H. apply stamped_any. intros o. destruct (pending_ s !! txn o); [|done]. destruct (bool_decide _); [by apply sent_by_delete|done].
Qed.

Lemma each_stamped f l s :
  (forall n s, sent_by T s -> stamped whole T (f n s)) -> sent_by T s -> stamped whole T (each f l s).
Proof.
  intros Hf. revert s. induction l as [|n l IH]; intros s H; cbn [each]; [done|].
  eapply stamped_bind; [by apply Hf|]. intros s1 H1. by apply IH.
Qed.

Lemma truncate_stamped s : sent_by T s -> stamped whole T (truncate s).
Proof.
  intros H. unfold truncate. destruct (_ <? _); [|done]. apply (stamped_bind whole); [|done].
  apply each_stamped; [|done]. intros n s1 H1. apply stamped_any. intros o. destruct (in_flight o); [|done]. by apply cancel_stamped.
Qed.

Lemma subnet_pending ep s : pending_ (register_subnet ep s).2 = pending_ s.
Proof. by destruct (subnet_same ep s) as [(E & _) _]. Qed.

Lemma add_entry_stamped i ep s : sent_by T s -> stamped whole T (add_entry cfg i ep s).
Proof.
  intros H. unfold add_entry. destruct (done_ s); [done|]. apply stamped_any. intros [pos there].
  destruct (match there with Some o => _ | None => _ end); [done|].
  assert (sent_by T (register_subnet ep s).2) as H1 by (by eapply sent_by_same; [apply subnet_pending|]).
  destruct (register_subnet ep s) as [taken s1]. destruct taken; [done|]. by apply truncate_stamped.
Qed.

Lemma draw_pending tries s : pending_ (draw_loop cfg tries s).2 = pending_ s.
Proof.
  revert s. induction tries as [|tries IH]; intros s; cbn [draw_loop]; [done|]. destruct (decide _); [done|]. by rewrite IH.
Qed.

Lemma rpc_invoke_stamped m to n now s : now <= T -> sent_by T s -> sent_by T (rpc_invoke cfg m to n now s).2.
Proof.
  intros Hn H. unfold rpc_invoke, next_txn. pose proof (draw_pending (Z.to_nat 65536) s) as E.
  destruct (draw_loop _ _ s) as [t s1]. cbn [snd] in E. destruct (encoded _) as [|b data]; [by eapply sent_by_same|].
  intros t' p. cbn [snd set_pending pending_ update set_store emit]. rewrite E.
  intros [[<- <-]|[_ Hp]]%lookup_insert_Some; [done|exact (H t' p Hp)].
Qed.

Lemma request_loop_stamped l : forall needed fr now s,
  now <= T -> sent_by T s -> stamped snd T (request_loop cfg l needed fr now s).
Proof.
  induction l as [|n l IH]; intros needed fr now s Hn H; cbn [request_loop]; [done|].
  destruct (needed <=? 0); [done|]. apply stamped_any. intros o. destruct (has kAlive o); [by apply IH|].
  destruct (has kFailed o || has kDone o); [by apply IH|]. destruct (has kQueried o); [by apply IH|].
  destruct (_ <=? _); [by apply IH|]. apply (stamped_bind snd).
  { apply stamped_any. intros o'. by apply rpc_invoke_stamped. }
  intros [ok s1] H1. destruct ok; by apply IH.
Qed.

Lemma finish_stamped s : sent_by T s -> stamped whole T (finish cfg s).
Proof.
  intros H. unfold finish. destruct (done_ s); [done|]. apply (stamped_bind whole).
  { apply each_stamped; [|done]. intros n s1 H1. apply stamped_any. intros o. destruct (in_flight o); [by apply cancel_stamped|done]. }
  intros s1 H1. unfold on_complete. apply (stamped_bind whole); [|by intros s2 H2; destruct (on_done_ cfg)].
  destruct (announce_ cfg) as [[port implied]|]; [|done]. generalize 0. generalize (results_ s1) as l. intros l. revert s1 H1.
  induction l as [|n l IH]; intros s1 H1 k; cbn [announce_loop]; [done|]. destruct (_ <=? _); [done|]. apply stamped_any. intros o.
  destruct (negb _); [by apply IH|]. destruct (tokens_ s1 !! _); [|by apply IH]. apply IH.
  eapply sent_by_same; [|exact H1]. unfold send_oneshot, next_txn.
  pose proof (draw_pending (Z.to_nat 65536) s1) as E. destruct (draw_loop _ _ s1) as [t s2]. by destruct (encoded _).
Qed.

Lemma proceed_stamped now s : now <= T -> sent_by T s -> stamped whole T (proceed cfg now s).
Proof.
  intros Hn H. unfold proceed. apply (stamped_bind snd).
  { unfold add_requests. destruct (done_ s); [done|]. apply (stamped_bind snd); [by apply request_loop_stamped|]. by intros [fr s1]. }
  intros [complete s1] H1. destruct complete; [by apply finish_stamped|done].
Qed.

Lemma on_failed_stamped n b now s : now <= T -> sent_by T s -> stamped whole T (on_failed cfg n b now s).
Proof.
  intros Hn H. unfold on_failed. destruct (done_ s); [done|]. apply stamped_any. intros o. destruct (_ || _); [done|].
  destruct b; apply proceed_stamped; try done; [by destruct (has kShortTimeout o)|by destruct (has kInitial o)].
Qed.

Lemma traverse_all_stamped ns s : sent_by T s -> stamped whole T (traverse_all cfg ns s).
Proof.
  revert s. induction ns as [|k ns IH]; intros s H; cbn [traverse_all]; [done|].
  apply (stamped_bind whole); [|by intros s1 H1; apply IH]. unfold traverse. destruct (done_ s); [done|]. by apply add_entry_stamped.
Qed.

Lemma parse_reply_pending m s : pending_ (parse_reply cfg m s) = pending_ s.
Proof.
  unfold parse_reply. set (s1 := match krpc.token m with [] => s | _ => _ end).
  assert (pending_ s1 = pending_ s) as E by (unfold s1, got_token; destruct (krpc.token m); [done|]; by destruct (tokens_ s !! _)).
  destruct (krpc.peers m); [done|]. unfold got_peers. destruct (foldl _ _ _) as [all fr]. destruct fr; [done|]. by destruct (on_peers_ cfg).
Qed.

Lemma lookup_response_stamped n m rtt now s : now <= T -> sent_by T s -> stamped whole T (lookup_response cfg n m rtt now s).
Proof.
  intros Hn H. unfold lookup_response. apply stamped_any. intros o. destruct (_ || _); [done|]. destruct (done_ s); [done|].
  apply (stamped_bind whole).
  { destruct (_ && _); [|done]. unfold resort_result. destruct (done_ _); [done|]. destruct (list_find _ _) as [[at_ m']|]; [|done].
    apply stamped_any. intros o'. apply stamped_any. by intros [pos there]. }
  intros s1 H1. apply (stamped_bind whole); [apply traverse_all_stamped; by eapply sent_by_same; [apply parse_reply_pending|]|].
  intros s2 H2. unfold on_responded. destruct (done_ s2); [done|]. apply stamped_any. intros o2. by apply proceed_stamped.
Qed.

Lemma step_stamped e s :
  event_time e <= T -> sent_by T s -> stamped whole T (step cfg e s).
Proof.
  intros Hn H. destruct e as [m from now|now|i ep now]; cbn [step].
  - apply (stamped_bind snd); [|by intros [b s1]]. unfold handle_response.
    destruct (string_to_txn _) as [t|]; [|done]. destruct (pending_ s !! t) as [p|]; [|done]. destruct (negb _); [done|].
    apply (stamped_bind whole); [|by intros]. pose proof (sent_by_delete t s H) as H1.
    assert (stamped whole T (on_timeout cfg (p_obs p) now (set_pending (delete t (pending_ s)) s))) as Ht.
    { apply stamped_any. intros o. destruct (kind o); [by apply on_failed_stamped|done]. }
    assert (forall rtt, stamped whole T (on_response cfg (p_obs p) m rtt now (set_pending (delete t (pending_ s)) s))) as Hr.
    { intros rtt. apply stamped_any. intros o. destruct (kind o); [by apply lookup_response_stamped|done]. }
    by destruct (krpc.type m).
  - unfold rpc_tick. apply stamped_any. intros [shorts fulls]. apply (stamped_bind whole).
    + apply each_stamped; [|done]. intros n s1 H1. apply stamped_any. intros o. destruct (kind o); [by apply on_failed_stamped|done].
    + intros s1 H1. apply each_stamped; [|done]. intros n s2 H2. apply (stamped_bind whole); [by apply cancel_stamped|].
      intros s3 H3. apply stamped_any. intros o. destruct (kind o); [by apply on_failed_stamped|done].
  - unfold ping, make_observer. by apply rpc_invoke_stamped.
Qed.

Lemma run_stamped es s :
  Forall (fun e => event_time e <= T) es ->
  sent_by T s -> stamped whole T (run cfg es s).
Proof.
  intros He. revert s. induction He as [|e es He _ IH]; intros s H; cbn [run]; [done|].
  apply (stamped_bind whole); [by apply step_stamped|]. intros s1 H1. by apply IH.
Qed.

Lemma begin_stamped seeds closest now : now <= T -> stamped whole T (begin cfg seeds closest now new_state).
Proof.
  intros Hn. unfold begin, start. apply (stamped_bind whole); [|by intros s1 H1; apply proceed_stamped].
  set (s0 := foldl _ _ _). assert (sent_by T s0) as H0.
  { assert (sent_by T new_state) as H by (intros t p; unfold new_state; cbn [pending_]; by rewrite lookup_empty). subst s0. revert H. generalize new_state.
    induction seeds as [|ep seeds IH]; intros s H; cbn [foldl]; [done|]. apply IH. unfold add_seed. by destruct (done_ s). }
  revert H0. generalize s0. clear s0. induction closest as [|e closest IH]; intros s0 H0; cbn [add_closest]; [done|].
  apply (stamped_bind whole); [by apply add_entry_stamped|]. intros s1 H1. by apply IH.
Qed.

End Stamps.
