(* ===== verification/LookupHistory.v ===== *)
(** Histories of a DHT lookup: its start, replies, sweeps and pings in any order. The lookup
    never goes wrong, reports each peer once, always waits for a query that is not overdue,
    and ends. *)

From S2P Require Import Prelude PeerId Address DhtId Bencode Krpc RoutingTable TableClosest.
From S2P Require Import Lookup LookupInvariant LookupCandidates LookupRequests LookupFinish LookupEvents LookupTicks.
Import dht_id lookup.

Section History.
Context (cfg : Config) (Hfair : fair_draws cfg) (Htarget : id_ok (target_ cfg)).

Abbreviation active := (active cfg).
Abbreviation runs := (runs cfg).
Abbreviation good := (good cfg).
Abbreviation settles := (settles cfg).
Abbreviation drifts := (drifts cfg).

(** * Pings *)

Lemma active_ping s n o t to to' now k data :
  active None 0 0 s -> store s !! n = Some o -> kind o = IsPing -> pending_ s !! t = None ->
  active None 0 0 (set_pending (<[t := mkPending n to' now]> (pending_ s)) (update n (set_txn t) (emit (SendTo to data) (set_drawn k s)))).
Proof.
  intros A Ho Hk Ht. set (s' := set_pending _ _).
  assert (n ∉ results_ s) as Hn by (intros Hn; destruct (a_obs _ _ _ _ _ _ A Hn) as (o' & Ho' & Hk'); congruence).
  assert (forall m, m <> n -> store s' !! m = store s !! m) as Hst
    by (intros m Hm; change (store s') with (store (update n (set_txn t) s)); by rewrite obs_update, decide_False).
  assert (pending_ s' = <[t := mkPending n to' now]> (pending_ s)) as Epend by done.
  destruct A as [A1 A2 A3 A4 A5 A6 A7 A8 A9].
  split; change (results_ s') with (results_ s); change (sorted_ s') with (sorted_ s); try done.
  - rewrite Forall_forall in A2 |- *. intros m Hm. rewrite Hst by (by intros ->). by apply A2.
  - change (store s') with (alter (set_txn t) n (store s)). by rewrite dists_alter.
  - intros m o' Hm. rewrite Hst; [by apply A5|]. intros ->. apply Hn. by eapply subseteq_take.
  - change (store s') with (alter (set_txn t) n (store s)). by rewrite tally_alter_notin.
  - change (store s') with (alter (set_txn t) n (store s)). by rewrite tally_alter_notin.
  - intros m o' Hm. rewrite Hst by (by intros ->). intros Ho' Hf Hx. destruct (A8 m o' Hm Ho' Hf Hx) as (p & Hp & Ep).
    exists p. split; [|done]. rewrite Epend, lookup_insert_ne; [done|]. intros ->. congruence.
  - intros t' p o'. rewrite Epend. intros [[<- <-]|[Hne Hp]]%lookup_insert_Some.
    + change (store s') with (store (update n (set_txn t) s)). cbn [p_obs]. rewrite obs_update, decide_True, Ho by done.
      intros [= <-] Hk'. by change (kind o = InLookup) in Hk'; rewrite Hk in Hk'.
    + intros Ho' Hk'. destruct (decide (p_obs p = n)) as [E|Hne'].
      * change (store s') with (store (update n (set_txn t) s)) in Ho'. rewrite obs_update, decide_True, E, Ho in Ho' by done.
        injection Ho' as <-. by change (kind o = InLookup) in Hk'; rewrite Hk in Hk'.
      * rewrite Hst in Ho' by done. by apply (A9 t' p o').
Qed.

(** A lookup that is over does not look at new observers. *)
Lemma agree_ext P st st' needed l :
  (forall n, n ∈ l -> st' !! n = st !! n) -> tally P st' l = tally P st l /\ scanned st' needed l = scanned st needed l.
Proof.
  revert needed. induction l as [|n l IH]; intros needed Hl; [done|].
  rewrite !tally_head. cbn [scanned]. rewrite Hl by (by left). split.
  - by rewrite (proj1 (IH 0 (fun m Hm => Hl m (list_elem_of_further _ _ _ Hm)))).
  - destruct (needed <=? 0); [done|]. f_equal. apply IH. intros m Hm. apply Hl. by right.
Qed.

Lemma scanned_in st needed l n : n ∈ scanned st needed l -> n ∈ l.
Proof.
  revert needed. induction l as [|m l IH]; intros needed; cbn [scanned]; [done|].
  destruct (needed <=? 0); [by intros ?%not_elem_of_nil|]. rewrite !elem_of_cons. intros [->|Hn]; [by left|right]. by eapply IH.
Qed.

Lemma converged_agree s s' :
  results_ s' = results_ s -> (forall n, n ∈ results_ s -> store s' !! n = store s !! n) -> converged s -> converged s'.
Proof.
  intros R Hst C n o Hn Ho Hi. rewrite R in *. destruct (agree_ext cut _ _ kBucketSize _ Hst) as [E1 E2].
  rewrite E2 in Hn. rewrite E1. apply (C n o); [done| |done]. rewrite <- Hst; [done|]. by eapply scanned_in.
Qed.

Lemma good_size s : good s -> Z.of_nat (size (pending_ s)) < 65536.
Proof.
  intros (V & _ & Hsp). unfold spacious in Hsp. assert (invoke_count_ s <= zlen (results_ s) /\ base 0 s) as [I [_ _ B]]; [|lia].
  destruct V as [(_ & B & A & _)|(_ & B & _ & _ & I & _)]; [|done]. split; [|done].
  rewrite (a_count _ _ _ _ _ A). pose proof (tally_bounds in_flight (store s) (results_ s)). lia.
Qed.

(** An outstanding ping more, or a ping that could not be sent. *)
Lemma ping_runs n o s s' t p to k data :
  base 1 s -> store s !! n = Some o -> kind o = IsPing -> no_entry n s -> pending_ s !! t = None -> p_obs p = n ->
  s' = set_drawn k s \/ s' = set_pending (<[t := p]> (pending_ s)) (update n (set_txn t) (emit (SendTo to data) (set_drawn k s))) ->
  base 0 s' /\ quiet s s' /\ results_ s' = results_ s /\ done_ s' = done_ s /\ pings s' = pings s
  /\ invoke_count_ s' = invoke_count_ s /\ length (store s') = length (store s)
  /\ (forall m, m <> n -> store s' !! m = store s !! m) /\ (active None 0 0 s -> active None 0 0 s') /\ (no_lookup s -> no_lookup s').
Proof.
  intros B Ho Hk N Ht Hp [->| ->].
  - split_and!; try done; [by eapply base_weaken; [eapply (base_same 1 s)|lia]|by apply quiet_silent|by apply active_same].
  - split_and!; try done.
    + by apply (base_insert 0 s n o).
    + split; [done|]. exists [SendTo to data]. split; [done|by constructor].
    + exact (pings_alter n (set_txn t) s (fun _ => eq_refl)).
    + cbn [set_pending update set_store store emit set_drawn]. by rewrite length_alter.
    + intros m Hm. pose proof (obs_update n (set_txn t) s m) as E. rewrite decide_False in E by done. exact E.
    + intros A. destruct p as [n' to' now']. cbn in Hp. subst n'. by apply (active_ping s n o).
    + intros Nl t' q o' Hq. change (<[t := p]> (pending_ s) !! t' = Some q) in Hq.
      pose proof (obs_update n (set_txn t) s (p_obs q)) as E. intros Ho'. change (store (update n (set_txn t) s) !! p_obs q = Some o') in Ho'.
      rewrite E in Ho'. apply lookup_insert_Some in Hq as [[<- <-]|[Hne Hq]].
      * rewrite decide_True, Hp, Ho in Ho' by done. by injection Ho' as <-.
      * rewrite decide_False in Ho' by (by eapply N). exact (Nl t' q o' Hq Ho').
Qed.

Lemma ping_ok i ep now s :
  good s -> id_ok i -> Z.max (zlen (results_ s)) kMaxResults + pings s + 1 < 65536 ->
  let s' := ping cfg i ep now s in good s' /\ results_ s' = results_ s /\ pings s' = pings s + 1.
Proof.
  intros G Hi Hsp s'. pose proof (good_base _ _ G) as B. pose proof (good_size s G) as Hsz. destruct G as (V & R & _).
  set (n := length (store s)). set (s1 := set_store (store s ++ [mkObserver IsPing i ep 0 0]) s).
  assert (store s1 !! n = Some (mkObserver IsPing i ep 0 0)) as Ho by (cbn [s1 set_store store]; by apply list_lookup_middle).
  destruct (base_grow 0 IsPing i ep s B Hi) as [B1 P1]. fold s1 in B1, P1.
  assert (no_entry n s1) as N1.
  { intros t p Hp E. destruct (b_ptr _ _ B t p Hp) as (o & Ho' & _). rewrite E in Ho'. apply lookup_lt_Some in Ho'. unfold n in Ho'. lia. }
  assert (forall m, (m < n)%nat -> store s1 !! m = store s !! m) as Hold by (intros m Hm; cbn [s1 set_store store]; by rewrite lookup_app_l).
  destruct (rpc_invoke_spec cfg Hfair (krpc.create_ping_query [] (self_ cfg)) ep n now s1 _ Hsz Ho) as (t & k & Ht & E).
  assert (exists data, s' = set_drawn k s1 \/ s' = set_pending (<[t := mkPending n ep now]> (pending_ s1)) (update n (set_txn t) (emit (SendTo ep data) (set_drawn k s1)))) as (data & Hs').
  { unfold s', ping, make_observer. fold n s1. destruct E as [-> |[data ->]]; [exists []; by left|exists data; by right]. }
  destruct (ping_runs n _ s1 s' t (mkPending n ep now) ep k data B1 Ho eq_refl N1 Ht eq_refl Hs')
    as (B' & Q' & R' & D' & P' & I' & L' & O' & A' & Nl').
  assert (reported cfg s') as Rep by (apply (reported_quiet cfg s); [exact Q'|exact D'|done]).
  split_and!; [|exact R'|rewrite P'; exact P1]. split_and!; [|done|unfold spacious; rewrite R', P', P1; change (results_ s1) with (results_ s); cbn; lia].
  destruct V as [(D & _ & A & F)|(D & _ & Nl & C & I & J)].
  - left. destruct (grow_ok cfg 0 0 0 IsPing i ep s B A Hi) as (_ & A1 & _). fold s1 in A1. split_and!; [by rewrite D'|done|by apply A'|].
    rewrite R'. change (results_ s1) with (results_ s). destruct (agree_ext fresh (store s) (store s') 0 (results_ s)) as [-> _]; [|done].
    intros m Hm. pose proof (a_below _ _ _ _ _ A) as Hb. rewrite Forall_forall in Hb. specialize (Hb m Hm). fold n in Hb.
    rewrite O' by lia. by apply Hold.
  - right. rewrite Forall_forall in J. split_and!; [by rewrite D'|done| | |rewrite I', R'; exact I|].
    + apply Nl'. intros t' p o' Hp. destruct (b_ptr _ _ B t' p Hp) as (o1 & Ho1 & _). pose proof (lookup_lt_Some _ _ _ Ho1).
      rewrite Hold by done. exact (Nl t' p o' Hp).
    + apply (converged_agree s); [done| |done]. intros m Hm. specialize (J m Hm). fold n in J. rewrite O' by lia. by apply Hold.
    + rewrite R', L'. apply Forall_forall. intros m Hm. specialize (J m Hm). cbn [s1 set_store store]. rewrite length_app. lia.
Qed.

(** * Starting *)

Lemma new_state_ok : base 0 new_state /\ active None 0 0 new_state /\ reported cfg new_state.
Proof.
  split_and!.
  - split; cbn; [constructor|intros t p; by rewrite lookup_empty|done].
  - split; cbn; try (done || constructor); try (intros n o Hn; by apply not_elem_of_nil in Hn).
  - split; cbn; [constructor|by destruct (on_peers_ cfg)|done].
Qed.

Lemma add_seeds_ok seeds s :
  base 0 s -> active None 0 0 s -> reported cfg s -> done_ s = false ->
  let s' := foldl (fun s ep => add_seed ep s) s seeds in
  base 0 s' /\ active None 0 0 s' /\ reported cfg s' /\ done_ s' = false /\ zlen (results_ s') <= zlen (results_ s) + zlen seeds
  /\ pings s' = pings s.
Proof.
  revert s. induction seeds as [|ep seeds IH]; intros s B A R D; cbn [foldl].
  { split_and!; try done. change (zlen (@nil Address)) with 0. lia. }
  destruct (add_seed_ok cfg 0 0 0 ep s B A) as (B1 & A1 & D1 & L1 & P1 & Q1).
  destruct (IH (add_seed ep s)) as (B2 & A2 & R2 & D2 & L2 & P2); [done|done|by eapply reported_quiet|congruence|].
  split_and!; try done; [rewrite zlen_cons; lia|congruence].
Qed.

Lemma add_closest_ok closest s :
  base 0 s -> active None 0 0 s -> Forall (fun e => id_ok (RoutingTable.id e)) closest ->
  returns (add_closest cfg closest s) (fun s' => kept cfg 0 0 0 s s' /\ bounded s s').
Proof.
  intros B A Hc. revert s B A. induction Hc as [|e closest He _ IH]; intros s B A; cbn [add_closest].
  { split; [by apply kept_refl|unfold bounded; lia]. }
  eapply returns_bind; [by apply (add_entry_ok cfg Hfair Htarget 0 0 0)|]. intros s1 [K1 Hb1]. pose proof K1 as (B1 & A1 & _).
  eapply returns_mono; [by apply (IH s1)|]. intros s2 [K2 Hb2]. split; [by eapply kept_trans; [exact K1|exact K2]|by eapply bounded_trans].
Qed.

Lemma begin_ok seeds closest now :
  Forall (fun e => id_ok (RoutingTable.id e)) closest -> zlen seeds < 65536 ->
  returns (begin cfg seeds closest now new_state)
    (fun s => good s /\ zlen (results_ s) <= Z.max (zlen seeds) kMaxResults /\ pings s = 0).
Proof.
  intros Hc Hs. unfold begin, start. destruct new_state_ok as (B0 & A0 & R0).
  destruct (add_seeds_ok seeds new_state B0 A0 R0 eq_refl) as (B1 & A1 & R1 & D1 & L1 & P1). set (s1 := foldl _ _ _) in *.
  eapply returns_bind; [by apply add_closest_ok|]. intros s2 ((B2 & A2 & ((D2 & P2) & Q2 & _)) & L2).
  change (zlen (results_ new_state)) with 0 in L1. change (pings new_state) with 0 in P1. unfold bounded in L2.
  assert (spacious s2) as Sp2 by (unfold spacious; rewrite P2, P1; unfold kMaxResults in *; lia).
  eapply returns_mono; [apply (proceed_settles cfg Hfair now s2); try done|].
  - congruence.
  - unfold roomy, spacious in *. lia.
  - eapply reported_quiet; [exact Q2|done|done].
  - intros s3 S3. split_and!; [by apply (settles_good cfg s2)| |]; destruct S3 as (_ & _ & L3 & P3); [unfold bounded in L3; lia|congruence].
Qed.

(** * Histories *)

(** Ids have twenty bytes. *)
Definition event_ok (e : Event) : Prop :=
  match e with Reply m _ _ => reply_ids m | Tick _ => True | PingOut i _ _ => id_ok i end.

Definition is_ping_out (e : Event) : bool := match e with PingOut _ _ _ => true | _ => false end.
Definition pinged (es : list Event) : Z := zlen (List.filter is_ping_out es).

Lemma pinged_nonneg es : 0 <= pinged es.
Proof. unfold pinged, zlen. lia. Qed.

Lemma lookup_step_ok e s :
  good s -> event_ok e -> Z.max (zlen (results_ s)) kMaxResults + pings s + b2z (is_ping_out e) < 65536 ->
  returns (step cfg e s) (fun s' => good s' /\ bounded s s' /\ pings s' = pings s + b2z (is_ping_out e)).
Proof.
  intros G He Hsp. pose proof G as (_ & _ & Sp). assert (forall s', settles s s' -> good s' /\ bounded s s' /\ pings s' = pings s + 0) as Hset.
  { intros s' S. split_and!; [by apply (settles_good cfg s)|..]; destruct S as (_ & _ & L & P); [done|lia]. }
  destruct e as [m from now|now|i ep now]; cbn [step is_ping_out b2z] in *.
  - eapply returns_bind; [by apply (handle_response_ok cfg Hfair Htarget m from now s)|]. intros [b s'] S. by apply Hset.
  - eapply returns_mono; [by apply (rpc_tick_ok cfg Hfair now s)|]. intros s' [S _]. by apply Hset.
  - destruct (ping_ok i ep now s G He Hsp) as (G' & R' & P'). cbn [returns]. split_and!; [done|unfold bounded; rewrite R'; lia|done].
Qed.

Lemma lookup_run_ok es s :
  good s -> Forall event_ok es -> Z.max (zlen (results_ s)) kMaxResults + pings s + pinged es < 65536 ->
  returns (run cfg es s) (fun s' => good s' /\ bounded s s' /\ pings s' = pings s + pinged es).
Proof.
  intros G He. revert s G. induction He as [|e es He _ IH]; intros s G Hsp; cbn [run].
  { split_and!; [done|unfold bounded; lia|]. change (pinged []) with 0. lia. }
  assert (pinged (e :: es) = b2z (is_ping_out e) + pinged es) as Ep.
  { unfold pinged. cbn [List.filter]. destruct (is_ping_out e); cbn [b2z]; rewrite ?zlen_cons; lia. }
  pose proof (pinged_nonneg es).
  eapply returns_bind; [apply (lookup_step_ok e s); try done; lia|]. intros s1 (G1 & L1 & P1).
  eapply returns_mono; [apply (IH s1); try done; unfold bounded in L1; lia|]. intros s2 (G2 & L2 & P2).
  split_and!; [done|by eapply bounded_trans|lia].
Qed.

End History.
