(* ===== verification/LookupTheorems.v ===== *)
(** What a DHT lookup promises: it never goes wrong, it reports every peer once and completes
    once, it ends, and it asks the closest nodes unless farther ones hold all its slots. *)

From S2P Require Import Prelude PeerId Address DhtId Bencode Krpc RoutingTable TableClosest.
From S2P Require Import Lookup LookupInvariant LookupCandidates LookupRequests LookupFinish LookupEvents LookupTicks LookupTimes LookupHistory.
Import dht_id lookup.

(** A lookup of [cfg] from its seeds and contacts through a history. *)
Definition history (cfg : Config) (seeds : list Address) (closest : list NodeEntry) (now : Z) (es : list Event) : outcome State :=
  s ← begin cfg seeds closest now new_state; run cfg es s.

(** Histories that fit into the space of transaction ids, with ids of twenty bytes. *)
Record plausible (cfg : Config) (seeds : list Address) (closest : list NodeEntry) (es : list Event) : Prop := {
  h_fair : fair_draws cfg;
  h_target : id_ok (target_ cfg);
  h_closest : Forall (fun e => id_ok (RoutingTable.id e)) closest;
  h_events : Forall event_ok es;
  h_room : Z.max (zlen seeds) kMaxResults + pinged es < 65536;
}.

Section Theorems.
Context (cfg : Config) (seeds : list Address) (closest : list NodeEntry) (es : list Event).
Context (H : plausible cfg seeds closest es).

Lemma history_ok now :
  returns (history cfg seeds closest now es) (fun s => good cfg s /\ zlen (results_ s) <= Z.max (zlen seeds) kMaxResults).
Proof.
  destruct H as [Hf Ht Hc He Hr]. pose proof (pinged_nonneg es). unfold history.
  eapply returns_bind; [apply (begin_ok cfg Hf Ht seeds closest now Hc); unfold kMaxResults in Hr; lia|].
  intros s1 (G1 & L1 & P1). eapply returns_mono; [apply (lookup_run_ok cfg Hf Ht es s1 G1 He); lia|].
  intros s2 (G2 & L2 & _). split; [done|]. unfold bounded in L2. lia.
Qed.

End Theorems.

(** * Termination *)

(** Ticks at least a short timeout apart, the first one after [T]. *)
Fixpoint spaced (T : Z) (ts : list Z) : bool :=
  match ts with
  | [] => true
  | t :: ts => (kShortTimeout_ns <=? t - T) && spaced t ts
  end.

Lemma lookup_run_app cfg es es' s : run cfg (es ++ es') s = (s ← run cfg es s; run cfg es' s).
Proof.
  revert s. induction es as [|e es IH]; intros s; cbn [app run]; [done|]. destruct (step cfg e s) as [s1| |]; [|done..]. cbn [mbind outcome_bind]. apply IH.
Qed.

(** Without replies every tick leaves less to wait for. *)
Lemma ticks_end cfg ts :
  fair_draws cfg -> (forall m t p, m !! t = Some p -> t ∈ order cfg m) ->
  forall T s, good cfg s -> sent_by T s -> spaced T ts = true -> done_ s = true \/ work s <= zlen ts ->
  returns (run cfg (Tick <$> ts) s) (fun s' => good cfg s' /\ done_ s' = true).
Proof.
  intros Hfair Hord. induction ts as [|t ts IH]; intros T s G Hsent Hsp Hw; cbn [fmap list_fmap run].
  - split; [done|]. destruct Hw as [|Hw]; [done|]. destruct G as ([(_ & _ & A & F)|(? & _)] & _); [exfalso|done].
    assert (tally fresh (store s) (results_ s) <= work s); [|change (zlen (@nil Z)) with 0 in Hw; lia].
    apply tally_le. intros n o _ Ho Hfr. exists o. split; [done|]. unfold live. by rewrite Hfr.
  - cbn [spaced] in Hsp. apply andb_prop in Hsp as [Hgap%Z.leb_le Hsp].
    assert (sent_by t s) as Hs by (intros t' p Hp; specialize (Hsent t' p Hp); unfold kShortTimeout_ns in Hgap; lia).
    pose proof (step_stamped cfg t (Tick t) s (Z.le_refl t) Hs) as Hst.
    pose proof (rpc_tick_ok cfg Hfair t s G) as Htick. cbn [step] in *.
    destruct (rpc_tick cfg t s) as [s1| |]; [|done..]. cbn [mbind outcome_bind returns stamped] in *. destruct Htick as [S1 Hdec].
    assert (good cfg s1) as G1 by (eapply settles_good; [|exact S1]; by destruct G as (_ & _ & ?)).
    apply (IH t s1); try done. destruct Hdec as [Hd|[Hd Hlt]]; [|by left|right].
    + intros t' p Hp. split; [by eapply Hord|]. specialize (Hsent t' p Hp). lia.
    + destruct Hw as [|Hw]; [congruence|]. rewrite zlen_cons in Hw. lia.
Qed.

(** * Destruction *)

Lemma each_detach_ok l s :
  base 0 s -> Forall (fun n => (n < length (store s))%nat) l ->
  returns (each detach l s) (fun s' => base 0 s' /\ store s' = store s /\ pending_ s' ⊆ pending_ s
    /\ forall t p o, pending_ s' !! t = Some p -> p_obs p ∈ l -> store s !! p_obs p = Some o -> in_flight o = false).
Proof.
  revert s. induction l as [|n l IH]; intros s B Hl; cbn [each].
  { split_and!; try done. intros t p o _ Hp. by apply not_elem_of_nil in Hp. }
  apply Forall_cons in Hl as [[o Ho]%lookup_lt_is_Some_2 Hl].
  apply (returns_bind _ _ (fun s1 => base 0 s1 /\ store s1 = store s /\ pending_ s1 ⊆ pending_ s
    /\ forall t p, pending_ s1 !! t = Some p -> p_obs p = n -> in_flight o = false)).
  - unfold detach. rewrite (obs_at_Some n s o Ho). cbn [mbind outcome_bind].
    destruct (has kQueried o && negb (has kAlive o) && negb (has kFailed o)) eqn:E.
    2:{ split_and!; try done. intros t p _ _. unfold in_flight. by rewrite E. }
    destruct (cancel_spec 0 n s o B Ho) as [(p & Hp & Hn & ->)|[Hno ->]].
    + split_and!; [eapply base_weaken; [by eapply base_take|lia]|done|apply delete_subseteq|].
      intros t q Hq Hqn. exfalso. apply (lookup_delete_Some (pending_ s)) in Hq as [Hne Hq]. apply Hne.
      apply (pending_inj 0 s _ t p q); [done..|congruence].
    + split_and!; try done. intros t q Hq Hqn. by destruct (Hno t q Hq).
  - intros s1 (B1 & E1 & S1 & F1). eapply returns_mono; [apply (IH s1 B1); by rewrite E1|].
    intros s2 (B2 & E2 & S2 & F2). split_and!; [done|congruence|etrans; [exact S2|exact S1]|].
    intros t p o' Hp [En|Hin]%elem_of_cons Ho'; [|apply (F2 t p o' Hp Hin); by rewrite E1].
    rewrite En, Ho in Ho'. injection Ho' as <-. exact (F1 t p (lookup_weaken _ _ _ _ Hp S2) En).
Qed.

(** * Properties *)

(** A query of the lookup that may still be answered within its short timeout. *)
Definition waiting (s : State) : Prop :=
  exists t p o, pending_ s !! t = Some p /\ store s !! p_obs p = Some o /\ kind o = InLookup
  /\ p_obs p ∈ results_ s /\ fresh o = true.





(** destroying a lookup at any point of a history leaves no outstanding query of it in the
    table, so no reply or timeout reaches it afterwards. *)
Theorem lookup_detaches cfg seeds closest now es :
  plausible cfg seeds closest es ->
  returns (s ← history cfg seeds closest now es; destroy s) no_lookup.
Proof.
  intros H. eapply returns_bind; [exact (history_ok cfg seeds closest es H now)|]. intros s [(V & _) _]. unfold destroy.
  eapply returns_mono; [apply each_detach_ok|].
  - by destruct V as [(_ & B & _)|(_ & B & _)].
  - destruct V as [(_ & _ & A & _)|(_ & _ & _ & _ & _ & J)]; [exact (a_below _ _ _ _ _ A)|done].
  - intros s' (_ & E & S & F) t p o Hp Ho. destruct (kind o) eqn:Hk; [exfalso|done]. rewrite E in Ho.
    pose proof (lookup_weaken _ _ _ _ Hp S) as Hp'.
    destruct V as [(_ & _ & A & _)|(_ & _ & N & _)]; [|by rewrite (N t p o Hp' Ho) in Hk].
    destruct (a_own _ _ _ _ _ A t p o Hp' Ho Hk) as [Hin Hf]. by rewrite (F t p o Hp Hin Ho) in Hf.
Qed.

(** * An example *)

(** Transaction ids drawn in sequence are fair. *)
Lemma sequence_fair self target want announce on_peers on_done order :
  fair_draws (mkConfig self target want announce on_peers on_done Z.of_nat order).
Proof.
  intros n m Hm. cbn [draws]. set (N := Z.to_nat 65536). set (key i := u16 (Z.of_nat (n + i))).
  destruct (decide (Exists (fun i => m !! key i = None) (seq 0 N))) as [Hex|Hex].
  - apply Exists_exists in Hex as (i & Hi & E). apply elem_of_seq in Hi. exists i. split; [unfold N in Hi; lia|done].
  - exfalso. rewrite <- Forall_Exists_neg in Hex. rewrite Forall_forall in Hex.
    assert (NoDup (key <$> seq 0 N)) as Hnd.
    { apply NoDup_fmap_2_strong; [|apply NoDup_seq]. intros i j Hi%elem_of_seq Hj%elem_of_seq. unfold key, u16, N in *. change (2 ^ 16) with 65536. intros E.
      assert ((Z.of_nat (n + i) - Z.of_nat (n + j)) mod 65536 = 0) as E' by (rewrite Zminus_mod, E, Z.sub_diag; done).
      apply Z.mod_divide in E' as [q Hq]; [|done]. lia. }
    assert (list_to_set (key <$> seq 0 N) ⊆ dom m) as Hsub.
    { intros t. rewrite elem_of_list_to_set. intros (i & -> & Hi)%list_elem_of_fmap. apply elem_of_dom.
      destruct (m !! key i) eqn:E; [done|]. by destruct (Hex i Hi). }
    apply subseteq_size in Hsub. rewrite size_list_to_set, length_fmap, length_seq, size_dom in Hsub by done. unfold N in Hsub. lia.
Qed.

(** Nodes at small distances from the target, at private addresses. *)
Definition near_id (d : Z) : NodeId := replicate 19 x00 ++ [byte_of d].
Definition near_ep (d : Z) : Address := mkAddress (ip_address.from_v4 [x0a; x00; x00; byte_of d]) 6881.
Definition sample_cfg : Config :=
  mkConfig (near_id 200) (replicate 20 x00) [] None true true Z.of_nat (fun m => (map_to_list m).*1).
Definition sample_contacts : list NodeEntry := (fun d => node_entry.new_entry (near_id d) (near_ep d)) <$> [10; 11; 12; 13; 14; 15; 16; 17].

(** The reply of the node at distance [d] to the query [t], with the nodes it knows. *)
Definition sample_reply (t d now : Z) (ns : list Z) : Event :=
  Reply (krpc.create_find_node_response (txn_to_string t) (near_id d) ((fun n => mkKrpcNode (near_id n) (ip (near_ep n)) 6881) <$> ns))
    (near_ep d) now.

(** The last of eight contacts answers late, with the closest node of all, while queries to
    three far nodes are in flight. *)
Definition sample_events : list Event :=
  [sample_reply 0 10 1 [90; 91; 92]; sample_reply 1 11 1 []; sample_reply 2 12 1 []; sample_reply 3 13 1 [];
   sample_reply 4 14 1 []; sample_reply 5 15 1500000000 []; sample_reply 6 16 1500000000 []; Tick 2100000000;
   sample_reply 7 17 2200000000 [1]].

Lemma sample_plausible : plausible sample_cfg [] sample_contacts sample_events.
Proof. split; [apply sequence_fair|done|repeat constructor|repeat constructor|done]. Qed.

(** The lookup is over and its closest candidate was never queried. *)
Definition closest_unasked (cfg : Config) (s : State) : bool :=
  done_ s &&
  match results_ s with
  | n :: rest =>
      match store s !! n with
      | Some o => idle o && forallb (fun m => match store s !! m with Some o' => far cfg o <? far cfg o' | None => false end) rest
      | None => false
      end
  | [] => false
  end.

(** A lookup can end without ever querying the closest candidate it knows: its slots are
    held by queries to nodes farther than the eight closest that answered, which the test for
    completion does not count. *)
Theorem lookup_skips_closest :
  returns (history sample_cfg [] sample_contacts 0 sample_events) (fun s => closest_unasked sample_cfg s = true).
Proof. vm_compute. reflexivity. Qed.





Lemma lookup_detaches_witness : returns (s ← history sample_cfg [] sample_contacts 0 (take 3 sample_events); destroy s) no_lookup.
Proof.
  apply lookup_detaches. split; [apply sequence_fair|reflexivity|repeat constructor|repeat constructor|reflexivity].
Defined.
