(* ===== verification/Sha1.v ===== *)
(** SHA-1 ([crypto/sha1.{h,cpp}]): a streaming hash that takes bytes one at a time, and its
    digest as text and as bytes. *)

From S2P Require Import Prelude PeerId Words Pieces Sha256 Sha256Proofs.

Module sha1.

(** * The code *)

Definition K : list Z := [0x5A827999; 0x6ED9EBA1; 0x8F1BBCDC; 0xCA62C1D6].

Definition left_rotate (value amount : Z) : Z := Z.lor (u32 (Z.shiftl value amount)) (Z.shiftr value (32 - amount)).

(** The five words [h0] to [h4]. *)
Definition words5 : Type := Z * Z * Z * Z * Z.

Record SHA1 := mkSHA1 { hw : words5; buffer : list byte; buffer_length : Z; total_length : Z; finalized : bool }.

(** [mem] is what the buffer holds. *)
Definition reset (mem : list byte) : SHA1 :=
  mkSHA1 (0x67452301, 0xEFCDAB89, 0x98BADCFE, 0x10325476, 0xC3D2E1F0) mem 0 0 false.

(** The sixteen words of the buffer extended to eighty. *)
Definition next_word (w : list Z) (i : nat) : Z :=
  left_rotate (Z.lxor (Z.lxor (Z.lxor (nth (i - 3) w 0) (nth (i - 8) w 0)) (nth (i - 14) w 0)) (nth (i - 16) w 0)) 1.
Definition schedule (block : list byte) : list Z :=
  foldl (fun w i => w ++ [next_word w i]) (sha256.message_words 16 block) (seq 16 64).

(** [f] and [k] of an iteration of the main loop. *)
Definition f_k (i : nat) (b c d : Z) : Z * Z :=
  if (i <? 20)%nat then (Z.lor (Z.land b c) (Z.land (u32 (Z.lnot b)) d), nth 0 K 0)
  else if (i <? 40)%nat then (Z.lxor (Z.lxor b c) d, nth 1 K 0)
  else if (i <? 60)%nat then (Z.lor (Z.lor (Z.land b c) (Z.land b d)) (Z.land c d), nth 2 K 0)
  else (Z.lxor (Z.lxor b c) d, nth 3 K 0).

Definition round (w : list Z) (r : words5) (i : nat) : words5 :=
  let '(a, b, c, d, e) := r in
  let '(f, k) := f_k i b c d in
  let temp := u32 (left_rotate a 5 + f + e + k + nth i w 0) in
  (temp, a, left_rotate b 30, c, d).

Definition add5 (h r : words5) : words5 :=
  let '(h0, h1, h2, h3, h4) := h in
  let '(a, b, c, d, e) := r in
  (u32 (h0 + a), u32 (h1 + b), u32 (h2 + c), u32 (h3 + d), u32 (h4 + e)).

Definition process_block (h : words5) (block : list byte) : words5 :=
  add5 h (foldl (round (schedule block)) h (seq 0 80)).

(** [update(uint8_t)]. *)
Definition update_byte (b : byte) (s : SHA1) : outcome SHA1 :=
  if finalized s then Ret s
  else
    mem ← poke (buffer_length s) [b] (buffer s);
    let n := u64 (buffer_length s + 1) in
    let total := u64 (total_length s + 1) in
    if n =? 64 then Ret (mkSHA1 (process_block (hw s) mem) mem 0 total false)
    else Ret (mkSHA1 (hw s) mem n total false).

Fixpoint update (data : list byte) (s : SHA1) : outcome SHA1 :=
  match data with
  | [] => Ret s
  | b :: data => s ← update_byte b s; update data s
  end.

(** [while (buffer_length != 56) update(0x00);] *)
Fixpoint zero_fill (fuel : nat) (s : SHA1) : outcome SHA1 :=
  match fuel with
  | O => Ret s
  | S fuel => if buffer_length s =? 56 then Ret s else s ← update_byte x00 s; zero_fill fuel s
  end.

(** The padding, the same in [finalize] and [finalize_bytes]. *)
Definition pad (s : SHA1) : outcome SHA1 :=
  let bit_length := u64 (total_length s * 8) in
  s ← update_byte x80 s;
  s ← zero_fill 64 s;
  update ((fun i => byte_of (Z.shiftr bit_length (8 * i))) <$> [7; 6; 5; 4; 3; 2; 1; 0]) s.

Definition set_finalized (s : SHA1) : SHA1 := mkSHA1 (hw s) (buffer s) (buffer_length s) (total_length s) true.

(** A word in hexadecimal, filled with zeros to eight digits. *)
Definition hex_word (v : Z) : list byte :=
  (fun i => peer_id.hex_digit (Z.land (Z.shiftr v (4 * i)) 15)) <$> [7; 6; 5; 4; 3; 2; 1; 0].

Definition finalize (s : SHA1) : outcome (list byte * SHA1) :=
  if finalized s then Ret ([], s)
  else
    s ← pad s;
    let '(h0, h1, h2, h3, h4) := hw s in
    Ret (flat_map hex_word [h0; h1; h2; h3; h4], set_finalized s).

Definition word_bytes (v : Z) : list byte :=
  [byte_of (Z.shiftr v 24); byte_of (Z.shiftr v 16); byte_of (Z.shiftr v 8); byte_of v].

Definition finalize_bytes (s : SHA1) : outcome (list byte * SHA1) :=
  s ← (if finalized s then Ret s else s ← pad s; Ret (set_finalized s));
  let '(h0, h1, h2, h3, h4) := hw s in
  Ret (flat_map word_bytes [h0; h1; h2; h3; h4], s).

Definition hash_raw (mem data : list byte) : outcome (list byte) :=
  s ← update data (reset mem);
  '(out, _) ← finalize_bytes s;
  Ret out.

(** [hash] and [hash_bytes]. *)
Definition hash_bytes (mem data : list byte) : outcome (list byte) :=
  s ← update data (reset mem);
  '(out, _) ← finalize s;
  Ret out.

(** * The standard *)

(** Choice, parity and majority as the standard writes them. *)
Definition fips_f (t : nat) (x y z : Z) : Z :=
  if (t <? 20)%nat then Z.lxor (Z.land x y) (Z.land (Z.ldiff (2 ^ 32 - 1) x) z)
  else if (t <? 40)%nat then Z.lxor (Z.lxor x y) z
  else if (t <? 60)%nat then Z.lxor (Z.lxor (Z.land x y) (Z.land x z)) (Z.land y z)
  else Z.lxor (Z.lxor x y) z.
Definition fips_k (t : nat) : Z := nth (t / 20) K 0.

Definition fips_round (w : list Z) (r : words5) (t : nat) : words5 :=
  let '(a, b, c, d, e) := r in
  (u32 (left_rotate a 5 + fips_f t b c d + e + fips_k t + nth t w 0), a, left_rotate b 30, c, d).

Definition fips_compress (h : words5) (block : list byte) : words5 :=
  add5 h (foldl (fips_round (schedule block)) h (seq 0 80)).

Definition iv : words5 := hw (reset []).
Definition digest (h : words5) : list byte := let '(h0, h1, h2, h3, h4) := h in flat_map (be_enc 4) [h0; h1; h2; h3; h4].

(** The digest of a message: padded, cut into blocks, compressed. *)
Definition sha1_ref (msg : list byte) : list byte := digest (fold_pieces 64 fips_compress iv (msg ++ sha_pad (zlen msg))).

End sha1.

Example sha1_abc :
  sha1.hash_raw (replicate 64 x00) [x61; x62; x63] = Ret (be_enc 20 0xa9993e364706816aba3e25717850c26c9cd0d89d).
Proof. by vm_compute. Qed.
