(* ===== verification/Sha1Proofs.v ===== *)
(** The streaming SHA-1 computes the digest of the standard. *)

From S2P Require Import Prelude PeerId Words Pieces Sha256 Sha256Proofs Sha1.
Import sha1.

(** * The rounds *)

Lemma f_k_fips i b c d : (i < 80)%nat -> f_k i b c d = (fips_f i b c d, fips_k i).
Proof.
  intros Hi. unfold f_k, fips_f, fips_k.
  assert (forall q, (20 * q <= i < 20 * q + 20)%nat -> (i / 20 = q)%nat) as Hq
    by (intros q Hq; symmetry; apply (Nat.div_unique i 20 q (i - 20 * q)); lia).
  destruct (Nat.ltb_spec i 20); [|destruct (Nat.ltb_spec i 40); [|destruct (Nat.ltb_spec i 60)]].
  - rewrite (Hq 0%nat) by lia. f_equal. unfold u32. rewrite <- land_mask by lia. apply Z.bits_inj'. intros n Hn.
    rewrite Z.lor_spec, Z.lxor_spec, !Z.land_spec, Z.ldiff_spec, Z.lnot_spec by done.
    destruct (Z.testbit b n), (Z.testbit c n), (Z.testbit d n), (Z.testbit (2 ^ 32 - 1) n); done.
  - by rewrite (Hq 1%nat) by lia.
  - rewrite (Hq 2%nat) by lia. f_equal. apply Z.bits_inj. intros n. rewrite !Z.lor_spec, !Z.lxor_spec, !Z.land_spec.
    destruct (Z.testbit b n), (Z.testbit c n), (Z.testbit d n); done.
  - by rewrite (Hq 3%nat) by lia.
Qed.

Lemma process_block_fips h block : process_block h block = fips_compress h block.
Proof.
  unfold process_block, fips_compress. generalize (schedule block) as w. intros w. apply (f_equal (add5 h)).
  assert (Forall (fun i => (i < 80)%nat) (seq 0 80)) as Hs by (apply Forall_forall; intros i Hi%elem_of_seq; lia).
  revert Hs h. generalize (seq 0 80). intros l Hs. induction Hs as [|i l Hi _ IH]; intros r; cbn [foldl]; [done|].
  rewrite <- IH. apply (f_equal (fun r => foldl (round w) r l)). destruct r as [[[[a b] c] d] e]. cbn [round fips_round]. by rewrite f_k_fips.
Qed.

(** * Streaming *)

Record holds (msg : list byte) (s : SHA1) : Prop := mkHolds {
  sh_live : finalized s = false;
  sh_mem : zlen (buffer s) = 64;
  sh_pos : 0 <= buffer_length s < 64;
  sh_total : total_length s = u64 (zlen msg);
  sh_msg : exists full, whole 64 full /\ msg = full ++ ztake (buffer_length s) (buffer s)
             /\ hw s = fold_pieces 64 process_block iv full;
}.

Lemma reset_holds mem : zlen mem = 64 -> holds [] (reset mem).
Proof. intros Hm. split; try done. exists []. split; [constructor|]. done. Qed.

#[local] Opaque process_block fips_compress.

Lemma update_byte_holds b msg s : holds msg s -> returns (update_byte b s) (holds (msg ++ [b])).
Proof.
  intros [Hf Hm Hp Ht (fl & Hw & Emsg & Hh)]. unfold update_byte. rewrite Hf, poke_in by (change (zlen [b]) with 1; lia).
  cbn [mbind outcome_bind].
  replace (u64 (buffer_length s + 1)) with (buffer_length s + 1) by (unfold u64; rewrite Z.mod_small; lia).
  set (mem := overwrite _ _ _). assert (zlen mem = 64) as Hmem by (unfold mem; rewrite zlen_overwrite; change (zlen [b]) with 1; lia).
  assert (u64 (total_length s + 1) = u64 (zlen (msg ++ [b]))) as Et.
  { rewrite Ht, zlen_app. unfold u64. by rewrite Z.add_mod_idemp_l by lia. }
  assert (ztake (buffer_length s + 1) mem = ztake (buffer_length s) (buffer s) ++ [b]) as Em.
  { unfold mem, overwrite. rewrite app_assoc. apply ztake_app. by rewrite zlen_app, zlen_ztake by lia. }
  destruct (Z.eqb_spec (buffer_length s + 1) 64) as [E|E].
  - split; cbn [finalized buffer buffer_length total_length hw]; try done. exists (fl ++ mem).
    rewrite E, ztake_all in Em by lia. split; [apply whole_app; [done|by apply whole_one]|].
    split; [by rewrite ztake_0, app_nil_r, Em, Emsg, app_assoc|]. by rewrite fold_pieces_app, fold_pieces_one, Hh by done.
  - split; cbn [finalized buffer buffer_length total_length hw]; [done|done|lia|done|].
    exists fl. rewrite Em, Emsg, app_assoc. done.
Qed.

Lemma update_absorbs data : forall msg s, holds msg s -> returns (update data s) (holds (msg ++ data)).
Proof.
  induction data as [|b data IH]; intros msg s Hs; cbn [update]; [by rewrite app_nil_r|].
  eapply returns_bind; [by apply update_byte_holds|]. intros s1 H1. rewrite (app_assoc msg [b] data : msg ++ b :: data = _). by apply IH.
Qed.

(** * Padding *)

(** How far the buffer is filled depends on the length of the message only. *)
Lemma holds_pos msg s : holds msg s -> buffer_length s = zlen msg mod 64.
Proof.
  intros [_ Hm Hp _ (fl & Hw & -> & _)]. rewrite zlen_app, zlen_ztake by lia. pose proof (whole_length 64 fl Hw) as E.
  rewrite Z.add_mod, E, Z.add_0_l, Z.mod_mod, Z.mod_small by lia. done.
Qed.

Lemma zero_fill_holds fuel : forall msg s,
  holds msg s -> (56 - zlen msg) mod 64 < Z.of_nat fuel ->
  returns (zero_fill fuel s) (holds (msg ++ replicate (Z.to_nat ((56 - zlen msg) mod 64)) x00)).
Proof.
  induction fuel as [|fuel IH]; intros msg s Hs Hf; [pose proof (Z.mod_pos_bound (56 - zlen msg) 64); lia|]. cbn [zero_fill].
  pose proof (holds_pos msg s Hs) as Ep. pose proof (Z.mod_pos_bound (zlen msg) 64 ltac:(lia)) as Hb.
  destruct (Z.eqb_spec (buffer_length s) 56) as [E|E].
  - replace ((56 - zlen msg) mod 64) with 0; [by rewrite app_nil_r|]. rewrite Zminus_mod, <- Ep, E. done.
  - assert ((56 - zlen msg) mod 64 = 1 + (56 - zlen (msg ++ [x00])) mod 64) as Estep.
    { rewrite zlen_app. change (zlen [x00]) with 1. replace (56 - (zlen msg + 1)) with (55 - zlen msg) by lia.
      rewrite (Zminus_mod 56), (Zminus_mod 55), <- Ep. change (56 mod 64) with 56. change (55 mod 64) with 55.
      destruct (Z_lt_le_dec (buffer_length s) 56).
      - rewrite !Z.mod_small by lia. lia.
      - rewrite <- (Z.mod_add (56 - _) 1 64), <- (Z.mod_add (55 - _) 1 64), !Z.mod_small by lia. lia. }
    eapply returns_bind; [by apply update_byte_holds|]. intros s1 H1.
    pose proof (Z.mod_pos_bound (56 - zlen (msg ++ [x00])) 64 ltac:(lia)).
    eapply returns_mono; [apply (IH _ s1 H1); lia|]. intros s2. rewrite Estep, Z2Nat.inj_add by lia.
    change (Z.to_nat 1) with 1%nat. cbn [Nat.add replicate]. by rewrite <- app_assoc.
Qed.

Lemma length_bytes n : n < 2 ^ 61 -> 0 <= n ->
  (fun i => byte_of (Z.shiftr (u64 (u64 n * 8)) (8 * i))) <$> [7; 6; 5; 4; 3; 2; 1; 0] = be_enc 8 (8 * n).
Proof.
  intros Hn H0. assert (u64 (u64 n * 8) = 8 * n) as ->.
  { unfold u64. rewrite (Z.mod_small n) by lia. rewrite Z.mod_small by lia. lia. }
  cbn [fmap list_fmap be_enc app]. change (8 * 0) with 0. rewrite Z.shiftr_0_r, !Z.div_div by lia. rewrite !shiftr_div by lia. done.
Qed.

(** The padded message is hashed block by block. *)
Lemma pad_digest msg s :
  holds msg s -> zlen msg < 2 ^ 61 ->
  returns (pad s) (fun s' => hw s' = fold_pieces 64 process_block iv (msg ++ sha_pad (zlen msg))).
Proof.
  intros Hs Hlen. pose proof (zlen_nonneg msg). unfold pad. rewrite (sh_total _ _ Hs).
  eapply returns_bind; [by apply update_byte_holds|]. intros s1 H1.
  pose proof (Z.mod_pos_bound (56 - zlen (msg ++ [x80])) 64 ltac:(lia)).
  eapply returns_bind; [apply (zero_fill_holds 64 _ s1 H1); lia|]. intros s2 H2.
  eapply returns_mono; [by apply update_absorbs|]. intros s3 H3. rewrite length_bytes in H3 by lia.
  assert ((56 - zlen (msg ++ [x80])) mod 64 = (55 - zlen msg) mod 64) as E by (rewrite zlen_app; change (zlen [x80]) with 1; f_equal; lia).
  rewrite E in H3. match type of H3 with holds ?m _ => assert (m = msg ++ sha_pad (zlen msg)) as Em end.
  { unfold sha_pad. by rewrite <- !app_assoc. }
  rewrite Em in H3. pose proof (holds_pos _ _ H3) as Hp. destruct H3 as [_ _ _ _ (fl & _ & Emsg & ->)].
  assert (zlen (msg ++ sha_pad (zlen msg)) mod 64 = 0) as Ez.
  { unfold sha_pad. rewrite zlen_app, zlen_cons, zlen_app, zlen_replicate, zlen_be_enc by (apply Z.mod_pos_bound; lia).
    pose proof (Z.div_mod (55 - zlen msg) 64 ltac:(lia)).
    replace (zlen msg + _) with ((1 - (55 - zlen msg) / 64) * 64) by lia. by apply Z.mod_mul. }
  rewrite Hp, Ez, ztake_0, app_nil_r in Emsg. by rewrite Emsg.
Qed.

(** * The digest *)

Lemma hex_word_bytes v : hex_word v = peer_id.to_hex (word_bytes v).
Proof.
  assert (word_bytes v = (fun k => byte_of (Z.shiftr v k)) <$> [24; 16; 8; 0]) as -> by (cbn; by rewrite Z.shiftr_0_r).
  unfold hex_word, peer_id.to_hex. cbn [fmap list_fmap concat app].
  assert (forall k, 0 <= k -> u8 (byte_of (Z.shiftr v k)) = Z.land (Z.shiftr v k) 255) as Eb
    by (intros k Hk; rewrite u8_byte_of; change 255 with (2 ^ 8 - 1); rewrite land_mask by lia; done).
  assert (forall k, 0 <= k -> Z.land (Z.land (Z.shiftr v k) 255) 15 = Z.land (Z.shiftr v k) 15) as Elo
    by (intros k Hk; rewrite <- Z.land_assoc; done).
  assert (forall k, 0 <= k -> Z.shiftr (Z.land (Z.shiftr v k) 255) 4 = Z.land (Z.shiftr v (k + 4)) 15) as Ehi
    by (intros k Hk; rewrite Z.shiftr_land, Z.shiftr_shiftr by lia; done).
  rewrite !Eb, !Elo, !Ehi by lia. done.
Qed.

Lemma word_bytes_enc v : word_bytes v = be_enc 4 v.
Proof. apply write_be32_enc. Qed.

Lemma process_fold l : forall h, foldl process_block h l = foldl fips_compress h l.
Proof. induction l as [|c l IH]; intros h; cbn [foldl]; [done|]. by rewrite process_block_fips, IH. Qed.

Lemma digest_ref msg h :
  h = fold_pieces 64 process_block iv (msg ++ sha_pad (zlen msg)) -> digest h = sha1_ref msg.
Proof. intros ->. unfold sha1_ref, fold_pieces. by rewrite process_fold. Qed.

Lemma zlen_sha1_ref msg : zlen (sha1_ref msg) = 20.
Proof.
  unfold sha1_ref, digest. destruct (fold_pieces _ _ _ _) as [[[[h0 h1] h2] h3] h4]. cbn [flat_map app].
  by rewrite !zlen_app, !zlen_be_enc.
Qed.

Lemma to_hex_app l k : peer_id.to_hex (l ++ k) = peer_id.to_hex l ++ peer_id.to_hex k.
Proof. unfold peer_id.to_hex. by rewrite fmap_app, concat_app. Qed.

Lemma finalize_ref msg s :
  holds msg s -> zlen msg < 2 ^ 61 ->
  returns (finalize s) (fun '(out, s') => out = peer_id.to_hex (sha1_ref msg) /\ finalized s' = true /\ digest (hw s') = sha1_ref msg).
Proof.
  intros Hs Hlen. unfold finalize. rewrite (sh_live _ _ Hs). eapply returns_bind; [by apply (pad_digest msg)|].
  intros s1 H1. pose proof (digest_ref msg _ H1) as E. unfold digest in E.
  destruct (hw s1) as [[[[h0 h1] h2] h3] h4] eqn:Eh. cbn [returns]. rewrite <- E. cbn [flat_map].
  rewrite !hex_word_bytes, !word_bytes_enc, !to_hex_app. split_and!; [done|done|]. cbn [set_finalized hw]. by rewrite Eh.
Qed.

Lemma finalize_bytes_ref msg s :
  holds msg s -> zlen msg < 2 ^ 61 ->
  returns (finalize_bytes s) (fun '(out, s') => out = sha1_ref msg /\ finalized s' = true /\ digest (hw s') = sha1_ref msg).
Proof.
  intros Hs Hlen. unfold finalize_bytes. rewrite (sh_live _ _ Hs).
  apply (returns_bind _ _ (fun s' => finalized s' = true /\ digest (hw s') = sha1_ref msg)).
  - eapply returns_bind; [by apply (pad_digest msg)|]. intros s1 H1. split; [done|]. by apply digest_ref.
  - intros s1 [Hf E]. unfold digest in *. destruct (hw s1) as [[[[h0 h1] h2] h3] h4] eqn:Eh. cbn [returns].
    rewrite <- E. cbn [flat_map]. rewrite !word_bytes_enc, Eh. done.
Qed.

(** What clients use. *)
Lemma sha1_facts (mem msg : list byte) :
  zlen mem = 64 -> zlen msg < 2 ^ 61 ->
  hash_raw mem msg = Ret (sha1_ref msg) /\ hash_bytes mem msg = Ret (peer_id.to_hex (sha1_ref msg)).
Proof.
  intros Hm Hlen. destruct (returns_inv _ _ (update_absorbs msg [] _ (reset_holds mem Hm))) as (s & E & Hs). cbn [app] in Hs.
  destruct (returns_inv _ _ (finalize_ref msg s Hs Hlen)) as ([out1 s1] & E1 & -> & _).
  destruct (returns_inv _ _ (finalize_bytes_ref msg s Hs Hlen)) as ([out2 s2] & E2 & -> & _).
  unfold hash_raw, hash_bytes. rewrite E. cbn [mbind outcome_bind]. by rewrite E1, E2.
Qed.


