(* ===== verification/Storage.v ===== *)
(** What a DHT node keeps for others ([dht/storage.{h,cpp}]): the write tokens it hands out and
    the peers announced under each info-hash. *)

From S2P Require Import Prelude PeerId Address DhtId Words Pieces Sha256 Sha256Proofs Sha1 Sha1Proofs.
Import dht_id.

(** * Write tokens *)

Module token_manager.

Definition kRotateInterval : Z := 5 * 60 * 1000000000.

Record TokenManager := mkTokens { secret_ : list byte; prev_secret_ : list byte; rotated_at_ : Z; initialized_ : bool }.

Definition new_tokens : TokenManager := mkTokens (replicate 16 x00) (replicate 16 x00) 0 false.

(** [rnd] are the sixteen bytes the random device would give. *)
Definition maybe_rotate (rnd : list byte) (now : Z) (t : TokenManager) : TokenManager :=
  if negb (initialized_ t) then mkTokens rnd rnd now true
  else if kRotateInterval <=? now - rotated_at_ t then mkTokens rnd (secret_ t) now (initialized_ t)
  else t.

(** [mem] is what the buffer of the hash function holds before. *)
Definition compute (mem : list byte) (querier : Address) (info_hash : NodeId) (secret : list byte) : outcome (list byte) :=
  sha1.hash_bytes mem (secret ++ ip_address.bytes (ip querier) ++ info_hash).

Definition generate (mem rnd : list byte) (querier : Address) (info_hash : NodeId) (now : Z) (t : TokenManager)
    : outcome (list byte * TokenManager) :=
  let t := maybe_rotate rnd now t in
  token ← compute mem querier info_hash (secret_ t);
  Ret (token, t).

Definition verify (mem rnd : list byte) (querier : Address) (info_hash : NodeId) (token : list byte) (now : Z) (t : TokenManager)
    : outcome (bool * TokenManager) :=
  match token with
  | [] => Ret (false, t)
  | _ =>
      let t := maybe_rotate rnd now t in
      current ← compute mem querier info_hash (secret_ t);
      if bool_decide (token = current) then Ret (true, t)
      else
        previous ← compute mem querier info_hash (prev_secret_ t);
        Ret (bool_decide (token = previous), t)
  end.

End token_manager.

(** * Announced peers *)

Module peer_store.

Definition kPeerTtl : Z := 30 * 60 * 1000000000.
Definition kMaxPeersPerHash : Z := 128.

Record Entry := mkEntry { peer : Address; added : Z }.
Definition PeerStore : Type := gmap NodeId (list Entry).

(** The loop over the known peers: [None] if the peer is not among them. *)
Fixpoint touch (p : Address) (now : Z) (es : list Entry) : option (list Entry) :=
  match es with
  | [] => None
  | e :: es =>
      if bool_decide (peer e = p) then Some (mkEntry (peer e) now :: es)
      else es ← touch p now es; Some (e :: es)
  end.

Definition store (info_hash : NodeId) (p : Address) (now : Z) (table : PeerStore) : PeerStore :=
  let peers := default [] (table !! info_hash) in
  match touch p now peers with
  | Some peers => <[info_hash := peers]> table
  | None =>
      let peers := peers ++ [mkEntry p now] in
      <[info_hash := if kMaxPeersPerHash <? zlen peers then zdrop 1 peers else peers]> table
  end.

(** The loop of [get]: the limit is checked after a peer is added. *)
Fixpoint take_peers (max : Z) (es : list Entry) (out : list Address) : list Address :=
  match es with
  | [] => out
  | e :: es =>
      let out := out ++ [peer e] in
      if max <=? zlen out then out else take_peers max es out
  end.

Definition get (info_hash : NodeId) (max : Z) (table : PeerStore) : list Address :=
  match table !! info_hash with
  | None => []
  | Some es => take_peers max es []
  end.

Definition expired (now : Z) (e : Entry) : bool := kPeerTtl <? now - added e.

Definition expire (now : Z) (table : PeerStore) : PeerStore :=
  omap (fun es => match List.filter (fun e => negb (expired now e)) es with [] => None | es => Some es end) table.

End peer_store.
