(* ===== verification/StorageProofs.v ===== *)
(** Write tokens are accepted while they should be and only where they were issued; announced
    peers stay available for their lifetime. *)

From S2P Require Import Prelude PeerId Address DhtId Words Pieces Sha256 Sha256Proofs Sha1 Sha1Proofs Storage.
Import dht_id.

(** * Write tokens *)

Section Tokens.
Import token_manager.
Context (mem : list byte) (Hmem : zlen mem = 64).

(** The token of an address and an info-hash under a secret. *)
Definition token_msg (secret : list byte) (a : IpAddress) (info_hash : NodeId) : list byte :=
  secret ++ ip_address.bytes a ++ info_hash.
Definition token_of (secret : list byte) (a : IpAddress) (info_hash : NodeId) : list byte :=
  peer_id.to_hex (sha1.sha1_ref (token_msg secret a info_hash)).

Record tokens_ok (t : TokenManager) : Prop := {
  to_secret : zlen (secret_ t) = 16;
  to_prev : zlen (prev_secret_ t) = 16;
}.

Lemma new_tokens_ok : tokens_ok new_tokens.
Proof. done. Qed.

Lemma rotate_ok rnd now t : tokens_ok t -> zlen rnd = 16 -> tokens_ok (maybe_rotate rnd now t).
Proof. intros [H1 H2] Hr. unfold maybe_rotate. destruct (initialized_ t); [destruct (_ <=? _)|]; by split. Qed.

Lemma zlen_ip_bytes a : ip_address.ip_ok a -> zlen (ip_address.bytes a) = ip_address.size a.
Proof.
  intros [Hl _]. unfold ip_address.bytes. apply zlen_ztake. unfold ip_address.size. rewrite Hl. destruct (family a); lia.
Qed.

Lemma compute_token secret q h :
  zlen secret = 16 -> ip_address.ip_ok (ip q) -> id_ok h -> compute mem q h secret = Ret (token_of secret (ip q) h).
Proof.
  intros Hs Hq Hh. unfold compute. pose proof (zlen_ip_bytes _ Hq) as Hb.
  destruct (sha1_facts mem (secret ++ ip_address.bytes (ip q) ++ h) Hmem) as [_ E]; [|exact E].
  rewrite !zlen_app, Hs, Hb. unfold id_ok in Hh. unfold ip_address.size, zlen. destruct (family (ip q)); lia.
Qed.

Lemma zlen_token secret a h : zlen (token_of secret a h) = 40.
Proof. unfold token_of. by rewrite peer_id.zlen_to_hex, zlen_sha1_ref. Qed.

(** ** Acceptance *)

Lemma verify_spec rnd q h token now t :
  tokens_ok t -> zlen rnd = 16 -> ip_address.ip_ok (ip q) -> id_ok h -> token <> [] ->
  let t' := maybe_rotate rnd now t in
  verify mem rnd q h token now t
  = Ret (bool_decide (token = token_of (secret_ t') (ip q) h) || bool_decide (token = token_of (prev_secret_ t') (ip q) h), t').
Proof.
  intros Ht Hr Hq Hh Hne t'. destruct (rotate_ok rnd now t Ht Hr) as [H1 H2]. fold t' in H1, H2.
  unfold verify. destruct token as [|b token]; [done|]. fold t'. rewrite !compute_token by done. cbn [mbind outcome_bind].
  by case_bool_decide.
Qed.

(** Calls of the token manager. *)
Inductive TokenCall :=
| Generate (rnd : list byte) (q : Address) (h : NodeId) (now : Z)
| Verify (rnd : list byte) (q : Address) (h : NodeId) (token : list byte) (now : Z).

Definition token_call (c : TokenCall) (t : TokenManager) : outcome TokenManager :=
  match c with
  | Generate rnd q h now => '(_, t) ← generate mem rnd q h now t; Ret t
  | Verify rnd q h token now => '(_, t) ← verify mem rnd q h token now t; Ret t
  end.
Fixpoint token_calls (cs : list TokenCall) (t : TokenManager) : outcome TokenManager :=
  match cs with
  | [] => Ret t
  | c :: cs => t ← token_call c t; token_calls cs t
  end.

Definition call_time (c : TokenCall) : Z := match c with Generate _ _ _ now | Verify _ _ _ _ now => now end.
Definition call_ok (c : TokenCall) : Prop :=
  match c with Generate rnd q h _ | Verify rnd q h _ _ => zlen rnd = 16 /\ ip_address.ip_ok (ip q) /\ id_ok h end.

(** A secret in use at time [T0] is still accepted. *)
Definition honoured (s : list byte) (T0 : Z) (t : TokenManager) : Prop :=
  tokens_ok t /\ initialized_ t = true /\ (secret_ t = s \/ prev_secret_ t = s /\ T0 <= rotated_at_ t).

Lemma rotate_honoured s T0 rnd now t :
  honoured s T0 t -> zlen rnd = 16 -> T0 <= now < T0 + kRotateInterval -> honoured s T0 (maybe_rotate rnd now t).
Proof.
  intros (Hok & Hi & Hs) Hr Hn. split; [by apply rotate_ok|]. unfold maybe_rotate. rewrite Hi. cbn [negb].
  destruct (Z.leb_spec kRotateInterval (now - rotated_at_ t)); [|done]. split; [done|]. cbn [prev_secret_ rotated_at_].
  destruct Hs as [->|[_ ?]]; [right; by split; [|lia]|lia].
Qed.

Lemma call_honoured s T0 c t :
  honoured s T0 t -> call_ok c -> T0 <= call_time c < T0 + kRotateInterval -> returns (token_call c t) (honoured s T0).
Proof.
  intros Ht Hc Hn. pose proof Ht as (Hok & _). destruct c as [rnd q h now|rnd q h token now]; cbn [token_call call_ok call_time] in *;
    destruct Hc as (Hr & Hq & Hh); pose proof (rotate_honoured s T0 rnd now t Ht Hr Hn) as Ht'.
  - unfold generate. rewrite compute_token by (done || apply (to_secret _ (proj1 Ht'))). exact Ht'.
  - destruct token as [|b token]; [exact Ht|]. rewrite verify_spec by done. exact Ht'.
Qed.

Lemma calls_honoured s T0 cs : forall t,
  honoured s T0 t -> Forall call_ok cs -> Forall (fun c => T0 <= call_time c < T0 + kRotateInterval) cs ->
  returns (token_calls cs t) (honoured s T0).
Proof.
  induction cs as [|c cs IH]; intros t Ht Hok Hn; cbn [token_calls]; [done|].
  apply Forall_cons in Hok as [Hc Hok]. apply Forall_cons in Hn as [Hcn Hn].
  eapply returns_bind; [by apply call_honoured|]. intros t1 H1. by apply IH.
Qed.

Lemma generate_honoured rnd q h now t :
  tokens_ok t -> zlen rnd = 16 -> ip_address.ip_ok (ip q) -> id_ok h ->
  returns (generate mem rnd q h now t) (fun '(token, t') =>
    token = token_of (secret_ t') (ip q) h /\ honoured (secret_ t') now t').
Proof.
  intros Ht Hr Hq Hh. pose proof (rotate_ok rnd now t Ht Hr) as Ht'. unfold generate. rewrite compute_token by (done || apply Ht').
  cbn [mbind outcome_bind returns]. split; [done|]. split; [done|]. split; [|by left].
  unfold maybe_rotate. destruct (initialized_ t) eqn:Hi; cbn [negb]; [destruct (_ <=? _)|]; done.
Qed.

(** ** Binding *)

(** The messages of two tokens are a SHA-1 collision. *)
Definition clash (m m' : list byte) : Prop := m <> m' /\ sha1.sha1_ref m = sha1.sha1_ref m'.

Lemma ip_bytes_inj a b :
  ip_address.ip_ok a -> ip_address.ip_ok b -> ip_address.bytes a = ip_address.bytes b -> a = b.
Proof.
  intros Ha Hb E. pose proof (zlen_ip_bytes a Ha) as La. pose proof (zlen_ip_bytes b Hb) as Lb. rewrite E, Lb in La.
  destruct Ha as [_ Ta], Hb as [_ Tb]. unfold ip_address.bytes, ip_address.size in *. destruct a as [xa fa], b as [xb fb]. cbn [bytes_ family] in *.
  assert (fa = fb) as <- by (destruct fa, fb; done || lia). f_equal.
  rewrite <- (ztake_zdrop (match fa with V6 => 16 | V4 => 4 | FNone => 0 end) xa),
    <- (ztake_zdrop (match fa with V6 => 16 | V4 => 4 | FNone => 0 end) xb). by rewrite E, Ta, Tb.
Qed.

Lemma token_inj s a h s' a' h' :
  zlen s = 16 -> zlen s' = 16 -> ip_address.ip_ok a -> ip_address.ip_ok a' -> id_ok h -> id_ok h' ->
  token_of s a h = token_of s' a' h' -> s = s' /\ a = a' /\ h = h' \/ clash (token_msg s a h) (token_msg s' a' h').
Proof.
  intros Hs Hs' Ha Ha' Hh Hh' E. unfold token_of in E.
  assert (sha1.sha1_ref (token_msg s a h) = sha1.sha1_ref (token_msg s' a' h')) as Ed.
  { pose proof (peer_id.parse_to_hex (sha1.sha1_ref (token_msg s a h))) as P. rewrite E, peer_id.parse_to_hex in P. by injection P as ->. }
  destruct (decide (token_msg s a h = token_msg s' a' h')) as [Em|Hne]; [left|right; by split].
  unfold token_msg in Em. unfold id_ok in Hh, Hh'. unfold zlen in Hs, Hs'.
  apply app_inj_1 in Em as [-> Em]; [|lia]. apply app_inj_2 in Em as [Eb ->]; [|congruence]. split_and!; try done. by apply ip_bytes_inj.
Qed.

(** a write token is accepted for five minutes after it was issued, from its address and
    for its info-hash, whatever else the manager is asked meanwhile; and it is accepted from
    no other address and for no other info-hash, unless the message it is the digest of and
    the message that is checked, under the current or the previous secret, collide. *)
Theorem write_tokens rnd q h now t cs rnd' q' h' T :
  tokens_ok t -> zlen rnd = 16 -> zlen rnd' = 16 -> ip_address.ip_ok (ip q) -> id_ok h -> ip_address.ip_ok (ip q') -> id_ok h' ->
  Forall call_ok cs -> Forall (fun c => now <= call_time c < now + kRotateInterval) cs -> now <= T < now + kRotateInterval ->
  returns (generate mem rnd q h now t) (fun '(token, t1) => returns (token_calls cs t1) (fun t2 =>
    returns (verify mem rnd' q' h' token T t2) (fun '(accepted, t3) =>
      (ip q' = ip q -> h' = h -> accepted = true)
      /\ (accepted = true -> ip q' = ip q /\ h' = h
         \/ exists s, (s = secret_ t3 \/ s = prev_secret_ t3) /\ clash (token_msg (secret_ t1) (ip q) h) (token_msg s (ip q') h'))))).
Proof.
  intros Ht Hr Hr' Hq Hh Hq' Hh' Hcs Htimes HT. eapply returns_mono; [by apply generate_honoured|].
  intros [token t1] (-> & H1). pose proof (to_secret _ (proj1 H1)) as Hs. revert H1 Hs. generalize (secret_ t1). intros s H1 Hs.
  eapply returns_mono; [by apply calls_honoured|]. intros t2 H2.
  pose proof (rotate_honoured s now rnd' T t2 H2 Hr' HT) as (Hok' & _ & Hacc). destruct H2 as (Hok & _).
  rewrite verify_spec; try done; [|intros E; pose proof (zlen_token s (ip q) h) as L; by rewrite E in L]. cbn [returns]. split.
  - intros -> ->. destruct Hacc as [<-|[<- _]].
    + by rewrite bool_decide_true.
    + rewrite (bool_decide_true (token_of (prev_secret_ _) _ _ = token_of (prev_secret_ _) _ _)) by done. apply orb_true_r.
  - destruct Hok' as [L1 L2].
    intros [E%bool_decide_eq_true|E%bool_decide_eq_true]%orb_prop;
      (apply token_inj in E as [(_ & -> & ->)|Hc]; try done; [by left|]); right; eauto.
Qed.

End Tokens.

(** A token of 127.0.0.1, presented after one rotation of the secret, is accepted from the same
    address with another port. *)
Lemma write_tokens_witness :
  let mem := replicate 64 x00 in
  let q port := mkAddress (ip_address.from_v4 [x7f; x00; x00; x01]) port in
  let h := replicate 20 x11 in
  let rnd b := replicate 16 b in
  let t0 := token_manager.mkTokens (rnd x01) (rnd x01) 0 true in
  returns (token_manager.generate mem (rnd x01) (q 1000) h 100000000000 t0) (fun '(token, t1) =>
    returns (token_calls mem [Generate (rnd x02) (q 5) h 310000000000] t1) (fun t2 =>
      returns (token_manager.verify mem (rnd x03) (q 2000) h token 399999999999 t2) (fun '(accepted, _) => accepted = true))).
Proof.
  intros mem q h rnd t0.
  assert (forall port, ip_address.ip_ok (ip (q port))) as Hq by (intros; by split).
  eapply returns_mono; [apply (write_tokens mem eq_refl (rnd x01) (q 1000) h 100000000000 t0
    [Generate (rnd x02) (q 5) h 310000000000] (rnd x03) (q 2000) h 399999999999); try done; repeat constructor; done|].
  intros [token t1] H1. eapply returns_mono; [exact H1|]. intros t2 H2. eapply returns_mono; [exact H2|].
  intros [b t3] [H3 _]. by apply H3.
Defined.

(** * Announced peers *)

Section Peers.
Import peer_store.

Inductive PeerCall :=
| Announce (h : NodeId) (p : Address) (now : Z)
| Expire (now : Z).

Definition peer_call (table : PeerStore) (c : PeerCall) : PeerStore :=
  match c with
  | Announce h p now => store h p now table
  | Expire now => expire now table
  end.
Definition peer_calls (cs : list PeerCall) (table : PeerStore) : PeerStore := foldl peer_call table cs.

Definition peer_time (c : PeerCall) : Z := match c with Announce _ _ now | Expire now => now end.

(** The peers of a hash: at least one, at most [kMaxPeersPerHash], each once. *)
Definition hash_ok (es : list Entry) : Prop := 1 <= zlen es <= kMaxPeersPerHash /\ NoDup (peer <$> es).
Definition store_ok (table : PeerStore) : Prop := map_Forall (fun _ es => hash_ok es) table.
Definition entries (table : PeerStore) (h : NodeId) : list Entry := default [] (table !! h).

(** ** Lookup after a call *)

Lemma touch_spec p now es :
  match touch p now es with
  | Some es' => p ∈ (peer <$> es) /\ Forall2 (fun e e' => peer e' = peer e /\ (e' = e \/ added e' = now)) es es'
  | None => p ∉ (peer <$> es)
  end.
Proof.
  induction es as [|e es IH]; cbn [touch]; [set_solver|]. rewrite fmap_cons. case_bool_decide as Hp.
  - split; [set_solver|]. constructor; [by split; [|right]|]. clear. induction es; constructor; auto.
  - destruct (touch p now es) as [es'|]; cbn [mbind option_bind]; [|set_solver]. destruct IH as [Hin Hf].
    split; [set_solver|]. constructor; auto.
Qed.

Definition announced (p : Address) (now : Z) (es : list Entry) : list Entry :=
  match touch p now es with
  | Some es => es
  | None => if kMaxPeersPerHash <? zlen (es ++ [mkEntry p now]) then zdrop 1 (es ++ [mkEntry p now]) else es ++ [mkEntry p now]
  end.
Definition unexpired (now : Z) (es : list Entry) : list Entry := List.filter (fun e => negb (expired now e)) es.

Lemma store_lookup h p now table h' :
  store h p now table !! h' = if decide (h = h') then Some (announced p now (entries table h)) else table !! h'.
Proof.
  unfold store, announced, entries. destruct (touch p now _); destruct (decide (h = h')) as [->|];
    first [apply (lookup_insert_eq (M:=gmap NodeId))|by apply (lookup_insert_ne (M:=gmap NodeId))].
Qed.

Lemma entries_store h p now table h' :
  entries (store h p now table) h' = if decide (h = h') then announced p now (entries table h) else entries table h'.
Proof. unfold entries at 1. rewrite store_lookup. by destruct (decide _). Qed.

Lemma expire_lookup now table h :
  expire now table !! h = (es ← table !! h; match unexpired now es with [] => None | es => Some es end).
Proof. apply lookup_omap. Qed.

Lemma entries_expire now table h : entries (expire now table) h = unexpired now (entries table h).
Proof.
  unfold entries. rewrite expire_lookup. destruct (table !! h) as [es|]; cbn [mbind option_bind default]; [|done].
  by destruct (unexpired now es) eqn:E.
Qed.

(** ** The table stays bounded *)

Lemma entries_bound table h : store_ok table -> zlen (entries table h) <= kMaxPeersPerHash /\ NoDup (peer <$> entries table h).
Proof.
  intros Ht. unfold entries. destruct (table !! h) as [es|] eqn:E; cbn; [|split; [done|constructor]].
  destruct (Ht h es E) as [[_ ?] ?]. by split.
Qed.

Lemma announced_ok p now es :
  zlen es <= kMaxPeersPerHash -> NoDup (peer <$> es) -> hash_ok (announced p now es).
Proof.
  intros Hl Hd. unfold announced. pose proof (touch_spec p now es) as Ht. destruct (touch p now es) as [es'|].
  - destruct Ht as [Hin Hf]. assert (peer <$> es' = peer <$> es) as E.
    { clear -Hf. induction Hf as [|e e' es es' [He _] _ IH]; [done|]. cbn. congruence. }
    pose proof (Forall2_length _ _ _ Hf) as Hlen. split; [|by rewrite E]. unfold zlen in *. rewrite <- Hlen.
    destruct es; [set_solver|]. split; [cbn; lia|done].
  - assert (NoDup (peer <$> es ++ [mkEntry p now])) as Hd'.
    { rewrite fmap_app. apply NoDup_app. split_and!; [done| |by apply NoDup_singleton]. set_solver. }
    assert (zlen (es ++ [mkEntry p now]) = zlen es + 1) as L by (rewrite zlen_app; done). unfold hash_ok, kMaxPeersPerHash in *.
    destruct (Z.ltb_spec 128 (zlen (es ++ [mkEntry p now]))); (split; [|]); try done.
    + rewrite zlen_zdrop by lia. lia.
    + unfold zdrop. rewrite fmap_drop. eapply sublist_NoDup; [done|apply sublist_drop].
    + pose proof (zlen_nonneg es). lia.
Qed.

Lemma peer_call_ok c table : store_ok table -> store_ok (peer_call table c).
Proof.
  intros Ht. destruct c as [h p now|now]; cbn [peer_call]; intros h' es.
  - rewrite store_lookup. destruct (decide (h = h')) as [->|]; [|apply Ht]. intros [= <-].
    destruct (entries_bound table h' Ht). by apply announced_ok.
  - rewrite expire_lookup. destruct (table !! h') as [es0|] eqn:E; cbn [mbind option_bind]; [|done].
    destruct (Ht _ _ E) as [[_ Hl] Hd]. destruct (unexpired now es0) as [|e es1] eqn:Ef; [done|]. intros [= <-].
    assert (sublist (e :: es1) es0) as Hs by (rewrite <- Ef; clear; induction es0 as [|x l IH]; cbn; [constructor|destruct (negb _); by constructor]).
    split; [|eapply sublist_NoDup; [done|by apply (fmap_sublist peer)]]. apply sublist_length in Hs. unfold zlen in *. cbn [length] in *. lia.
Qed.

Lemma peer_calls_ok cs : forall table, store_ok table -> store_ok (peer_calls cs table).
Proof. induction cs as [|c cs IH]; intros table Ht; [done|]. apply IH. by apply peer_call_ok. Qed.

(** ** A new peer stays *)

(** A peer heard at [T0] or later, followed by at most [k] others. *)
Definition standing (p : Address) (T0 k : Z) (es : list Entry) : Prop :=
  exists l1 e l2, es = l1 ++ e :: l2 /\ peer e = p /\ T0 <= added e /\ zlen l2 <= k.

Lemma announced_standing p T0 k q now es :
  standing p T0 k es -> zlen es <= kMaxPeersPerHash -> T0 <= now -> k < kMaxPeersPerHash - 1 ->
  standing p T0 (k + 1) (announced q now es).
Proof.
  intros (l1 & e & l2 & -> & He & Ha & Hk) Hl Hn Hk'. unfold announced. pose proof (touch_spec q now (l1 ++ e :: l2)) as Ht.
  destruct (touch q now _) as [es'|].
  - destruct Ht as [_ Hf]. apply Forall2_app_inv_l in Hf as (k1 & k2 & _ & Hf & ->).
    apply Forall2_cons_inv_l in Hf as (e' & k3 & [Hp Hor] & Hf & ->). apply Forall2_length in Hf. exists k1, e', k3.
    split_and!; [done|congruence|destruct Hor as [->| ->]; lia|unfold zlen in *; lia].
  - clear Ht. rewrite zlen_app, zlen_cons in Hl. rewrite <- app_assoc. cbn [app].
    assert (zlen (l2 ++ [mkEntry q now]) <= k + 1) as Hl2 by (rewrite zlen_app; change (zlen [_]) with 1; lia).
    destruct (Z.ltb_spec kMaxPeersPerHash (zlen (l1 ++ e :: l2 ++ [mkEntry q now]))) as [Hfull|]; [|by eexists _, _, _].
    destruct l1 as [|e1 l1]; [|by exists l1, e, (l2 ++ [mkEntry q now])].
    cbn [app] in Hfull. rewrite zlen_cons in Hfull. lia.
Qed.

Lemma unexpired_standing p T0 k now es : standing p T0 k es -> now <= T0 + kPeerTtl -> standing p T0 k (unexpired now es).
Proof.
  intros (l1 & e & l2 & -> & He & Ha & Hk) Hn. unfold unexpired. rewrite List.filter_app. cbn [List.filter].
  replace (negb (expired now e)) with true by (unfold expired; destruct (Z.ltb_spec kPeerTtl (now - added e)); [lia|done]).
  eexists _, _, _. split_and!; [done..|]. etrans; [|exact Hk]. unfold zlen. pose proof (List.filter_length_le (fun e => negb (expired now e)) l2). lia.
Qed.

(** How many announcements of a hash a history has. *)
Fixpoint announcements (h : NodeId) (cs : list PeerCall) : Z :=
  match cs with
  | [] => 0
  | Announce h' _ _ :: cs => (if decide (h' = h) then 1 else 0) + announcements h cs
  | Expire _ :: cs => announcements h cs
  end.

Lemma announcements_nonneg h cs : 0 <= announcements h cs.
Proof. induction cs as [|[h' p now|now] cs IH]; cbn; [done|destruct (decide _)|]; lia. Qed.

Lemma calls_standing h p T0 cs : forall k table,
  store_ok table -> standing p T0 k (entries table h) -> k + announcements h cs <= kMaxPeersPerHash - 1 ->
  Forall (fun c => T0 <= peer_time c <= T0 + kPeerTtl) cs ->
  standing p T0 (kMaxPeersPerHash - 1) (entries (peer_calls cs table) h).
Proof.
  induction cs as [|c cs IH]; intros k table Ht Hs Hk Hn.
  { destruct Hs as (l1 & e & l2 & ? & ? & ? & ?). exists l1, e, l2. split_and!; try done. cbn in Hk. lia. }
  apply Forall_cons in Hn as [Hc Hn]. pose proof (announcements_nonneg h cs).
  pose proof (peer_call_ok c table Ht) as Ht'. destruct (entries_bound table h Ht) as [Hb _].
  destruct c as [h' q now|now]; cbn [announcements peer_time] in *; change (peer_calls (?c :: cs) table) with (peer_calls cs (peer_call table c)).
  - destruct (decide (h' = h)) as [->|Hne].
    + apply (IH (k + 1)); [done| |lia|done]. cbn [peer_call]. rewrite entries_store, decide_True by done. apply announced_standing; try done; lia.
    + apply (IH k); [done| |lia|done]. cbn [peer_call]. by rewrite entries_store, decide_False.
  - apply (IH k); [done| |lia|done]. cbn [peer_call]. rewrite entries_expire. apply unexpired_standing; [done|lia].
Qed.

(** ** What is answered *)

Lemma take_peers_spec max es : forall out,
  zlen out < max -> take_peers max es out = ztake max (out ++ (peer <$> es)).
Proof.
  induction es as [|e es IH]; intros out Ho; cbn [take_peers].
  - cbn. rewrite app_nil_r, ztake_all by lia. done.
  - assert (zlen (out ++ [peer e]) = zlen out + 1) as L by (rewrite zlen_app; done). rewrite fmap_cons.
    replace (out ++ peer e :: (peer <$> es)) with ((out ++ [peer e]) ++ (peer <$> es)) by (by rewrite <- app_assoc).
    destruct (Z.leb_spec max (zlen (out ++ [peer e]))); [|by apply IH; lia].
    rewrite ztake_app_le, ztake_all by lia. done.
Qed.

Lemma get_peers_spec h max table : 0 < max -> get h max table = ztake max (peer <$> entries table h).
Proof.
  intros Hm. unfold get, entries. destruct (table !! h) as [es|]; cbn [default from_option]; [by rewrite take_peers_spec|].
  symmetry. apply ztake_all. unfold zlen. cbn. lia.
Qed.

(** Whatever is announced and expired, no hash has more than 128 peers
    or a peer twice, and a peer that was not known under its info-hash is found there for
    thirty minutes, as long as no more than 127 other announcements are made under that
    hash. *)
Lemma peers_kept table h p T0 cs :
  store_ok table -> p ∉ (peer <$> entries table h) ->
  Forall (fun c => T0 <= peer_time c <= T0 + kPeerTtl) cs -> announcements h cs < kMaxPeersPerHash ->
  let table' := peer_calls cs (store h p T0 table) in
  store_ok table' /\ p ∈ get h kMaxPeersPerHash table'.
Proof.
  intros Ht Hp Hn Hk table'. pose proof (peer_call_ok (Announce h p T0) table Ht) as H1. cbn [peer_call] in H1.
  assert (store_ok table') as Ht' by (by apply peer_calls_ok). split; [done|].
  assert (standing p T0 0 (entries (store h p T0 table) h)) as Hs.
  { rewrite entries_store, decide_True by done. unfold announced. pose proof (touch_spec p T0 (entries table h)) as Hf.
    destruct (touch p T0 _) as [es'|]; [by destruct Hf|]. destruct (Z.ltb_spec kMaxPeersPerHash (zlen (entries table h ++ [mkEntry p T0]))) as [Hl|].
    - destruct (entries table h) as [|e es]; [done|]. exists es, (mkEntry p T0), []. split_and!; done.
    - exists (entries table h), (mkEntry p T0), []. split_and!; done. }
  apply (calls_standing h p T0 cs 0) in Hs as (l1 & e & l2 & El & <- & _); try done; [|lia]. fold table' in El.
  rewrite get_peers_spec by done. destruct (entries_bound table' h Ht') as [Hb _]. rewrite ztake_all by (unfold zlen in *; by rewrite length_fmap).
  rewrite El, fmap_app. set_solver.
Qed.

End Peers.

(** A peer that announced again just now is dropped for the next new one if it was the first to
    announce: a refreshed entry keeps its place. *)
Lemma refreshed_peer_dropped :
  let h := replicate 20 x11 in
  let a port := mkAddress (ip_address.from_v4 [x7f; x00; x00; x01]) port in
  let table := peer_calls ((fun n => Announce h (a (Z.of_nat n)) (Z.of_nat n)) <$> seq 1 128) ∅ in
  a 1 ∉ peer_store.get h 128 (peer_calls [Announce h (a 1) 1000; Announce h (a 9999) 1001] table)
  /\ a 2 ∈ peer_store.get h 128 (peer_calls [Announce h (a 1) 1000; Announce h (a 9999) 1001] table).
Proof. cbv zeta. split; apply (bool_decide_unpack _); vm_compute; exact I. Qed.
