(* ===== verification/DosBlocker.v ===== *)
(** Per-address flood protection ([dht/dos_blocker.{h,cpp}]).

    The table is a map from addresses to a packet counter and two times. The clock reading is an
    argument, in nanoseconds since the clock's epoch, and never goes back. *)

From S2P Require Import Prelude Address.

Module dos_blocker.

Definition kMaxPerWindow : Z := 50.
Definition kWindow : Z := 10 * 1000000000.
Definition kBanDuration : Z := 5 * 60 * 1000000000.
Definition kMaxTracked : Z := 2000.

Record Entry := mkEntry { count : Z; window_start : Z; banned_until : Z }.
Abbreviation DosBlocker := (gmap IpAddress Entry).

Definition new_entry : Entry := mkEntry 0 0 0.

Definition tracked (table : DosBlocker) : Z := Z.of_nat (size table).

(** An entry that [prune] drops. *)
Definition idle (now : Z) (e : Entry) : bool := (banned_until e <=? now) && (kWindow <=? now - window_start e).
Definition prune (now : Z) (table : DosBlocker) : DosBlocker := filter (fun '(_, e) => idle now e = false) table.

(** What [allow] does to the entry of the address. *)
Definition allow_entry (now : Z) (e : Entry) : bool * Entry :=
  if now <? banned_until e then (false, e)
  else
    let e := if kWindow <=? now - window_start e then mkEntry 0 now (banned_until e) else e in
    let e := mkEntry (count e + 1) (window_start e) (banned_until e) in
    if kMaxPerWindow <? count e then (false, mkEntry (count e) (window_start e) (now + kBanDuration))
    else (true, e).

Definition allow (ip : IpAddress) (now : Z) (table : DosBlocker) : bool * DosBlocker :=
  let '(ok, e) := allow_entry now (default new_entry (table !! ip)) in
  let table := <[ip := e]> table in
  (ok, if ok && (kMaxTracked <? tracked table) then prune now table else table).

(** ** Sequences of packets *)

(** The packets of all senders, each with its verdict. *)
Fixpoint verdicts (ps : list (IpAddress * Z)) (table : DosBlocker) : list (IpAddress * bool) :=
  match ps with
  | [] => []
  | (a, now) :: ps => let '(ok, table) := allow a now table in (a, ok) :: verdicts ps table
  end.

(** One sender with an entry of its own. *)
Fixpoint answers (ts : list Z) (e : Entry) : list bool :=
  match ts with
  | [] => []
  | now :: ts => let '(ok, e) := allow_entry now e in ok :: answers ts e
  end.

(** What concerns one sender. *)
Definition of_sender {A} (a : IpAddress) (l : list (IpAddress * A)) : list A :=
  (filter (fun x => x.1 = a) l).*2.

(** The times of the packets let through. *)
Fixpoint passed (ts : list Z) (e : Entry) : list Z :=
  match ts with
  | [] => []
  | now :: ts => let '(ok, e) := allow_entry now e in (if ok then [now] else []) ++ passed ts e
  end.

(** Times, from [T] on, that do not go back. *)
Fixpoint clock (T : Z) (ts : list Z) : Prop :=
  match ts with
  | [] => True
  | now :: ts => T <= now /\ clock now ts
  end.

(** No more than [n] in a window. *)
Definition spaced (n : nat) (ts : list Z) : Prop :=
  forall i a b, ts !! i = Some a -> ts !! (i + n)%nat = Some b -> a + kWindow <= b.

(** * Pruning changes no verdict *)

(** An entry of the table stands for the entry the sender would have without pruning. *)
Definition same_state (T : Z) (e e' : Entry) : Prop :=
  count e = count e' /\ window_start e = window_start e' /\ 0 <= window_start e
  /\ (banned_until e = banned_until e' \/ banned_until e <= T /\ banned_until e' <= T).
Definition stands (T : Z) (o : option Entry) (e : Entry) : Prop :=
  match o with
  | Some e' => same_state T e' e
  | None => e = new_entry \/ 0 <= window_start e /\ idle T e = true
  end.

Lemma stands_later T T' o e : T <= T' -> stands T o e -> stands T' o e.
Proof.
  intros HT. destruct o as [e'|]; cbn [stands].
  - intros (? & ? & ? & Hb). split_and!; try done. destruct Hb as [?|[? ?]]; [by left|right; lia].
  - intros [?|[? Hi]]; [by left|right]. split; [done|]. unfold idle in *.
    apply andb_prop in Hi as [H1%Z.leb_le H2%Z.leb_le]. apply andb_true_intro. split; apply Z.leb_le; lia.
Qed.

Lemma allow_same T now e e' :
  same_state T e' e -> T <= now -> 0 <= now ->
  (allow_entry now e').1 = (allow_entry now e).1 /\ same_state now (allow_entry now e').2 (allow_entry now e).2.
Proof.
  destruct e as [c w b], e' as [c' w' b']. unfold same_state, allow_entry. cbn [count window_start banned_until].
  intros (-> & -> & Hw & Hb) HT Hn.
  assert ((now <? b') = (now <? b)) as -> by (destruct Hb as [->|[? ?]]; [done|]; destruct (Z.ltb_spec now b'), (Z.ltb_spec now b); done || lia).
  destruct (Z.ltb_spec now b); cbn [fst snd]; [split_and!; try done; destruct Hb; [by left|right; lia]|].
  assert (forall c w, 0 <= w -> same_state now (mkEntry c w b') (mkEntry c w b)) as Hs.
  { intros. unfold same_state. cbn. split_and!; try done. destruct Hb; [by left|right; lia]. }
  destruct (Z.leb_spec kWindow (now - w)); cbn [count window_start banned_until];
    (destruct (_ <? _); cbn [fst snd]; split; [done| |done|]; try (by apply Hs);
     unfold same_state; cbn; split_and!; try done; by left).
Qed.

Lemma allow_stands T now o e :
  stands T o e -> T <= now -> 0 <= now ->
  (allow_entry now (default new_entry o)).1 = (allow_entry now e).1
  /\ same_state now (allow_entry now (default new_entry o)).2 (allow_entry now e).2.
Proof.
  intros Hs HT Hn. destruct o as [e'|]; cbn [default stands] in *; [by eapply allow_same|].
  destruct Hs as [->|[Hw Hi]]; [apply (allow_same now); [|lia..]; by repeat split; try left|].
  unfold idle in Hi. apply andb_prop in Hi as [H1%Z.leb_le H2%Z.leb_le].
  assert (kWindow <= T) by (unfold kWindow in *; lia).
  assert (allow_entry now e = (true, mkEntry 1 now (banned_until e))) as ->.
  { unfold allow_entry. destruct (Z.ltb_spec now (banned_until e)); [lia|]. destruct (Z.leb_spec kWindow (now - window_start e)); [done|lia]. }
  assert (allow_entry now new_entry = (true, mkEntry 1 now 0)) as ->.
  { unfold allow_entry. cbn [new_entry banned_until window_start]. destruct (Z.ltb_spec now 0); [lia|]. destruct (Z.leb_spec kWindow (now - 0)); [done|lia]. }
  cbn. split; [done|]. unfold same_state. cbn. split_and!; try done. right. lia.
Qed.

Lemma prune_stands now table a e :
  stands now (table !! a) e -> stands now (prune now table !! a) e.
Proof.
  intros Hs. destruct (prune now table !! a) as [e'|] eqn:E.
  - apply map_lookup_filter_Some in E as [E _]. by rewrite E in Hs.
  - destruct (table !! a) as [e'|] eqn:E'; [|done].
    apply map_lookup_filter_None in E as [E|E]; [by rewrite E in E'|]. specialize (E e' E'). cbn in E. apply not_false_is_true in E.
    destruct Hs as (_ & Hw & H0 & Hb). right. rewrite <- Hw. split; [done|]. unfold idle in *. rewrite <- Hw.
    apply andb_prop in E as [H1%Z.leb_le H2]. rewrite H2, andb_true_r. apply Z.leb_le. lia.
Qed.

Lemma allow_sender a now table T e :
  stands T (table !! a) e -> T <= now -> 0 <= now ->
  (allow a now table).1 = (allow_entry now e).1 /\ stands now ((allow a now table).2 !! a) (allow_entry now e).2.
Proof.
  intros Hs HT Hn. destruct (allow_stands T now _ e Hs HT Hn) as [E He]. unfold allow.
  destruct (allow_entry now (default new_entry (table !! a))) as [ok e1]. cbn [fst snd] in *. split; [done|].
  assert (stands now ((<[a := e1]> table : DosBlocker) !! a) (allow_entry now e).2) as H1.
  { by rewrite lookup_insert_eq. }
  destruct (_ && _); [|done]. by apply prune_stands.
Qed.

Lemma allow_other a b now table T e :
  a <> b -> stands T (table !! b) e -> T <= now -> stands now ((allow a now table).2 !! b) e.
Proof.
  intros Hne Hs HT. unfold allow. destruct (allow_entry now _) as [ok e1]. cbn [snd].
  assert (stands now ((<[a := e1]> table : DosBlocker) !! b) e) as H1.
  { rewrite lookup_insert_ne by done. by eapply stands_later. }
  destruct (_ && _); [|done]. by apply prune_stands.
Qed.

Lemma verdicts_sender a ps : forall table T e,
  stands T (table !! a) e -> 0 <= T -> clock T ps.*2 -> of_sender a (verdicts ps table) = answers (of_sender a ps) e.
Proof.
  induction ps as [|[b now] ps IH]; intros table T e Hs H0 Hc; [done|]. cbn [fmap list_fmap clock snd] in Hc. destruct Hc as [HT Hc].
  cbn [verdicts]. destruct (allow b now table) as [ok table'] eqn:E. unfold of_sender. rewrite !filter_cons. cbn [fst].
  destruct (decide (b = a)) as [->|Hne].
  - destruct (allow_sender a now table T e Hs HT) as [E1 H1]; [lia|]. rewrite E in E1, H1. cbn [fst snd] in *.
    rewrite !fmap_cons. cbn [answers snd]. destruct (allow_entry now e) as [ok' e']. cbn [fst snd] in *. subst ok'. f_equal. apply (IH _ now); [done|lia|done].
  - pose proof (allow_other b a now table T e Hne Hs HT) as H1. rewrite E in H1. cbn [snd] in H1. apply (IH _ now); [done|lia|done].
Qed.

(** * Rates *)

(** The cases of one packet: banned, first of a window, one more of a window, one too many. *)
Lemma allow_cases now e (P : bool * Entry -> Prop) :
  (now < banned_until e -> P (false, e)) ->
  (banned_until e <= now -> window_start e + kWindow <= now -> P (true, mkEntry 1 now (banned_until e))) ->
  (banned_until e <= now -> now < window_start e + kWindow -> count e < kMaxPerWindow ->
   P (true, mkEntry (count e + 1) (window_start e) (banned_until e))) ->
  (banned_until e <= now -> now < window_start e + kWindow -> kMaxPerWindow <= count e ->
   P (false, mkEntry (count e + 1) (window_start e) (now + kBanDuration))) ->
  P (allow_entry now e).
Proof.
  intros H1 H2 H3 H4. unfold allow_entry. destruct (Z.ltb_spec now (banned_until e)); [auto|].
  destruct (Z.leb_spec kWindow (now - window_start e)); cbn [count window_start banned_until]; [apply H2; lia|].
  destruct (Z.ltb_spec kMaxPerWindow (count e + 1)); [apply H4|apply H3]; lia.
Qed.

(** ** The packets let through *)

(** The packets let through: those of the current window, those of the window before, and
    older ones. *)
Record windows (T : Z) (e : Entry) (ps : list Z) : Prop := {
  w_parts : exists old prev cur, ps = old ++ prev ++ cur /\ (length prev <= 50)%nat
    /\ Z.of_nat (length cur) = Z.min (count e) kMaxPerWindow /\ Forall (fun a => a + kWindow <= window_start e) old
    /\ Forall (fun a => a <= window_start e) prev /\ Forall (fun a => a <= T) cur;
  w_count : 0 <= count e <= kMaxPerWindow \/ 0 <= count e /\ window_start e + kWindow <= banned_until e;
  w_start : 0 <= window_start e <= T;
  w_spaced : spaced 100 ps;
}.

Lemma spaced_snoc n ps b :
  spaced n ps -> (forall i a, (i + n)%nat = length ps -> ps !! i = Some a -> a + kWindow <= b) -> n <> 0%nat -> spaced n (ps ++ [b]).
Proof.
  intros Hs Hb Hn i x y Hx Hy. pose proof (lookup_lt_Some _ _ _ Hy) as L. rewrite length_app in L. cbn in L.
  rewrite lookup_app_l in Hx by lia. destruct (decide ((i + n)%nat = length ps)) as [E|].
  - rewrite E, list_lookup_middle in Hy by done. injection Hy as <-. by eapply Hb.
  - rewrite lookup_app_l in Hy by lia. by eapply Hs.
Qed.

Lemma windows_fresh T e ps now :
  windows T e ps -> T <= now -> window_start e + kWindow <= now -> windows now (mkEntry 1 now (banned_until e)) (ps ++ [now]).
Proof.
  intros [(old & prev & cur & -> & Lp & Lc & Ho & Hp & Hc) Hn Hw Hs] HT Hstart.
  assert (Forall (fun a => a + kWindow <= now) (old ++ prev)) as Hop by (apply Forall_app; split; eapply Forall_impl; try done; cbn; lia).
  rewrite app_assoc in *. split; cbn [count window_start banned_until].
  - exists (old ++ prev), cur, [now]. rewrite <- !app_assoc. split_and!; [done|unfold kMaxPerWindow in Lc; lia|done|done| |by repeat constructor].
    eapply Forall_impl; [done|]. cbn. lia.
  - left. done.
  - lia.
  - apply spaced_snoc; [done| |done]. intros i a E Hi. rewrite !length_app in E. unfold kMaxPerWindow in Lc.
    rewrite lookup_app_l in Hi by (rewrite length_app; lia).
    by apply (Forall_lookup_1 _ _ _ _ Hop) in Hi.
Qed.

Lemma windows_more T e ps now :
  windows T e ps -> T <= now -> count e < kMaxPerWindow ->
  windows now (mkEntry (count e + 1) (window_start e) (banned_until e)) (ps ++ [now]).
Proof.
  intros [(old & prev & cur & -> & Lp & Lc & Ho & Hp & Hc) Hn Hw Hs] HT Hm. split; cbn [count window_start banned_until].
  - exists old, prev, (cur ++ [now]). rewrite <- !app_assoc. split_and!; try done; [rewrite length_app; cbn; lia|].
    apply Forall_app. split; [eapply Forall_impl; [done|]; cbn; lia|by repeat constructor].
  - lia.
  - lia.
  - apply spaced_snoc; [done| |done]. intros i a E Hi. rewrite !length_app in E. unfold kMaxPerWindow in *.
    rewrite lookup_app_l in Hi by lia. apply (Forall_lookup_1 _ _ _ _ Ho) in Hi. lia.
Qed.

Lemma windows_refused T e ps now :
  windows T e ps -> T <= now -> now < window_start e + kWindow -> kMaxPerWindow <= count e ->
  windows now (mkEntry (count e + 1) (window_start e) (now + kBanDuration)) ps.
Proof.
  intros [(old & prev & cur & -> & Lp & Lc & Ho & Hp & Hc) Hn Hw Hs] HT Hl Hm. split; cbn [count window_start banned_until]; [|right|lia|done].
  - exists old, prev, cur. split_and!; try done; [lia|]. eapply Forall_impl; [done|]. cbn. lia.
  - unfold kWindow, kBanDuration, kMaxPerWindow in *. lia.
Qed.

Lemma windows_later T e ps now : windows T e ps -> T <= now -> windows now e ps.
Proof.
  intros [(old & prev & cur & ? & ? & ? & ? & ? & Hc) Hn Hw Hs] HT. split; [|done|lia|done].
  exists old, prev, cur. split_and!; try done. eapply Forall_impl; [done|]. cbn. lia.
Qed.

Lemma passed_spaced ts : forall T e ps, windows T e ps -> clock T ts -> spaced 100 (ps ++ passed ts e).
Proof.
  induction ts as [|now ts IH]; intros T e ps Hw Hc; cbn [passed]; [rewrite app_nil_r; apply Hw|]. destruct Hc as [HT Hc].
  apply (allow_cases now e); intros; cbn [app]; rewrite ?app_nil_l; try (rewrite cons_middle, app_assoc); apply (IH now); try done.
  - by eapply windows_later.
  - by eapply windows_fresh.
  - by eapply windows_more.
  - by eapply windows_refused.
Qed.
(** ** A sender within the rate *)

Lemma answers_polite ts : forall T e old cur,
  Z.of_nat (length cur) = count e -> count e <= kMaxPerWindow -> Forall (fun a => window_start e <= a) cur ->
  banned_until e <= T -> window_start e <= T -> clock T ts -> spaced 50 (old ++ cur ++ ts) ->
  answers ts e = replicate (length ts) true.
Proof.
  induction ts as [|now ts IH]; intros T e old cur Lc Hm Hw Hb HwT Hc Hs; [done|]. destruct Hc as [HT Hc]. cbn [answers length replicate].
  apply (allow_cases now e); intros; [lia| | |].
  - f_equal. apply (IH now _ (old ++ cur) [now]); cbn [count window_start banned_until]; try done; [by apply Forall_singleton|].
    by rewrite <- app_assoc.
  - f_equal. apply (IH now _ old (cur ++ [now])); cbn [count window_start banned_until]; try lia; try done;
      [rewrite length_app; cbn; lia|apply Forall_app; split; [done|repeat constructor; lia]|by rewrite <- app_assoc].
  - exfalso. destruct cur as [|a cur]; [cbn in Lc; unfold kMaxPerWindow in *; lia|]. apply Forall_cons in Hw as [Ha _].
    assert (length (a :: cur) = 50%nat) as L by (unfold kMaxPerWindow in *; lia).
    assert (a + kWindow <= now); [|lia]. apply (Hs (length old)).
    + by apply list_lookup_middle.
    + rewrite lookup_app_r by lia. replace (length old + 50 - length old)%nat with (length (a :: cur)) by lia. by apply list_lookup_middle.
Qed.

(** ** A ban *)

Lemma answers_banned ts : forall T e, clock T ts -> forall j b, ts !! j = Some b -> b < banned_until e -> answers ts e !! j = Some false.
Proof.
  induction ts as [|now ts IH]; intros T e Hc j b Hj Hb; [done|]. destruct Hc as [HT Hc].
  assert (now < banned_until e) as Hn.
  { destruct j as [|j]; cbn in Hj; [congruence|]. assert (forall ts T j, clock T ts -> ts !! j = Some b -> T <= b) as Hle.
    { clear. induction ts as [|t ts IH]; intros T [|j] Hc Hj; cbn in *; try done; destruct Hc as [HT Hc]; [congruence|].
      specialize (IH _ _ Hc Hj). lia. }
    specialize (Hle _ _ _ Hc Hj). lia. }
  cbn [answers]. unfold allow_entry. destruct (Z.ltb_spec now (banned_until e)); [|lia]. destruct j as [|j]; [done|]. cbn in *. by eapply IH.
Qed.

Lemma answers_ban ts : forall T e i a,
  clock T ts -> banned_until e <= T -> ts !! i = Some a -> take (S i) (answers ts e) = replicate i true ++ [false] ->
  forall j b, (i <= j)%nat -> ts !! j = Some b -> b < a + kBanDuration -> answers ts e !! j = Some false.
Proof.
  induction ts as [|now ts IH]; intros T e i a Hc Hb Hi Hf j b Hj Hjb Hba; [done|]. destruct Hc as [HT Hc]. cbn [answers] in *. revert Hf.
  apply (allow_cases now e); intros Hbn; [lia| | |].
  1, 2: intros; destruct i as [|i]; [done|]; destruct j as [|j]; [lia|]; rewrite firstn_cons in *; cbn [replicate app] in *;
    simplify_eq; eapply (IH now _ i a); cbn [banned_until]; done || lia.
  intros _ _ Hf. destruct i as [|i]; [|done]. injection Hi as <-. destruct j as [|j]; [done|]. cbn in *. by eapply answers_banned.
Qed.

Lemma clock_from T T' ts : T' <= T -> clock T ts -> clock T' ts.
Proof. destruct ts as [|t ts]; [done|]. intros HT [? ?]. split; [lia|done]. Qed.

Lemma clock_sender a ps : forall T, clock T ps.*2 -> clock T (of_sender a ps).
Proof.
  induction ps as [|[b now] ps IH]; intros T; [done|]. cbn [fmap list_fmap clock snd]. intros [HT Hc]. unfold of_sender. rewrite filter_cons. cbn [fst].
  destruct (decide (b = a)); [split; [done|by apply IH]|]. apply (clock_from now); [done|by apply IH].
Qed.

(** C22: flood protection. The packets of an address are judged by themselves: whatever the
    others send, and whenever entries are pruned, the verdicts are those of a counter kept for
    that address alone. If at most 50 of them fall into any ten seconds, all are let through;
    in any case at most 100 are let through in any span of less than ten seconds; and from
    the first one refused, all are refused for five minutes. *)
Theorem flood_protection a ps :
  clock 0 ps.*2 ->
  let ts := of_sender a ps in
  let vs := of_sender a (verdicts ps ∅) in
  vs = answers ts new_entry
  /\ (spaced 50 ts -> vs = replicate (length ts) true)
  /\ spaced 100 (passed ts new_entry)
  /\ (forall i t, ts !! i = Some t -> take (S i) vs = replicate i true ++ [false] ->
      forall j u, (i <= j)%nat -> ts !! j = Some u -> u < t + kBanDuration -> vs !! j = Some false).
Proof.
  intros Hc ts vs. pose proof (clock_sender a ps 0 Hc) as Hts. fold ts in Hts.
  assert (vs = answers ts new_entry) as -> by (apply (verdicts_sender a ps ∅ 0); [by left|done|done]). split_and!; [done|..].
  - intros Hs. by apply (answers_polite ts 0 new_entry [] []).
  - apply (passed_spaced ts 0 new_entry []); [|done]. split; cbn; [|by left|done|by intros i b c].
    exists [], [], []. split_and!; cbn; done || lia.
  - intros i t Hi Hf. by apply (answers_ban ts 0 new_entry i t).
Qed.

(** Sixty packets of one sender within a microsecond: its packet four minutes later is refused,
    that of another is not. *)
Lemma flood_protection_witness :
  let a b := ip_address.from_v4 [x0a; x00; x00; b] in
  let ps := ((fun n => (a x01, Z.of_nat n)) <$> seq 0 60) ++ [(a x02, 60); (a x01, 240000000000)] in
  of_sender (a x01) (verdicts ps ∅) !! 60%nat = Some false /\ of_sender (a x02) (verdicts ps ∅) = [true].
Proof.
  intros a ps. assert (clock 0 ps.*2) as Hc by (vm_compute; repeat split; discriminate). split.
  - destruct (flood_protection (a x01) ps Hc) as (E & _ & _ & Hban). rewrite E in *.
    apply (Hban 50%nat 50 ltac:(reflexivity) ltac:(vm_compute; reflexivity) 60%nat 240000000000); [lia|reflexivity|reflexivity].
  - destruct (flood_protection (a x02) ps Hc) as (E & _). rewrite E. vm_compute. reflexivity.
Defined.

(** ** The table *)

(** Addresses seen within the window are all kept: the table has as many entries as there are
    senders. *)
Lemma flood_tracked now as_ : forall table,
  NoDup as_ -> Forall (fun a => table !! a = None) as_ -> 0 <= now ->
  map_Forall (fun _ e => idle now e = false) table ->
  tracked (foldl (fun t a => (allow a now t).2) table as_) = tracked table + Z.of_nat (length as_).
Proof.
  induction as_ as [|a as_ IH]; intros table Hd Hn H0 Hi; cbn [foldl length]; [lia|].
  apply NoDup_cons in Hd as [Ha Hd]. apply Forall_cons in Hn as [Hna Hn].
  assert (exists w, allow_entry now new_entry = (true, mkEntry 1 w 0) /\ now - w < kWindow) as (w & Ew & Hw).
  { apply (allow_cases now new_entry); cbn; intros; [lia|exists now|exists 0|done]; (split; [done|]); unfold kWindow in *; lia. }
  assert (map_Forall (fun _ e => idle now e = false) (<[a := mkEntry 1 w 0]> table)) as Hi'.
  { apply map_Forall_insert_2; [|done]. unfold idle. cbn. apply andb_false_intro2. apply Z.leb_gt. lia. }
  assert ((allow a now table).2 = <[a := mkEntry 1 w 0]> table) as ->.
  { unfold allow. rewrite Hna. cbn [default from_option]. rewrite Ew. cbn [snd]. destruct (_ && _); [|done].
    apply map_filter_id. intros b e Hb. by apply (Hi' b e). }
  rewrite IH; try done.
  - unfold tracked. rewrite map_size_insert_None by done. lia.
  - apply Forall_forall. intros b Hb. rewrite lookup_insert_ne by (intros ->; done). rewrite Forall_forall in Hn. by apply Hn.
Qed.

End dos_blocker.
