(* ===== verification/DhtNode.v ===== *)
(** A DHT node ([dht/node.{h,cpp}]): incoming datagrams, the answers to queries, the vote on the
    node's own address and periodic maintenance, over the rate limiter, the routing table, the
    token manager and the peer store.

    The node's own queries (the manager of outstanding queries and the lookups) are behind the
    interface [Client]; what they send and report comes back as effects, which the node
    applies in order. Randomness, the clock that the routing table reads and the memory the
    hash function starts with are the argument [env] of a call. Logging and the crawler
    (compiled in with RATS_SEARCH_FEATURES only) are left out. *)

From S2P Require Import Prelude PeerId Address DhtId Bencode Krpc RoutingTable Lookup Storage DosBlocker.
Import dht_id.

(** * The interface to the node's own queries *)

(** [rpc_] with [lookups_]: a reply or an error that came in, the passing of time (finished
    lookups included), a liveness ping, whether a lookup runs, and the start of a lookup of
    the node's own id. *)
Class Client (R : Type) := {
  client_response : krpc.KrpcMessage -> Address -> Z -> R -> outcome (R * list lookup.Effect);
  client_tick : Z -> R -> outcome (R * list lookup.Effect);
  client_ping : NodeId -> NodeId -> Address -> Z -> R -> R * list lookup.Effect;
  client_busy : R -> bool;
  client_find : NodeId -> list (list byte) -> list Address -> list NodeEntry -> Z -> R -> outcome (R * list lookup.Effect);
}.

Module dht_node.
Import lookup.

Record Env := mkEnv {
  hash_mem : list byte;    (* the buffer of SHA-1 before the first block *)
  secret_rnd : list byte;  (* sixteen bytes for a new token secret *)
  id_rnd : list byte;      (* the bytes drawn for a new id *)
  clock : Z;               (* what the routing table reads *)
}.

Definition kExternalIpVoteThreshold : Z := 5.
Definition kRefreshInterval : Z := 6 * 1000000000.
Definition kSelfRefreshInterval : Z := 6 * 60 * 1000000000.

Section Node.
Context {R : Type} `{Client R}.

Record Node := mkNode {
  self_ : NodeId; ipv6_ : bool;
  table_ : RoutingTable; rpc_ : R;
  peers_ : peer_store.PeerStore; tokens_ : token_manager.TokenManager; dos_ : gmap IpAddress dos_blocker.Entry;
  bootstrap_nodes_ : list Address;
  external_address_ : IpAddress; ip_votes_ : gmap IpAddress Z; ip_voters_ : gset IpAddress;
  last_refresh_ : Z; last_self_refresh_ : Z;
}.

Definition new_node (i : NodeId) (ipv6 : bool) (r : R) : Node :=
  mkNode i ipv6 (routing_table.new_table i true) r ∅ token_manager.new_tokens ∅ [] ip_address.unspecified ∅ ∅ 0 0.

Definition set_table (t : RoutingTable) (n : Node) : Node :=
  mkNode (self_ n) (ipv6_ n) t (rpc_ n) (peers_ n) (tokens_ n) (dos_ n) (bootstrap_nodes_ n)
    (external_address_ n) (ip_votes_ n) (ip_voters_ n) (last_refresh_ n) (last_self_refresh_ n).
Definition set_rpc (r : R) (n : Node) : Node :=
  mkNode (self_ n) (ipv6_ n) (table_ n) r (peers_ n) (tokens_ n) (dos_ n) (bootstrap_nodes_ n)
    (external_address_ n) (ip_votes_ n) (ip_voters_ n) (last_refresh_ n) (last_self_refresh_ n).
Definition set_peers (p : peer_store.PeerStore) (n : Node) : Node :=
  mkNode (self_ n) (ipv6_ n) (table_ n) (rpc_ n) p (tokens_ n) (dos_ n) (bootstrap_nodes_ n)
    (external_address_ n) (ip_votes_ n) (ip_voters_ n) (last_refresh_ n) (last_self_refresh_ n).
Definition set_tokens (t : token_manager.TokenManager) (n : Node) : Node :=
  mkNode (self_ n) (ipv6_ n) (table_ n) (rpc_ n) (peers_ n) t (dos_ n) (bootstrap_nodes_ n)
    (external_address_ n) (ip_votes_ n) (ip_voters_ n) (last_refresh_ n) (last_self_refresh_ n).
Definition set_dos (d : gmap IpAddress dos_blocker.Entry) (n : Node) : Node :=
  mkNode (self_ n) (ipv6_ n) (table_ n) (rpc_ n) (peers_ n) (tokens_ n) d (bootstrap_nodes_ n)
    (external_address_ n) (ip_votes_ n) (ip_voters_ n) (last_refresh_ n) (last_self_refresh_ n).
Definition set_votes (votes : gmap IpAddress Z) (voters : gset IpAddress) (n : Node) : Node :=
  mkNode (self_ n) (ipv6_ n) (table_ n) (rpc_ n) (peers_ n) (tokens_ n) (dos_ n) (bootstrap_nodes_ n)
    (external_address_ n) votes voters (last_refresh_ n) (last_self_refresh_ n).
Definition set_identity (i : NodeId) (a : IpAddress) (n : Node) : Node :=
  mkNode i (ipv6_ n) (table_ n) (rpc_ n) (peers_ n) (tokens_ n) (dos_ n) (bootstrap_nodes_ n)
    a (ip_votes_ n) (ip_voters_ n) (last_refresh_ n) (last_self_refresh_ n).
Definition set_cadence (refresh self_refresh : Z) (n : Node) : Node :=
  mkNode (self_ n) (ipv6_ n) (table_ n) (rpc_ n) (peers_ n) (tokens_ n) (dos_ n) (bootstrap_nodes_ n)
    (external_address_ n) (ip_votes_ n) (ip_voters_ n) refresh self_refresh.

(** ** Effects of the node's own queries *)

(** Reports to the routing table are applied; datagrams and callbacks go out. *)
Fixpoint apply_effects (now : Z) (es : list Effect) (t : RoutingTable) : outcome (RoutingTable * list Effect) :=
  match es with
  | [] => Ret (t, [])
  | NodeSeen i ep sample v :: es => '(_, t) ← routing_table.node_seen now i ep sample v t; apply_effects now es t
  | HeardAbout i ep v :: es => t ← routing_table.heard_about now i ep v t; apply_effects now es t
  | NodeFailed i ep :: es => t ← routing_table.node_failed i ep t; apply_effects now es t
  | e :: es => '(t, out) ← apply_effects now es t; Ret (t, e :: out)
  end.

Definition with_client (env : Env) (r : R) (es : list Effect) (n : Node) : outcome (Node * list Effect) :=
  '(t, out) ← apply_effects (clock env) es (table_ n);
  Ret (set_table t (set_rpc r n), out).

(** ** Sending *)

Definition to_krpc (nodes : list NodeEntry) : list KrpcNode :=
  (fun n => mkKrpcNode (RoutingTable.id n) (ip (endpoint n)) (port (endpoint n))) <$> nodes.

(** The copy with the requester's address; only a response gets it. *)
Definition stamp (msg : krpc.KrpcMessage) (to : Address) : krpc.KrpcMessage :=
  match krpc.type msg with
  | Response =>
      if krpc.is_unspecified (krpc.external_ip msg) then
        krpc.mkMessage (krpc.type msg) (krpc.transaction_id msg) (krpc.query_type msg) (krpc.sender_id msg)
          (krpc.target_id msg) (krpc.info_hash msg) (krpc.port msg) (krpc.implied_port msg) (krpc.token msg)
          (krpc.want msg) (krpc.response_id msg) (krpc.nodes msg) (krpc.peers msg) (ip to) (port to)
          (krpc.error_code msg) (krpc.error_message msg)
      else msg
  | _ => msg
  end.

(** An exception while encoding would leave the event loop. *)
Definition send_message (msg : krpc.KrpcMessage) (to : Address) : outcome (list Effect) :=
  match krpc.encode_message (stamp msg to) with
  | Some [] => Ret []
  | Some data => Ret [SendTo to data]
  | None => UB
  end.

(** ** Queries of others *)

Definition learn (env : Env) (sender : NodeId) (from : Address) (n : Node) : outcome Node :=
  t ← routing_table.heard_about (clock env) sender from (bep42.verify_node_id_for_ip sender (ip from)) (table_ n);
  Ret (set_table t n).

Definition handle_query (env : Env) (msg : krpc.KrpcMessage) (from : Address) (now : Z) (n : Node)
    : outcome (Node * list Effect) :=
  let txn := krpc.transaction_id msg in
  match krpc.query_type msg with
  | Ping =>
      n ← learn env (krpc.sender_id msg) from n;
      out ← send_message (krpc.create_ping_response txn (self_ n)) from;
      Ret (n, out)
  | FindNode =>
      n ← learn env (krpc.sender_id msg) from n;
      nodes ← routing_table.find_closest (krpc.target_id msg) kBucketSize false (table_ n);
      out ← send_message (krpc.create_find_node_response txn (self_ n) (to_krpc nodes)) from;
      Ret (n, out)
  | GetPeers =>
      n ← learn env (krpc.sender_id msg) from n;
      '(token, tokens) ← token_manager.generate (hash_mem env) (secret_rnd env) from (krpc.info_hash msg) now (tokens_ n);
      let n := set_tokens tokens n in
      reply ← match peer_store.get (krpc.info_hash msg) peer_store.kMaxPeersPerHash (peers_ n) with
              | [] =>
                  nodes ← routing_table.find_closest (krpc.info_hash msg) kBucketSize false (table_ n);
                  Ret (krpc.create_get_peers_response_with_nodes txn (self_ n) (to_krpc nodes) token)
              | peers => Ret (krpc.create_get_peers_response txn (self_ n) peers token)
              end;
      out ← send_message reply from;
      Ret (n, out)
  | AnnouncePeer =>
      '(valid, tokens) ← token_manager.verify (hash_mem env) (secret_rnd env) from (krpc.info_hash msg) (krpc.token msg) now (tokens_ n);
      let n := set_tokens tokens n in
      if negb valid then
        out ← send_message (krpc.create_error txn krpc.ProtocolError (lit "Invalid token")) from;
        Ret (n, out)
      else
        n ← learn env (krpc.sender_id msg) from n;
        let p := if krpc.implied_port msg then port from else krpc.port msg in
        let n := set_peers (peer_store.store (krpc.info_hash msg) (mkAddress (ip from) p) now (peers_ n)) n in
        out ← send_message (krpc.create_announce_peer_response txn (self_ n)) from;
        Ret (n, out)
  end.

(** ** The node's own address *)

Definition set_external_ip (env : Env) (a : IpAddress) (n : Node) : outcome Node :=
  if negb (bep42.is_public_address a) then Ret n
  else if negb (Bool.eqb (krpc.is_v6 a) (ipv6_ n)) then Ret n
  else
    let n := set_identity (self_ n) a n in
    if bep42.verify_node_id_for_ip (self_ n) a then Ret n
    else
      match bep42.generate_node_id_from_ip a (id_rnd env) with
      | None => Ret n
      | Some i =>
          let n := set_identity i (external_address_ n) n in
          t ← routing_table.set_self (clock env) i (table_ n);
          Ret (set_table t n)
      end.

Definition maybe_update_external_ip (env : Env) (reported_ip : IpAddress) (from : Address) (n : Node) : outcome Node :=
  if negb (bep42.is_public_address reported_ip) then Ret n
  else if negb (Bool.eqb (krpc.is_v6 reported_ip) (ipv6_ n)) then Ret n
  else if bool_decide (reported_ip = external_address_ n) then Ret n
  else if bool_decide (ip from ∈ ip_voters_ n) then Ret n
  else
    let votes := default 0 (ip_votes_ n !! reported_ip) + 1 in
    let n := set_votes (<[reported_ip := votes]> (ip_votes_ n)) ({[ip from]} ∪ ip_voters_ n) n in
    if kExternalIpVoteThreshold <=? votes then set_external_ip env reported_ip (set_votes ∅ ∅ n)
    else Ret n.

Definition handle_response (env : Env) (msg : krpc.KrpcMessage) (from : Address) (now : Z) (n : Node)
    : outcome (Node * list Effect) :=
  n ← (if negb (krpc.is_unspecified (krpc.external_ip msg))
       then maybe_update_external_ip env (krpc.external_ip msg) from n else Ret n);
  '(r, es) ← client_response msg from now (rpc_ n);
  with_client env r es n.

(** ** Entry points *)

Definition on_datagram (env : Env) (data : list byte) (from : Address) (now : Z) (n : Node) : outcome (Node * list Effect) :=
  let '(ok, dos) := dos_blocker.allow (ip from) now (dos_ n) in
  let n := set_dos dos n in
  if negb ok then Ret (n, [])
  else
    decoded ← krpc.decode_message data;
    match decoded with
    | None => Ret (n, [])
    | Some msg =>
        match krpc.type msg with
        | Query => handle_query env msg from now n
        | Response => handle_response env msg from now n
        | Error => '(r, es) ← client_response msg from now (rpc_ n); with_client env r es n
        end
    end.

Definition want (n : Node) : list (list byte) := [if ipv6_ n then lit "n6" else lit "n4"].

(** [start_lookup] of a lookup of the own id. *)
Definition start_lookup (env : Env) (now : Z) (n : Node) : outcome (Node * list Effect) :=
  let seeds := if routing_table.size (table_ n) <? kAlpha then bootstrap_nodes_ n else [] in
  closest ← routing_table.find_closest (self_ n) kBucketSize true (table_ n);
  '(r, es) ← client_find (self_ n) (want n) seeds closest now (rpc_ n);
  with_client env r es n.

Definition refresh_one (env : Env) (now : Z) (n : Node) : outcome (Node * list Effect) :=
  if kRefreshInterval <=? now - last_refresh_ n then
    '(stale, t) ← routing_table.next_to_refresh now (table_ n);
    let n := set_table t n in
    '(n, out) ← match stale with
                | Some e =>
                    let '(r, es) := client_ping (self_ n) (RoutingTable.id e) (endpoint e) now (rpc_ n) in
                    with_client env r es n
                | None => Ret (n, [])
                end;
    Ret (set_cadence now (last_self_refresh_ n) n, out)
  else Ret (n, []).

Definition refresh_self (env : Env) (now : Z) (n : Node) : outcome (Node * list Effect) :=
  if (kSelfRefreshInterval <=? now - last_self_refresh_ n) && negb (client_busy (rpc_ n)) && negb (routing_table.size (table_ n) =? 0) then
    '(n, out) ← start_lookup env now n;
    Ret (set_cadence (last_refresh_ n) now n, out)
  else Ret (n, []).

Definition tick (env : Env) (now : Z) (n : Node) : outcome (Node * list Effect) :=
  '(r, es) ← client_tick now (rpc_ n);
  '(n, out1) ← with_client env r es n;
  let n := set_peers (peer_store.expire now (peers_ n)) n in
  '(n, out2) ← refresh_one env now n;
  '(n, out3) ← refresh_self env now n;
  Ret (n, out1 ++ out2 ++ out3).

(** ** Histories *)

Inductive Event :=
| Datagram (env : Env) (data : list byte) (from : Address) (now : Z)
| Tick (env : Env) (now : Z)
| ExternalIp (env : Env) (a : IpAddress) (now : Z).

Definition step (e : Event) (n : Node) : outcome (Node * list Effect) :=
  match e with
  | Datagram env data from now => on_datagram env data from now n
  | Tick env now => tick env now n
  | ExternalIp env a _ => n ← set_external_ip env a n; Ret (n, [])
  end.

Fixpoint run (es : list Event) (n : Node) : outcome (Node * list Effect) :=
  match es with
  | [] => Ret (n, [])
  | e :: es =>
      '(n, out) ← step e n;
      '(n, outs) ← run es n;
      Ret (n, out ++ outs)
  end.

End Node.
Arguments Node : clear implicits.

(** * The lookups behind the interface *)

(** A run of the lookup machine with what it logs taken out. *)
Definition silenced (s : State) : State :=
  mkState (pending_ s) (drawn s) (store s) (results_ s) (sorted_ s) (branch_factor_ s) (invoke_count_ s) (done_ s)
    (subnet4_ s) (subnet6_ s) (lookup.tokens_ s) (lookup.peers_ s) [].
Definition logged (m : outcome State) : outcome (State * list Effect) := s ← m; Ret (silenced s, log s).

(** A new lookup beside what is still outstanding. *)
Definition cleared (s : State) : State :=
  mkState (pending_ s) (drawn s) (store s) [] 0 kAlpha 0 false ∅ ∅ ∅ [] (log s).
Definition for_lookup (self target : NodeId) (want : list (list byte)) (cfg : Config) : Config :=
  mkConfig self target want None false false (draws cfg) (order cfg).

(** A node with one lookup at a time: the configuration and state of the latest one. *)
#[global] Instance lookup_client : Client (Config * State) := {|
  client_response m from now '(cfg, s) := '(s, es) ← logged ('(_, s) ← lookup.handle_response cfg m from now s; Ret s); Ret (cfg, s, es);
  client_tick now '(cfg, s) := '(s, es) ← logged (rpc_tick cfg now s); Ret (cfg, s, es);
  client_ping self i ep now '(cfg, s) :=
    let s := ping (for_lookup self (target_ cfg) (want_ cfg) cfg) i ep now s in (cfg, silenced s, log s);
  client_busy '(_, s) := negb (done_ s);
  client_find self w seeds closest now '(cfg, s) :=
    let cfg := for_lookup self self w cfg in
    '(s, es) ← logged (begin cfg seeds closest now (cleared s)); Ret (cfg, s, es);
|}.

End dht_node.
