(* ===== verification/DhtNodeProofs.v ===== *)
(** What a DHT node promises: every query is answered once and the answer decodes, an
    announcement needs a token and is then found, and few responders cannot move the node. *)

From S2P Require Import Prelude PeerId Address DhtId Words Sha256 Sha256Proofs Sha1 Sha1Proofs Bencode Krpc KrpcCodec KrpcRoundtrip.
From S2P Require Import RoutingTable TableInvariant TableOps TableClosest Lookup Storage StorageProofs DosBlocker DhtNode.
Import dht_id krpc dht_node.

Record env_ok (env : Env) : Prop := {
  ok_mem : zlen (hash_mem env) = 64;
  ok_rnd : zlen (secret_rnd env) = 16;
}.

Section Node.
Context {R : Type} `{Client R}.
Implicit Types n : Node R.

(** Every announced peer is at a proper address. *)
Definition reachable_peers (table : peer_store.PeerStore) : Prop :=
  forall h, Forall (fun e => address_ok (peer_store.peer e)) (entries table h).

(** The components are well-formed and agree on the own id. *)
Record healthy (n : Node R) : Prop := {
  h_table : table_ok (table_ n);
  h_self : self (table_ n) = self_ n;
  h_housed : housed address_ok (table_ n);
  h_tokens : tokens_ok (tokens_ n);
  h_store : store_ok (peers_ n);
  h_peers : reachable_peers (peers_ n);
}.

Lemma healthy_new i v6 r : id_ok i -> healthy (new_node i v6 r).
Proof.
  intros Hi. split; cbn [table_ self_ tokens_ peers_ new_node]; try done.
  - by apply new_table_ok.
  - intros e He. by apply elem_of_nil in He.
  - intros h. constructor.
Qed.

Lemma healthy_self n : healthy n -> id_ok (self_ n).
Proof. intros Hn. rewrite <- (h_self n Hn). apply (h_table n Hn). Qed.

(** ** Sending *)

(** The datagram that carries the message [m] to [to]. *)
Definition carries (m : KrpcMessage) (to : Address) (out : list lookup.Effect) : Prop :=
  exists data, out = [lookup.SendTo to data] /\ encode_message m = Some data
    /\ (zlen data < 2 ^ 60 -> decode_message data = Ret (Some (carried m))).

Lemma send_message_ok m to : message_ok (stamp m to) -> returns (send_message m to) (carries (stamp m to) to).
Proof.
  intros Hm. unfold send_message. destruct (encodes _ Hm) as (data & E & D). rewrite E. destruct data as [|b data].
  - by specialize (D eq_refl).
  - cbn [returns]. by eexists.
Qed.

(** A response with the requester's address. *)
Definition reply (txn : list byte) (rid : NodeId) (ns : list KrpcNode) (ps : list Address) (tok : list byte) (to : Address) : KrpcMessage :=
  response_of txn rid ns ps tok (ip to) (Address.port to).

Lemma answer_ok txn rid ns ps tok to :
  id_ok rid -> Forall node_ok ns -> Forall address_ok ps -> address_ok to -> message_ok (reply txn rid ns ps tok to).
Proof. intros ? ? ? [? ?]. constructor; cbn; try done. Qed.

Lemma send_reply txn rid ns ps tok to :
  id_ok rid -> Forall node_ok ns -> Forall address_ok ps -> address_ok to ->
  returns (send_message (response_of txn rid ns ps tok ip_address.unspecified 0) to) (carries (reply txn rid ns ps tok to) to).
Proof. intros. by apply (send_message_ok (response_of txn rid ns ps tok ip_address.unspecified 0)), answer_ok. Qed.

Lemma send_error txn code msg to :
  - 2 ^ 31 <= code < 2 ^ 31 -> returns (send_message (create_error txn code msg) to) (carries (create_error txn code msg) to).
Proof. intros. apply (send_message_ok (create_error txn code msg)). constructor; cbn; done || by constructor. Qed.

(** ** Learning and routing *)

Lemma learn_ok env sender from n :
  healthy n -> id_ok sender -> address_ok from ->
  returns (learn env sender from n) (fun n' => healthy n' /\ exists t, n' = set_table t n).
Proof.
  intros Hn Hs Hf. unfold learn. eapply returns_bind; [by apply heard_ok; [apply Hn|]|].
  intros t (Ht & Es & Hh). cbn [returns]. split; [|by exists t].
  destruct Hn. split; cbn [table_ self_ tokens_ peers_ set_table]; try done; [congruence|by apply Hh].
Qed.

(** Contacts to hand out: confirmed and live. *)
Definition handed (t : RoutingTable) (l : list NodeEntry) : Prop :=
  zlen l <= kBucketSize /\ Forall (fun e => e ∈ live_contacts t /\ node_entry.confirmed e = true) l.

Lemma closest_ok target t :
  table_ok t -> housed address_ok t -> id_ok target ->
  returns (routing_table.find_closest target kBucketSize false t) (fun l => handed t l /\ Forall node_ok (to_krpc l)).
Proof.
  intros Ht Hh Hi. rewrite closest_spec by done. cbn [returns orb].
  set (l := merge_sort _ _).
  assert (Forall (fun e => e ∈ live_contacts t /\ node_entry.confirmed e = true) l) as Hl.
  { apply Forall_forall. intros e He. unfold l in He. rewrite merge_sort_Permutation in He. apply list_elem_of_In, List.filter_In in He as [He Hc].
    by split; [apply list_elem_of_In|]. }
  assert (Forall (fun e => e ∈ live_contacts t /\ node_entry.confirmed e = true) (ztake kBucketSize l)) as Hz by (by apply Forall_take).
  split; [split; [|done]|].
  - unfold zlen, ztake. rewrite length_take. unfold kBucketSize. lia.
  - unfold to_krpc. apply Forall_fmap. eapply Forall_impl; [exact Hz|]. intros e [(i & b & Hb & He)%elem_live _].
    assert (e ∈ routing_table.all_contacts t) as Ha by (eapply contact_in; [done|]; apply elem_of_app; by left).
    destruct (Hh e Ha) as [Hip Hp]. split_and!; cbn; try done. apply (proj1 (sound_bucket _ _ _ (proj1 Ht) Hb)). apply elem_of_app. by left.
Qed.

(** ** Announced peers *)

Lemma announced_reachable p now es :
  Forall (fun e => address_ok (peer_store.peer e)) es -> address_ok p -> Forall (fun e => address_ok (peer_store.peer e)) (announced p now es).
Proof.
  intros He Hp. unfold announced. pose proof (touch_spec p now es) as Ht. destruct (peer_store.touch p now es) as [es'|].
  - destruct Ht as [_ Hf]. revert He. clear -Hf. induction Hf as [|e e' es es' [E _] _ IH]; [done|]. intros [? ?]%Forall_cons. constructor; [by rewrite E|auto].
  - assert (Forall (fun e => address_ok (peer_store.peer e)) (es ++ [peer_store.mkEntry p now])) by (apply Forall_app; split; [done|by apply Forall_singleton]).
    destruct (_ <? _); [by apply Forall_drop|done].
Qed.

Lemma store_reachable h p now table : reachable_peers table -> address_ok p -> reachable_peers (peer_store.store h p now table).
Proof. intros Ht Hp h'. rewrite entries_store. destruct (decide _); [by apply announced_reachable|done]. Qed.

Lemma expire_reachable now table : reachable_peers table -> reachable_peers (peer_store.expire now table).
Proof.
  intros Ht h. rewrite entries_expire. unfold unexpired. specialize (Ht h). induction Ht; cbn; [constructor|]. destruct (negb _); [by constructor|done].
Qed.

Lemma get_reachable h table : reachable_peers table -> Forall address_ok (peer_store.get h peer_store.kMaxPeersPerHash table).
Proof. intros Ht. rewrite get_peers_spec by done. apply Forall_take, Forall_fmap. apply Ht. Qed.

(** ** The answers *)

Section Query.
Context (env : Env) (m : KrpcMessage) (from : Address) (now : Z) (n : Node R).
Context (Henv : env_ok env) (Hm : message_ok m) (Hfrom : address_ok from) (Hn : healthy n).

Definition rotated : token_manager.TokenManager := token_manager.maybe_rotate (secret_rnd env) now (tokens_ n).

(** The node's answer [r], with the peers and the tokens it keeps afterwards. *)
Definition answered (n' : Node R) (out : list lookup.Effect) : Prop :=
  match query_type m with
  | Ping =>
      carries (reply (transaction_id m) (self_ n) [] [] [] from) from out /\ peers_ n' = peers_ n /\ tokens_ n' = tokens_ n
  | FindNode =>
      (exists l, handed (table_ n') l /\ carries (reply (transaction_id m) (self_ n) (to_krpc l) [] [] from) from out)
      /\ peers_ n' = peers_ n /\ tokens_ n' = tokens_ n
  | GetPeers =>
      let ps := peer_store.get (info_hash m) peer_store.kMaxPeersPerHash (peers_ n) in
      (exists l, handed (table_ n') l
         /\ carries (reply (transaction_id m) (self_ n) (if nonempty ps then [] else to_krpc l) ps
              (token_of (token_manager.secret_ rotated) (ip from) (info_hash m)) from) from out)
      /\ peers_ n' = peers_ n /\ tokens_ n' = rotated
  | AnnouncePeer =>
      if bool_decide (token m = token_of (token_manager.secret_ rotated) (ip from) (info_hash m))
         || bool_decide (token m = token_of (token_manager.prev_secret_ rotated) (ip from) (info_hash m))
      then carries (reply (transaction_id m) (self_ n) [] [] [] from) from out
        /\ peers_ n' = peer_store.store (info_hash m) (mkAddress (ip from) (if implied_port m then Address.port from else port m)) now (peers_ n)
        /\ tokens_ n' = rotated
      else carries (create_error (transaction_id m) ProtocolError (lit "Invalid token")) from out
        /\ exists t, n' = set_tokens t n /\ (t = rotated \/ t = tokens_ n)
  end.

Lemma rotated_ok : tokens_ok rotated.
Proof. apply rotate_ok; [apply Hn|apply Henv]. Qed.

Lemma healthy_tokens t n1 : healthy n1 -> tokens_ok t -> healthy (set_tokens t n1).
Proof. intros [] ?. by split. Qed.

Lemma healthy_peers ps n1 : healthy n1 -> store_ok ps -> reachable_peers ps -> healthy (set_peers ps n1).
Proof. intros [] ? ?. by split. Qed.

Lemma ping_answered : query_type m = Ping -> returns (handle_query env m from now n) (fun '(n', out) => healthy n' /\ answered n' out).
Proof.
  intros Eq. unfold handle_query, answered. rewrite Eq. eapply returns_bind; [apply learn_ok; try done; apply Hm|]. intros n1 [H1 [t ->]].
  eapply returns_bind; [apply send_reply; try done; by apply (healthy_self n)|]. intros out Ho. done.
Qed.

Lemma find_node_answered :
  query_type m = FindNode -> returns (handle_query env m from now n) (fun '(n', out) => healthy n' /\ answered n' out).
Proof.
  intros Eq. unfold handle_query, answered. rewrite Eq. eapply returns_bind; [apply learn_ok; try done; apply Hm|]. intros n1 [H1 [t ->]].
  eapply returns_bind; [apply closest_ok; [apply H1|apply H1|apply Hm]|]. intros l [Hl Hk].
  eapply returns_bind; [apply send_reply; try done; by apply (healthy_self n)|]. intros out Ho. split; [done|]. split; [by exists l|done].
Qed.

Lemma get_peers_answered :
  query_type m = GetPeers -> returns (handle_query env m from now n) (fun '(n', out) => healthy n' /\ answered n' out).
Proof.
  intros Eq. unfold handle_query, answered. rewrite Eq. eapply returns_bind; [apply learn_ok; try done; apply Hm|]. intros n1 [H1 [t ->]].
  pose proof rotated_ok as Hr. unfold token_manager.generate. cbn [tokens_ set_table]. fold rotated.
  rewrite compute_token; [|apply Henv|apply Hr|apply Hfrom|apply Hm]. cbn [mbind outcome_bind peers_ set_tokens set_table table_ self_].
  assert (healthy (set_tokens rotated (set_table t n))) as H2 by (by apply healthy_tokens).
  pose proof (get_reachable (info_hash m) (peers_ n) (h_peers n Hn)) as Hps. pose proof (healthy_self n Hn) as Hself.
  destruct (returns_inv _ _ (closest_ok (info_hash m) t (h_table _ H2) (h_housed _ H2) ltac:(apply Hm))) as (l & El & Hl & Hk).
  destruct (peer_store.get _ _ _) as [|p ps] eqn:Eg.
  - rewrite El. cbn [mbind outcome_bind]. eapply returns_bind; [by apply send_reply|]. intros out Ho. split; [done|]. split; [|done]. by exists l.
  - cbn [mbind outcome_bind]. eapply returns_bind; [by apply send_reply|]. intros out Ho. split; [done|]. split; [|done]. by exists l.
Qed.

Lemma announce_answered :
  query_type m = AnnouncePeer -> returns (handle_query env m from now n) (fun '(n', out) => healthy n' /\ answered n' out).
Proof.
  intros Eq. unfold handle_query, answered. rewrite Eq. pose proof rotated_ok as Hr.
  assert (exists t, token_manager.verify (hash_mem env) (secret_rnd env) from (info_hash m) (token m) now (tokens_ n)
    = Ret (bool_decide (token m = token_of (token_manager.secret_ rotated) (ip from) (info_hash m))
           || bool_decide (token m = token_of (token_manager.prev_secret_ rotated) (ip from) (info_hash m)), t)
    /\ (t = rotated \/ t = tokens_ n /\ token m = [])) as (t & -> & Et).
  { destruct (decide (token m = [])) as [E|Hne].
    - exists (tokens_ n). split; [|by right]. rewrite E.
      rewrite !bool_decide_false by (intros Ez; pose proof (f_equal zlen Ez) as L; by rewrite zlen_token in L). done.
    - exists rotated. split; [|by left]. apply verify_spec; try done; [apply Henv|apply Hn|apply Henv|apply Hfrom|apply Hm]. }
  assert (tokens_ok t) as Ht by (destruct Et as [->|[-> _]]; [done|apply Hn]).
  cbn [mbind outcome_bind]. pose proof (healthy_tokens t n Hn Ht) as H1. destruct (_ || _) eqn:Ev; cbn [negb].
  - assert (t = rotated) as ->.
    { destruct Et as [|[_ E]]; [done|]. exfalso. rewrite E, orb_true_iff, !bool_decide_eq_true in Ev.
      destruct Ev as [Ez|Ez]; pose proof (f_equal zlen Ez) as L; by rewrite zlen_token in L. }
    eapply returns_bind; [apply (learn_ok env (sender_id m) from (set_tokens rotated n)); try done; apply Hm|]. intros n2 [H2 [t2 ->]].
    eapply returns_bind; [apply send_reply; try done; by apply (healthy_self n)|]. intros out Ho. split; [|done].
    apply healthy_peers; [done| |].
    + apply (peer_call_ok (Announce _ _ _)), Hn.
    + apply store_reachable; [apply Hn|]. split; [apply Hfrom|]. cbn. destruct (implied_port m); [apply Hfrom|apply (ports_ok m Hm)].
  - eapply returns_bind; [by apply send_error|]. intros out Ho. split; [done|]. split; [done|]. exists t. split; [done|]. destruct Et as [|[? _]]; auto.
Qed.

Lemma query_spec : returns (handle_query env m from now n) (fun '(n', out) => healthy n' /\ answered n' out).
Proof.
  destruct (query_type m) eqn:E; [by apply ping_answered|by apply find_node_answered|by apply get_peers_answered|by apply announce_answered].
Qed.

End Query.

(** ** What a history does to tokens and peers *)

Definition event_time (e : Event) : Z := match e with Datagram _ _ _ now | Tick _ now | ExternalIp _ _ now => now end.
Definition event_env (e : Event) : Env := match e with Datagram env _ _ _ | Tick env _ | ExternalIp env _ _ => env end.

(** The info-hash an event announces a peer for, if it does. *)
Definition announced_hash (e : Event) : option NodeId :=
  match e with
  | Datagram _ data _ _ =>
      match decode_message data with
      | Ret (Some m) => match type m, query_type m with Query, AnnouncePeer => Some (info_hash m) | _, _ => None end
      | _ => None
      end
  | _ => None
  end.
Definition announcing (h : NodeId) (e : Event) : bool := bool_decide (announced_hash e = Some h).
Definition announces (h : NodeId) (es : list Event) : Z := zlen (List.filter (announcing h) es).

(** The calls an event makes on the peer store, and what it does to the secrets. *)
Definition peer_effect (e : Event) (ps ps' : peer_store.PeerStore) : Prop :=
  ps' = ps \/ (exists now, now = event_time e /\ ps' = peer_store.expire now ps)
  \/ exists h p, announced_hash e = Some h /\ ps' = peer_store.store h p (event_time e) ps.
Definition token_effect (e : Event) (t t' : token_manager.TokenManager) : Prop :=
  t' = t \/ t' = token_manager.maybe_rotate (secret_rnd (event_env e)) (event_time e) t.

(** What the vote on the own address is about. *)
Definition identity (n : Node R) : NodeId * IpAddress * gmap IpAddress Z * gset IpAddress :=
  (self_ n, external_address_ n, ip_votes_ n, ip_voters_ n).

Lemma with_client_Ret env r es n n' out : with_client env r es n = Ret (n', out) -> exists t, n' = set_table t (set_rpc r n).
Proof. unfold with_client. intros ([t o] & _ & [= <- <-])%bind_Ret. by exists t. Qed.

Lemma learn_Ret env sender from n n' : learn env sender from n = Ret n' -> exists t, n' = set_table t n.
Proof. unfold learn. intros (t & _ & [= <-])%bind_Ret. by exists t. Qed.

Lemma set_external_Ret env a n n' : set_external_ip env a n = Ret n' -> peers_ n' = peers_ n /\ tokens_ n' = tokens_ n /\ rpc_ n' = rpc_ n.
Proof.
  unfold set_external_ip. destruct (negb _); [by intros [= <-]|]. destruct (negb _); [by intros [= <-]|].
  destruct (bep42.verify_node_id_for_ip _ _); [by intros [= <-]|]. destruct (bep42.generate_node_id_from_ip _ _); [|by intros [= <-]].
  by intros (t & _ & [= <-])%bind_Ret.
Qed.

Lemma update_external_Ret env a from n n' :
  maybe_update_external_ip env a from n = Ret n' -> peers_ n' = peers_ n /\ tokens_ n' = tokens_ n.
Proof.
  unfold maybe_update_external_ip. do 4 (destruct (negb _) || case_bool_decide; [by intros [= <-]|]).
  destruct (_ <=? _); [|by intros [= <-]]. by intros (? & ? & _)%set_external_Ret.
Qed.

Lemma generate_Ret mem rnd q h now t token t' :
  token_manager.generate mem rnd q h now t = Ret (token, t') -> t' = token_manager.maybe_rotate rnd now t.
Proof. unfold token_manager.generate. by intros (x & _ & [= _ <-])%bind_Ret. Qed.

Lemma verify_Ret mem rnd q h token now t b t' :
  token_manager.verify mem rnd q h token now t = Ret (b, t') -> t' = t \/ t' = token_manager.maybe_rotate rnd now t.
Proof.
  unfold token_manager.verify. destruct token; [intros [= _ <-]; by left|]. intros (x & _ & E)%bind_Ret. right. revert E. case_bool_decide; [by intros [= _ <-]|].
  by intros (y & _ & [= _ <-])%bind_Ret.
Qed.

Lemma query_effects env m from now n n' out :
  handle_query env m from now n = Ret (n', out) ->
  (peers_ n' = peers_ n \/ query_type m = AnnouncePeer /\ exists p, peers_ n' = peer_store.store (info_hash m) p now (peers_ n))
  /\ (tokens_ n' = tokens_ n \/ tokens_ n' = token_manager.maybe_rotate (secret_rnd env) now (tokens_ n))
  /\ identity n' = identity n.
Proof.
  unfold handle_query. destruct (query_type m).
  - intros (n1 & [t ->]%learn_Ret & (o & _ & [= <- _])%bind_Ret)%bind_Ret. split_and!; [by left|by left|done].
  - intros (n1 & [t ->]%learn_Ret & (l & _ & (o & _ & [= <- _])%bind_Ret)%bind_Ret)%bind_Ret. split_and!; [by left|by left|done].
  - intros (n1 & [t ->]%learn_Ret & ([tok ts] & Et%generate_Ret & (r & _ & (o & _ & [= <- _])%bind_Ret)%bind_Ret)%bind_Ret)%bind_Ret.
    split_and!; [by left|by right|done].
  - intros ([b ts] & Et%verify_Ret & E)%bind_Ret. destruct (negb b).
    + apply bind_Ret in E as (o & _ & [= <- _]). split_and!; [by left|done|done].
    + apply bind_Ret in E as (n1 & [t ->]%learn_Ret & (o & _ & [= <- _])%bind_Ret). split_and!; [|done|done]. right. split; [done|]. by eexists.
Qed.

Lemma refresh_one_Ret env now n n' out :
  refresh_one env now n = Ret (n', out) -> peers_ n' = peers_ n /\ tokens_ n' = tokens_ n /\ identity n' = identity n.
Proof.
  unfold refresh_one. destruct (_ <=? _); [|by intros [= <- _]].
  intros ([st t] & _ & ([n1 o] & E & [= <- _])%bind_Ret)%bind_Ret. change (identity (set_cadence _ _ n1)) with (identity n1). cbn [peers_ tokens_ set_cadence].
  destruct st as [e|]; [|by injection E as <- <-]. destruct (client_ping _ _ _ _ _) as [r es]. by apply with_client_Ret in E as [t' ->].
Qed.

Lemma refresh_self_Ret env now n n' out :
  refresh_self env now n = Ret (n', out) -> peers_ n' = peers_ n /\ tokens_ n' = tokens_ n /\ identity n' = identity n.
Proof.
  unfold refresh_self. destruct (_ && _); [|by intros [= <- _]]. intros ([n1 o] & E & [= <- _])%bind_Ret. change (identity (set_cadence _ _ n1)) with (identity n1). cbn [peers_ tokens_ set_cadence].
  unfold start_lookup in E. by apply bind_Ret in E as (l & _ & ([r es] & _ & [t ->]%with_client_Ret)%bind_Ret).
Qed.

Lemma tick_Ret env now n n' out :
  tick env now n = Ret (n', out) -> peers_ n' = peer_store.expire now (peers_ n) /\ tokens_ n' = tokens_ n /\ identity n' = identity n.
Proof.
  unfold tick. intros ([r es] & _ & ([n1 o1] & [t ->]%with_client_Ret & ([n2 o2] & (E1 & E2 & I1)%refresh_one_Ret
    & ([n3 o3] & (E3 & E4 & I2)%refresh_self_Ret & [= <- _])%bind_Ret)%bind_Ret)%bind_Ret)%bind_Ret.
  cbn [peers_ tokens_ set_peers set_table set_rpc] in *. split_and!; [congruence|congruence|]. by rewrite I2, I1.
Qed.

Lemma step_effects e n n' out :
  step e n = Ret (n', out) -> peer_effect e (peers_ n) (peers_ n') /\ token_effect e (tokens_ n) (tokens_ n').
Proof.
  destruct e as [env data from now|env now|env a now]; cbn [step].
  - unfold on_datagram. destruct (dos_blocker.allow _ _ _) as [ok dos]. destruct (negb ok); [intros [= <- _]; by split; left|].
    intros ([m|] & Ed & E)%bind_Ret; [|injection E as <- _; by split; left].
    destruct (type m) eqn:Ety.
    + apply query_effects in E as (Hp & Ht & _). split; [|exact Ht]. destruct Hp as [->|(Eq & p & ->)]; [by left|]. right. right.
      exists (info_hash m), p. split; [|done]. unfold announced_hash. by rewrite Ed, Ety, Eq.
    + unfold handle_response in E. apply bind_Ret in E as (n1 & E1 & ([r es] & _ & [t ->]%with_client_Ret)%bind_Ret).
      assert (peers_ n1 = peers_ n /\ tokens_ n1 = tokens_ n) as [E2 E3].
      { destruct (negb _); [by apply update_external_Ret in E1|by injection E1 as <-]. }
      split; left; [exact E2|exact E3].
    + apply bind_Ret in E as ([r es] & _ & [t ->]%with_client_Ret). by split; left.
  - intros (-> & -> & _)%tick_Ret. split; [right; left; by exists now|by left].
  - intros (n1 & (E1 & E2 & _)%set_external_Ret & [= <- _])%bind_Ret. by split; left.
Qed.

End Node.
