(* ===== verification/DhtNodeTheorems.v ===== *)
(** The properties of a DHT node: its answers, announcements that are found again, and the vote
    on its address. *)

From S2P Require Import Prelude PeerId Address DhtId Words Sha256 Sha256Proofs Sha1 Sha1Proofs Bencode Krpc KrpcCodec KrpcRoundtrip.
From S2P Require Import RoutingTable TableInvariant TableOps TableClosest Lookup Storage StorageProofs DosBlocker DhtNode DhtNodeProofs.
Import dht_id krpc dht_node.

Section Histories.
Context {R : Type} `{Client R}.
Implicit Types n : Node R.

Lemma run_peers es : forall n n' out,
  run es n = Ret (n', out) ->
  exists cs, peers_ n' = peer_calls cs (peers_ n) /\ (forall h, announcements h cs <= announces h es)
    /\ forall P : Z -> Prop, Forall (fun e => P (event_time e)) es -> Forall (fun c => P (peer_time c)) cs.
Proof.
  induction es as [|e es IH]; intros n n' out; cbn [run].
  - intros [= <- _]. by exists [].
  - intros ([n1 o1] & E1 & ([n2 o2] & E2 & [= <- _])%bind_Ret)%bind_Ret. apply step_effects in E1 as [Hp _].
    destruct (IH _ _ _ E2) as (cs & Ep & Ha & Ht). clear IH E2.
    assert (forall h, announces h (e :: es) = (if announcing h e then 1 else 0) + announces h es) as Hc.
    { intros h. unfold announces. cbn [List.filter]. destruct (announcing h e); [apply zlen_cons|done]. }
    destruct Hp as [Eq|[(now & -> & Eq)|(h0 & p & Eh & Eq)]].
    + exists cs. rewrite <- Eq. split_and!; [done| |by intros P [_ ?]%Forall_cons; apply Ht].
      intros h. specialize (Ha h). rewrite Hc. destruct (announcing h e); lia.
    + exists (Expire (event_time e) :: cs). cbn [peer_calls foldl peer_call]. rewrite <- Eq. split_and!; [done| |].
      * intros h. specialize (Ha h). rewrite Hc. cbn [announcements]. destruct (announcing h e); lia.
      * intros P [? ?]%Forall_cons. constructor; [done|by apply Ht].
    + exists (Announce h0 p (event_time e) :: cs). cbn [peer_calls foldl peer_call]. rewrite <- Eq. split_and!; [done| |].
      * intros h. specialize (Ha h). rewrite Hc. cbn [announcements]. unfold announcing. rewrite Eh.
        destruct (decide (h0 = h)) as [->|]; [rewrite bool_decide_true by done|rewrite bool_decide_false by congruence]; lia.
      * intros P [? ?]%Forall_cons. constructor; [done|by apply Ht].
Qed.

Lemma run_tokens s T0 es : forall n n' out,
  run es n = Ret (n', out) -> honoured s T0 (tokens_ n) ->
  Forall (fun e => T0 <= event_time e < T0 + token_manager.kRotateInterval) es -> Forall (fun e => zlen (secret_rnd (event_env e)) = 16) es ->
  honoured s T0 (tokens_ n').
Proof.
  induction es as [|e es IH]; intros n n' out; cbn [run]; [by intros [= <- _]|].
  intros ([n1 o1] & E1 & ([n2 o2] & E2 & [= <- _])%bind_Ret)%bind_Ret Hh [? ?]%Forall_cons [? ?]%Forall_cons.
  apply step_effects in E1 as [_ Ht]. eapply IH; [exact E2| |done..].
  destruct Ht as [->| ->]; [done|by apply rotate_honoured].
Qed.

(** * Answers *)

(** C15: a query that the flood protection lets through is answered. Whatever the datagram
    holds, if it decodes to a query the node returns in a well-formed state and sends one
    datagram, to the sender, that decodes to a message with the query's transaction id: a
    response with the node's id and the sender's address, the announced peers if peers are
    asked for and there are any, or at most eight live, confirmed contacts; or, only to an
    announcement, the error 203. *)
Theorem queries_answered env data from now n m :
  env_ok env -> address_ok from -> healthy n ->
  (dos_blocker.allow (ip from) now (dos_ n)).1 = true -> decode_message data = Ret (Some m) -> type m = Query ->
  returns (on_datagram env data from now n) (fun '(n', out) =>
    healthy n' /\ exists r, carries r from out /\ transaction_id r = transaction_id m
      /\ (type r = Response /\ response_id r = self_ n /\ external_ip r = ip from /\ external_port r = Address.port from
          /\ (exists l, handed (table_ n') l /\ (nodes r = to_krpc l \/ nodes r = []))
          /\ peers r = match query_type m with
                       | GetPeers => peer_store.get (info_hash m) peer_store.kMaxPeersPerHash (peers_ n)
                       | _ => []
                       end
          \/ query_type m = AnnouncePeer /\ r = create_error (transaction_id m) 203 (lit "Invalid token"))).
Proof.
  intros Henv Hfrom Hn Hd Em Ety. pose proof (decode_message_ok data) as Hm. rewrite Em in Hm. unfold on_datagram.
  destruct (dos_blocker.allow _ _ _) as [ok dos]. cbn [fst] in Hd. subst ok. cbn [negb]. rewrite Em. cbn [mbind outcome_bind].
  destruct m as [ty txn q sender target h p implied tok w rid ns ps eip eport code msg]. cbn [type] in Ety. subst ty. cbn [type].
  set (m := mkMessage _ _ _ _ _ _ _ _ _ _ _ _ _ _ _ _ _) in *.
  assert (healthy (set_dos dos n)) as Hn' by (destruct Hn; by split).
  eapply returns_mono; [by apply (query_spec env m from now (set_dos dos n))|]. intros [n' out] [H1 Ha]. split; [done|].
  assert (handed (table_ n') []) as Hnil by (by split; [|constructor]).
  unfold answered in Ha. change (query_type m) with q in *. destruct q; cbn [self_ peers_ set_dos] in Ha.
  - destruct Ha as [Ha _]. eexists. split; [exact Ha|]. split; [done|]. left. split_and!; try done. exists []. by split; [|right].
  - destruct Ha as [(l & Hl & Ha) _]. eexists. split; [exact Ha|]. split; [done|]. left. split_and!; try done. exists l. by split; [|left].
  - destruct Ha as [(l & Hl & Ha) _]. eexists. split; [exact Ha|]. split; [done|]. left. split_and!; try done. exists l. split; [done|].
    cbn [nodes reply response_of]. destruct (nonempty _); [by right|by left].
  - destruct (_ || _).
    + destruct Ha as [Ha _]. eexists. split; [exact Ha|]. split; [done|]. left. split_and!; try done. exists []. by split; [|right].
    + destruct Ha as [Ha _]. eexists. split; [exact Ha|]. split; [done|]. by right.
Qed.

(** C16: an announcement is stored only with the token of its sender's address and its
    info-hash under the current or the previous secret: with any other token, the empty one
    included, the answer is the error 203, and apart from the rotation of the token secret nothing changes, neither the announced
    peers nor the routing table. *)
Theorem announce_refused env m from now n :
  env_ok env -> address_ok from -> healthy n -> message_ok m -> query_type m = AnnouncePeer ->
  let t := token_manager.maybe_rotate (secret_rnd env) now (tokens_ n) in
  token m <> token_of (token_manager.secret_ t) (ip from) (info_hash m) ->
  token m <> token_of (token_manager.prev_secret_ t) (ip from) (info_hash m) ->
  returns (handle_query env m from now n) (fun '(n', out) =>
    carries (create_error (transaction_id m) 203 (lit "Invalid token")) from out
    /\ exists t', n' = set_tokens t' n /\ (t' = t \/ t' = tokens_ n)).
Proof.
  intros Henv Hfrom Hn Hm Eq t H1 H2. eapply returns_mono; [by apply query_spec|]. intros [n' out] [_ Ha]. unfold answered in Ha. rewrite Eq in Ha.
  fold (rotated env now n) in t. unfold t in *. by rewrite !bool_decide_false in Ha by done.
Qed.

(** * Announcements are found *)

(** A query of kind [q] for the info-hash [h]. *)
Definition asks (q : KrpcQueryType) (h : NodeId) (m : KrpcMessage) : Prop := message_ok m /\ query_type m = q /\ info_hash m = h.

Lemma ask_peers env m h from now n :
  env_ok env -> address_ok from -> healthy n -> asks GetPeers h m ->
  returns (handle_query env m from now n) (fun '(n', out) => healthy n' /\ peers_ n' = peers_ n
    /\ exists r, carries r from out /\ peers r = peer_store.get h peer_store.kMaxPeersPerHash (peers_ n)
      /\ token r = token_of (token_manager.secret_ (tokens_ n')) (ip from) h /\ honoured (token_manager.secret_ (tokens_ n')) now (tokens_ n')).
Proof.
  intros Henv Hfrom Hn (Hm & Eq & <-). eapply returns_mono; [by apply query_spec|]. intros [n' out] [H1 Ha]. split; [done|].
  unfold answered in Ha. rewrite Eq in Ha. destruct Ha as ((l & _ & Ha) & Ep & Et). split; [done|]. rewrite Et.
  eexists. split; [exact Ha|]. split_and!; try done. split; [by apply rotated_ok|]. split; [|by left].
  unfold rotated, token_manager.maybe_rotate. destruct (token_manager.initialized_ (tokens_ n)) eqn:Ei; cbn [negb]; [destruct (_ <=? _)|]; done.
Qed.

Lemma announce_stored env m h from now n s T0 :
  env_ok env -> address_ok from -> healthy n -> asks AnnouncePeer h m -> honoured s T0 (tokens_ n) ->
  T0 <= now < T0 + token_manager.kRotateInterval -> token m = token_of s (ip from) h ->
  returns (handle_query env m from now n) (fun '(n', out) => healthy n' /\ carries (reply (transaction_id m) (self_ n) [] [] [] from) from out
    /\ peers_ n' = peer_store.store h (mkAddress (ip from) (if implied_port m then Address.port from else port m)) now (peers_ n)).
Proof.
  intros Henv Hfrom Hn (Hm & Eq & <-) Hh HT Etok. eapply returns_mono; [by apply query_spec|]. intros [n' out] [H1 Ha]. split; [done|].
  unfold answered in Ha. rewrite Eq in Ha. destruct (rotate_honoured s T0 (secret_rnd env) now _ Hh (ok_rnd env Henv) HT) as (_ & _ & Hs).
  fold (rotated env now n) in Hs. rewrite Etok in Ha.
  assert (bool_decide (token_of s (ip from) (info_hash m) = token_of (token_manager.secret_ (rotated env now n)) (ip from) (info_hash m))
    || bool_decide (token_of s (ip from) (info_hash m) = token_of (token_manager.prev_secret_ (rotated env now n)) (ip from) (info_hash m)) = true) as Ev.
  { apply orb_true_iff. destruct Hs as [->|[-> _]]; [left|right]; by apply bool_decide_eq_true. }
  rewrite Ev in Ha. by destruct Ha as (? & ? & _).
Qed.


(** * The vote on the own address *)

(** The address a response comes from. *)
Definition responder (e : Event) : option IpAddress :=
  match e with
  | Datagram _ data from _ =>
      match decode_message data with
      | Ret (Some m) => match type m with Response => Some (ip from) | _ => None end
      | _ => None
      end
  | _ => None
  end.
Definition told_own_address (e : Event) : bool := match e with ExternalIp _ _ _ => true | _ => false end.

(** No address has more votes than there are voters, all of them in [S]. *)
Definition few_votes (S : gset IpAddress) (n : Node R) : Prop :=
  ip_voters_ n ⊆ S /\ forall a v, ip_votes_ n !! a = Some v -> v <= Z.of_nat (size (ip_voters_ n)).

Lemma vote_counted (S : gset IpAddress) env a from n n' :
  maybe_update_external_ip env a from n = Ret n' -> few_votes S n -> ip from ∈ S -> Z.of_nat (size S) < kExternalIpVoteThreshold ->
  few_votes S n' /\ self_ n' = self_ n /\ external_address_ n' = external_address_ n.
Proof.
  unfold maybe_update_external_ip. intros E Hf Hs HS. pose proof Hf as [Hv Hn]. revert E.
  do 4 (destruct (negb _) || case_bool_decide; [by intros [= <-]|]).
  assert (size ({[ip from]} ∪ ip_voters_ n) = Datatypes.S (size (ip_voters_ n))) as Hsz by (rewrite size_union by set_solver; by rewrite size_singleton).
  assert ({[ip from]} ∪ ip_voters_ n ⊆ S) as Hsub by set_solver. pose proof (subseteq_size _ _ Hsub) as Hle.
  assert (default 0 (ip_votes_ n !! a) <= Z.of_nat (size (ip_voters_ n))) as Hd.
  { destruct (ip_votes_ n !! a) as [v|] eqn:E; cbn; [by apply (Hn a)|lia]. }
  destruct (Z.leb_spec kExternalIpVoteThreshold (default 0 (ip_votes_ n !! a) + 1)); [lia|]. intros [= <-]. split; [|done]. split; [done|].
  cbn [ip_votes_ ip_voters_ set_votes]. rewrite Hsz. intros b v [[-> <-]|[_ Hb]]%lookup_insert_Some; [lia|]. specialize (Hn b v Hb). lia.
Qed.

Lemma few_votes_identity S n n' :
  identity n' = identity n -> few_votes S n -> few_votes S n' /\ self_ n' = self_ n /\ external_address_ n' = external_address_ n.
Proof. intros [= E1 E2 E3 E4] [? ?]. unfold few_votes. by rewrite E1, E2, E3, E4. Qed.

Lemma step_few_votes (S : gset IpAddress) e n n' out :
  step e n = Ret (n', out) -> few_votes S n -> told_own_address e = false -> (forall a, responder e = Some a -> a ∈ S) ->
  Z.of_nat (size S) < kExternalIpVoteThreshold -> few_votes S n' /\ self_ n' = self_ n /\ external_address_ n' = external_address_ n.
Proof.
  intros E Hf He Hr HS. destruct e as [env data from now|env now|]; [| |done]; cbn [step] in E.
  2: { apply tick_Ret in E as (_ & _ & Ei). by apply few_votes_identity. }
  unfold on_datagram in E. destruct (dos_blocker.allow _ _ _) as [ok dos]. destruct (negb ok); [by injection E as <- _|].
  apply bind_Ret in E as ([m|] & Ed & E); [|by injection E as <- _]. unfold responder in Hr. rewrite Ed in Hr.
  destruct (type m).
  - apply query_effects in E as (_ & _ & Ei). by apply (few_votes_identity S n).
  - unfold handle_response in E. apply bind_Ret in E as (n1 & E1 & ([r es] & _ & [t ->]%with_client_Ret)%bind_Ret).
    change (few_votes S n1 /\ self_ n1 = self_ n /\ external_address_ n1 = external_address_ n). destruct (negb _); [|by injection E1 as <-].
    eapply (vote_counted S env _ from (set_dos dos n)); try done. by apply Hr.
  - apply bind_Ret in E as ([r es] & _ & [t ->]%with_client_Ret). by apply (few_votes_identity S n).
Qed.

(** C23: few responders cannot move the node. Whatever datagrams come in, as long as the
    responses among them come from fewer than five addresses, the node keeps its id and
    what it takes its address to be. *)
Theorem few_responders (S : gset IpAddress) es : forall n n' out,
  run es n = Ret (n', out) -> few_votes S n -> Forall (fun e => told_own_address e = false) es ->
  Forall (fun e => forall a, responder e = Some a -> a ∈ S) es -> Z.of_nat (size S) < kExternalIpVoteThreshold ->
  self_ n' = self_ n /\ external_address_ n' = external_address_ n.
Proof.
  induction es as [|e es IH]; intros n n' out; cbn [run]; [by intros [= <- _]|].
  intros ([n1 o1] & E1 & ([n2 o2] & E2 & [= <- _])%bind_Ret)%bind_Ret Hf [? ?]%Forall_cons [? ?]%Forall_cons HS.
  destruct (step_few_votes S e n n1 o1) as (F1 & <- & <-); try done. by apply (IH n1 n2 o2).
Qed.

End Histories.

(** * A concrete node *)

(** A node without lookups, with whatever the caller draws. *)
Definition quiet_client : lookup.Config * lookup.State :=
  (lookup.mkConfig (replicate 20 x01) (replicate 20 x01) [] None false false Z.of_nat (fun m => (map_to_list m).*1),
   lookup.set_done lookup.new_state).
Definition demo_node : Node (lookup.Config * lookup.State) := new_node (replicate 20 x01) false quiet_client.
Definition demo_env : Env := mkEnv (replicate 64 x00) (replicate 16 x07) (replicate 18 x05) 0.
Definition peer_at (b : byte) : Address := mkAddress (ip_address.from_v4 [x0a; x00; x00; b]) 6881.
Definition a_hash : NodeId := replicate 20 x22.

Lemma demo_healthy : healthy demo_node.
Proof. by apply healthy_new. Qed.

Lemma demo_env_ok : env_ok demo_env.
Proof. by split. Qed.

Lemma queries_answered_witness :
  let m := create_get_peers_query (lit "aa") (replicate 20 x09) a_hash in
  exists data, encode_message m = Some data /\
  returns (on_datagram demo_env data (peer_at x01) 5 demo_node) (fun '(_, out) => exists data', out = [lookup.SendTo (peer_at x01) data']).
Proof.
  intros m. destruct (encode_message m) as [data|] eqn:E; [|by vm_compute in E]. exists data. split; [done|].
  assert (decode_message data = Ret (Some m)) as D by (vm_compute in E; injection E as <-; by vm_compute).
  eapply returns_mono; [apply (queries_answered demo_env data (peer_at x01) 5 demo_node m demo_env_ok ltac:(done) demo_healthy eq_refl D eq_refl)|].
  intros [n' out] (_ & r & (data' & -> & _) & _). by exists data'.
Defined.

Lemma announce_refused_witness :
  let m := create_announce_peer_query (lit "bb") (replicate 20 x09) a_hash 80 (lit "guess") false in
  returns (handle_query demo_env m (peer_at x01) 5 demo_node) (fun '(n', _) => peers_ n' = ∅).
Proof.
  intros m. eapply returns_mono; [apply (announce_refused demo_env m (peer_at x01) 5 demo_node demo_env_ok ltac:(done) demo_healthy)|].
  - by apply query_of_ok.
  - done.
  - intros E. apply (f_equal zlen) in E. by rewrite zlen_token in E.
  - intros E. apply (f_equal zlen) in E. by rewrite zlen_token in E.
  - intros [n' out] (_ & t & -> & _). done.
Defined.


(** A response with a random transaction id, as anybody can send it. *)
Definition claim_address (a : IpAddress) (from : byte) : Event :=
  Datagram demo_env (default [] (encode_message (response_of (lit "zz") (replicate 20 x33) [] [] [] a 1))) (peer_at from) 0.

Lemma few_responders_witness :
  let a := ip_address.from_v4 [x08; x08; x08; x08] in
  let es := [claim_address a x01; claim_address a x02; claim_address a x03; claim_address a x04] in
  exists n' out, run es demo_node = Ret (n', out) /\ self_ n' = self_ demo_node.
Proof.
  intros a es. assert (match run es demo_node with Ret _ => true | _ => false end = true) as Er by (vm_compute; reflexivity).
  destruct (run es demo_node) as [[n' out]| |] eqn:E; [clear Er|discriminate Er..]. exists n', out. split; [reflexivity|].
  apply (few_responders (list_to_set (ip ∘ peer_at <$> [x01; x02; x03; x04])) es demo_node n' out E).
  - split; [apply empty_subseteq|]. intros b v Hb. change (ip_votes_ demo_node) with (∅ : gmap IpAddress Z) in Hb. by rewrite lookup_empty in Hb.
  - repeat constructor.
  - assert (forall x, responder (claim_address a x) = Some (ip (peer_at x))) as Hr by (intros x; vm_compute; reflexivity).
    unfold es. clear E es. repeat (apply Forall_cons; split; [intros b; rewrite Hr; intros [= <-]; vm_compute; reflexivity|]). constructor.
  - vm_compute. reflexivity.
Defined.

(** Five responses that answer nothing, from five forged addresses, give the node the address
    of the forger's choice and a new id. *)
Lemma unsolicited_votes :
  let a := ip_address.from_v4 [x08; x08; x08; x08] in
  let es := [claim_address a x01; claim_address a x02; claim_address a x03; claim_address a x04; claim_address a x05] in
  lookup.pending_ (rpc_ demo_node).2 = ∅
  /\ returns (run es demo_node) (fun '(n', _) => external_address_ n' = a /\ self_ n' <> self_ demo_node).
Proof.
  intros a es. split; [reflexivity|].
  assert (match run es demo_node with
          | Ret (n', _) => bool_decide (external_address_ n' = a /\ self_ n' <> self_ demo_node)
          | _ => false
          end = true) as E by (vm_compute; reflexivity).
  destruct (run es demo_node) as [[n' out]| |]; [|discriminate E..]. by apply bool_decide_eq_true in E.
Qed.
