(* ===== verification/Extensions.v ===== *)
(** The extension messages of BitTorrent peers ([bittorrent/extensions.{h,cpp}]): the extended
    handshake, metadata exchange and peer exchange, over bencode.

    A position in a payload is a 64-bit number. The scanner that finds the end of the header of
    a metadata message takes fuel, one unit per call and per turn of its loop; that enough fuel
    gives a result is proved for what the encoder writes. *)

From Stdlib Require Import Strings.String.
From S2P Require Import Prelude Text PeerId Address DhtId Bencode Krpc KrpcCodec KrpcRoundtrip.
Import bencode.

Module ext.

Definition kUtMetadataLocalId : Z := 1.
Definition kUtPexLocalId : Z := 2.

(** * Addresses *)

Record PexPeer := mkPex { pex_ip : list byte; pex_port : Z }.

Definition is_space (c : byte) : bool := (u8 c =? 32) || ((9 <=? u8 c) && (u8 c <=? 13)).

(** The conversion [%u] of [sscanf]: the number and the rest, [None] if nothing matches. A
    number that does not fit is undefined behaviour. *)
Definition scan_u (s : list byte) : outcome (option (Z * list byte)) :=
  let s := skip_while is_space s in
  let '(minus, s) := match s with
                     | c :: s' => if u8 c =? 45 then (true, s') else if u8 c =? 43 then (false, s') else (false, s)
                     | [] => (false, [])
                     end in
  match take_while is_digit s with
  | [] => Ret None
  | ds =>
      let v := digits_val ds in
      if v <? 2 ^ 32 then Ret (Some (if (minus : bool) then u32 (- v) else v, skip_while is_digit s)) else UB
  end.

(** The conversions [%u.] in front of the last one. *)
Definition scan_dotted (s : list byte) : outcome (option (Z * list byte)) :=
  r ← scan_u s;
  match r with
  | Some (v, c :: s) => Ret (if u8 c =? 46 then Some (v, s) else None)
  | _ => Ret None
  end.

(** The string ends at its first zero byte. *)
Definition ipv4_to_bytes (ip : list byte) : outcome (option (list byte)) :=
  r ← scan_dotted (take_while (fun c => negb (u8 c =? 0)) ip);
  match r with None => Ret None | Some (a, s) =>
  r ← scan_dotted s;
  match r with None => Ret None | Some (b, s) =>
  r ← scan_dotted s;
  match r with None => Ret None | Some (c, s) =>
  r ← scan_u s;
  match r with
  | Some (d, []) =>
      if (255 <? a) || (255 <? b) || (255 <? c) || (255 <? d) then Ret None
      else Ret (Some [byte_of a; byte_of b; byte_of c; byte_of d])
  | _ => Ret None
  end end end end.

Definition ipv4_to_string (b : list byte) : list byte :=
  match b with
  | [a; b; c; d] =>
      nat_to_string (u8 a) ++ x2e :: nat_to_string (u8 b) ++ x2e :: nat_to_string (u8 c) ++ x2e :: nat_to_string (u8 d)
  | _ => []
  end.

Fixpoint compact (peers : list PexPeer) : outcome (list byte) :=
  match peers with
  | [] => Ret []
  | p :: peers =>
      ip ← ipv4_to_bytes (pex_ip p);
      rest ← compact peers;
      Ret (match ip with Some b => b ++ be_enc 2 (pex_port p) ++ rest | None => rest end)
  end.

(** Six bytes at a time. *)
Fixpoint uncompact (s : list byte) : list PexPeer :=
  match s with
  | a :: b :: c :: d :: hi :: lo :: s => mkPex (ipv4_to_string [a; b; c; d]) (Z.lor (Z.shiftl (u8 hi) 8) (u8 lo)) :: uncompact s
  | _ => []
  end.

(** * The scanner *)

(** The index of the first [c] from [pos] on, or the length. *)
Definition seek (c : byte) (d : list byte) (pos : Z) : Z := pos + zlen (take_while (fun x => negb (bool_decide (x = c))) (zdrop pos d)).

(** The digits in front of a colon, whatever they are. *)
Definition decimal (ds : list byte) : Z := foldl (fun len c => u64 (len * 10 + u64 (u8 c - 48))) 0 ds.

Fixpoint bencode_value_length (fuel : nat) (d : list byte) (pos : Z) : option Z :=
  match fuel with
  | O => None
  | S fuel =>
      match zlookup d pos with
      | None => Some 0
      | Some c =>
          if bool_decide (c = x69) then
            let e := seek x65 d (pos + 1) in
            Some (if e <? zlen d then e + 1 - pos else 0)
          else if bool_decide (c = x6c) || bool_decide (c = x64) then items_length fuel d pos (pos + 1)
          else if is_digit c then
            let colon := seek x3a d pos in
            if zlen d <=? colon then Some 0
            else
              let len := decimal (ztake (colon - pos) (zdrop pos d)) in
              let total := u64 (colon + 1 - pos + len) in
              Some (if u64 (pos + total) <=? zlen d then total else 0)
          else Some 0
      end
  end
(** The loop over the members of a list or dictionary that starts at [pos]. *)
with items_length (fuel : nat) (d : list byte) (pos p : Z) : option Z :=
  match fuel with
  | O => None
  | S fuel =>
      match zlookup d p with
      | None => Some 0
      | Some c =>
          if bool_decide (c = x65) then Some (u64 (p + 1 - pos))
          else
            len ← bencode_value_length fuel d p;
            if len =? 0 then Some 0 else items_length fuel d pos (u64 (p + len))
      end
  end.

(** * The extended handshake *)

Record PeerExtensions := mkExt { ut_metadata_id : Z; ut_pex_id : Z; metadata_size : Z; listen_port : Z }.

Definition find_int (dict : BencodeValue) (key : list byte) : option Z := v ← find key dict; as_integer v.

Definition encode_handshake (size port : Z) : option (list byte) :=
  m ← krpc.put (lit "ut_metadata") (Integer kUtMetadataLocalId) (Dictionary []);
  m ← krpc.put (lit "ut_pex") (Integer kUtPexLocalId) m;
  d ← krpc.put (lit "m") m (Dictionary []);
  d ← (if 0 <? size then krpc.put (lit "metadata_size") (Integer size) d else Some d);
  d ← (if 0 <? port then krpc.put (lit "p") (Integer port) d else Some d);
  d ← krpc.put (lit "v") (String (lit "librats")) d;
  Some (encode d).

Definition decode_handshake (payload : list byte) : option PeerExtensions :=
  d ← decode_full payload;
  _ ← as_dict d;
  let m := m ← find (lit "m") d; _ ← as_dict m; Some m in
  let id key := match (m ← m; find_int m key) with Some v => v mod 256 | None => 0 end in
  let positive key wrap := match find_int d key with Some v => if 0 <? v then wrap v else 0 | None => 0 end in
  Some (mkExt (id (lit "ut_metadata")) (id (lit "ut_pex")) (positive (lit "metadata_size") u32) (positive (lit "p") u16)).

(** * Metadata exchange *)

Definition Request : Z := 0.
Definition Data : Z := 1.
Definition Reject : Z := 2.

(** The type is an enumeration over [uint8_t]: any byte may be cast to it. *)
Record MetadataMessage := mkMetadata { mtype : Z; piece : Z; total_size : Z; block : list byte }.

Definition encode_metadata (ty p : Z) (total : option Z) : option (list byte) :=
  d ← krpc.put (lit "msg_type") (Integer ty) (Dictionary []);
  d ← krpc.put (lit "piece") (Integer p) d;
  d ← match total with Some n => krpc.put (lit "total_size") (Integer n) d | None => Some d end;
  Some (encode d).
Definition encode_metadata_request (p : Z) : option (list byte) := encode_metadata Request p None.
Definition encode_metadata_reject (p : Z) : option (list byte) := encode_metadata Reject p None.
Definition encode_metadata_data (p total : Z) (blk : list byte) : option (list byte) :=
  out ← encode_metadata Data p (Some total); Some (out ++ blk).

(** The message in the header and the bytes after it. *)
Definition read_metadata (header rest : list byte) : option MetadataMessage :=
  d ← decode_full header;
  _ ← as_dict d;
  ty ← find_int d (lit "msg_type");
  p ← find_int d (lit "piece");
  Some (if ty mod 256 =? Data
        then mkMetadata Data (u32 p) (match find_int d (lit "total_size") with Some n => u32 n | None => 0 end) rest
        else mkMetadata (ty mod 256) (u32 p) 0 []).

(** [None] is a scan that does not end. *)
Definition decode_metadata (fuel : nat) (payload : list byte) : option (option MetadataMessage) :=
  n ← bencode_value_length fuel payload 0;
  Some (if n =? 0 then None else read_metadata (ztake n payload) (zdrop n payload)).

(** * Peer exchange *)

Definition encode_pex (added dropped : list PexPeer) : outcome (option (list byte)) :=
  a ← compact added;
  r ← compact dropped;
  Ret (d ← krpc.put (lit "added") (String a) (Dictionary []);
       d ← krpc.put (lit "dropped") (String r) d;
       Some (encode d)).

Record PexMessage := mkPexMessage { added : list PexPeer; dropped : list PexPeer }.

Definition decode_pex (payload : list byte) : option PexMessage :=
  d ← decode_full payload;
  _ ← as_dict d;
  let peers key := match (v ← find key d; as_string v) with Some s => uncompact s | None => [] end in
  Some (mkPexMessage (peers (lit "added")) (peers (lit "dropped"))).

(** * The scanner finds the end of what the encoder writes *)

Lemma seek_app c pre body post :
  Forall (fun x => x <> c) body -> seek c (pre ++ body ++ c :: post) (zlen pre) = zlen pre + zlen body.
Proof.
  intros Hb. unfold seek. rewrite zdrop_app by done.
  destruct (take_while_app (fun x => negb (bool_decide (x = c))) body c post) as [-> _]; [|by rewrite bool_decide_true|done].
  eapply Forall_impl; [exact Hb|]. cbn. intros x Hx. by rewrite bool_decide_false.
Qed.

Lemma digits_plain ds c : Forall (fun x => is_digit x = true) ds -> is_digit c = false -> Forall (fun x => x <> c) ds.
Proof. intros Hd Hc. eapply Forall_impl; [exact Hd|]. cbn. intros x Hx ->. by rewrite Hx in Hc. Qed.

Lemma to_string_plain z : - 2 ^ 63 <= z < 2 ^ 63 -> Forall (fun x => x <> x65) (to_string z).
Proof.
  intros Hz. unfold to_string. destruct (Z.ltb_spec z 0); [constructor; [done|]|];
    (apply digits_plain; [apply nat_to_string_spec; lia|done]).
Qed.

Lemma decimal_digits ds acc :
  Forall (fun c => is_digit c = true) ds -> 0 <= acc -> foldl (fun acc c => acc * 10 + digit_val c) acc ds < 2 ^ 64 ->
  foldl (fun len c => u64 (len * 10 + u64 (u8 c - 48))) acc ds = foldl (fun acc c => acc * 10 + digit_val c) acc ds.
Proof.
  intros Hd. revert acc. induction Hd as [|c ds Hc Hd IH]; intros acc Ha Hlt; cbn [foldl] in *; [done|].
  apply is_digit_range in Hc. pose proof (digits_val_ge (acc * 10 + digit_val c) ds Hd ltac:(lia)). 
  assert (u64 (acc * 10 + u64 (u8 c - 48)) = acc * 10 + digit_val c) as ->; [|apply IH; [lia|done]].
  fold (digit_val c). unfold u64. rewrite (Z.mod_small (digit_val c)) by lia. apply Z.mod_small. lia.
Qed.

Lemma zlookup_mid (pre : list byte) x post i : i = zlen pre -> zlookup (pre ++ x :: post) i = Some x.
Proof. intros ->. apply zlookup_app. Qed.

(** What the scan of one value says. *)
Definition scanned (v : BencodeValue) : Prop :=
  forall pre post fuel, zlen (pre ++ encode v ++ post) < 2 ^ 60 -> 2 * zlen (encode v) + 1 <= Z.of_nat fuel ->
    bencode_value_length fuel (pre ++ encode v ++ post) (zlen pre) = Some (zlen (encode v)).

Lemma encode_pos v : 1 <= zlen (encode v).
Proof. destruct (encode_head v) as (c & t & -> & _). rewrite zlen_cons. zlen_facts. lia. Qed.

Lemma items_encode l : forall pre post fuel pos,
  Forall scanned l -> zlen (pre ++ concat (map encode l) ++ x65 :: post) < 2 ^ 60 -> 0 <= pos <= zlen pre ->
  2 * zlen (concat (map encode l)) + 2 <= Z.of_nat fuel ->
  items_length fuel (pre ++ concat (map encode l) ++ x65 :: post) pos (zlen pre) = Some (zlen pre + zlen (concat (map encode l)) + 1 - pos).
Proof.
  induction l as [|v l IH]; intros pre post fuel pos Hl Hlen Hpos Hf; (destruct fuel as [|fuel]; [zlen_facts; lia|]);
    cbn [items_length map concat app] in *.
  - rewrite zlookup_app, bool_decide_true by done. rewrite zlen_app, zlen_cons in Hlen. zlen_facts.
    change (zlen (@nil byte)) with 0. unfold u64. rewrite Z.mod_small by lia. f_equal. lia.
  - apply Forall_cons in Hl as [Hv Hl]. pose proof (encode_pos v). rewrite !zlen_app, zlen_cons in *.
    assert (pre ++ (encode v ++ concat (map encode l)) ++ x65 :: post = pre ++ encode v ++ (concat (map encode l) ++ x65 :: post)) as E1 by (by rewrite <- !app_assoc).
    assert (pre ++ (encode v ++ concat (map encode l)) ++ x65 :: post = (pre ++ encode v) ++ concat (map encode l) ++ x65 :: post) as E2 by (by rewrite <- !app_assoc).
    destruct (encode_head v) as (c & t & Ec & Hc). rewrite E1 at 1. rewrite Ec at 1. cbn [app]. rewrite zlookup_app, bool_decide_false by done.
    rewrite E1, Hv by (rewrite ?zlen_app, ?zlen_cons; zlen_facts; lia). cbn [mbind option_bind].
    destruct (Z.eqb_spec (zlen (encode v)) 0); [lia|]. unfold u64. rewrite Z.mod_small by (zlen_facts; lia).
    rewrite <- E1, E2, <- zlen_app, IH; [|done|rewrite ?zlen_app, ?zlen_cons; zlen_facts; lia..]. rewrite !zlen_app. f_equal. lia.
Qed.

Lemma scan_string str : scanned (String str).
Proof.
  intros pre post fuel Hlen Hf. cbn [encode] in *. destruct fuel as [|fuel]; [zlen_facts; lia|]. unfold append_str in *. rewrite !zlen_app, zlen_cons in *.
  destruct (nat_to_string_spec (zlen str)) as (Hd & Hv & c & t & Ec & _ & _); [zlen_facts; lia|].
  cbn [bencode_value_length]. rewrite Ec at 1. cbn [app]. rewrite zlookup_app.
  assert (is_digit c = true) as Hc by (rewrite Ec in Hd; by apply Forall_cons in Hd as [? _]).
  rewrite !bool_decide_false by (intros ->; done). cbn [orb]. rewrite Hc.
  assert (pre ++ (nat_to_string (zlen str) ++ x3a :: str) ++ post = pre ++ nat_to_string (zlen str) ++ x3a :: (str ++ post)) as E by (by rewrite <- !app_assoc).
  rewrite E, seek_app by (by apply (digits_plain _ x3a)). set (ds := nat_to_string (zlen str)) in *.
  destruct (Z.leb_spec (zlen (pre ++ ds ++ x3a :: str ++ post)) (zlen pre + zlen ds)) as [Hle|_];
    [rewrite !zlen_app, zlen_cons, zlen_app in Hle; zlen_facts; lia|].
  replace (zlen pre + zlen ds - zlen pre) with (zlen ds) by lia. rewrite zdrop_app, ztake_app by done.
  assert (decimal ds = zlen str) as ->.
  { unfold decimal. rewrite decimal_digits; [exact Hv|done|done|]. fold (digits_val ds). rewrite Hv. zlen_facts. lia. }
  unfold u64. rewrite (Z.mod_small (zlen pre + _ + _ - _ + _)) by (zlen_facts; lia). rewrite Z.mod_small by (zlen_facts; lia).
  rewrite !zlen_app, zlen_cons, zlen_app. destruct (Z.leb_spec (zlen pre + (zlen pre + zlen ds + 1 - zlen pre + zlen str)) (zlen pre + (zlen ds + (1 + (zlen str + zlen post)))));
    [f_equal; lia|zlen_facts; lia].
Qed.

Lemma scan_integer z : - 2 ^ 63 <= z < 2 ^ 63 -> scanned (Integer z).
Proof.
  intros Hz pre post fuel Hlen Hf. cbn [encode] in *. destruct fuel as [|fuel]; [zlen_facts; lia|]. cbn [bencode_value_length app].
  rewrite zlookup_app, bool_decide_true by done.
  assert (pre ++ x69 :: (to_string z ++ [x65]) ++ post = (pre ++ [x69]) ++ to_string z ++ x65 :: post) as -> by (by rewrite <- !app_assoc).
  replace (zlen pre + 1) with (zlen (pre ++ [x69])) by (by rewrite zlen_app). rewrite seek_app by (by apply to_string_plain).
  rewrite !zlen_app, !zlen_cons, !zlen_app, !zlen_cons. change (zlen (@nil byte)) with 0.
  pose proof (zlen_nonneg post). match goal with |- context [?a <? ?b] => destruct (Z.ltb_spec a b) end; [f_equal; lia|lia].
Qed.

(** Keys and values in turn. *)
Definition members (d : list (list byte * BencodeValue)) : list BencodeValue := flat_map (fun e => [String e.1; e.2]) d.

Lemma members_encode d : concat (map (fun e => append_str e.1 ++ encode e.2) d) = concat (map encode (members d)).
Proof. induction d as [|e d IH]; [done|]. cbn [map concat members flat_map app encode]. rewrite IH. by rewrite <- app_assoc. Qed.

Lemma scan_items o l pre post fuel :
  o = x6c \/ o = x64 -> Forall scanned l -> zlen (pre ++ (o :: concat (map encode l) ++ [x65]) ++ post) < 2 ^ 60 ->
  2 * zlen (o :: concat (map encode l) ++ [x65]) + 1 <= Z.of_nat fuel ->
  bencode_value_length fuel (pre ++ (o :: concat (map encode l) ++ [x65]) ++ post) (zlen pre) = Some (zlen (o :: concat (map encode l) ++ [x65])).
Proof.
  intros Ho Hl Hlen Hf. rewrite zlen_cons, zlen_app in Hf. change (zlen [x65]) with 1 in Hf. destruct fuel as [|fuel]; [zlen_facts; lia|].
  cbn [bencode_value_length app]. rewrite zlookup_app. rewrite (bool_decide_false (o = x69)) by (by destruct Ho as [-> | ->]).
  assert (bool_decide (o = x6c) || bool_decide (o = x64) = true) as -> by (by destruct Ho as [-> | ->]).
  assert (pre ++ o :: (concat (map encode l) ++ [x65]) ++ post = (pre ++ [o]) ++ concat (map encode l) ++ x65 :: post) as E by (by rewrite <- !app_assoc).
  cbn [app] in Hlen. rewrite E in *. replace (zlen pre + 1) with (zlen (pre ++ [o])) by (by rewrite zlen_app).
  rewrite items_encode; [|done|done|rewrite zlen_app; zlen_facts; lia|lia]. rewrite zlen_cons, !zlen_app. change (zlen [o]) with 1. change (zlen [x65]) with 1. f_equal. lia.
Qed.

Lemma scan_encode v : wf v -> scanned v.
Proof.
  induction v as [z|str|l IH|d IH] using value_ind; intros Hwf.
  - by apply scan_integer.
  - apply scan_string.
  - apply wf_List in Hwf. intros pre post fuel. apply scan_items; [by left|]. rewrite Forall_forall in *. auto.
  - apply wf_Dictionary in Hwf as [_ Hwf]. intros pre post fuel. cbn [encode]. rewrite members_encode. apply scan_items; [by right|].
    clear -IH Hwf. induction d as [|e d IHd]; [constructor|]. apply Forall_cons in IH as [H1 H2]. apply Forall_cons in Hwf as [H3 H4].
    cbn [members flat_map app]. constructor; [apply scan_string|]. constructor; [auto|by apply IHd].
Qed.

(** * Round trips *)

Definition u32_ok (z : Z) : Prop := 0 <= z < 2 ^ 32.

(** ** Metadata *)

Lemma metadata_header ty p total :
  0 <= ty < 256 -> u32_ok p -> (forall n, total = Some n -> u32_ok n) ->
  exists d, encode_metadata ty p total = Some (encode d) /\ wf d /\ height d <= 1 /\ is_Some (as_dict d)
    /\ find_int d (lit "msg_type") = Some ty /\ find_int d (lit "piece") = Some p /\ find_int d (lit "total_size") = total.
Proof.
  unfold u32_ok. intros Hty Hp Ht. unfold encode_metadata.
  destruct (dict_put _ _ (lit "msg_type") (Integer ty) dict_nil) as (d1 & -> & D1). cbn [mbind option_bind].
  destruct (dict_put _ _ (lit "piece") (Integer p) D1) as (d2 & -> & D2). cbn [mbind option_bind].
  destruct total as [n|]; [specialize (Ht n eq_refl); destruct (dict_put _ _ (lit "total_size") (Integer n) D2) as (d3 & -> & D3); exists d3; clear D2
    |exists d2; pose proof D2 as D3; clear D2]; cbn [mbind option_bind]; (split; [done|]).
  all: destruct (dict_wf 0 _ _ ltac:(lia) D3) as [Hwf Hh]; [shallow_solve|];
    (split; [done|]; split; [lia|]; split; [by destruct D3 as (dd & -> & _); eexists|]); unfold find_int; dict_reads; look; done.
Qed.

Lemma decode_metadata_header ty p total blk d payload :
  0 <= ty < 256 -> u32_ok p -> (forall n, total = Some n -> u32_ok n) -> encode_metadata ty p total = Some d -> payload = d ++ blk ->
  zlen payload < 2 ^ 60 -> forall fuel, 2 * zlen payload + 1 <= Z.of_nat fuel ->
  decode_metadata fuel payload
  = Some (Some (if ty =? Data then mkMetadata Data p (default 0 total) blk else mkMetadata ty p 0 [])).
Proof.
  unfold u32_ok. intros Hty Hp Ht Ed -> Hlen fuel Hf. destruct (metadata_header ty p total Hty Hp Ht) as (v & Ev & Hwf & Hh & [dd Hd] & F1 & F2 & F3).
  rewrite Ev in Ed. injection Ed as <-. rewrite zlen_app in Hlen, Hf. pose proof (zlen_nonneg blk). unfold decode_metadata.
  rewrite (scan_encode v Hwf [] blk) by (cbn [app]; rewrite ?zlen_app; lia). cbn [mbind option_bind]. f_equal.
  pose proof (encode_pos v). rewrite (proj2 (Z.eqb_neq (zlen (encode v)) 0)) by lia.
  rewrite ztake_app, zdrop_app by done. unfold read_metadata. rewrite decode_encode by (unfold kMaxDepth; done || lia). cbn [mbind option_bind].
  rewrite Hd. cbn [mbind option_bind]. rewrite F1, F2. cbn [mbind option_bind]. rewrite F3, (Z.mod_small ty) by lia. unfold u32. rewrite (Z.mod_small p) by lia.
  destruct (ty =? Data); [|done]. destruct total as [n|]; [|done]. specialize (Ht n eq_refl). by rewrite Z.mod_small.
Qed.

(** ** The handshake *)

Lemma optional_field z (wrap : Z -> Z) :
  0 <= z -> wrap z = z ->
  match (if 0 <? z then Some (Integer z) else None) ≫= (fun v => as_integer v) with Some v => if 0 <? v then wrap v else 0 | None => 0 end = z.
Proof. intros Hz Hw. destruct (0 <? z) eqn:E; cbn; [by rewrite E|]. apply Z.ltb_ge in E. lia. Qed.

Lemma handshake_roundtrip size port :
  u32_ok size -> port_ok port ->
  exists data, encode_handshake size port = Some data /\ (zlen data < 2 ^ 60 -> decode_handshake data = Some (mkExt 1 2 size port)).
Proof.
  unfold u32_ok, port_ok. intros Hs Hp. unfold encode_handshake.
  destruct (dict_put _ _ (lit "ut_metadata") (Integer kUtMetadataLocalId) dict_nil) as (m1 & -> & M1). cbn [mbind option_bind].
  destruct (dict_put _ _ (lit "ut_pex") (Integer kUtPexLocalId) M1) as (m & -> & M). cbn [mbind option_bind]. clear M1 m1.
  destruct (dict_put _ _ (lit "m") m dict_nil) as (d1 & -> & D1). cbn [mbind option_bind].
  destruct (dict_put_if _ _ (0 <? size) (lit "metadata_size") (Integer size) D1) as (d2 & -> & D2). cbn [mbind option_bind].
  destruct (dict_put_if _ _ (0 <? port) (lit "p") (Integer port) D2) as (d3 & -> & D3). cbn [mbind option_bind].
  destruct (dict_put _ _ (lit "v") (String (lit "librats")) D3) as (d & -> & D). cbn [mbind option_bind]. clear D1 D2 D3.
  eexists. split; [done|]. intros Hlen.
  destruct (dict_wf 0 _ _ ltac:(lia) M) as [Mwf Mh]; [shallow_solve|]. destruct (dict_wf 1 _ _ ltac:(lia) D) as [Dwf Dh]; [shallow_solve|].
  unfold decode_handshake. rewrite decode_encode by (unfold kMaxDepth; done || lia). cbn [mbind option_bind].
  assert (is_Some (as_dict d)) as [dd ->] by (by destruct D as (? & -> & _)). assert (is_Some (as_dict m)) as [mm Em] by (by destruct M as (? & -> & _)).
  cbn [mbind option_bind]. unfold find_int. dict_reads. look. cbn [mbind option_bind]. rewrite Em. cbn [mbind option_bind]. dict_reads. look. cbn [mbind option_bind].
  rewrite !optional_field by (lia || apply Z.mod_small; lia). reflexivity.
Qed.

(** ** Peers *)

Lemma nat_to_string_byte b : Forall (fun c => is_digit c = true) (nat_to_string (u8 b)) /\ digits_val (nat_to_string (u8 b)) = u8 b
  /\ exists c ds, nat_to_string (u8 b) = c :: ds.
Proof.
  pose proof (u8_range b). destruct (nat_to_string_spec (u8 b)) as (H1 & H2 & c & ds & E & _ & _); [lia|]. split_and!; [done|done|by exists c, ds].
Qed.

Lemma digit_not c n : is_digit c = true -> n < 48 \/ 57 < n -> (u8 c =? n) = false.
Proof. unfold is_digit. intros [H1%Z.leb_le H2%Z.leb_le]%andb_prop Hn. apply Z.eqb_neq. lia. Qed.

Lemma scan_u_byte b s :
  match s with [] => True | c :: _ => is_digit c = false end -> scan_u (nat_to_string (u8 b) ++ s) = Ret (Some (u8 b, s)).
Proof.
  intros Hs. destruct (nat_to_string_byte b) as (Hd & Hv & c & ds & E). pose proof (u8_range b). unfold scan_u.
  assert (is_digit c = true) as Hc by (rewrite E in Hd; by apply Forall_cons in Hd as [? _]).
  assert (skip_while is_space (nat_to_string (u8 b) ++ s) = nat_to_string (u8 b) ++ s) as ->.
  { rewrite E. cbn [app skip_while]. unfold is_space. rewrite digit_not by (done || lia). cbn [orb].
    assert ((9 <=? u8 c) && (u8 c <=? 13) = false) as -> by (unfold is_digit in Hc; apply andb_prop in Hc as [?%Z.leb_le _]; apply andb_false_intro2, Z.leb_gt; lia). done. }
  rewrite E at 1. cbn [app]. rewrite !digit_not by (done || lia).
  assert (take_while is_digit (nat_to_string (u8 b) ++ s) = nat_to_string (u8 b) /\ skip_while is_digit (nat_to_string (u8 b) ++ s) = s) as [-> ->].
  { destruct s as [|x s]; [rewrite app_nil_r; by apply take_while_all|by apply take_while_app]. }
  rewrite E. cbv beta iota zeta. rewrite <- E, Hv. by rewrite (proj2 (Z.ltb_lt (u8 b) (2 ^ 32))) by lia.
Qed.

Lemma scan_dotted_byte b s : scan_dotted (nat_to_string (u8 b) ++ x2e :: s) = Ret (Some (u8 b, s)).
Proof. unfold scan_dotted. by rewrite scan_u_byte. Qed.

Lemma ipv4_roundtrip a b c d : ipv4_to_bytes (ipv4_to_string [a; b; c; d]) = Ret (Some [a; b; c; d]).
Proof.
  unfold ipv4_to_bytes. cbn [ipv4_to_string].
  assert (forall l, Forall (fun x => is_digit x = true \/ x = x2e) l -> take_while (fun c => negb (u8 c =? 0)) l = l) as Hz.
  { intros l Hl. apply take_while_all. eapply Forall_impl; [exact Hl|]. cbn. intros x [Hx| ->]; [|done]. by rewrite digit_not by (done || lia). }
  assert (forall x, Forall (fun x => is_digit x = true \/ x = x2e) (nat_to_string (u8 x))) as Hx.
  { intros x. eapply Forall_impl; [apply nat_to_string_byte|]. cbn. auto. }
  rewrite Hz by (rewrite !Forall_app, !Forall_cons, !Forall_app, !Forall_cons, !Forall_app, !Forall_cons; split_and!; auto).
  rewrite !scan_dotted_byte. cbn [mbind outcome_bind]. rewrite scan_dotted_byte. cbn [mbind outcome_bind]. rewrite scan_dotted_byte. cbn [mbind outcome_bind].
  rewrite <- (app_nil_r (nat_to_string (u8 d))), scan_u_byte by done. cbn [mbind outcome_bind].
  pose proof (u8_range a). pose proof (u8_range b). pose proof (u8_range c). pose proof (u8_range d).
  rewrite !(proj2 (Z.ltb_ge 255 _)) by lia. cbn [orb]. by rewrite !byte_of_u8.
Qed.

(** A peer as the decoder makes it. *)
Definition pex_of (p : byte * byte * byte * byte * Z) : PexPeer :=
  let '(a, b, c, d, port) := p in mkPex (ipv4_to_string [a; b; c; d]) port.

Lemma compact_roundtrip ps :
  Forall (fun p => port_ok p.2) ps -> exists s, compact (pex_of <$> ps) = Ret s /\ uncompact s = pex_of <$> ps.
Proof.
  induction 1 as [|[[[[a b] c] d] port] ps Hp _ (s & E & D)]; [by exists []|]. rewrite fmap_cons. cbn [compact pex_of pex_ip pex_port].
  rewrite ipv4_roundtrip. cbn [mbind outcome_bind]. rewrite E. cbn [mbind outcome_bind]. eexists. split; [done|]. cbn [app be_enc uncompact].
  rewrite D. f_equal. f_equal. cbn in Hp. unfold port_ok in Hp. rewrite !u8_byte_of, lor_shiftl_add by (lia || apply Z.mod_pos_bound; lia).
  change (2 ^ 8) with 256. rewrite (Z.mod_small (port / 256)); [rewrite (Z.div_mod port 256) at 3; lia|].
  split; [apply Z.div_pos; lia|apply Z.div_lt_upper_bound; lia].
Qed.

Lemma pex_roundtrip ps qs :
  Forall (fun p => port_ok p.2) ps -> Forall (fun p => port_ok p.2) qs ->
  exists data, encode_pex (pex_of <$> ps) (pex_of <$> qs) = Ret (Some data)
    /\ (zlen data < 2 ^ 60 -> decode_pex data = Some (mkPexMessage (pex_of <$> ps) (pex_of <$> qs))).
Proof.
  intros Hp Hq. destruct (compact_roundtrip ps Hp) as (s & E1 & D1). destruct (compact_roundtrip qs Hq) as (r & E2 & D2).
  unfold encode_pex. rewrite E1, E2. cbn [mbind outcome_bind].
  destruct (dict_put _ _ (lit "added") (String s) dict_nil) as (d1 & -> & M1). cbn [mbind option_bind].
  destruct (dict_put _ _ (lit "dropped") (String r) M1) as (d & -> & M). cbn [mbind option_bind]. clear M1.
  eexists. split; [done|]. intros Hlen. destruct (dict_wf 0 _ _ ltac:(lia) M) as [Hwf Hh]; [shallow_solve|].
  unfold decode_pex. rewrite decode_encode by (unfold kMaxDepth; done || lia). cbn [mbind option_bind].
  assert (is_Some (as_dict d)) as [dd ->] by (by destruct M as (? & -> & _)). cbn [mbind option_bind]. dict_reads. look. cbn. by rewrite D1, D2.
Qed.

(** C36: Every extension message is read back as it was written: the extended handshake with its
    metadata size and listen port; a metadata request, reject and data message, for which the
    scan for the end of the header ends, the block being the bytes after it whatever they are;
    and a peer exchange with the peers added and dropped, for addresses in dotted form. *)
Theorem extension_roundtrip (size port p total : Z) (blk : list byte) (ps qs : list (byte * byte * byte * byte * Z)) :
  u32_ok size -> port_ok port -> u32_ok p -> u32_ok total ->
  Forall (fun p => port_ok p.2) ps -> Forall (fun p => port_ok p.2) qs ->
  exists hs rq rj da px,
    encode_handshake size port = Some hs /\ encode_metadata_request p = Some rq /\ encode_metadata_reject p = Some rj
    /\ encode_metadata_data p total blk = Some da /\ encode_pex (pex_of <$> ps) (pex_of <$> qs) = Ret (Some px)
    /\ (zlen hs < 2 ^ 60 -> decode_handshake hs = Some (mkExt kUtMetadataLocalId kUtPexLocalId size port))
    /\ (zlen px < 2 ^ 60 -> decode_pex px = Some (mkPexMessage (pex_of <$> ps) (pex_of <$> qs)))
    /\ forall fuel, zlen rq < 2 ^ 60 -> zlen rj < 2 ^ 60 -> zlen da < 2 ^ 60 ->
         2 * Z.max (zlen rq) (Z.max (zlen rj) (zlen da)) + 1 <= Z.of_nat fuel ->
         decode_metadata fuel rq = Some (Some (mkMetadata Request p 0 []))
         /\ decode_metadata fuel rj = Some (Some (mkMetadata Reject p 0 []))
         /\ decode_metadata fuel da = Some (Some (mkMetadata Data p total blk)).
Proof.
  intros Hs Hpt Hp Ht Hps Hqs. destruct (handshake_roundtrip size port Hs Hpt) as (hs & E1 & D1). destruct (pex_roundtrip ps qs Hps Hqs) as (px & E5 & D5).
  assert (forall n : Z, None = Some n -> u32_ok n) as Hnone by done.
  assert (forall n, Some total = Some n -> u32_ok n) as Hsome by (by intros n [= <-]).
  destruct (metadata_header Request p None ltac:(done) Hp Hnone) as (rq & E2 & _).
  destruct (metadata_header Reject p None ltac:(done) Hp Hnone) as (rj & E3 & _).
  destruct (metadata_header Data p (Some total) ltac:(done) Hp Hsome) as (da & E4 & _).
  exists hs, (encode rq), (encode rj), (encode da ++ blk), px. unfold encode_metadata_request, encode_metadata_reject, encode_metadata_data. rewrite E4.
  split_and!; [done..|]. intros fuel L1 L2 L3 Hf. split_and!.
  - by apply (decode_metadata_header Request p None [] _ _ ltac:(done) Hp Hnone E2); [by rewrite app_nil_r| |lia].
  - by apply (decode_metadata_header Reject p None [] _ _ ltac:(done) Hp Hnone E3); [by rewrite app_nil_r| |lia].
  - by apply (decode_metadata_header Data p (Some total) blk _ _ ltac:(done) Hp Hsome E4); [| |lia].
Qed.

Lemma extension_roundtrip_witness :
  u32_ok 40000 /\ exists hs rq rj da px,
    encode_handshake 40000 6881 = Some hs /\ encode_metadata_request 2 = Some rq /\ encode_metadata_reject 2 = Some rj
    /\ encode_metadata_data 2 40000 (lit "dead") = Some da /\ encode_pex (pex_of <$> [(x0a, x00, x00, x07, 6881)]) (pex_of <$> []) = Ret (Some px)
    /\ (zlen hs < 2 ^ 60 -> decode_handshake hs = Some (mkExt kUtMetadataLocalId kUtPexLocalId 40000 6881))
    /\ (zlen px < 2 ^ 60 -> decode_pex px = Some (mkPexMessage (pex_of <$> [(x0a, x00, x00, x07, 6881)]) (pex_of <$> [])))
    /\ forall fuel, zlen rq < 2 ^ 60 -> zlen rj < 2 ^ 60 -> zlen da < 2 ^ 60 ->
         2 * Z.max (zlen rq) (Z.max (zlen rj) (zlen da)) + 1 <= Z.of_nat fuel ->
         decode_metadata fuel rq = Some (Some (mkMetadata Request 2 0 []))
         /\ decode_metadata fuel rj = Some (Some (mkMetadata Reject 2 0 []))
         /\ decode_metadata fuel da = Some (Some (mkMetadata Data 2 40000 (lit "dead"))).
Proof.
  split; [done|]. apply (extension_roundtrip 40000 6881 2 40000 (lit "dead") [(x0a, x00, x00, x07, 6881)] []); [done..| |].
  - apply Forall_singleton. done.
  - apply Forall_nil_2.
Defined.

(** * A scan that does not end *)

(** A list whose one member claims a length that wraps the cursor around to the list itself. *)
Definition looping : list byte := lit "l18446744073709551594:".

Lemma looping_scan fuel :
  bencode_value_length fuel looping 0 = None
  /\ forall pos, items_length fuel looping pos 0 = None /\ items_length fuel looping pos 1 = None.
Proof.
  induction fuel as [|fuel [IHv IHi]]; [done|]. split.
  - cbn [bencode_value_length]. change (zlookup looping 0) with (Some x6c). cbn [bool_decide]. apply IHi.
  - intros pos. split; cbn [items_length].
    + change (zlookup looping 0) with (Some x6c). cbv iota. rewrite bool_decide_false by done. by rewrite IHv.
    + change (zlookup looping 1) with (Some x31). cbv iota. rewrite bool_decide_false by done. destruct fuel as [|fuel]; [done|].
      assert (bencode_value_length (S fuel) looping 1 = Some (2 ^ 64 - 1)) as -> by (cbn [bencode_value_length]; vm_compute; reflexivity).
      apply IHi.
Qed.

(** A metadata message of 22 bytes sends the scan for the end of its header round for ever:
    the length of a string is read without a bound, so that the cursor of the list around it
    wraps to the start of that list, which the scan enters again. *)
Theorem metadata_scan_diverges : zlen looping = 22 /\ forall fuel, decode_metadata fuel looping = None.
Proof. split; [done|]. intros fuel. unfold decode_metadata. by rewrite (proj1 (looping_scan fuel)). Qed.

End ext.
