(* ===== verification/InfoSpan.v ===== *)
(** The scanner of [bittorrent/torrent_info.cpp] that finds the bytes of the [info] value of a
    torrent file, and its agreement with the decoder of bencode.

    The cursor of the scanner is the rest of the buffer, of [n] bytes in all. The fuel of the
    scans is that of the decoder, two calls per byte ([find_info_span_total]). *)

From Stdlib Require Import Strings.String.
From S2P Require Import Prelude Text PeerId Address DhtId Bencode Krpc.
Import bencode.

Module info_span.

(** The digits in front of a colon; no more than the whole buffer. *)
Fixpoint capped (n len : Z) (ds : list byte) : option Z :=
  match ds with
  | [] => Some len
  | c :: ds =>
      let len := u64 (u64 (len * 10) + digit_val c) in
      if n <? len then None else capped n len ds
  end.

Definition read_bstring (n : Z) (p : list byte) : option (list byte * list byte) :=
  let ds := take_while (fun c => negb (bool_decide (c = x3a))) p in
  if negb (forallb is_digit ds) then None
  else match skip_while (fun c => negb (bool_decide (c = x3a))) p with
       | [] => None
       | _ :: rest =>
           if zlen ds =? 0 then None
           else
             len ← capped n 0 ds;
             if zlen rest <? len then None else Some (ztake len rest, zdrop len rest)
       end.

Fixpoint skip_value (fuel : nat) (n : Z) (p : list byte) : parsed unit :=
  match fuel with
  | O => OutOfFuel
  | S fuel =>
      match p with
      | [] => Malformed
      | c :: p' =>
          if bool_decide (c = x69) then
            match skip_while (fun c => negb (bool_decide (c = x65))) p' with
            | [] => Malformed
            | _ :: p => Parsed tt p
            end
          else if bool_decide (c = x6c) || bool_decide (c = x64) then skip_items fuel n p'
          else if is_digit c then
            match read_bstring n p with Some (_, p) => Parsed tt p | None => Malformed end
          else Malformed
      end
  end
(** The loop over the members of a list or dictionary. *)
with skip_items (fuel : nat) (n : Z) (p : list byte) : parsed unit :=
  match fuel with
  | O => OutOfFuel
  | S fuel =>
      match p with
      | [] => Malformed
      | c :: p' =>
          if bool_decide (c = x65) then Parsed tt p'
          else then_ (skip_value fuel n p) (fun _ p => skip_items fuel n p)
      end
  end.

(** The loop over the keys of the top dictionary. *)
Fixpoint info_loop (fuel : nat) (n : Z) (p : list byte) : parsed (Z * Z) :=
  match fuel with
  | O => OutOfFuel
  | S fuel =>
      match p with
      | [] => Malformed
      | c :: _ =>
          if bool_decide (c = x65) then Malformed
          else match read_bstring n p with
               | None => Malformed
               | Some (key, p1) =>
                   then_ (skip_value fuel n p1) (fun _ p2 =>
                     if bool_decide (key = lit "info") then Parsed (n - zlen p1, n - zlen p2) p2
                     else info_loop fuel n p2)
               end
      end
  end.

(** The first and the last position of the value, [None] if there is none. *)
Definition find_info_span (buf : list byte) : option (Z * Z) :=
  match expect x64 buf with
  | None => None
  | Some p => match info_loop (2 * length buf + 2) (zlen buf) p with Parsed span _ => Some span | _ => None end
  end.

(** * What the parts of the decoder read does not depend on what follows *)

Lemma len_loop_frame cap len p v p' :
  len_loop cap len p = Parsed v p' -> 0 <= len <= cap -> cap < 2 ^ 60 ->
  exists ds, p = ds ++ p' /\ Forall (fun c => is_digit c = true) ds
    /\ v = foldl (fun acc c => acc * 10 + digit_val c) len ds.
Proof.
  revert len. induction p as [|c p IH]; intros len; cbn [len_loop].
  { intros [= <- <-] _ _. by exists []. }
  destruct (is_digit c) eqn:Hc; [|intros [= <- <-] _ _; by exists []]. intros E Hl Hb.
  pose proof (proj1 (is_digit_range c) Hc). rewrite (u64_small (len * 10)), u64_small in E by lia.
  destruct (Z.ltb_spec cap (len * 10 + digit_val c)); [done|].
  apply IH in E as (ds & -> & Hd & ->); [|lia..]. exists (c :: ds). split_and!; [done|by constructor|done].
Qed.

Lemma mag_loop_frame mag p v p' :
  mag_loop mag p = Parsed v p' ->
  exists ds, p = ds ++ p' /\ Forall (fun c => is_digit c = true) ds
    /\ forall c r, is_digit c = false -> mag_loop mag (ds ++ c :: r) = Parsed v (c :: r).
Proof.
  revert mag. induction p as [|c p IH]; intros mag; cbn [mag_loop].
  { intros [= <- <-]. exists []. split_and!; [done..|]. intros c r Hc. cbn. by rewrite Hc. }
  destruct (is_digit c) eqn:Hc.
  - destruct (_ <? mag) eqn:Em; [done|]. intros (ds & -> & Hd & Hr)%IH. exists (c :: ds).
    split_and!; [done|by constructor|]. intros c' r Hc'. cbn [app mag_loop]. rewrite Hc, Em. by apply Hr.
  - intros [= <- <-]. exists []. split_and!; [done..|]. intros c' r Hc'. cbn. by rewrite Hc'.
Qed.

(** A string: its length in digits, a colon and its bytes. *)
Definition string_at (q s : list byte) : Prop :=
  exists c ds, q = (c :: ds) ++ x3a :: s /\ Forall (fun c => is_digit c = true) (c :: ds) /\ digits_val (c :: ds) = zlen s.

Lemma string_frame p s p' :
  parse_raw_string p = Parsed s p' -> zlen p < 2 ^ 60 -> exists q, p = q ++ p' /\ string_at q s.
Proof.
  intros E Hlen. unfold parse_raw_string in E. destruct p as [|c p]; [done|]. destruct (is_digit c) eqn:Hc; [|done]. cbn [negb] in E.
  destruct (len_loop _ 0 (c :: p)) as [len p1| |] eqn:El; cbn [then_] in E; [|done..].
  destruct (expect x3a p1) as [p2|] eqn:Ex; [|done]. apply expect_Some in Ex as ->.
  apply len_loop_frame in El as (ds & Ep & Hd & Ev); [|zlen_facts; lia|done].
  destruct (Z.ltb_spec (zlen p2) len); [done|]. injection E as <- <-.
  destruct ds as [|c' ds]; [injection Ep as -> _; done|]. injection Ep as -> ->.
  assert (0 <= len) by (subst len; by apply digits_val_ge).
  exists ((c' :: ds) ++ x3a :: ztake len p2). split; [rewrite <- app_assoc; cbn; by rewrite ztake_zdrop|].
  exists c', ds. split_and!; [done..|]. rewrite zlen_ztake by lia. by rewrite Ev.
Qed.

Lemma string_read q s r : string_at q s -> zlen (q ++ r) < 2 ^ 60 -> parse_raw_string (q ++ r) = Parsed s r.
Proof.
  intros (c & ds & -> & Hd & Hv) Hlen. unfold parse_raw_string. rewrite <- app_assoc in *. cbn [app] in *.
  rewrite (proj1 (Forall_cons_1 _ _ _ Hd)). cbn [negb].
  change (c :: ds ++ x3a :: s ++ r) with ((c :: ds) ++ x3a :: s ++ r) in *.
  rewrite len_loop_digits; [|done|done|lia|fold (digits_val (c :: ds)); rewrite Hv; zlia|done].
  fold (digits_val (c :: ds)). rewrite Hv. cbn [then_]. rewrite (proj2 (expect_Some x3a (x3a :: s ++ r) (s ++ r)) eq_refl).
  destruct (Z.ltb_spec (zlen (s ++ r)) (zlen s)); [rewrite zlen_app in *; zlen_facts; lia|]. by rewrite ztake_app, zdrop_app.
Qed.

Lemma capped_digits n len ds :
  Forall (fun c => is_digit c = true) ds -> 0 <= len -> foldl (fun acc c => acc * 10 + digit_val c) len ds <= n -> n < 2 ^ 60 ->
  capped n len ds = Some (foldl (fun acc c => acc * 10 + digit_val c) len ds).
Proof.
  intros Hd. revert len. induction Hd as [|x ds Hx Hd IH]; intros len Hl Hv Hn; cbn [capped foldl] in *; [done|].
  apply is_digit_range in Hx. pose proof (digits_val_ge (len * 10 + digit_val x) ds Hd ltac:(lia)).
  rewrite (u64_small (len * 10)), u64_small by lia. destruct (Z.ltb_spec n (len * 10 + digit_val x)); [lia|]. apply IH; lia.
Qed.

Lemma string_scan n q s r : string_at q s -> zlen (q ++ r) <= n < 2 ^ 60 -> read_bstring n (q ++ r) = Some (s, r).
Proof.
  intros (c & ds & -> & Hd & Hv) Hlen. unfold read_bstring. rewrite <- app_assoc in *. cbn [app] in *.
  change (c :: ds ++ x3a :: s ++ r) with ((c :: ds) ++ x3a :: s ++ r) in *.
  destruct (take_while_app (fun c => negb (bool_decide (c = x3a))) (c :: ds) x3a (s ++ r)) as [-> ->].
  { eapply Forall_impl; [exact Hd|]. cbn. intros x Hx. rewrite bool_decide_false; [done|]. by intros ->. }
  { by rewrite bool_decide_true. }
  rewrite (proj2 (forallb_forall is_digit (c :: ds))) by (intros x Hx; rewrite Forall_forall in Hd; apply Hd; by apply list_elem_of_In).
  cbn [negb]. rewrite zlen_cons. destruct (Z.eqb_spec (1 + zlen ds) 0); [zlen_facts; lia|].
  rewrite !zlen_app, !zlen_cons, zlen_app in Hlen. fold (digits_val (c :: ds)) in Hv.
  rewrite capped_digits; [|done|lia|fold (digits_val (c :: ds)); rewrite Hv; zlen_facts; lia|lia]. fold (digits_val (c :: ds)). rewrite Hv. cbn [mbind option_bind].
  destruct (Z.ltb_spec (zlen (s ++ r)) (zlen s)); [rewrite zlen_app in *; zlen_facts; lia|]. by rewrite ztake_app, zdrop_app.
Qed.

(** An integer after its [i]: up to the first [e]. *)
Definition int_at (q : list byte) (z : Z) : Prop :=
  exists body, q = body ++ [x65] /\ Forall (fun c => c <> x65) body /\ forall r, parse_raw_int x65 (q ++ r) = Parsed z r.

Lemma digits_not_e ds : Forall (fun c => is_digit c = true) ds -> Forall (fun c => c <> x65) ds.
Proof. intros H. eapply Forall_impl; [exact H|]. cbn. by intros c Hc ->. Qed.

(** The magnitude, after the sign. *)
Lemma magnitude_frame (neg : bool) p z p' :
  match p with
  | [] => Malformed
  | c :: p1 =>
      if negb (is_digit c) then Malformed
      else if bool_decide (c = x30) then
        if neg then Malformed else match expect x65 p1 with Some p => Parsed 0 p | None => Malformed end
      else
        then_ (mag_loop 0 p) (fun mag p =>
          match expect x65 p with
          | None => Malformed
          | Some p => if neg then Parsed (- mag) p else if kMaxMag <=? mag then Malformed else Parsed mag p
          end)
  end = Parsed z p' ->
  exists c ds, p = (c :: ds) ++ x65 :: p' /\ Forall (fun c => is_digit c = true) (c :: ds)
    /\ if bool_decide (c = x30) then neg = false /\ ds = [] /\ z = 0
       else exists mag, (forall r, mag_loop 0 ((c :: ds) ++ x65 :: r) = Parsed mag (x65 :: r))
              /\ if neg then z = - mag else (kMaxMag <=? mag) = false /\ z = mag.
Proof.
  destruct p as [|c p1]; [done|]. destruct (is_digit c) eqn:Hc; [|done]. cbn [negb]. case_bool_decide as E0.
  - destruct neg; [done|]. destruct (expect x65 p1) as [q|] eqn:Ex; [|done]. apply expect_Some in Ex as ->. intros [= <- <-].
    exists c, []. rewrite bool_decide_true by done. split_and!; [done| |done..]. by apply Forall_singleton.
  - destruct (mag_loop 0 (c :: p1)) as [mag p2| |] eqn:Em; cbn [then_]; [|done..].
    destruct (expect x65 p2) as [q|] eqn:Ex; [|done]. apply expect_Some in Ex as ->.
    apply mag_loop_frame in Em as (ds & Ep & Hd & Hr).
    destruct ds as [|c' ds]; [injection Ep as -> _; done|]. injection Ep as -> ->. intros E. exists c', ds.
    rewrite bool_decide_false by done. destruct neg; [injection E as <- <-|destruct (kMaxMag <=? mag) eqn:Ek; [done|injection E as <- <-]];
      (split_and!; [done..|]; exists mag; split; [|done]); intros r; by apply Hr.
Qed.

Lemma int_frame p z p' : parse_raw_int x65 p = Parsed z p' -> exists q, p = q ++ p' /\ int_at q z.
Proof.
  unfold parse_raw_int. intros E.
  assert (exists sign (neg : bool) p0, p = sign ++ p0 /\ Forall (fun c => c <> x65) sign
    /\ match expect x2d p with Some p => (true, p) | None => (false, p) end = (neg, p0)
    /\ forall c ds r, is_digit c = true -> match expect x2d (sign ++ (c :: ds) ++ x65 :: r) with Some p => (true, p) | None => (false, sign ++ (c :: ds) ++ x65 :: r) end
                    = (neg, (c :: ds) ++ x65 :: r)) as (sign & neg & p0 & -> & Hs & E1 & E2).
  { destruct (expect x2d p) as [p1|] eqn:Ex.
    - apply expect_Some in Ex as ->. exists [x2d], true, p1. split_and!; [done|by apply Forall_singleton|done|]. intros c ds r _. cbn [app].
      by rewrite (proj2 (expect_Some x2d (x2d :: c :: ds ++ x65 :: r) (c :: ds ++ x65 :: r)) eq_refl).
    - exists [], false, p. split_and!; [done|by apply Forall_nil|done|]. intros c ds r Hc. cbn [app].
      destruct (expect x2d (c :: ds ++ x65 :: r)) as [q|] eqn:Eq; [|done]. apply expect_Some in Eq. injection Eq as -> _. done. }
  rewrite E1 in E. apply magnitude_frame in E as (c & ds & -> & Hd & Hv). exists (sign ++ (c :: ds) ++ [x65]).
  split; [by rewrite <- !app_assoc|]. exists (sign ++ (c :: ds)). split_and!.
  - by rewrite <- app_assoc.
  - apply Forall_app. split; [done|]. by apply digits_not_e.
  - intros r. unfold parse_raw_int. rewrite <- !app_assoc. change ([x65] ++ r) with (x65 :: r).
    assert (is_digit c = true) as Hc by (by apply Forall_cons in Hd as [? _]). rewrite E2 by done.
    cbn [app]. rewrite Hc. cbn [negb]. assert (expect x65 (x65 :: r) = Some r) as Ex by (by apply expect_Some). case_bool_decide.
    + destruct Hv as (-> & -> & ->). cbn [app]. by rewrite Ex.
    + destruct Hv as (mag & Hm & Hz). specialize (Hm r). cbn [app] in Hm. rewrite Hm. cbn [then_]. rewrite Ex.
      destruct neg; [by subst z|]. destruct Hz as [-> ->]. done.
Qed.

(** ** Values

    The bytes [q] are read as [v], by the decoder at this depth or above and by the scanner,
    whatever follows them. *)

Definition runs {A} (q : list byte) (extra : Z) (v : A) (depth : Z) (read : nat -> Z -> list byte -> parsed A)
    (skip : nat -> Z -> list byte -> parsed unit) : Prop :=
  forall r fuel d, d <= depth -> 2 * zlen q + extra <= Z.of_nat fuel -> zlen (q ++ r) < 2 ^ 60 ->
    read fuel d (q ++ r) = Parsed v r /\ forall n, zlen (q ++ r) <= n < 2 ^ 60 -> skip fuel n (q ++ r) = Parsed tt r.

Definition value_at depth q v : Prop := runs q 1 v depth parse skip_value.
Definition list_at depth q l : Prop :=
  forall f, 2 * zlen q + 1 <= Z.of_nat f -> runs q 2 l depth (fun fuel d => list_loop (parse f (d + 1)) fuel) skip_items.
Definition dict_at depth q d : Prop :=
  forall f, 2 * zlen q + 1 <= Z.of_nat f -> runs q 2 d depth (fun fuel d => dict_loop (parse f (d + 1)) fuel) skip_items.

Lemma value_head depth q v : zlen q < 2 ^ 60 -> value_at depth q v -> exists c t, q = c :: t /\ c <> x65.
Proof.
  intros Hlen H. destruct (H [] (Z.to_nat (2 * zlen q + 1)) depth) as [E _]; [lia|lia|by rewrite app_nil_r|]. rewrite app_nil_r in E.
  assert (exists f, Z.to_nat (2 * zlen q + 1) = S f) as [f Ef] by (exists (Z.to_nat (2 * zlen q)); zlen_facts; lia). rewrite Ef in E.
  destruct q as [|c t]; [done|]. exists c, t. split; [done|]. intros ->. cbn [parse] in E. by destruct (kMaxDepth <? depth).
Qed.

Lemma list_at_nil depth : list_at depth [x65] [] /\ dict_at depth [x65] [].
Proof. split; intros f _ r [|fuel] d Hd Hf Hlen; (cbn in Hf; lia) || done. Qed.

Lemma list_at_cons depth q1 v q2 l :
  zlen q1 < 2 ^ 60 -> value_at (depth + 1) q1 v -> list_at depth q2 l -> list_at depth (q1 ++ q2) (v :: l).
Proof.
  intros L1 H1 H2 f Hf0 r fuel d Hd Hf Hlen. destruct (value_head _ _ _ L1 H1) as (c & t & Eq & Hc).
  assert (1 <= zlen q1) by (subst q1; zlia). rewrite zlen_app in Hf, Hf0. destruct fuel as [|fuel]; [zlen_facts; lia|]. rewrite <- app_assoc in *.
  destruct (H1 (q2 ++ r) fuel (d + 1)) as [_ S1]; [lia|zlen_facts; lia|done|].
  destruct (H1 (q2 ++ r) f (d + 1)) as [P1 _]; [lia|zlen_facts; lia|done|].
  destruct (H2 f ltac:(zlen_facts; lia) r fuel d) as [P2 S2]; [lia|lia|rewrite zlen_app in Hlen; zlen_facts; lia|].
  split; [|intros n Hn]; cbn [list_loop skip_items]; rewrite Eq at 1; cbn [app]; rewrite bool_decide_false by done.
  - rewrite P1. cbn [then_]. by rewrite P2.
  - rewrite S1 by done. cbn [then_]. apply S2. rewrite zlen_app in Hn. zlen_facts. lia.
Qed.

Lemma string_head q s : string_at q s -> exists c t, q = c :: t /\ is_digit c = true /\ 2 <= zlen q.
Proof.
  intros (c & ds & -> & Hd & _). exists c, (ds ++ x3a :: s). apply Forall_cons in Hd as [Hc _]. split_and!; [done..|]. zlia.
Qed.

Lemma skip_string fuel n q s r :
  string_at q s -> zlen (q ++ r) <= n < 2 ^ 60 -> skip_value (S fuel) n (q ++ r) = Parsed tt r.
Proof.
  intros H Hn. pose proof (string_scan n q s r H Hn) as Es. destruct (string_head q s H) as (c & t & -> & Hc & _). cbn [app skip_value] in *.
  rewrite !bool_decide_false by (intros ->; done). cbn [orb]. rewrite Hc. by rewrite Es.
Qed.

Lemma dict_at_cons depth q0 k q1 v q2 d :
  zlen q1 < 2 ^ 60 -> string_at q0 k -> value_at (depth + 1) q1 v -> dict_at depth q2 d -> dict_at depth (q0 ++ q1 ++ q2) ((k, v) :: d).
Proof.
  intros L1 H0 H1 H2 f Hf0 r fuel dp Hd Hf Hlen. destruct (string_head _ _ H0) as (c0 & t0 & Eq0 & Hc0 & Hl0).
  destruct (value_head _ _ _ L1 H1) as (c & t & Eq & Hc). assert (1 <= zlen q1) by (subst q1; zlia). rewrite !zlen_app in Hf, Hf0.
  destruct fuel as [|[|fuel]]; [zlen_facts; lia..|]. rewrite <- !app_assoc in *. rewrite !zlen_app in Hlen.
  destruct (H1 (q2 ++ r) f (dp + 1)) as [P1 _]; [lia|zlen_facts; lia|rewrite !zlen_app; zlen_facts; lia|].
  destruct (H1 (q2 ++ r) fuel (dp + 1)) as [_ S1]; [lia|zlen_facts; lia|rewrite !zlen_app; zlen_facts; lia|].
  destruct (H2 f ltac:(zlen_facts; lia) r (S fuel) dp) as [P2 _]; [lia|zlen_facts; lia|rewrite zlen_app; zlen_facts; lia|].
  destruct (H2 f ltac:(zlen_facts; lia) r fuel dp) as [_ S2]; [lia|zlen_facts; lia|rewrite zlen_app; zlen_facts; lia|].
  assert (c0 <> x65) as Hne by (by intros ->). split.
  - clear S1 S2. set (f1 := S fuel) in *. clearbody f1. cbn [dict_loop]. rewrite Eq0 at 1. cbn [app]. rewrite bool_decide_false by done.
    rewrite (string_read q0 k) by (done || rewrite !zlen_app; lia). cbn [then_]. rewrite P1. cbn [then_]. by rewrite P2.
  - intros n Hn. rewrite !zlen_app in Hn. cbn [skip_items]. rewrite Eq0 at 1. cbn [app]. rewrite bool_decide_false by done.
    rewrite (skip_string fuel n q0 k) by (done || rewrite !zlen_app; lia). cbn [then_]. rewrite Eq at 1. cbn [app].
    rewrite bool_decide_false by done. rewrite S1 by (rewrite !zlen_app; zlen_facts; lia). cbn [then_]. apply S2. rewrite zlen_app. zlen_facts. lia.
Qed.

Lemma value_at_int depth q z : depth <= kMaxDepth -> int_at q z -> value_at depth (x69 :: q) (Integer z).
Proof.
  intros Hk (body & -> & Hb & Hr) r fuel d Hd Hf Hlen. destruct fuel as [|fuel]; [zlen_facts; lia|]. cbn [app parse skip_value].
  destruct (Z.ltb_spec kMaxDepth d); [lia|]. rewrite !bool_decide_true by done. split.
  - unfold parse_integer. cbn [tail]. by rewrite Hr.
  - intros n _. rewrite <- app_assoc. cbn [app]. destruct (take_while_app (fun c => negb (bool_decide (c = x65))) body x65 r) as [_ ->]; [| |done].
    + eapply Forall_impl; [exact Hb|]. cbn. intros x Hx. by rewrite bool_decide_false.
    + by rewrite bool_decide_true.
Qed.

Lemma value_at_string depth q s : depth <= kMaxDepth -> string_at q s -> value_at depth q (String s).
Proof.
  intros Hk H r fuel d Hd Hf Hlen. destruct fuel as [|fuel]; [zlen_facts; lia|]. split; [|intros n Hn; by apply (skip_string fuel n q s)].
  pose proof (string_read q s r H Hlen) as Er. destruct (string_head q s H) as (c & t & -> & Hc & _). cbn [app parse] in *.
  destruct (Z.ltb_spec kMaxDepth d); [lia|]. rewrite !bool_decide_false by (intros ->; done). rewrite Hc. unfold parse_string. by rewrite Er.
Qed.

Lemma value_at_list depth q l : depth <= kMaxDepth -> list_at depth q l -> value_at depth (x6c :: q) (List l).
Proof.
  intros Hk H r fuel d Hd Hf Hlen. destruct fuel as [|fuel]; [zlen_facts; lia|]. cbn [app] in *. rewrite zlen_cons in *.
  destruct (H fuel ltac:(lia) r fuel d) as [P S]; [lia..|]. cbn [parse skip_value]. destruct (Z.ltb_spec kMaxDepth d); [lia|].
  rewrite bool_decide_false, bool_decide_true by done. cbn [orb]. unfold parse_list. cbn [tail].
  split; [by rewrite P|]. intros n Hn. apply S. lia.
Qed.

Lemma value_at_dict depth q d :
  depth <= kMaxDepth -> adjacent_dup (stable_sort d) = false -> dict_at depth q d -> value_at depth (x64 :: q) (Dictionary (stable_sort d)).
Proof.
  intros Hk Ha H r fuel dp Hd Hf Hlen. destruct fuel as [|fuel]; [zlen_facts; lia|]. cbn [app] in *. rewrite zlen_cons in *.
  destruct (H fuel ltac:(lia) r fuel dp) as [P S]; [lia..|]. cbn [parse skip_value]. destruct (Z.ltb_spec kMaxDepth dp); [lia|].
  rewrite !(bool_decide_false (x64 = _)), bool_decide_true by done. cbn [orb]. unfold parse_dict. cbn [tail].
  split; [rewrite P; cbn [then_]; by rewrite Ha|]. intros n Hn. apply S. lia.
Qed.

(** What was consumed. *)
Definition framed {A} (p : list byte) (r : parsed A) (at_ : list byte -> A -> Prop) : Prop :=
  match r with Parsed v p' => exists q, p = q ++ p' /\ at_ q v | _ => True end.

Lemma loops_framed value depth fuel :
  (forall p, zlen p < 2 ^ 60 -> framed p (value p) (value_at (depth + 1))) ->
  (forall p, zlen p < 2 ^ 60 -> framed p (list_loop value fuel p) (list_at depth))
  /\ (forall p, zlen p < 2 ^ 60 -> framed p (dict_loop value fuel p) (dict_at depth)).
Proof.
  intros Hv. induction fuel as [|fuel [IHl IHd]]; [done|]. split; intros p Hlen; destruct p as [|c p]; cbn [list_loop dict_loop]; try done.
  - case_bool_decide as E1; [subst c; exists [x65]; split; [done|apply list_at_nil]|].
    pose proof (Hv (c :: p) Hlen) as H1. destruct (value (c :: p)) as [v p1| |]; cbn [then_ framed] in *; [|done..].
    destruct H1 as (q1 & E & H1). rewrite E, zlen_app in Hlen.
    pose proof (IHl p1 ltac:(zlen_facts; lia)) as H2. destruct (list_loop value fuel p1) as [l p2| |]; cbn [then_ framed] in *; [|done..].
    destruct H2 as (q2 & -> & H2). exists (q1 ++ q2). split; [by rewrite <- app_assoc|]. apply list_at_cons; [zlen_facts; lia|done..].
  - case_bool_decide as E1; [subst c; exists [x65]; split; [done|apply list_at_nil]|].
    destruct (parse_raw_string (c :: p)) as [k p0| |] eqn:E0; cbn [then_ framed] in *; [|done..]. apply string_frame in E0 as (q0 & E0 & H0); [|done].
    rewrite E0, zlen_app in Hlen. pose proof (Hv p0 ltac:(zlen_facts; lia)) as H1.
    destruct (value p0) as [v p1| |]; cbn [then_ framed] in *; [|done..]. destruct H1 as (q1 & -> & H1). rewrite zlen_app in Hlen.
    pose proof (IHd p1 ltac:(zlen_facts; lia)) as H2. destruct (dict_loop value fuel p1) as [d p2| |]; cbn [then_ framed] in *; [|done..].
    destruct H2 as (q2 & -> & H2). exists (q0 ++ q1 ++ q2). split; [rewrite E0; by rewrite <- !app_assoc|]. apply dict_at_cons; [zlen_facts; lia|done..].
Qed.

Lemma parse_framed fuel depth p : zlen p < 2 ^ 60 -> framed p (parse fuel depth p) (value_at depth).
Proof.
  revert depth p. induction fuel as [|fuel IH]; [done|]. intros depth p Hlen.
  destruct (loops_framed (parse fuel (depth + 1)) depth fuel (IH (depth + 1))) as [IHl IHd].
  destruct p as [|c p]; cbn [parse]; [done|]. assert (zlen p < 2 ^ 60) as Hp by (rewrite zlen_cons in Hlen; lia).
  destruct (Z.ltb_spec kMaxDepth depth) as [|Hk]; [done|]. case_bool_decide as E1; [subst c|case_bool_decide as E2; [subst c|case_bool_decide as E3; [subst c|]]].
  - unfold parse_integer. cbn [tail]. destruct (parse_raw_int x65 p) as [z p'| |] eqn:E; cbn [then_ framed]; [|done..].
    apply int_frame in E as (q & -> & H). exists (x69 :: q). split; [done|by apply value_at_int].
  - unfold parse_list. cbn [tail]. specialize (IHl p Hp). destruct (list_loop _ fuel p) as [l p'| |]; cbn [then_ framed] in *; [|done..].
    destruct IHl as (q & -> & H). exists (x6c :: q). split; [done|by apply value_at_list].
  - unfold parse_dict. cbn [tail]. specialize (IHd p Hp). destruct (dict_loop _ fuel p) as [d p'| |]; cbn [then_ framed] in *; [|done..].
    destruct (adjacent_dup (stable_sort d)) eqn:Ea; [done|]. destruct IHd as (q & -> & H). exists (x64 :: q). split; [done|by apply value_at_dict].
  - destruct (is_digit c); [|done]. unfold parse_string. destruct (parse_raw_string (c :: p)) as [s p'| |] eqn:E; cbn [then_ framed]; [|done..].
    apply string_frame in E as (q & E & H); [|done]. exists q. split; [done|by apply value_at_string].
Qed.

(** * The scanner and the decoder agree *)

Lemma info_loop_framed f fuel : forall depth p d p' (pre : list byte) F n,
  dict_loop (parse f (depth + 1)) fuel p = Parsed d p' -> n = zlen pre + zlen p -> n < 2 ^ 60 -> 2 * zlen p + 2 <= Z.of_nat F ->
  (exists v q0 q post, p = q0 ++ q ++ post /\ (lit "info", v) ∈ d /\ value_at (depth + 1) q v
     /\ info_loop F n p = Parsed (zlen pre + zlen q0, zlen pre + zlen q0 + zlen q) post)
  \/ (Forall (fun e => e.1 <> lit "info") d /\ info_loop F n p = Malformed).
Proof.
  induction fuel as [|fuel IH]; [done|]. intros depth p d p' pre F n E En Hn HF. destruct F as [|F]; [zlen_facts; lia|].
  destruct p as [|c p]; [done|]. cbn [dict_loop info_loop] in *. case_bool_decide as Ec; [injection E as <- <-; right; split; [constructor|done]|].
  destruct (parse_raw_string (c :: p)) as [k p0| |] eqn:E0; cbn [then_] in E; [|done..].
  pose proof (zlen_nonneg pre). apply string_frame in E0 as (q0 & E0 & H0); [|lia]. rewrite E0 in *. rewrite zlen_app in En, HF.
  destruct (string_head q0 k H0) as (_ & _ & _ & _ & Hl0).
  pose proof (parse_framed f (depth + 1) p0 ltac:(zlen_facts; lia)) as H1.
  destruct (parse f (depth + 1) p0) as [v p1| |]; cbn [then_ framed] in *; [|done..]. destruct H1 as (q1 & -> & H1). rewrite zlen_app in En, HF.
  destruct (dict_loop _ fuel p1) as [d1 p2| |] eqn:E2; cbn [then_] in E; [|done..]. injection E as <- <-.
  rewrite (string_scan n q0 k) by (done || rewrite !zlen_app; zlen_facts; lia).
  destruct (H1 p1 F (depth + 1)) as [_ S1]; [lia|zlen_facts; lia|rewrite zlen_app; zlen_facts; lia|].
  rewrite S1 by (rewrite zlen_app; zlen_facts; lia). cbn [then_]. rewrite zlen_app. case_bool_decide as Ek.
  - left. exists v, q0, q1, p1. split_and!; [done|subst k; apply list_elem_of_here|done|]. f_equal. f_equal; lia.
  - destruct (IH depth p1 d1 p2 (pre ++ q0 ++ q1) F n E2) as [(v' & q0' & q & post & -> & Hin & Hv & E)|[Hall E]];
      [rewrite !zlen_app; lia|lia|zlen_facts; lia| |].
    + left. exists v', (q0 ++ q1 ++ q0'), q, post. split_and!; [by rewrite <- !app_assoc|by apply list_elem_of_further|done|]. rewrite E, !zlen_app. f_equal. f_equal; lia.
    + right. split; [by constructor|done].
Qed.

Lemma value_decode q v : zlen q < 2 ^ 60 -> value_at 1 q v -> decode_full q = Some v.
Proof.
  intros Hlen H. destruct (H [] (2 * length q + 2)%nat 0) as [E _]; [lia|unfold zlen; lia|by rewrite app_nil_r|]. rewrite app_nil_r in E.
  unfold decode_full. by rewrite E.
Qed.

(** What is inside a dictionary that was decoded. *)
Lemma decode_dict data d :
  decode_full data = Some (Dictionary d) ->
  exists p d0, data = x64 :: p /\ dict_loop (parse (2 * length data + 1) (0 + 1)) (2 * length data + 1) p = Parsed d0 [] /\ d = stable_sort d0 /\ sorted_keys d.
Proof.
  unfold decode_full. replace (2 * length data + 2)%nat with (S (2 * length data + 1)) by lia. set (fuel := (2 * length data + 1)%nat). clearbody fuel.
  destruct data as [|c p]; [done|]. cbn [parse]. change (kMaxDepth <? 0) with false. cbv iota. case_bool_decide; [|case_bool_decide; [|case_bool_decide as Ec]].
  - unfold parse_integer. destruct (parse_raw_int _ _) as [? [|]| |]; intros E; inversion E.
  - unfold parse_list. destruct (list_loop _ _ _) as [? [|]| |]; intros E; inversion E.
  - unfold parse_dict. cbn [tail]. destruct (dict_loop _ fuel p) as [d0 p'| |] eqn:E; cbn [then_]; [|done..]. destruct (adjacent_dup (stable_sort d0)) eqn:Ea; [done|].
    destruct p' as [|]; [|done]. intros [= <-]. subst c. exists p, d0. split_and!; [done..|]. apply adjacent_dup_sorted; [apply stable_sort_sorted|done].
  - destruct (is_digit c); [|done]. unfold parse_string. destruct (parse_raw_string _) as [? [|]| |]; intros E; inversion E.
Qed.

Lemma span_agrees (data : list byte) (d : BencodeDict) :
  zlen data < 2 ^ 60 -> decode_full data = Some (Dictionary d) ->
  match find (lit "info") (Dictionary d) with
  | Some v => exists pre q post, data = pre ++ q ++ post /\ find_info_span data = Some (zlen pre, zlen pre + zlen q) /\ decode_full q = Some v
  | None => find_info_span data = None
  end.
Proof.
  intros Hlen (p & d0 & -> & E & -> & Hs)%decode_dict. unfold find_info_span. rewrite (proj2 (expect_Some x64 (x64 :: p) p) eq_refl).
  rewrite zlen_cons in *. destruct (info_loop_framed _ _ _ _ _ _ [x64] (2 * length (x64 :: p) + 2) (1 + zlen p) E) as
    [(v & q0 & q & post & -> & Hin & Hv & ->)|[Hall ->]]; [done|lia|unfold zlen; cbn [length]; lia| |].
  - rewrite <- (stable_sort_perm d0) in Hin. rewrite (proj2 (find_elem (lit "info") (stable_sort d0) v Hs) Hin).
    exists (x64 :: q0), q, post. split_and!; [done|do 2 f_equal; zlia|]. apply value_decode; [rewrite !zlen_app in Hlen; zlen_facts; lia|done].
  - destruct (find (lit "info") (Dictionary (stable_sort d0))) as [v|] eqn:Ef; [|done]. apply find_elem in Ef; [|done].
    rewrite stable_sort_perm in Ef. rewrite Forall_forall in Hall. by destruct (Hall _ Ef).
Qed.

(** * The scanner ends, whatever the bytes *)

Lemma skip_while_le f p : zlen (skip_while f p) <= zlen p.
Proof. induction p as [|c p IH]; cbn [skip_while]; [done|]. destruct (f c); zlia. Qed.

Lemma capped_nonneg n len ds v : 0 <= len -> capped n len ds = Some v -> 0 <= v.
Proof.
  revert len. induction ds as [|c ds IH]; intros len Hl; cbn [capped]; [by intros [= <-]|]. destruct (_ <? _); [done|].
  apply IH. apply Z.mod_pos_bound. lia.
Qed.

Lemma read_bstring_shrinks n p s p' : read_bstring n p = Some (s, p') -> zlen p' + 1 <= zlen p.
Proof.
  unfold read_bstring. destruct (negb _); [done|]. pose proof (skip_while_le (fun c => negb (bool_decide (c = x3a))) p) as Hs.
  destruct (skip_while _ p) as [|c rest]; [done|]. destruct (_ =? 0); [done|]. destruct (capped n 0 _) as [len|] eqn:E; cbn [mbind option_bind]; [|done].
  apply capped_nonneg in E; [|done]. destruct (Z.ltb_spec (zlen rest) len); [done|]. intros [= _ <-]. rewrite zlen_cons in Hs. rewrite zlen_zdrop by lia. lia.
Qed.

Lemma skip_consumes fuel n :
  (forall p, 2 * zlen p + 1 <= Z.of_nat fuel -> consumes p true (skip_value fuel n p))
  /\ (forall p, 2 * zlen p + 2 <= Z.of_nat fuel -> consumes p true (skip_items fuel n p)).
Proof.
  induction fuel as [|fuel [IHv IHi]]; [split; intros p Hf; zlen_facts; lia|].
  split; intros [|c p] Hf; cbn [skip_value skip_items]; try done; rewrite zlen_cons in Hf.
  - case_bool_decide.
    { pose proof (skip_while_le (fun c => negb (bool_decide (c = x65))) p). destruct (skip_while _ p) as [|c' p']; cbn [consumes]; [done|]. zlia. }
    destruct (_ || _). { specialize (IHi p ltac:(lia)). destruct (skip_items fuel n p); cbn [consumes] in *; [zlia|done..]. }
    destruct (is_digit c); [|done]. destruct (read_bstring n (c :: p)) as [[s p']|] eqn:E; [|done]. by apply read_bstring_shrinks in E.
  - case_bool_decide; [cbn [consumes]; zlia|]. eapply consumes_then; [apply IHv; rewrite zlen_cons; lia|]. intros [] p' Hp'. rewrite zlen_cons in Hp'.
    specialize (IHi p' ltac:(lia)). destruct (skip_items fuel n p'); cbn [consumes] in *; [zlia|done..].
Qed.

Lemma info_loop_total fuel n p : 2 * zlen p + 2 <= Z.of_nat fuel -> info_loop fuel n p <> OutOfFuel.
Proof.
  revert p. induction fuel as [|fuel IH]; intros p Hf; [zlen_facts; lia|]. cbn [info_loop]. destruct p as [|c p]; [done|]. case_bool_decide; [done|].
  destruct (read_bstring n (c :: p)) as [[k p1]|] eqn:E; [|done]. apply read_bstring_shrinks in E.
  pose proof (proj1 (skip_consumes fuel n) p1 ltac:(lia)) as H1. destruct (skip_value fuel n p1) as [[] p2| |]; cbn [then_ consumes] in *; [|done..].
  case_bool_decide; [done|]. apply IH. lia.
Qed.

Lemma find_info_span_total buf p : expect x64 buf = Some p -> info_loop (2 * length buf + 2) (zlen buf) p <> OutOfFuel.
Proof. intros ->%expect_Some. apply info_loop_total. unfold zlen. cbn [length]. lia. Qed.

End info_span.
