(* ===== verification/Magnet.v ===== *)
(** Magnet links ([bittorrent/magnet_uri.{h,cpp}]) and the hexadecimal form of an info-hash
    ([bittorrent/types.cpp]). The classes of characters are those of the C locale. *)

From Stdlib Require Import Strings.String.
From S2P Require Import Prelude Text PeerId Address DhtId Bencode Krpc.

Module magnet.

Definition kInfoHashSize : Z := 20.

(** * Hexadecimal *)

Definition to_hex (id : list byte) : list byte := peer_id.to_hex id.

(** The lambda [nibble], -1 for another character. *)
Definition nibble (c : byte) : Z :=
  let v := u8 c in
  if (48 <=? v) && (v <=? 57) then v - 48
  else if (97 <=? v) && (v <=? 102) then v - 97 + 10
  else if (65 <=? v) && (v <=? 70) then v - 65 + 10
  else -1.

(** The loop of [info_hash_from_hex], two characters at a time. *)
Fixpoint hex_pairs (hex : list byte) : option (list byte) :=
  match hex with
  | [] => Some []
  | h :: l :: hex =>
      let hi := nibble h in
      let lo := nibble l in
      if (hi <? 0) || (lo <? 0) then None
      else rest ← hex_pairs hex; Some (byte_of (Z.lor (Z.shiftl hi 4) lo) :: rest)
  | _ => None
  end.
Definition info_hash_from_hex (hex : list byte) : option (list byte) :=
  if zlen hex =? kInfoHashSize * 2 then hex_pairs hex else None.

Definition is_all_zero (id : list byte) : bool := forallb (fun b => u8 b =? 0) id.

(** * Percent and base32 decoding *)

Fixpoint url_decode (s : list byte) : list byte :=
  match s with
  | [] => []
  | c :: s' =>
      if bool_decide (c = x25) then
        match s' with
        | h :: (l :: s'') =>
            if (0 <=? nibble h) && (0 <=? nibble l)
            then byte_of (Z.lor (Z.shiftl (nibble h) 4) (nibble l)) :: url_decode s''
            else c :: url_decode s'
        | _ => c :: url_decode s'
        end
      else c :: url_decode s'
  end.

Definition to_upper (v : Z) : Z := if (97 <=? v) && (v <=? 122) then v - 32 else v.
Definition base32_value (c : byte) : Z :=
  let v := to_upper (u8 c) in
  if (65 <=? v) && (v <=? 90) then v - 65
  else if (50 <=? v) && (v <=? 55) then v - 50 + 26
  else -1.

(** The loop: the last bits read, a [uint32_t], how many of them are not written yet, and the
    bytes written. *)
Fixpoint base32_loop (bits bit_count : Z) (out s : list byte) : option (list byte) :=
  match s with
  | [] => Some out
  | c :: s =>
      let v := base32_value c in
      if v <? 0 then None
      else
        let bits := Z.lor (u32 (Z.shiftl bits 5)) v in
        let bit_count := bit_count + 5 in
        if 8 <=? bit_count
        then base32_loop bits (bit_count - 8) (out ++ [byte_of (Z.shiftr bits (bit_count - 8))]) s
        else base32_loop bits bit_count out s
  end.
Definition base32_to_info_hash (s : list byte) : option (list byte) :=
  if zlen s =? 32 then base32_loop 0 0 [] s else None.

(** * The link *)

Record MagnetUri := mkMagnet {
  info_hash : list byte;
  display_name : list byte;
  trackers : list (list byte);
  web_seeds : list (list byte);
}.

Definition no_magnet : MagnetUri := mkMagnet (replicate 20 x00) [] [] [].
Definition is_valid (m : MagnetUri) : bool := negb (is_all_zero (info_hash m)).

Definition set_hash (h : list byte) (m : MagnetUri) : MagnetUri := mkMagnet h (display_name m) (trackers m) (web_seeds m).
Definition set_display (n : list byte) (m : MagnetUri) : MagnetUri := mkMagnet (info_hash m) n (trackers m) (web_seeds m).
Definition add_tracker (t : list byte) (m : MagnetUri) : MagnetUri := mkMagnet (info_hash m) (display_name m) (trackers m ++ [t]) (web_seeds m).
Definition add_seed (t : list byte) (m : MagnetUri) : MagnetUri := mkMagnet (info_hash m) (display_name m) (trackers m) (web_seeds m ++ [t]).

(** What follows a prefix. *)
Fixpoint after_prefix (pre s : list byte) : option (list byte) :=
  match pre, s with
  | [], _ => Some s
  | c :: pre, c' :: s => if bool_decide (c = c') then after_prefix pre s else None
  | _ :: _, [] => None
  end.

Definition is_not (c x : byte) : bool := negb (bool_decide (x = c)).

(** The pairs with a key. *)
Definition set_field (key val : list byte) (m : MagnetUri) : MagnetUri :=
  if bool_decide (key = lit "xt") then
    match after_prefix (lit "urn:btih:") val with
    | None => m
    | Some id =>
        match info_hash_from_hex id with
        | Some h => set_hash h m
        | None => match base32_to_info_hash id with Some h => set_hash h m | None => m end
        end
    end
  else if bool_decide (key = lit "dn") then set_display val m
  else if bool_decide (key = lit "tr") then if zlen val =? 0 then m else add_tracker val m
  else if bool_decide (key = lit "ws") then if zlen val =? 0 then m else add_seed val m
  else m.

Definition read_token (token : list byte) (m : MagnetUri) : MagnetUri :=
  match skip_while (is_not x3d) token with
  | [] => m
  | _ :: val => set_field (take_while (is_not x3d) token) (url_decode val) m
  end.

(** The loop over the tokens; every turn consumes a byte of the query, so that its length is
    enough fuel. *)
Fixpoint tokens (fuel : nat) (query : list byte) (m : MagnetUri) : MagnetUri :=
  match fuel, query with
  | S fuel, _ :: _ => tokens fuel (tail (skip_while (is_not x26) query)) (read_token (take_while (is_not x26) query) m)
  | _, _ => m
  end.

Definition parse (uri : list byte) : option MagnetUri :=
  query ← after_prefix (lit "magnet:?") uri;
  let m := tokens (length query) query no_magnet in
  if is_valid m then Some m else None.

End magnet.
