(* ===== verification/TorrentInfo.v ===== *)
(** The metadata of a torrent ([bittorrent/torrent_info.{h,cpp}]): read from a torrent file, from
    an info dictionary that a peer sent or from a magnet link, and written as a magnet link.

    A parse fails with the message of [TorrentParseError] ([inl]). [mem] is what the buffer of
    the hash holds when it is made. *)

From Stdlib Require Import Strings.String.
From S2P Require Import Prelude Text PeerId Address DhtId Bencode Krpc Words Sha1 Sha1Proofs.
From S2P Require Import PiecePicker FileStorage InfoSpan Magnet.
Import bencode.

Module torrent_info.

Record TorrentInfo := mkInfo {
  info_hash : list byte;
  info_name : list byte;
  comment : list byte;
  created_by : list byte;
  creation_date : Z;
  is_private : bool;
  has_metadata : bool;
  info_files : FileStorage;
  piece_hashes : list byte;
  announce : list byte;
  announce_list : list (list (list byte));
  web_seeds : list (list byte);
  dht_nodes : list (list byte * Z);
  info_dict_bytes : list byte;
}.

Definition no_info : TorrentInfo := mkInfo (replicate 20 x00) [] [] [] 0 false false file_storage.empty_storage [] [] [] [] [] [].

Definition is_valid (ti : TorrentInfo) : bool := negb (magnet.is_all_zero (info_hash ti)).

Definition fail {A} (m : string) : outcome (list byte + A) := Ret (inl (lit m)).
Definition try {A B} (x : outcome (list byte + A)) (k : A -> outcome (list byte + B)) : outcome (list byte + B) :=
  r ← x; match r with inl m => Ret (inl m) | inr a => k a end.

(** * The info dictionary *)

Definition find_string (dict : BencodeValue) (key : list byte) : option (list byte) := v ← find key dict; as_string v.
Definition find_int (dict : BencodeValue) (key : list byte) : option Z := v ← find key dict; as_integer v.
Definition find_list (dict : BencodeValue) (key : list byte) : option (list BencodeValue) := v ← find key dict; as_list v.

(** Not empty, not a dot or two, without separators and zero bytes. *)
Definition safe_component (c : list byte) : bool :=
  negb (zlen c =? 0) && negb (bool_decide (c = [x2e])) && negb (bool_decide (c = [x2e; x2e]))
  && forallb (fun b => negb (bool_decide (b = x2f)) && negb (bool_decide (b = x5c)) && negb (bool_decide (b = x00))) c.

(** The loop over the components of a path. *)
Fixpoint join_path (rel : list byte) (comps : list BencodeValue) : option (list byte) :=
  match comps with
  | [] => Some rel
  | comp :: comps =>
      c ← as_string comp;
      if safe_component c then join_path (rel ++ x2f :: c) comps else None
  end.

(** The loop over the files. *)
Fixpoint add_entries (name : list byte) (entries : list BencodeValue) (s : FileStorage) : outcome (list byte + FileStorage) :=
  match entries with
  | [] => Ret (inr s)
  | entry :: entries =>
      match find_int entry (lit "length"), find_list entry (lit "path") with
      | Some length, Some path =>
          if length <? 0 then fail "bad file entry"
          else match join_path name path with
               | None => fail "unsafe file path"
               | Some rel =>
                   '(added, s) ← file_storage.add_file rel length s;
                   if (added : bool) then add_entries name entries s else fail "file size overflow"
               end
      | _, _ => fail "bad file entry"
      end
  end.

(** Several files, or one whose length is in the dictionary itself. *)
Definition read_files (info : BencodeValue) (name : list byte) (s : FileStorage) : outcome (list byte + FileStorage) :=
  match find_list info (lit "files") with
  | Some entries => add_entries name entries s
  | None =>
      match find_int info (lit "length") with
      | None => fail "single-file torrent missing length"
      | Some length =>
          if length <? 0 then fail "single-file torrent missing length"
          else
            '(added, s) ← file_storage.add_file name length s;
            if (added : bool) then Ret (inr s) else fail "file size overflow"
      end
  end.

Definition parse_info_dict (info : BencodeValue) (ti : TorrentInfo) : outcome (list byte + TorrentInfo) :=
  match find_string info (lit "name"), find_int info (lit "piece length"), find_string info (lit "pieces") with
  | Some name, Some piece_length, Some pieces =>
      if (piece_length <=? 0) || (2 ^ 30 <? piece_length) then fail "invalid piece length"
      else if negb (zlen pieces mod magnet.kInfoHashSize =? 0) then fail "pieces string not a multiple of 20"
      else if negb (safe_component name) then fail "unsafe torrent name"
      else
        try (read_files info name (file_storage.set_name name (file_storage.set_piece_length (u32 piece_length) file_storage.empty_storage)))
          (fun s =>
             n ← file_storage.num_pieces s;
             if negb (zlen pieces / magnet.kInfoHashSize =? n) then fail "piece count mismatch"
             else
               Ret (inr (mkInfo (info_hash ti) name (comment ti) (created_by ti) (creation_date ti)
                               (match find_int info (lit "private") with Some v => v =? 1 | None => false end) true s pieces
                               (announce ti) (announce_list ti) (web_seeds ti) (dht_nodes ti) (info_dict_bytes ti))))
  | _, _, _ => fail "info dict missing name/piece length/pieces"
  end.

Definition set_identity (bytes hash : list byte) (ti : TorrentInfo) : TorrentInfo :=
  mkInfo hash (info_name ti) (comment ti) (created_by ti) (creation_date ti) (is_private ti) (has_metadata ti) (info_files ti)
    (piece_hashes ti) (announce ti) (announce_list ti) (web_seeds ti) (dht_nodes ti) bytes.

Definition from_info_dict (mem bytes expected : list byte) : outcome (list byte + TorrentInfo) :=
  match decode_full bytes with
  | None => fail "Invalid bencode data"
  | Some info =>
      try (parse_info_dict info no_info) (fun ti =>
        hash ← sha1.hash_raw mem bytes;
        if negb (magnet.is_all_zero expected) && negb (bool_decide (hash = expected)) then fail "info-hash mismatch"
        else Ret (inr (set_identity bytes hash ti)))
  end.

(** * Torrent files *)

Definition strings_of (l : list BencodeValue) : list (list byte) := omap as_string l.

Definition read_tiers (root : BencodeValue) : list (list (list byte)) :=
  match find_list root (lit "announce-list") with
  | None => []
  | Some tiers =>
      omap (fun tier => l ← as_list tier; match strings_of l with [] => None | t => Some t end) tiers
  end.

Definition read_seeds (root : BencodeValue) : list (list byte) :=
  match find (lit "url-list") root with
  | Some (String s) => [s]
  | Some (List l) => strings_of l
  | _ => []
  end.

Definition read_nodes (root : BencodeValue) : list (list byte * Z) :=
  match find_list root (lit "nodes") with
  | None => []
  | Some nodes =>
      omap (fun node => match node with List [String host; Integer port] => Some (host, u16 port) | _ => None end) nodes
  end.

(** The optional fields, over those of a torrent without any. *)
Definition set_discovery (root : BencodeValue) (ti : TorrentInfo) : TorrentInfo :=
  mkInfo (info_hash ti) (info_name ti)
    (default (comment ti) (find_string root (lit "comment"))) (default (created_by ti) (find_string root (lit "created by")))
    (default (creation_date ti) (find_int root (lit "creation date"))) (is_private ti) (has_metadata ti) (info_files ti) (piece_hashes ti)
    (default (announce ti) (find_string root (lit "announce"))) (announce_list ti ++ read_tiers root)
    (web_seeds ti ++ read_seeds root) (dht_nodes ti ++ read_nodes root) (info_dict_bytes ti).

Definition from_bytes (mem data : list byte) : outcome (list byte + TorrentInfo) :=
  match decode_full data with
  | None => fail "Invalid bencode data"
  | Some root =>
      match as_dict root with
      | None => fail "torrent is not a dict"
      | Some _ =>
          match info_span.find_info_span data, find (lit "info") root with
          | Some (first, last), Some info =>
              try (parse_info_dict info no_info) (fun ti =>
                let bytes := ztake (last - first) (zdrop first data) in
                hash ← sha1.hash_raw mem bytes;
                Ret (inr (set_discovery root (set_identity bytes hash ti))))
          | _, _ => fail "missing info dict"
          end
      end
  end.

(** [file] is what was read, if it was. *)
Definition from_file (mem : list byte) (file : option (list byte)) : outcome (list byte + TorrentInfo) :=
  match file with None => fail "cannot read file" | Some data => from_bytes mem data end.

(** * Magnet links *)

Definition from_magnet (uri : list byte) : list byte + TorrentInfo :=
  match magnet.parse uri with
  | None => inl (lit "invalid magnet uri")
  | Some m =>
      let tiers := (fun tr => [tr]) <$> magnet.trackers m in
      inr (mkInfo (magnet.info_hash m) (magnet.display_name m) [] [] 0 false false file_storage.empty_storage []
             (match tiers with (tr :: _) :: _ => tr | _ => [] end) tiers (magnet.web_seeds m) [] [])
  end.

(** Whether the bytes were taken, and the torrent after. *)
Definition set_metadata (mem bytes : list byte) (ti : TorrentInfo) : outcome (bool * TorrentInfo) :=
  r ← from_info_dict mem bytes (info_hash ti);
  Ret (match r with
       | inl _ => (false, ti)
       | inr done =>
           (true, mkInfo (info_hash ti) (if zlen (info_name ti) =? 0 then info_name done else info_name ti) (comment ti) (created_by ti)
                    (creation_date ti) (is_private done) true (info_files done) (piece_hashes done) (announce ti) (announce_list ti)
                    (web_seeds ti) (dht_nodes ti) (info_dict_bytes done))
       end).

Definition piece_hash (index : Z) (ti : TorrentInfo) : list byte :=
  let off := index * magnet.kInfoHashSize in
  if off + magnet.kInfoHashSize <=? zlen (piece_hashes ti) then ztake magnet.kInfoHashSize (zdrop off (piece_hashes ti))
  else replicate 20 x00.

Definition all_trackers (ti : TorrentInfo) : list (list byte) :=
  (if zlen (announce ti) =? 0 then [] else [announce ti]) ++ List.filter (fun url => negb (bool_decide (url = announce ti))) (concat (announce_list ti)).

Definition is_alnum (v : Z) : bool :=
  ((48 <=? v) && (v <=? 57)) || ((65 <=? v) && (v <=? 90)) || ((97 <=? v) && (v <=? 122)).
Definition unreserved (c : byte) : bool :=
  is_alnum (u8 c) || (u8 c =? 45) || (u8 c =? 95) || (u8 c =? 46) || (u8 c =? 126).
Definition upper_digit (v : Z) : byte := byte_of (if v <? 10 then 48 + v else 55 + v).
Definition percent (name : list byte) : list byte :=
  flat_map (fun c => if unreserved c then [c] else [x25; upper_digit (Z.shiftr (u8 c) 4); upper_digit (Z.land (u8 c) 15)]) name.

Definition to_magnet_uri (include_trackers : bool) (ti : TorrentInfo) : list byte :=
  lit "magnet:?xt=urn:btih:" ++ magnet.to_hex (info_hash ti)
  ++ (if zlen (info_name ti) =? 0 then [] else lit "&dn=" ++ percent (info_name ti))
  ++ (if include_trackers then flat_map (fun tr => lit "&tr=" ++ tr) (all_trackers ti) else []).

End torrent_info.
