(* ===== verification/TorrentInfoProofs.v ===== *)
(** What is proved about the metadata of torrents: a torrent file is read as the info dictionary
    inside it; the paths of an accepted torrent stay under its name; and a magnet link gives
    back what it was made from. *)

From Stdlib Require Import Strings.String.
From S2P Require Import Prelude Text PeerId Address DhtId Bencode Krpc Words Sha1 Sha1Proofs.
From S2P Require Import PiecePicker FileStorage InfoSpan Magnet TorrentInfo.
Import bencode torrent_info.

Module torrent_proofs.

(** * Torrent files *)

Lemma try_assoc {A B C} (x : outcome (list byte + A)) (k : A -> outcome (list byte + B)) (h : B -> outcome (list byte + C)) :
  try (try x k) h = try x (fun a => try (k a) h).
Proof. unfold try. destruct x as [[m|a]| |]; done. Qed.

Definition zero_hash : list byte := replicate 20 x00.

Lemma file_as_dict mem data d info :
  zlen data < 2 ^ 60 -> decode_full data = Some (Dictionary d) -> find (lit "info") (Dictionary d) = Some info ->
  exists pre q post, data = pre ++ q ++ post /\ decode_full q = Some info
    /\ from_bytes mem data = try (from_info_dict mem q zero_hash) (fun ti => Ret (inr (set_discovery (Dictionary d) ti))).
Proof.
  intros Hlen Ed Ef. pose proof (info_span.span_agrees data d Hlen Ed) as H. rewrite Ef in H. destruct H as (pre & q & post & -> & Es & Eq).
  exists pre, q, post. split_and!; [done..|]. unfold from_bytes, from_info_dict. rewrite Ed, Eq. cbn [as_dict]. rewrite Es, Ef.
  rewrite try_assoc. replace (zlen pre + zlen q - zlen pre) with (zlen q) by lia. rewrite zdrop_app, ztake_app by done.
  unfold try. destruct (parse_info_dict info no_info) as [[m|ti]| |]; cbn [mbind outcome_bind]; [done| |done..].
  by destruct (sha1.hash_raw mem q).
Qed.

(** * Layouts *)

(** A path of the components below the name of the torrent. *)
Definition under (name p : list byte) : Prop :=
  exists comps, Forall (fun c => safe_component c = true) comps /\ p = foldl (fun rel c => rel ++ x2f :: c) name comps.

Definition contained (s : FileStorage) : Prop :=
  file_storage.layout_ok s /\ Forall (fun e => under (name s) (path e)) (files s).

Lemma join_path_under nm rel comps p : under nm rel -> join_path rel comps = Some p -> under nm p.
Proof.
  revert rel. induction comps as [|v comps IH]; intros rel Hr; cbn [join_path]; [by intros [= <-]|].
  destruct (as_string v) as [c|]; cbn [mbind option_bind]; [|done]. destruct (safe_component c) eqn:Hc; [|done]. apply IH.
  destruct Hr as (cs & Hcs & ->). exists (cs ++ [c]). split; [apply Forall_app; split; [done|by apply Forall_singleton]|]. by rewrite foldl_app.
Qed.

Lemma add_contained s p size :
  contained s -> under (name s) p ->
  returns (file_storage.add_file p size s) (fun '(added, s') => contained s' /\ name s' = name s /\ layout_piece_length s' = layout_piece_length s).
Proof.
  intros [Hok Hf] Hp. destruct (returns_inv _ _ (file_storage.add_file_ok s p size Hok)) as ([added s'] & E & Hok' & _ & Hfs). rewrite E. cbn [returns].
  assert (name s' = name s /\ layout_piece_length s' = layout_piece_length s) as [En El].
  { unfold file_storage.add_file in E. destruct (size <? 0); [by simplify_eq|]. destruct (file_storage.s64 (_ - _)); [|done..]. cbn [mbind outcome_bind] in E.
    destruct (_ <? size); [by simplify_eq|]. destruct (file_storage.s64 (_ + _)); [|done..]. cbn [mbind outcome_bind] in E. by simplify_eq. }
  split_and!; [|done..]. split; [done|]. rewrite En. destruct added; [|by subst s']. rewrite Hfs. apply Forall_app. split; [done|by apply Forall_singleton].
Qed.

(** Reading the files never goes wrong, and what is accepted stays below the name. *)
Definition reads_files (s : FileStorage) (r : outcome (list byte + FileStorage)) : Prop :=
  returns r (fun r => match r with
                      | inl _ => True
                      | inr s' => contained s' /\ name s' = name s /\ layout_piece_length s' = layout_piece_length s
                      end).

Lemma add_entries_ok entries : forall s, contained s -> reads_files s (add_entries (name s) entries s).
Proof.
  induction entries as [|entry entries IH]; intros s Hs; cbn [add_entries]; [done|].
  destruct (find_int entry _) as [len|]; [|done]. destruct (find_list entry _) as [comps|]; [|done]. destruct (len <? 0); [done|].
  destruct (join_path (name s) comps) as [rel|] eqn:E; [|done]. apply (join_path_under (name s)) in E; [|by exists []].
  destruct (returns_inv _ _ (add_contained s rel len Hs E)) as ([added s'] & -> & Hs' & En & El). cbn [mbind outcome_bind].
  destruct added; [|done]. rewrite <- En. eapply returns_mono; [by apply IH|]. intros [m|s2]; [done|]. by rewrite En, El.
Qed.

Lemma read_files_ok info s : contained s -> reads_files s (read_files info (name s) s).
Proof.
  intros Hs. unfold read_files. destruct (find_list info _) as [entries|]; [by apply add_entries_ok|].
  destruct (find_int info _) as [len|]; [|done]. destruct (len <? 0); [done|].
  destruct (returns_inv _ _ (add_contained s (name s) len Hs ltac:(by exists []))) as ([added s'] & -> & Hs'). cbn [mbind outcome_bind].
  by destruct added.
Qed.

(** A path cut at its separators. *)
Fixpoint split_path (p : list byte) : list (list byte) :=
  match p with
  | [] => [[]]
  | c :: p =>
      match split_path p with
      | [] => [[c]]
      | cur :: rest => if bool_decide (c = x2f) then [] :: cur :: rest else (c :: cur) :: rest
      end
  end.

Lemma split_path_cons p : exists cur rest, split_path p = cur :: rest.
Proof.
  destruct p as [|b p]; cbn [split_path]; [by do 2 eexists|]. destruct (split_path p); [by do 2 eexists|]. destruct (bool_decide _); by do 2 eexists.
Qed.

Lemma split_path_plain c : forallb (fun b => negb (bool_decide (b = x2f))) c = true -> split_path c = [c].
Proof.
  induction c as [|b c IH]; [done|]. cbn [forallb split_path]. intros [Hb Hc]%andb_prop. rewrite (IH Hc). by destruct (bool_decide (b = x2f)).
Qed.

Lemma split_path_snoc p c :
  forallb (fun b => negb (bool_decide (b = x2f))) c = true -> split_path (p ++ x2f :: c) = split_path p ++ [c].
Proof.
  intros Hc. induction p as [|b p IH]; cbn [app split_path].
  - by rewrite (split_path_plain c Hc).
  - rewrite IH. destruct (split_path_cons p) as (cur & rest & ->). cbn [app]. by destruct (bool_decide (b = x2f)).
Qed.

Lemma safe_plain c : safe_component c = true -> forallb (fun b => negb (bool_decide (b = x2f))) c = true.
Proof.
  unfold safe_component. intros [_ H]%andb_prop. rewrite forallb_forall in *. intros b Hb. specialize (H b Hb).
  by apply andb_prop in H as [[H _]%andb_prop _].
Qed.

Lemma under_split nm p :
  safe_component nm = true -> under nm p ->
  Forall (fun c => safe_component c = true) (split_path p) /\ head (split_path p) = Some nm.
Proof.
  intros Hn (comps & Hc & ->).
  assert (split_path (foldl (fun rel c => rel ++ x2f :: c) nm comps) = nm :: comps) as ->; [|by split; [constructor|]].
  revert Hc. induction comps as [|c comps IH] using rev_ind; intros Hc; [by apply split_path_plain, safe_plain|].
  apply Forall_app in Hc as [Hc H1]. apply Forall_cons in H1 as [H1 _]. rewrite foldl_app. cbn [foldl]. rewrite split_path_snoc by (by apply safe_plain). by rewrite IH.
Qed.

(** * Accepted torrents *)

(** A part of a path that names an entry of the directory it is in, on any system. *)
Definition plain_name (c : list byte) : Prop :=
  c <> [] /\ c <> lit "." /\ c <> lit ".." /\ Forall (fun b => b <> x2f /\ b <> x5c /\ b <> x00) c.

Lemma safe_plain_name c : safe_component c = true -> plain_name c.
Proof.
  unfold safe_component. rewrite !andb_true_iff, !negb_true_iff, forallb_forall. intros (((H1 & H2%bool_decide_eq_false) & H3%bool_decide_eq_false) & H4).
  split_and!; [by intros ->|done|done|]. apply Forall_forall. intros b Hb%list_elem_of_In. specialize (H4 b Hb).
  rewrite !andb_true_iff, !negb_true_iff, !bool_decide_eq_false in H4. by destruct H4 as ((? & ?) & ?).
Qed.

(** The files lie end to end below one directory (or are the one file) of the torrent's name,
    no part of a path leads out of it, and there is a hash for every piece that is counted. *)
Definition accepted (ti : TorrentInfo) : Prop :=
  has_metadata ti = true /\ file_storage.layout_ok (info_files ti) /\ 0 < layout_piece_length (info_files ti) <= 2 ^ 30
  /\ Forall (fun e => Forall plain_name (split_path (path e)) /\ head (split_path (path e)) = Some (name (info_files ti)))
       (files (info_files ti))
  /\ file_storage.num_pieces (info_files ti) = Ret (zlen (piece_hashes ti) / 20) /\ zlen (piece_hashes ti) mod 20 = 0.

(** The sizes of the files leave no room for one more piece in 64 bits. *)
Definition overflows (info : BencodeValue) : Prop :=
  exists nm plen s, read_files info nm (file_storage.set_name nm (file_storage.set_piece_length plen file_storage.empty_storage)) = Ret (inr s)
    /\ file_storage.kMax64 < layout_total s + layout_piece_length s.

Lemma parse_info_dict_ok info :
  match parse_info_dict info no_info with
  | Ret (inr ti) => accepted ti /\ info_name ti = name (info_files ti)
  | Ret (inl _) => True
  | UB => overflows info
  | BadAlloc => False
  end.
Proof.
  unfold parse_info_dict. destruct (find_string info (lit "name")) as [nm|]; [|done]. destruct (find_int info (lit "piece length")) as [plen|]; [|done].
  destruct (find_string info (lit "pieces")) as [pieces|]; [|done]. destruct (_ || _) eqn:Ep; [done|]. apply orb_false_elim in Ep as [P1%Z.leb_gt P2%Z.ltb_ge].
  destruct (Z.eqb_spec (zlen pieces mod magnet.kInfoHashSize) 0) as [Em|]; [|done]. destruct (safe_component nm) eqn:Hn; [|done]. cbn [negb].
  unfold u32. rewrite Z.mod_small by lia. set (s0 := file_storage.set_name nm (file_storage.set_piece_length plen file_storage.empty_storage)).
  assert (contained s0) as H0.
  { split; [|by apply Forall_nil]. split; [done|]. unfold file_storage.kMax64. cbn. lia. }
  destruct (returns_inv _ _ (read_files_ok info s0 H0)) as (r & E & Hr). change (name s0) with nm in *. unfold try. rewrite E. cbn [mbind outcome_bind].
  destruct r as [m|s]; [done|]. destruct Hr as ([Hok Hf] & En & El). change (name s0) with nm in En. change (layout_piece_length s0) with plen in El.
  pose proof Hok as (_ & Ht & _). destruct (file_storage.num_pieces_ok s) as [N1 N2]; [rewrite El; lia|lia|].
  destruct (Z.le_gt_cases (layout_total s + layout_piece_length s) file_storage.kMax64) as [Hle|Hgt]; [|rewrite N2 by lia; by exists nm, plen, s; split; [|lia]].
  rewrite N1 by done. cbn [mbind outcome_bind]. destruct (Z.eqb_spec (zlen pieces / magnet.kInfoHashSize) (u32 ((layout_total s + layout_piece_length s - 1) / layout_piece_length s))) as [En2|];
    cbn [negb]; [|done].
  split; [|done]. split_and!; cbn [has_metadata info_files piece_hashes]; [done|done|lia..| |by rewrite N1; [f_equal|]|done].
  eapply Forall_impl; [exact Hf|]. cbn. rewrite En. intros e He. destruct (under_split nm (path e) Hn He) as [Hs Hh]. split; [|done].
  eapply Forall_impl; [exact Hs|]. apply safe_plain_name.
Qed.

(** What the accessors of the identity leave alone. *)
Lemma accepted_identity bytes hash ti : accepted ti -> accepted (set_identity bytes hash ti).
Proof. done. Qed.
Lemma accepted_discovery root ti : accepted ti -> accepted (set_discovery root ti).
Proof. done. Qed.

Lemma from_info_dict_ok mem bytes expected :
  zlen mem = 64 -> zlen bytes < 2 ^ 60 ->
  match from_info_dict mem bytes expected with
  | Ret (inr ti) =>
      accepted ti /\ info_dict_bytes ti = bytes /\ info_hash ti = sha1.sha1_ref bytes
      /\ (magnet.is_all_zero expected = false -> expected = sha1.sha1_ref bytes)
  | Ret (inl _) => True
  | UB => exists info, decode_full bytes = Some info /\ overflows info
  | BadAlloc => False
  end.
Proof.
  intros Hm Hb. unfold from_info_dict. destruct (decode_full bytes) as [info|]; [|done]. pose proof (parse_info_dict_ok info) as H. unfold try.
  destruct (parse_info_dict info no_info) as [[m|ti]| |]; cbn [mbind outcome_bind]; [done| |done|by exists info].
  rewrite (proj1 (sha1_facts mem bytes Hm ltac:(lia))). cbn [mbind outcome_bind]. destruct H as [Ha _].
  destruct (magnet.is_all_zero expected); cbn [negb andb]; [|case_bool_decide; [|done]]; cbn [negb]; (split_and!; [by apply accepted_identity|done..]).
Qed.

(** Expecting the hash that the bytes have is the same as expecting none. *)
Lemma from_info_dict_own mem bytes :
  zlen mem = 64 -> zlen bytes < 2 ^ 60 -> from_info_dict mem bytes (sha1.sha1_ref bytes) = from_info_dict mem bytes zero_hash.
Proof.
  intros Hm Hb. unfold from_info_dict, try. destruct (decode_full bytes) as [info|]; [|done].
  destruct (parse_info_dict info no_info) as [[m|ti]| |]; cbn [mbind outcome_bind]; [done| |done..].
  rewrite (proj1 (sha1_facts mem bytes Hm ltac:(lia))). cbn [mbind outcome_bind].
  rewrite (bool_decide_true (sha1.sha1_ref bytes = _)) by done. by rewrite andb_false_r.
Qed.

(** C20: A torrent file is read as the info dictionary inside it. Where the file decodes to a
    dictionary with an [info] value, the scan of the raw bytes finds a part of the file that
    decodes to that very value, and reading the file is reading that part as an info dictionary,
    errors included, and adding the fields around it. The info-hash of an accepted file is the
    SHA-1 digest of that part, and a peer that fetches the part under this hash gets the same
    torrent. *)
Theorem torrent_file_exact (mem data : list byte) (d : BencodeDict) (info : BencodeValue) :
  zlen mem = 64 -> zlen data < 2 ^ 60 -> decode_full data = Some (Dictionary d) -> find (lit "info") (Dictionary d) = Some info ->
  exists pre q post, data = pre ++ q ++ post /\ decode_full q = Some info
    /\ from_bytes mem data = try (from_info_dict mem q zero_hash) (fun ti => Ret (inr (set_discovery (Dictionary d) ti)))
    /\ forall ti, from_bytes mem data = Ret (inr ti) ->
         info_dict_bytes ti = q /\ info_hash ti = sha1.sha1_ref q
         /\ exists ti0, from_info_dict mem q (info_hash ti) = Ret (inr ti0) /\ ti = set_discovery (Dictionary d) ti0.
Proof.
  intros Hm Hlen Ed Ef. destruct (file_as_dict mem data d info Hlen Ed Ef) as (pre & q & post & -> & Eq & E). exists pre, q, post.
  split_and!; [done..|]. intros ti Eti. rewrite E in Eti. rewrite !zlen_app in Hlen. assert (zlen q < 2 ^ 60) as Hq by (zlen_facts; lia).
  pose proof (from_info_dict_ok mem q zero_hash Hm Hq) as H. unfold try in Eti.
  destruct (from_info_dict mem q zero_hash) as [[m|ti0]| |] eqn:E0; cbn [mbind outcome_bind] in Eti; [done| |done..]. injection Eti as <-.
  destruct H as (_ & Hb & Hh & _). split_and!; [done..|]. exists ti0. split; [|done].
  change (info_hash (set_discovery _ ti0)) with (info_hash ti0). rewrite Hh. by rewrite from_info_dict_own.
Qed.

Definition demo_dict : list byte := lit "d6:lengthi20000e4:name3:abc12:piece lengthi16384e6:pieces40:aaaaaaaaaaaaaaaaaaaabbbbbbbbbbbbbbbbbbbbe".
Definition demo_file : list byte := lit "d8:announce12:udp://t:80/a4:info" ++ demo_dict ++ lit "e".
Definition demo_mem : list byte := replicate 64 xff.

Lemma torrent_file_exact_witness :
  exists ti pre q post, from_bytes demo_mem demo_file = Ret (inr ti) /\ demo_file = pre ++ q ++ post /\ info_dict_bytes ti = q /\ announce ti = lit "udp://t:80/a".
Proof.
  assert (exists d info, decode_full demo_file = Some (Dictionary d) /\ find (lit "info") (Dictionary d) = Some info) as (d & info & Ed & Ef)
    by (do 2 eexists; split; vm_compute; reflexivity).
  destruct (torrent_file_exact demo_mem demo_file d info ltac:(done) ltac:(done) Ed Ef) as (pre & q & post & Eq & _ & _ & H).
  assert (exists ti, from_bytes demo_mem demo_file = Ret (inr ti) /\ announce ti = lit "udp://t:80/a") as (ti & E & Ea) by (eexists; split; vm_compute; reflexivity).
  exists ti, pre, q, post. destruct (H ti E) as (Hq & _). split; [exact E|]. split; [exact Eq|]. split; [exact Hq|exact Ea].
Defined.

(** C19: Whatever the bytes, reading them as a torrent file or as an info dictionary ends. What is
    accepted has its files end to end, none of whose paths leads out of the directory named
    after the torrent (no empty part, no dots, no separator or zero byte within a part), a piece
    length of at most 2^30, and a hash of twenty bytes for every piece that [num_pieces] counts;
    its info-hash is the SHA-1 digest of the bytes kept, and the one expected. The only way to
    go wrong is a total size so large that counting the pieces overflows. *)
Theorem torrent_info_sound (mem data expected : list byte) :
  zlen mem = 64 -> zlen data < 2 ^ 60 ->
  Forall (fun r => match r with
                   | Ret (inr ti) => accepted ti /\ info_hash ti = sha1.sha1_ref (info_dict_bytes ti)
                   | Ret (inl _) => True
                   | UB => exists q info, decode_full q = Some info /\ overflows info
                   | BadAlloc => False
                   end)
    [from_bytes mem data; from_info_dict mem data expected]
  /\ forall ti, from_info_dict mem data expected = Ret (inr ti) -> magnet.is_all_zero expected = false -> info_hash ti = expected.
Proof.
  intros Hm Hlen. pose proof (from_info_dict_ok mem data expected Hm Hlen) as Hi. split; [apply Forall_cons; split; [|apply Forall_singleton]|].
  - destruct (decode_full data) as [root|] eqn:Ed; [|unfold from_bytes; by rewrite Ed].
    destruct root as [| | |d]; try (unfold from_bytes; by rewrite Ed).
    destruct (find (lit "info") (Dictionary d)) as [info|] eqn:Ef.
    + destruct (file_as_dict mem data d info Hlen Ed Ef) as (pre & q & post & -> & _ & ->). rewrite !zlen_app in Hlen.
      pose proof (from_info_dict_ok mem q zero_hash Hm ltac:(zlen_facts; lia)) as H. unfold try.
      destruct (from_info_dict mem q zero_hash) as [[m|ti]| |]; cbn [mbind outcome_bind]; [done| |done|destruct H as (info' & ? & ?); by exists q, info'].
      destruct H as (Ha & Hb & Hh & _). split; [by apply accepted_discovery|]. cbn. by rewrite Hb.
    + unfold from_bytes. rewrite Ed. cbn [as_dict]. rewrite Ef. by destruct (info_span.find_info_span data) as [[? ?]|].
  - destruct (from_info_dict mem data expected) as [[m|ti]| |]; [done| |done|destruct Hi as (info & ? & ?); by exists data, info].
    destruct Hi as (Ha & Hb & Hh & _). split; [done|]. by rewrite Hb.
  - intros ti E Hz. rewrite E in Hi. destruct Hi as (_ & _ & Hh & He). rewrite Hh. by rewrite He.
Qed.

Lemma torrent_info_sound_witness :
  exists ti, from_info_dict demo_mem demo_dict zero_hash = Ret (inr ti) /\ accepted ti /\ piece_hash 1 ti = replicate 20 x62.
Proof.
  destruct (torrent_info_sound demo_mem demo_dict zero_hash ltac:(done) ltac:(done)) as [H _].
  assert (exists ti, from_info_dict demo_mem demo_dict zero_hash = Ret (inr ti) /\ piece_hash 1 ti = replicate 20 x62) as (ti & E & Ep) by (eexists; split; vm_compute; reflexivity).
  exists ti. split; [exact E|]. rewrite E in H. apply Forall_cons in H as [_ H]. apply Forall_cons in H as [[Ha _] _]. split; [exact Ha|exact Ep].
Defined.

(** A file of 2^63 - 1 bytes in the dictionary, and the count of pieces overflows. *)
Example huge_torrent_overflows :
  from_info_dict demo_mem (lit "d6:lengthi9223372036854775807e4:name1:a12:piece lengthi2e6:pieces0:e") zero_hash = UB.
Proof. vm_compute. reflexivity. Qed.

(** The count of pieces is taken modulo 2^32: a torrent of 2^46 bytes and one with a single hash
    is accepted. *)
Example piece_count_wraps :
  exists ti, from_info_dict demo_mem (lit "d6:lengthi70368744177665e4:name1:a12:piece lengthi16384e6:pieces20:aaaaaaaaaaaaaaaaaaaae") zero_hash = Ret (inr ti)
    /\ layout_total (info_files ti) = 2 ^ 46 + 1 /\ zlen (piece_hashes ti) = 20.
Proof. eexists. split; [vm_compute; reflexivity|]. done. Qed.

(** * Magnet links *)

Definition plain (s : list byte) : Prop := Forall (fun c => c <> x26 /\ c <> x25) s.

Lemma url_decode_plain s : Forall (fun c => c <> x25) s -> magnet.url_decode s = s.
Proof. induction 1 as [|c s Hc _ IH]; [done|]. cbn [magnet.url_decode]. by rewrite bool_decide_false, IH. Qed.

Lemma upper_digits c :
  magnet.nibble (upper_digit (Z.shiftr (u8 c) 4)) = Z.shiftr (u8 c) 4 /\ magnet.nibble (upper_digit (Z.land (u8 c) 15)) = Z.land (u8 c) 15
  /\ upper_digit (Z.shiftr (u8 c) 4) <> x26 /\ upper_digit (Z.land (u8 c) 15) <> x26.
Proof. by destruct c. Qed.

Lemma nibbles_byte c : byte_of (Z.lor (Z.shiftl (Z.shiftr (u8 c) 4) 4) (Z.land (u8 c) 15)) = c /\ 0 <= Z.shiftr (u8 c) 4 /\ 0 <= Z.land (u8 c) 15.
Proof. by destruct c. Qed.

Lemma url_decode_percent s : magnet.url_decode (percent s) = s /\ Forall (fun c => c <> x26) (percent s).
Proof.
  induction s as [|c s [IH1 IH2]]; [by split|]. cbn [percent flat_map]. fold (percent s). destruct (unreserved c) eqn:Hu; cbn [app magnet.url_decode].
  - rewrite bool_decide_false by (by intros ->). rewrite IH1. split; [done|]. constructor; [|done]. by intros ->.
  - destruct (upper_digits c) as (-> & -> & H1 & H2). destruct (nibbles_byte c) as (-> & H3 & H4).
    rewrite bool_decide_true, !(proj2 (Z.leb_le 0 _)) by done. cbn [andb]. rewrite IH1. split; [done|]. by repeat constructor.
Qed.

Lemma take_token c l k :
  Forall (fun x => x <> c) l -> take_while (magnet.is_not c) (l ++ c :: k) = l /\ skip_while (magnet.is_not c) (l ++ c :: k) = c :: k.
Proof.
  intros Hl. apply take_while_app; [|unfold magnet.is_not; by rewrite bool_decide_true].
  eapply Forall_impl; [exact Hl|]. cbn. intros x Hx. unfold magnet.is_not. by rewrite bool_decide_false.
Qed.

Lemma tokens_list tok toks : forall fuel m,
  Forall (fun t => t <> [] /\ Forall (fun c => c <> x26) t) (tok :: toks) ->
  (length (tok ++ flat_map (cons x26) toks) <= fuel)%nat ->
  magnet.tokens fuel (tok ++ flat_map (cons x26) toks) m = foldl (fun m t => magnet.read_token t m) m (tok :: toks).
Proof.
  revert tok. induction toks as [|t toks IH]; intros tok fuel m Ht Hf; apply Forall_cons in Ht as [[Hne Ha] Ht];
    (destruct tok as [|c tok]; [done|]); (destruct fuel as [|fuel]; [cbn in Hf; lia|]); set (tk := c :: tok) in *; cbn [flat_map].
  - rewrite app_nil_r. destruct (take_while_all (magnet.is_not x26) tk) as [E1 E2].
    { eapply Forall_impl; [exact Ha|]. cbn. intros x Hx. unfold magnet.is_not. by rewrite bool_decide_false. }
    change (magnet.tokens (S fuel) tk m) with (magnet.tokens fuel (tail (skip_while (magnet.is_not x26) tk)) (magnet.read_token (take_while (magnet.is_not x26) tk) m)).
    rewrite E1, E2. by destruct fuel.
  - cbn [app]. destruct (take_token x26 tk (t ++ flat_map (cons x26) toks) Ha) as [E1 E2]. set (q := tk ++ x26 :: t ++ flat_map (cons x26) toks) in *.
    change (magnet.tokens (S fuel) q m) with (magnet.tokens fuel (tail (skip_while (magnet.is_not x26) q)) (magnet.read_token (take_while (magnet.is_not x26) q) m)).
    rewrite E1, E2. cbn [tail]. rewrite IH; [done|done|]. subst q. cbn [flat_map] in Hf. rewrite length_app in Hf. cbn [length tk app] in Hf. lia.
Qed.

Lemma read_pair key val m : Forall (fun c => c <> x3d) key -> magnet.read_token (key ++ x3d :: val) m = magnet.set_field key (magnet.url_decode val) m.
Proof. intros Hk. unfold magnet.read_token. by destruct (take_token x3d key val Hk) as [-> ->]. Qed.

Lemma after_prefix_app pre s : magnet.after_prefix pre (pre ++ s) = Some s.
Proof. induction pre as [|c pre IH]; [done|]. cbn. by rewrite bool_decide_true. Qed.

Lemma hash_from_hex h : zlen h = 20 -> magnet.info_hash_from_hex (magnet.to_hex h) = Some h.
Proof.
  intros Hh. unfold magnet.info_hash_from_hex, magnet.to_hex. rewrite peer_id.zlen_to_hex, Hh. exact (peer_id.parse_to_hex h).
Qed.

(** The tokens of a link. *)
Definition link_tokens (b : bool) (ti : TorrentInfo) : list (list byte) :=
  (if zlen (info_name ti) =? 0 then [] else [lit "dn" ++ x3d :: percent (info_name ti)])
  ++ (if b then (fun tr => lit "tr" ++ x3d :: tr) <$> all_trackers ti else []).

Definition hash_token (ti : TorrentInfo) : list byte := lit "xt" ++ x3d :: lit "urn:btih:" ++ magnet.to_hex (info_hash ti).

Lemma link_shape b ti : to_magnet_uri b ti = lit "magnet:?" ++ hash_token ti ++ flat_map (cons x26) (link_tokens b ti).
Proof.
  assert ((if zlen (info_name ti) =? 0 then [] else lit "&dn=" ++ percent (info_name ti))
          ++ (if b then flat_map (fun tr => lit "&tr=" ++ tr) (all_trackers ti) else []) = flat_map (cons x26) (link_tokens b ti)) as E.
  { unfold link_tokens. rewrite flat_map_app. f_equal.
    - destruct (_ =? 0); [done|]. cbn [flat_map]. by rewrite app_nil_r.
    - destruct b; [|done]. induction (all_trackers ti) as [|tr l IH]; [done|]. cbn [flat_map fmap list_fmap app]. by rewrite IH. }
  unfold to_magnet_uri, hash_token. rewrite E. change (lit "magnet:?xt=urn:btih:") with (lit "magnet:?" ++ lit "xt" ++ x3d :: lit "urn:btih:").
  by rewrite <- !app_assoc.
Qed.

Lemma hex_plain h : Forall (fun c => c <> x26 /\ c <> x25) (magnet.to_hex h).
Proof.
  unfold magnet.to_hex, peer_id.to_hex. induction h as [|c h IH]; [constructor|]. cbn [fmap list_fmap concat app].
  constructor; [by destruct c|]. constructor; [by destruct c|done].
Qed.

Lemma add_trackers trs : forall m,
  Forall plain trs ->
  foldl (fun m t => magnet.read_token t m) m ((fun tr => lit "tr" ++ x3d :: tr) <$> trs)
  = magnet.mkMagnet (magnet.info_hash m) (magnet.display_name m) (magnet.trackers m ++ List.filter (fun tr => negb (zlen tr =? 0)) trs) (magnet.web_seeds m).
Proof.
  induction trs as [|tr trs IH]; intros m Ht; cbn [fmap list_fmap foldl]; [rewrite app_nil_r; by destruct m|].
  apply Forall_cons in Ht as [H1 Ht]. rewrite read_pair by (by repeat constructor).
  rewrite url_decode_plain by (eapply Forall_impl; [exact H1|]; by intros ? [_ ?]). rewrite IH by done. cbn [List.filter]. unfold magnet.set_field.
  rewrite !bool_decide_false, bool_decide_true by done. destruct (zlen tr =? 0); [done|]. cbn. by rewrite <- app_assoc.
Qed.

Lemma read_link b ti :
  zlen (info_hash ti) = 20 -> Forall plain (all_trackers ti) ->
  foldl (fun m t => magnet.read_token t m) magnet.no_magnet (hash_token ti :: link_tokens b ti)
  = magnet.mkMagnet (info_hash ti) (info_name ti) (if b then List.filter (fun tr => negb (zlen tr =? 0)) (all_trackers ti) else []) [].
Proof.
  intros Hh Ht. cbn [foldl]. unfold hash_token. rewrite read_pair by (by repeat constructor).
  rewrite url_decode_plain by (apply Forall_app; split; [by repeat constructor|eapply Forall_impl; [apply hex_plain|]; by intros ? [_ ?]]).
  unfold magnet.set_field at 1. rewrite bool_decide_true, after_prefix_app, hash_from_hex by done. unfold link_tokens. rewrite foldl_app.
  assert (foldl (fun m t => magnet.read_token t m) (magnet.set_hash (info_hash ti) magnet.no_magnet)
            (if zlen (info_name ti) =? 0 then [] else [lit "dn" ++ x3d :: percent (info_name ti)]) = magnet.mkMagnet (info_hash ti) (info_name ti) [] []) as ->.
  { destruct (Z.eqb_spec (zlen (info_name ti)) 0) as [E0|]; [by destruct (info_name ti); [|zlia]|]. cbn [foldl]. rewrite read_pair by (by repeat constructor).
    by rewrite (proj1 (url_decode_percent _)). }
  destruct b; [|done]. by rewrite add_trackers.
Qed.

(** C37: A magnet link gives back what it was made from: the info-hash, the name whatever bytes it
    has, and, if they were asked for, the trackers that are not empty, provided no tracker has
    an ampersand or a percent sign in it; a torrent made from the link has them too, and no
    metadata yet. *)
Theorem magnet_roundtrip (b : bool) (ti : TorrentInfo) :
  zlen (info_hash ti) = 20 -> is_valid ti = true -> Forall plain (all_trackers ti) ->
  let trs := if b then List.filter (fun tr => negb (zlen tr =? 0)) (all_trackers ti) else [] in
  magnet.parse (to_magnet_uri b ti) = Some (magnet.mkMagnet (info_hash ti) (info_name ti) trs [])
  /\ exists ti', from_magnet (to_magnet_uri b ti) = inr ti' /\ info_hash ti' = info_hash ti /\ info_name ti' = info_name ti
       /\ has_metadata ti' = false /\ all_trackers ti' = match trs with [] => [] | tr :: rest => tr :: List.filter (fun url => negb (bool_decide (url = tr))) rest end.
Proof.
  intros Hh Hv Ht trs. assert (magnet.parse (to_magnet_uri b ti) = Some (magnet.mkMagnet (info_hash ti) (info_name ti) trs [])) as E.
  - rewrite link_shape. unfold magnet.parse. rewrite after_prefix_app. cbn [mbind option_bind].
    rewrite tokens_list; [|constructor; [split; [done|]|unfold link_tokens; apply Forall_app; split]|done].
    + rewrite read_link by done. unfold magnet.is_valid. cbn [magnet.info_hash]. unfold is_valid in Hv. cbv zeta. by rewrite Hv.
    + unfold hash_token. apply Forall_app. split; [by repeat constructor|]. constructor; [done|]. apply Forall_app. split; [by repeat constructor|].
      eapply Forall_impl; [apply hex_plain|]. by intros ? [? _].
    + destruct (_ =? 0); [constructor|]. apply Forall_singleton. split; [done|]. constructor; [done|]. constructor; [done|]. constructor; [done|]. apply url_decode_percent.
    + destruct b; [|constructor]. apply Forall_fmap. eapply Forall_impl; [exact Ht|]. intros tr Htr. split; [done|]. constructor; [done|]. constructor; [done|].
      constructor; [done|]. eapply Forall_impl; [exact Htr|]. by intros ? [? _].
  - split; [exact E|]. unfold from_magnet. rewrite E. eexists. split_and!; [done..|]. clear E. unfold all_trackers. cbn [announce announce_list magnet.trackers].
    destruct trs as [|tr rest] eqn:Etr; [done|]. cbn [fmap list_fmap concat app List.filter]. rewrite bool_decide_true by done. cbn [negb].
    assert (zlen tr <> 0) as Hne.
    { subst trs. destruct b; [|done]. assert (In tr (List.filter (fun tr => negb (zlen tr =? 0)) (all_trackers ti))) as Hin by (rewrite Etr; by left).
      apply filter_In in Hin as [_ Hz]. by destruct (Z.eqb_spec (zlen tr) 0). }
    destruct (Z.eqb_spec (zlen tr) 0); [done|]. cbn [app]. f_equal. f_equal. clear. induction rest as [|x rest IH]; [done|]. cbn. by rewrite IH.
Qed.

Definition demo_info (trs : list (list byte)) : TorrentInfo :=
  mkInfo (replicate 20 x2a) (lit "a&b") [] [] 0 false true file_storage.empty_storage [] (lit "udp://t:80/a") [trs] [] [] [].

Lemma magnet_roundtrip_witness :
  to_magnet_uri true (demo_info [lit "udp://u:80/a"]) = lit "magnet:?xt=urn:btih:2a2a2a2a2a2a2a2a2a2a2a2a2a2a2a2a2a2a2a2a&dn=a%26b&tr=udp://t:80/a&tr=udp://u:80/a"
  /\ exists ti', from_magnet (to_magnet_uri true (demo_info [lit "udp://u:80/a"])) = inr ti' /\ info_name ti' = lit "a&b"
       /\ all_trackers ti' = [lit "udp://t:80/a"; lit "udp://u:80/a"].
Proof.
  split; [vm_compute; reflexivity|].
  destruct (magnet_roundtrip true (demo_info [lit "udp://u:80/a"])) as [_ (ti' & E & _ & En & _ & Et)]; [reflexivity|reflexivity| |].
  - apply (bool_decide_unpack (Forall (fun s => Forall (fun c => c <> x26 /\ c <> x25) s) (all_trackers (demo_info [lit "udp://u:80/a"])))). vm_compute. exact I.
  - exists ti'. split; [exact E|]. split; [exact En|]. rewrite Et. vm_compute. reflexivity.
Defined.

(** Trackers are not escaped: one with a parameter of its own comes back as two. *)
Example tracker_splits :
  exists ti', from_magnet (to_magnet_uri true (demo_info [lit "http://u/a?k=1&tr=v"])) = inr ti'
    /\ all_trackers ti' = [lit "udp://t:80/a"; lit "http://u/a?k=1"; lit "v"].
Proof. eexists. split; vm_compute; reflexivity. Qed.

(** * Metadata from a peer *)

(** What [set_metadata] does: nothing if it fails; otherwise the payload of the bytes, which have
    the hash of the torrent if that is not zero. *)
Lemma set_metadata_ok mem bytes ti :
  zlen mem = 64 -> zlen bytes < 2 ^ 60 ->
  match set_metadata mem bytes ti with
  | Ret (true, ti') =>
      accepted ti' /\ info_hash ti' = info_hash ti /\ info_dict_bytes ti' = bytes
      /\ (is_valid ti = true -> info_hash ti = sha1.sha1_ref bytes)
  | Ret (false, ti') => ti' = ti
  | UB => exists info, decode_full bytes = Some info /\ overflows info
  | BadAlloc => False
  end.
Proof.
  intros Hm Hb. unfold set_metadata. pose proof (from_info_dict_ok mem bytes (info_hash ti) Hm Hb) as H.
  destruct (from_info_dict mem bytes (info_hash ti)) as [[m|d]| |]; cbn [mbind outcome_bind]; [done| |done..].
  destruct H as (Ha & E1 & E2 & E3). split_and!; [by destruct Ha as (_ & ?)|done|done|]. unfold is_valid. intros Hz. apply E3. by destruct (magnet.is_all_zero _).
Qed.

End torrent_proofs.
