(* ===== verification/PeerList.v ===== *)
(** The addresses of peers that a torrent knows of ([bittorrent/peer_list.{h,cpp}]): where they
    were heard of, which are connected and which to dial next.

    The map has no order of its own and the sort is not stable: the order in which the eligible
    peers come is a parameter, sorted as the comparison says. *)

From stdpp Require Import sorting.
From Stdlib Require Import Strings.String.
From S2P Require Import Prelude Text PeerId Address DhtId Bencode Krpc.

Module peer_list.

(** [PeerSource] *)
Definition Tracker : Z := 1.
Definition Dht : Z := 2.
Definition Pex : Z := 4.
Definition Lsd : Z := 8.
Definition Incoming : Z := 16.

Record Endpoint := mkEndpoint { ep_ip : list byte; ep_port : Z }.

Record Peer := mkPeer {
  ip : list byte;
  port : Z;
  sources : Z;
  connected : bool;
  connecting : bool;
  banned : bool;
  fail_count : Z;
}.

Abbreviation PeerList := (gmap (list byte) Peer).

Definition kMaxFails : Z := 5.

Definition key (i : list byte) (p : Z) : list byte := i ++ x3a :: nat_to_string p.

Definition eligible (p : Peer) : bool :=
  negb (connected p) && negb (connecting p) && negb (banned p) && (fail_count p <? kMaxFails).

Definition no_peer : Peer := mkPeer [] 0 0 false false false 0.

(** Whether the peer is new, and the list after. *)
Definition add (i : list byte) (p source : Z) (l : PeerList) : bool * PeerList :=
  if (zlen i =? 0) || (p =? 0) then (false, l)
  else
    match l !! key i p with
    | Some q => (false, <[key i p := mkPeer (ip q) (port q) (Z.lor (sources q) source) (connected q) (connecting q) (banned q) (fail_count q)]> l)
    | None => (true, <[key i p := mkPeer i p (Z.lor (sources no_peer) source) false false false 0]> l)
    end.

(** The comparison: fewer failures first, then the larger set of sources as a number. *)
Definition better (a b : Peer) : bool :=
  if negb (fail_count a =? fail_count b) then fail_count a <? fail_count b else sources b <? sources a.

Definition eligible_peers (l : PeerList) : list (list byte * Peer) := List.filter (fun e => eligible e.2) (map_to_list l).

Definition no_better (a b : list byte * Peer) : Prop := better b.2 a.2 = false.

(** The eligible peers of a list, as [std::sort] leaves them. *)
Class Sorting := {
  sorted_peers : PeerList -> list (list byte * Peer);
  sorted_perm : forall l, sorted_peers l ≡ₚ eligible_peers l;
  sorted_order : forall l, StronglySorted no_better (sorted_peers l);
}.

Definition set_connecting (b : bool) (p : Peer) : Peer := mkPeer (ip p) (port p) (sources p) (connected p) b (banned p) (fail_count p).

Definition mark_dialled (chosen : list (list byte * Peer)) (l : PeerList) : PeerList :=
  foldl (fun l e => alter (set_connecting true) e.1 l) l chosen.

Definition connect_candidates `{Sorting} (max : Z) (l : PeerList) : list Endpoint * PeerList :=
  let chosen := ztake (Z.min max (zlen (sorted_peers l))) (sorted_peers l) in
  ((fun e => mkEndpoint (ip e.2) (port e.2)) <$> chosen, mark_dialled chosen l).

Definition set_connected (i : list byte) (p : Z) (b : bool) (l : PeerList) : PeerList :=
  alter (fun q => mkPeer (ip q) (port q) (sources q) b false (banned q) (if b then 0 else fail_count q)) (key i p) l.

Definition on_connect_failed (i : list byte) (p : Z) (l : PeerList) : PeerList :=
  alter (fun q => mkPeer (ip q) (port q) (sources q) (connected q) false (banned q) (u32 (fail_count q + 1))) (key i p) l.

Definition ban (i : list byte) (p : Z) (l : PeerList) : PeerList :=
  alter (fun q => mkPeer (ip q) (port q) (sources q) (connected q) (connecting q) true (fail_count q)) (key i p) l.

Definition num_candidates (l : PeerList) : Z := zlen (eligible_peers l).
Definition contains (i : list byte) (p : Z) (l : PeerList) : bool := bool_decide (is_Some (l !! key i p)).

(** * One such order *)

Lemma better_spec a b : better a b = true <-> fail_count a < fail_count b \/ (fail_count a = fail_count b /\ sources b < sources a).
Proof.
  unfold better. destruct (Z.eqb_spec (fail_count a) (fail_count b)); cbn [negb]; [rewrite Z.ltb_lt; lia|]. rewrite Z.ltb_lt. lia.
Qed.

Lemma no_better_spec a b :
  no_better a b <-> fail_count a.2 < fail_count b.2 \/ (fail_count a.2 = fail_count b.2 /\ sources b.2 <= sources a.2).
Proof. unfold no_better. rewrite <- not_true_iff_false, better_spec. lia. Qed.

#[global] Instance no_better_dec a b : Decision (no_better a b).
Proof. unfold no_better. apply _. Defined.
#[global] Instance no_better_total : Total no_better.
Proof. intros a b. rewrite !no_better_spec. lia. Qed.
#[global] Instance no_better_trans : Transitive no_better.
Proof. intros a b c. rewrite !no_better_spec. lia. Qed.

#[local, refine] Instance by_merging : Sorting := {| sorted_peers l := merge_sort no_better (eligible_peers l) |}.
Proof.
  - intros l. apply merge_sort_Permutation.
  - intros l. apply (StronglySorted_merge_sort no_better).
Defined.

(** * Invariant *)

Definition filed (l : PeerList) : Prop := map_Forall (fun k p => k = key (ip p) (port p)) l.

Lemma filed_alter f k l : (forall p, ip (f p) = ip p /\ port (f p) = port p) -> filed l -> filed (alter f k l).
Proof.
  intros Hf Hl k' p. rewrite lookup_alter. case_decide; [|apply Hl]. intros (q & E & ->)%fmap_Some. subst k'. destruct (Hf q) as [-> ->]. by apply Hl.
Qed.

Lemma add_filed i p src l : filed l -> filed (add i p src l).2.
Proof.
  intros Hl. unfold add. destruct (_ || _); [done|]. destruct (l !! key i p) as [q|] eqn:E; cbn [snd]; apply map_Forall_insert_2; try done.
  by apply (Hl _ _ E).
Qed.

(** * Candidates *)

Section Candidates.
Context `{Sorting}.

Lemma elem_sorted l k p : (k, p) ∈ sorted_peers l <-> l !! k = Some p /\ eligible p = true.
Proof.
  rewrite sorted_perm. unfold eligible_peers. rewrite list_elem_of_In, filter_In, <- list_elem_of_In, elem_of_map_to_list. done.
Qed.

Lemma NoDup_sorted l : NoDup (sorted_peers l).*1.
Proof.
  rewrite sorted_perm. unfold eligible_peers. pose proof (NoDup_fst_map_to_list l) as Hd. induction (map_to_list l) as [|e r IH]; [constructor|].
  cbn [fmap list_fmap] in Hd. apply NoDup_cons in Hd as [Hn Hd]. cbn [List.filter]. destruct (eligible e.2); [|by apply IH].
  cbn [fmap list_fmap]. apply NoDup_cons. split; [|by apply IH]. intros (x & Ex & Hx)%list_elem_of_fmap. apply Hn.
  apply list_elem_of_fmap. exists x. split; [done|]. apply list_elem_of_In, filter_In in Hx as [Hx _]. by apply list_elem_of_In.
Qed.

Lemma mark_lookup chosen l k :
  mark_dialled chosen l !! k = if decide (k ∈ chosen.*1) then set_connecting true <$> l !! k else l !! k.
Proof.
  revert l. unfold mark_dialled. induction chosen as [|e chosen IH]; intros l; cbn [foldl fmap list_fmap]; [by rewrite decide_False by apply not_elem_of_nil|].
  rewrite IH, lookup_alter. destruct (decide (e.1 = k)) as [<-|Hne].
  - rewrite (decide_True (P := e.1 ∈ e.1 :: chosen.*1)) by apply list_elem_of_here. case_decide; [|done]. by destruct (l !! e.1).
  - assert (k ∈ e.1 :: chosen.*1 <-> k ∈ chosen.*1) as Hk by (rewrite elem_of_cons; naive_solver). destruct (decide (k ∈ chosen.*1)).
    + by rewrite decide_True by (by apply Hk).
    + by rewrite decide_False by (by rewrite Hk).
Qed.

Lemma mark_filed chosen l : filed l -> filed (mark_dialled chosen l).
Proof.
  intros Hl k p. rewrite mark_lookup. case_decide; [|apply Hl]. intros (q & E & ->)%fmap_Some. by apply (Hl _ _ E).
Qed.

Definition chosen_of (max : Z) (l : PeerList) : list (list byte * Peer) := ztake (Z.min max (zlen (sorted_peers l))) (sorted_peers l).

Lemma chosen_elem max l e :
  e ∈ chosen_of max l -> l !! e.1 = Some e.2 /\ eligible e.2 = true
    /\ forall k q, l !! k = Some q -> eligible q = true -> k ∉ (chosen_of max l).*1 -> better q e.2 = false.
Proof.
  intros He. unfold chosen_of in *. pose proof (sorted_order l) as Hs. rewrite <- (ztake_zdrop (Z.min max (zlen (sorted_peers l))) (sorted_peers l)) in Hs.
  set (front := ztake _ _) in *. set (rest := zdrop _ _) in *.
  assert (sorted_peers l = front ++ rest) as Ef by (unfold front, rest; by rewrite ztake_zdrop).
  assert (e ∈ sorted_peers l) as Hin by (rewrite Ef; by apply elem_of_app; left). destruct e as [k p]. apply elem_sorted in Hin as [Hk Hp]. split_and!; [done..|].
  intros k' q Hk' Hq Hn. assert ((k', q) ∈ sorted_peers l) as Hin' by (by apply elem_sorted). rewrite Ef in Hin'. apply elem_of_app in Hin' as [Hf|Hr].
  - destruct Hn. apply list_elem_of_fmap. by exists (k', q).
  - exact (StronglySorted_app_1_elem_of _ _ _ _ _ Hs He Hr).
Qed.

End Candidates.

(** * Keys *)

Lemma last_colon a b a' b' :
  Forall (fun x => x <> x3a) b -> Forall (fun x => x <> x3a) b' -> a ++ x3a :: b = a' ++ x3a :: b' -> a = a' /\ b = b'.
Proof.
  intros Hb Hb' E. set (f := fun x => negb (bool_decide (x = x3a))).
  assert (forall a b, Forall (fun x => x <> x3a) b ->
            take_while f (reverse (a ++ x3a :: b)) = reverse b /\ skip_while f (reverse (a ++ x3a :: b)) = x3a :: reverse a) as Hr.
  { intros a0 b0 Hb0. rewrite reverse_app, reverse_cons, <- app_assoc. cbn [app]. apply take_while_app; [|done].
    apply Forall_reverse. eapply Forall_impl; [exact Hb0|]. cbn. intros x Hx. unfold f. by rewrite bool_decide_false. }
  destruct (Hr a b Hb) as [T S]. destruct (Hr a' b' Hb') as [T' S']. rewrite <- E, T in T'. rewrite <- E, S in S'. injection S' as S'. by split; apply (inj reverse).
Qed.

Lemma key_inj i p i' p' : 0 <= p < 2 ^ 64 -> 0 <= p' < 2 ^ 64 -> key i p = key i' p' -> i = i' /\ p = p'.
Proof.
  intros Hp Hp' E. destruct (nat_to_string_spec p) as (D & V & _); [lia|]. destruct (nat_to_string_spec p') as (D' & V' & _); [lia|].
  assert (forall ds, Forall (fun c => is_digit c = true) ds -> Forall (fun x => x <> x3a) ds) as Hd
    by (intros ds Hds; eapply Forall_impl; [exact Hds|]; by intros x Hx ->).
  destruct (last_colon _ _ _ _ (Hd _ D) (Hd _ D') E) as [-> En]. split; [done|]. by rewrite <- V, <- V', En.
Qed.

Lemma add_contains i p src i' p' l :
  0 <= p < 2 ^ 16 -> 0 <= p' < 2 ^ 16 ->
  contains i' p' (add i p src l).2 = contains i' p' l || (bool_decide (i' = i /\ p' = p) && negb (zlen i =? 0) && negb (p =? 0)).
Proof.
  intros Hp Hp'. unfold add. destruct (zlen i =? 0), (p =? 0); cbn [orb negb]; rewrite ?andb_false_r, ?orb_false_r; try done.
  rewrite !andb_true_r. unfold contains.
  assert (forall x, is_Some (<[key i p := x]> l !! key i' p') <-> is_Some (l !! key i' p') \/ (i' = i /\ p' = p)) as Hx.
  { intros x. rewrite lookup_insert_is_Some. split; [intros [E|[_ ?]]; [|by left]; right; apply key_inj in E as [-> ->]; [done|lia..]|].
    intros [?|[-> ->]]; [|by left]. destruct (decide (key i p = key i' p')); [by left|by right]. }
  destruct (l !! key i p) as [q|]; cbn [snd]; rewrite <- bool_decide_or; by apply bool_decide_ext.
Qed.


(** A peer that the tracker and the DHT told of, and one only heard of in a peer exchange. *)
Definition demo_list : PeerList :=
  (add (lit "10.0.0.2") 6881 Pex (add (lit "10.0.0.1") 6881 Dht (add (lit "10.0.0.1") 6881 Tracker ∅).2).2).2.


(** The sources are compared as numbers: the peer only heard of in a peer exchange comes before
    the one that the tracker and the DHT vouch for. *)
Example exchange_outranks : (connect_candidates 1 demo_list).1 = [mkEndpoint (lit "10.0.0.2") 6881].
Proof. vm_compute. reflexivity. Qed.

End peer_list.
