(* ===== verification/Torrent.v ===== *)
(** The part of a torrent session ([bittorrent/torrent.{h,cpp}]) that talks the extension protocol
    with its peers: the extended handshake, fetching the info dictionary of a magnet link from
    peers and serving it, and peer exchange.

    The state is that of this part: the connections, the list of addresses, what peers told of
    themselves and the buffer of the dictionary. Pieces, choking, trackers and the disk are not
    in it; [promote_to_downloading] is the change of state it begins with. A connection that
    closes is removed at once, as [PeerConnection::close] calls [on_closed]; which sends close a
    connection is decided by the environment. A loop over a vector, or through an iterator, that
    a close has changed is undefined. *)

From Stdlib Require Import Strings.String.
From S2P Require Import Prelude Text PeerId Address DhtId Bencode Krpc KrpcCodec KrpcRoundtrip.
From S2P Require Import Words Sha1 PiecePicker FileStorage InfoSpan Magnet TorrentInfo Extensions PeerList.

Module torrent.

Definition kMaxPeers : Z := 50.
Definition kMetadataPieceSize : Z := 16384.
Definition kMaxMetadataSize : Z := 4194304.

Inductive State := Stopped | Metadata | Checking | Downloading | Seeding.

(** What a connection object knows, of what is used here. *)
Record Conn := mkConn { remote_ip : list byte; remote_port : Z; closed : bool }.

Record Torrent := mkTorrent {
  info : torrent_info.TorrentInfo;
  state : State;
  running : bool;
  paused : bool;
  has_metadata : bool;
  peers : list nat;
  peer_ext : gmap nat ext.PeerExtensions;
  known : peer_list.PeerList;
  metadata_buf : list byte;
  metadata_size : Z;
  metadata_pieces : Z;
  metadata_received : Z;
  metadata_have : list bool;
  conns : gmap nat Conn;
  sent : list (nat * Z * list byte);       (* extension messages handed to connections *)
  dialled : list peer_list.Endpoint;       (* calls of [connect_peer] *)
}.

(** The environment: what the buffer of a hash holds, how many steps of the scanner the stack
    allows, the port, and whether a send (counted from the first) closes the connection. *)
Record Env := mkEnv { mem : list byte; steps : nat; own_port : Z; send_fails : nat -> bool }.

Definition set_peers (ps : list nat) (m : gmap nat ext.PeerExtensions) (t : Torrent) : Torrent :=
  mkTorrent (info t) (state t) (running t) (paused t) (has_metadata t) ps m (known t) (metadata_buf t) (metadata_size t)
    (metadata_pieces t) (metadata_received t) (metadata_have t) (conns t) (sent t) (dialled t).
Definition set_net (k : peer_list.PeerList) (cs : gmap nat Conn) (out : list (nat * Z * list byte)) (eps : list peer_list.Endpoint) (t : Torrent) : Torrent :=
  mkTorrent (info t) (state t) (running t) (paused t) (has_metadata t) (peers t) (peer_ext t) k (metadata_buf t) (metadata_size t)
    (metadata_pieces t) (metadata_received t) (metadata_have t) cs out eps.
Definition set_buffer (buf : list byte) (size pieces received : Z) (have : list bool) (t : Torrent) : Torrent :=
  mkTorrent (info t) (state t) (running t) (paused t) (has_metadata t) (peers t) (peer_ext t) (known t) buf size pieces received have
    (conns t) (sent t) (dialled t).
Definition set_info (i : torrent_info.TorrentInfo) (s : State) (b : bool) (t : Torrent) : Torrent :=
  mkTorrent i s (running t) (paused t) b (peers t) (peer_ext t) (known t) (metadata_buf t) (metadata_size t) (metadata_pieces t)
    (metadata_received t) (metadata_have t) (conns t) (sent t) (dialled t).
Definition set_mode (s : State) (run pause : bool) (t : Torrent) : Torrent :=
  mkTorrent (info t) s run pause (has_metadata t) (peers t) (peer_ext t) (known t) (metadata_buf t) (metadata_size t) (metadata_pieces t)
    (metadata_received t) (metadata_have t) (conns t) (sent t) (dialled t).

(** A torrent after [start], with no peers yet. *)
Definition started (i : torrent_info.TorrentInfo) : Torrent :=
  mkTorrent i (if torrent_info.has_metadata i then Checking else Metadata) true false (torrent_info.has_metadata i) [] ∅ ∅ [] 0 0 0 [] ∅ [] [].

(** * Connections *)

(** Only the first one is erased, and nothing happens without one. *)
Fixpoint erase_first (c : nat) (ps : list nat) : list nat :=
  match ps with
  | [] => []
  | p :: ps => if bool_decide (p = c) then ps else p :: erase_first c ps
  end.

Definition remove_peer (c : nat) (t : Torrent) : Torrent :=
  if bool_decide (c ∈ peers t) then set_peers (erase_first c (peers t)) (delete c (peer_ext t)) t else t.

Definition on_closed (c : nat) (k : Conn) (t : Torrent) : Torrent :=
  remove_peer c (set_net (peer_list.set_connected (remote_ip k) (remote_port k) false (known t)) (conns t) (sent t) (dialled t) t).

Definition close (c : nat) (t : Torrent) : Torrent :=
  match conns t !! c with
  | None => t
  | Some k =>
      if closed k then t
      else on_closed c k (set_net (known t) (<[c := mkConn (remote_ip k) (remote_port k) true]> (conns t)) (sent t) (dialled t) t)
  end.

(** [send_extended]: nothing leaves a closed connection. *)
Definition send_extended (e : Env) (c : nat) (id : Z) (payload : list byte) (t : Torrent) : Torrent :=
  match conns t !! c with
  | None => t
  | Some k =>
      if closed k then t
      else
        let t' := set_net (known t) (conns t) (sent t ++ [(c, id, payload)]) (dialled t) t in
        if send_fails e (length (sent t)) then close c t' else t'
  end.

(** A loop over [peers_] itself. *)
Fixpoint for_live (todo : list nat) (f : nat -> Torrent -> outcome Torrent) (t : Torrent) : outcome Torrent :=
  match todo with
  | [] => Ret t
  | c :: todo =>
      t' ← f c t;
      if bool_decide (peers t' = peers t) then for_live todo f t' else UB
  end.

(** What an encoder returns; it does not fail. *)
Definition encoded (x : option (list byte)) : outcome (list byte) := match x with Some p => Ret p | None => UB end.

(** * Metadata *)

Definition send_extended_handshake (e : Env) (c : nat) (t : Torrent) : outcome Torrent :=
  let ms := if has_metadata t then u32 (zlen (torrent_info.info_dict_bytes (info t))) else 0 in
  hs ← encoded (ext.encode_handshake ms (own_port e));
  Ret (send_extended e c 0 hs t).

Definition ensure_metadata_buffer (total : Z) (t : Torrent) : Torrent :=
  if negb (metadata_size t =? 0) || (total =? 0) then t
  else if kMaxMetadataSize <? total then t
  else
    let n := u32 (total + kMetadataPieceSize - 1) / kMetadataPieceSize in
    set_buffer (replicate (Z.to_nat total) x00) total n 0 (replicate (Z.to_nat n) false) t.

(** The loop of [request_metadata] over the piece numbers; the entry of the peer is read through
    an iterator. *)
Fixpoint request_loop (e : Env) (c : nat) (ps : list Z) (t : Torrent) : outcome Torrent :=
  match ps with
  | [] => Ret t
  | p :: ps =>
      match zlookup (metadata_have t) p with
      | None => UB
      | Some true => request_loop e c ps t
      | Some false =>
          match peer_ext t !! c with
          | None => UB
          | Some x =>
              rq ← encoded (ext.encode_metadata_request p);
              request_loop e c ps (send_extended e c (ext.ut_metadata_id x) rq t)
          end
      end
  end.

Definition zseq (n : Z) : list Z := Z.of_nat <$> seq 0 (Z.to_nat n).

Definition request_metadata (e : Env) (c : nat) (t : Torrent) : outcome Torrent :=
  if has_metadata t || (metadata_pieces t =? 0) then Ret t
  else match peer_ext t !! c with
       | None => Ret t
       | Some x => if ext.ut_metadata_id x =? 0 then Ret t else request_loop e c (zseq (metadata_pieces t)) t
       end.

Definition handle_ext_handshake (e : Env) (c : nat) (payload : list byte) (t : Torrent) : outcome Torrent :=
  match ext.decode_handshake payload with
  | None => Ret t
  | Some pe =>
      let t := set_peers (peers t) (<[c := pe]> (peer_ext t)) t in
      if negb (has_metadata t) && (0 <? ext.metadata_size pe)
      then request_metadata e c (ensure_metadata_buffer (ext.metadata_size pe) t)
      else Ret t
  end.

Definition promote_to_downloading (t : Torrent) : Torrent := set_mode Downloading (running t) (paused t) t.

Definition try_complete_metadata (e : Env) (t : Torrent) : outcome Torrent :=
  '(ok, i) ← torrent_info.set_metadata (mem e) (metadata_buf t) (info t);
  if (ok : bool) then Ret (promote_to_downloading (set_info i (state t) true t))
  else
    let t := set_buffer (metadata_buf t) (metadata_size t) (metadata_pieces t) 0 (replicate (length (metadata_have t)) false) t in
    for_live (peers t) (request_metadata e) t.

Definition on_metadata_piece (e : Env) (piece total : Z) (block : list byte) (t : Torrent) : outcome Torrent :=
  if has_metadata t then Ret t
  else
    let t := ensure_metadata_buffer total t in
    if (metadata_size t =? 0) || (metadata_pieces t <=? piece) then Ret t
    else match zlookup (metadata_have t) piece with
         | None => UB
         | Some true => Ret t
         | Some false =>
             let off := u32 (piece * kMetadataPieceSize) in
             let expect := Z.min kMetadataPieceSize (u32 (metadata_size t - off)) in
             if negb (zlen block =? expect) then Ret t
             else if zlen (metadata_buf t) <? off + expect then UB
             else
               let buf := ztake off (metadata_buf t) ++ block ++ zdrop (off + expect) (metadata_buf t) in
               let received := u32 (metadata_received t + 1) in
               let t := set_buffer buf (metadata_size t) (metadata_pieces t) received
                          (<[Z.to_nat piece := true]> (metadata_have t)) t in
               if received =? metadata_pieces t then try_complete_metadata e t else Ret t
         end.

Definition handle_ut_metadata (e : Env) (c : nat) (payload : list byte) (t : Torrent) : outcome Torrent :=
  match ext.decode_metadata (steps e) payload with
  | None => UB
  | Some None => Ret t
  | Some (Some msg) =>
      if ext.mtype msg =? ext.Request then
        let id := match peer_ext t !! c with Some x => ext.ut_metadata_id x | None => 0 end in
        if id =? 0 then Ret t
        else
          let bytes := torrent_info.info_dict_bytes (info t) in
          let total := u32 (zlen bytes) in
          let pieces := u32 (total + kMetadataPieceSize - 1) / kMetadataPieceSize in
          if has_metadata t && (ext.piece msg <? pieces) then
            let off := u32 (ext.piece msg * kMetadataPieceSize) in
            let len := Z.min kMetadataPieceSize (u32 (total - off)) in
            if zlen bytes <? off + len then UB
            else
              da ← encoded (ext.encode_metadata_data (ext.piece msg) total (ztake len (zdrop off bytes)));
              Ret (send_extended e c id da t)
          else
            rj ← encoded (ext.encode_metadata_reject (ext.piece msg));
            Ret (send_extended e c id rj t)
      else if ext.mtype msg =? ext.Data then on_metadata_piece e (ext.piece msg) (ext.total_size msg) (ext.block msg) t
      else Ret t
  end.

(** * Peer exchange *)

Section Dialling.
Context `{peer_list.Sorting}.

Definition try_connect (t : Torrent) : Torrent :=
  if negb (running t) || paused t || (kMaxPeers <=? zlen (peers t)) then t
  else
    let '(eps, k) := peer_list.connect_candidates (kMaxPeers - zlen (peers t)) (known t) in
    set_net k (conns t) (sent t) (dialled t ++ eps) t.

(** The loop over the peers added: whether one was new, and the list after. *)
Definition learn_peers (added : list ext.PexPeer) (k : peer_list.PeerList) : bool * peer_list.PeerList :=
  foldl (fun '(any, k) p => let '(new, k) := peer_list.add (ext.pex_ip p) (ext.pex_port p) peer_list.Pex k in (any || new, k)) (false, k) added.

Definition handle_pex (payload : list byte) (t : Torrent) : Torrent :=
  match ext.decode_pex payload with
  | None => t
  | Some msg =>
      let '(any, k) := learn_peers (ext.added msg) (known t) in
      let t := set_net k (conns t) (sent t) (dialled t) t in
      if (any : bool) then try_connect t else t
  end.

(** Whether [try_connect] is posted, and the torrent after. *)
Definition add_peer (i : list byte) (p : Z) (t : Torrent) : bool * Torrent :=
  let '(new, k) := peer_list.add i p peer_list.Tracker (known t) in
  (new && running t && negb (paused t), set_net k (conns t) (sent t) (dialled t) t).

Definition on_connect_failed (i : list byte) (p : Z) (t : Torrent) : Torrent :=
  set_net (peer_list.on_connect_failed i p (known t)) (conns t) (sent t) (dialled t) t.

(** * Events *)

Definition on_extended (e : Env) (c : nat) (id : Z) (payload : list byte) (t : Torrent) : outcome Torrent :=
  if id =? 0 then handle_ext_handshake e c payload t
  else if id =? ext.kUtMetadataLocalId then handle_ut_metadata e c payload t
  else if id =? ext.kUtPexLocalId then Ret (handle_pex payload t)
  else Ret t.

(** A connection whose handshake is complete. *)
Definition on_handshake (e : Env) (c : nat) (k : Conn) (extensions : bool) (t : Torrent) : outcome Torrent :=
  if paused t then Ret (close c t)
  else if kMaxPeers <=? zlen (peers t) then Ret (close c t)
  else
    let t := set_peers (peers t ++ [c]) (peer_ext t) t in
    let t := set_net (peer_list.set_connected (remote_ip k) (remote_port k) true (known t)) (conns t) (sent t) (dialled t) t in
    if extensions then send_extended_handshake e c t else Ret t.

Definition drop_peers (t : Torrent) : outcome Torrent := for_live (peers t) (fun c t => Ret (close c t)) t.

Definition pause (t : Torrent) : outcome Torrent :=
  if negb (running t) || paused t then Ret t
  else
    t ← drop_peers (set_mode (state t) (running t) true t);
    Ret (set_peers [] ∅ t).

Definition resume (t : Torrent) : Torrent :=
  if negb (running t) || negb (paused t) then t else try_connect (set_mode (state t) (running t) false t).

Definition stop (t : Torrent) : outcome Torrent :=
  if negb (running t) then Ret t
  else
    t ← drop_peers (set_mode (state t) false false t);
    Ret (set_mode Stopped (running t) (paused t) (set_peers [] (peer_ext t) t)).

Inductive Event :=
  | Joined (c : nat) (k : Conn) (extensions : bool)
  | Extended (c : nat) (id : Z) (payload : list byte)
  | Gone (c : nat)
  | Paused
  | Resumed
  | Heard (i : list byte) (p : Z)
  | Dial
  | Unreachable (i : list byte) (p : Z).

(** A new connection object is none of the old ones, and only open connections speak. [Dial] is
    the posted call of [try_connect], which may come at any time. *)
Definition step (e : Env) (ev : Event) (t : Torrent) : outcome Torrent :=
  match ev with
  | Joined c k x =>
      match conns t !! c with
      | Some _ => Ret t
      | None => on_handshake e c k x (set_net (known t) (<[c := mkConn (remote_ip k) (remote_port k) false]> (conns t)) (sent t) (dialled t) t)
      end
  | Extended c id payload =>
      match conns t !! c with
      | Some k => if closed k then Ret t else on_extended e c id payload t
      | None => Ret t
      end
  | Gone c => Ret (close c t)
  | Paused => pause t
  | Resumed => Ret (resume t)
  | Heard i p => Ret (add_peer i p t).2
  | Dial => Ret (try_connect t)
  | Unreachable i p => Ret (on_connect_failed i p t)
  end.

Fixpoint run (e : Env) (evs : list Event) (t : Torrent) : outcome Torrent :=
  match evs with
  | [] => Ret t
  | ev :: evs => t ← step e ev t; run e evs t
  end.

End Dialling.

End torrent.
