(* ===== verification/TorrentProofs.v ===== *)
(** What is proved about fetching metadata from peers: whatever they send, only a dictionary with
    the hash of the torrent is taken; an exchange with a peer that has it completes; and two
    ways in which it does not. *)

From Stdlib Require Import Strings.String.
From S2P Require Import Prelude Text PeerId Address DhtId Bencode Krpc KrpcCodec KrpcRoundtrip.
From S2P Require Import Words Sha1 Sha1Proofs PiecePicker FileStorage InfoSpan Magnet TorrentInfo TorrentInfoProofs Extensions PeerList Torrent.
Import torrent.

Module torrent_invariant.

(** * Ends with a result, or for a cause *)

Definition ends {A} (cause : Prop) (m : outcome A) (P : A -> Prop) : Prop :=
  match m with Ret a => P a | UB => cause | BadAlloc => False end.

Lemma ends_bind {A B} cause (m : outcome A) (k : A -> outcome B) P R :
  ends cause m P -> (forall a, P a -> ends cause (k a) R) -> ends cause (m ≫= k) R.
Proof. destruct m; cbn; auto. Qed.

Lemma ends_mono {A} (c c' : Prop) (m : outcome A) (P P' : A -> Prop) : (c -> c') -> (forall a, P a -> P' a) -> ends c m P -> ends c' m P'.
Proof. destruct m; cbn; auto. Qed.

(** * What the connections do not touch *)

Definition core (t : Torrent) := (info t, has_metadata t, (metadata_buf t, metadata_size t, metadata_pieces t, metadata_received t, metadata_have t)).

Lemma erase_first_le c ps : zlen (erase_first c ps) <= zlen ps.
Proof. induction ps as [|p ps IH]; cbn [erase_first]; [done|]. case_bool_decide; zlia. Qed.

(** The core is kept, no peer is added, and nothing at all is lost among the peers unless the
    connection is closed. *)
Definition quiet_step (t t' : Torrent) : Prop := core t' = core t /\ zlen (peers t') <= zlen (peers t).

Lemma close_quiet c t : quiet_step t (close c t).
Proof.
  unfold close. destruct (conns t !! c) as [k|]; [|done]. destruct (closed k); [done|]. unfold on_closed, remove_peer.
  cbn [peers set_net]. case_bool_decide; [|done]. split; [done|]. cbn [peers set_peers set_net]. apply erase_first_le.
Qed.

Lemma send_quiet e c id p t :
  quiet_step t (send_extended e c id p t)
  /\ ((exists n, send_fails e n = true) \/ peers (send_extended e c id p t) = peers t /\ peer_ext (send_extended e c id p t) = peer_ext t).
Proof.
  unfold send_extended. destruct (conns t !! c) as [k|]; [|split; [done|by right]]. destruct (closed k); [split; [done|by right]|]. cbv zeta.
  destruct (send_fails e (length (sent t))) eqn:Ef; [|split; [done|by right]]. split; [|left; by eexists].
  match goal with |- quiet_step _ (close c ?x) => exact (close_quiet c x) end.
Qed.

Lemma quiet_step_trans t1 t2 t3 : quiet_step t1 t2 -> quiet_step t2 t3 -> quiet_step t1 t3.
Proof. intros [E1 L1] [E2 L2]. split; [congruence|lia]. Qed.

(** What may go wrong: a send that closes its connection, ... *)
Definition send_trouble (e : Env) : Prop := exists n, send_fails e n = true.

Lemma encode_request_Some p : 0 <= p < 2 ^ 32 -> exists d, ext.encode_metadata_request p = Some d.
Proof. intros Hp. destruct (ext.metadata_header ext.Request p None) as (d & E & _); [done|done|done|]. by eexists. Qed.

Lemma request_pieces_ok e c ps : forall t,
  Forall (fun p => 0 <= p < zlen (metadata_have t)) ps -> zlen (metadata_have t) < 2 ^ 32 -> send_trouble e \/ is_Some (peer_ext t !! c) ->
  ends (send_trouble e) (request_loop e c ps t) (fun t' => quiet_step t t' /\ (send_trouble e \/ peers t' = peers t)).
Proof.
  induction ps as [|p ps IH]; intros t Hps Hlen Hx; cbn [request_loop]; [split; [done|by right]|]. apply Forall_cons in Hps as [Hp Hps].
  destruct (zlookup_lt (metadata_have t) p Hp) as [[] ->]; [by apply IH|].
  destruct (peer_ext t !! c) as [x|] eqn:Ex; [|by destruct Hx as [?|[? [=]]]].
  destruct (encode_request_Some p ltac:(lia)) as [rq ->]. cbn [encoded mbind outcome_bind].
  destruct (send_quiet e c (ext.ut_metadata_id x) rq t) as [Hq Hs]. set (t1 := send_extended _ _ _ _ _) in *. pose proof Hq as [Hc _].
  assert (metadata_have t1 = metadata_have t) as Eh by (by injection Hc).
  eapply ends_mono; [intros H; exact H| |apply (IH t1); [by rewrite Eh|by rewrite Eh|]].
  - intros t' [Hq' Hp']. split; [by eapply quiet_step_trans|]. destruct Hs as [Hf|[Ep _]]; [by left|]. rewrite <- Ep. exact Hp'.
  - destruct Hs as [Hf|[_ ->]]; [by left|]. rewrite Ex. right. by eexists.
Qed.

(** * The invariant *)

(** The buffer is as long as the size that was announced first, at most four mebibytes. *)
Definition buffer_ok (t : Torrent) : Prop :=
  (metadata_size t = 0 /\ metadata_pieces t = 0 /\ metadata_buf t = [])
  \/ (0 < metadata_size t <= kMaxMetadataSize /\ metadata_pieces t = (metadata_size t + kMetadataPieceSize - 1) / kMetadataPieceSize
      /\ zlen (metadata_buf t) = metadata_size t /\ zlen (metadata_have t) = metadata_pieces t).

(** Metadata that is taken has the hash of the torrent. *)
Definition authentic (h : list byte) (t : Torrent) : Prop :=
  torrent_info.info_hash (info t) = h
  /\ (has_metadata t = true -> torrent_proofs.accepted (info t) /\ h = sha1.sha1_ref (torrent_info.info_dict_bytes (info t))).

(** A size of the buffer stays, and is that of the metadata that is taken; [n] is the size, or zero
    while there is none. *)
Definition sized (n : Z) (t : Torrent) : Prop :=
  n <> 0 -> metadata_size t = n /\ (has_metadata t = true -> zlen (torrent_info.info_dict_bytes (info t)) = n).

Definition Inv (h : list byte) (n : Z) (t : Torrent) : Prop := (authentic h t /\ sized n t) /\ buffer_ok t /\ zlen (peers t) <= kMaxPeers.

Lemma quiet_Inv h n t t' : quiet_step t t' -> Inv h n t -> Inv h n t'.
Proof.
  intros [Hc Hl] (Ha & Hb & Hp). unfold core in Hc. injection Hc as E1 E2 E3 E4 E5 E6 E7. unfold Inv, authentic, buffer_ok in *.
  unfold sized in *. rewrite E1, E2, E3, E4, E5, E7. split_and!; [apply Ha..|done|lia].
Qed.

Lemma request_metadata_ok e c h n t :
  Inv h n t -> ends (send_trouble e) (request_metadata e c t) (fun t' => quiet_step t t' /\ (send_trouble e \/ peers t' = peers t)).
Proof.
  intros (_ & Hb & _). unfold request_metadata. destruct (has_metadata t); cbn [orb]; [split; [done|by right]|].
  destruct (Z.eqb_spec (metadata_pieces t) 0); [split; [done|by right]|]. destruct (peer_ext t !! c) as [x|] eqn:Ex; [|split; [done|by right]].
  destruct (_ =? 0); [split; [done|by right]|]. destruct Hb as [(_ & ? & _)|(Hs & Hn & _ & Hh)]; [done|].
  assert (metadata_pieces t < 2 ^ 32).
  { rewrite Hn. apply Z.div_lt_upper_bound; unfold kMetadataPieceSize, kMaxMetadataSize in *; lia. }
  apply request_pieces_ok; [|lia|right; by eexists]. rewrite Hh. unfold zseq. apply Forall_fmap, Forall_seq. cbn. intros j Hj. lia.
Qed.

Lemma for_live_ok e h n f todo : forall t,
  (forall c t, Inv h n t -> ends (send_trouble e) (f c t) (fun t' => quiet_step t t' /\ (send_trouble e \/ peers t' = peers t))) ->
  Inv h n t -> ends (send_trouble e) (for_live todo f t) (fun t' => quiet_step t t').
Proof.
  induction todo as [|c todo IH]; intros t Hf Ht; cbn [for_live]; [done|]. eapply ends_bind; [by apply Hf|].
  intros t1 [Hq Hp]. case_bool_decide as Ep; [|by destruct Hp].
  eapply ends_mono; [intros H; exact H| |apply IH; [done|by eapply quiet_Inv]]. intros t2 Hq2. by eapply quiet_step_trans.
Qed.

Lemma ensure_Inv h n total t : 0 <= total -> Inv h n t -> Inv h n (ensure_metadata_buffer total t).
Proof.
  intros Ht (Ha & Hb & Hp). unfold ensure_metadata_buffer. destruct (Z.eqb_spec (metadata_size t) 0) as [Es|]; cbn [negb orb]; [|done].
  destruct (Z.eqb_spec total 0); [done|]. destruct (Z.ltb_spec kMaxMetadataSize total); [done|]. split; [split; [apply Ha|intros Hn; destruct (proj2 Ha Hn); congruence]|]. split; [|done]. right.
  unfold kMaxMetadataSize, kMetadataPieceSize in *. cbn [metadata_size metadata_pieces metadata_buf metadata_have set_buffer].
  rewrite u32_small by lia. assert (0 <= (total + 16384 - 1) / 16384) by (apply Z.div_pos; lia).
  split_and!; [lia|lia|done| |]; unfold zlen; rewrite length_replicate; lia.
Qed.

(** The buffer with a block written at its place. *)
Definition stored (piece : Z) (block : list byte) (t : Torrent) : list byte :=
  ztake (piece * kMetadataPieceSize) (metadata_buf t) ++ block ++ zdrop (piece * kMetadataPieceSize + zlen block) (metadata_buf t).

Definition overflowing (b : list byte) : Prop := exists i, bencode.decode_full b = Some i /\ torrent_proofs.overflows i.

Lemma try_complete_ok e h n t :
  zlen (mem e) = 64 -> magnet.is_all_zero h = false -> has_metadata t = false -> Inv h n t ->
  ends (send_trouble e \/ overflowing (metadata_buf t)) (try_complete_metadata e t) (Inv h n).
Proof.
  intros Hm Hz Hn Ht. pose proof Ht as (([Hh _] & Hsz) & Hb & Hp). unfold try_complete_metadata.
  assert (zlen (metadata_buf t) < 2 ^ 60) as Hl.
  { destruct Hb as [(_ & _ & ->)|(? & _ & -> & _)]; [done|]. unfold kMaxMetadataSize in *. lia. }
  pose proof (torrent_proofs.set_metadata_ok (mem e) (metadata_buf t) (info t) Hm Hl) as H.
  destruct (torrent_info.set_metadata _ _ _) as [[[] i]| |]; cbn [mbind outcome_bind ends]; [| |done|by right].
  - destruct H as (Ha & Eh & Eb & Hv). split; [|done]. split; [split; [by rewrite <- Hh|]; intros _; split; [done|]|]; unfold sized;
      cbn [info metadata_size promote_to_downloading set_mode set_info]; rewrite Eb.
    + rewrite <- Hh. apply Hv. unfold torrent_info.is_valid. by rewrite Hh, Hz.
    + intros Hn0. destruct (Hsz Hn0) as [Es _]. split; [done|]. intros _. destruct Hb as [(? & _)|(_ & _ & -> & _)]; [congruence|done].
  - set (t1 := set_buffer _ _ _ _ _ t). assert (Inv h n t1) as H1.
    { split; [split; [split; [exact Hh|intros E; cbn in E; congruence]|exact Hsz]|]. split; [|exact Hp]. unfold buffer_ok in *. cbn. destruct Hb as [?|(? & ? & ? & Hv)]; [by left|right].
      split; [done|]. split; [done|]. split; [done|]. unfold zlen in *. by rewrite length_replicate. }
    eapply ends_mono; [intros Hc; left; exact Hc| |apply (for_live_ok e h n); [|exact H1]].
    + intros t2 Hq. by eapply quiet_Inv.
    + intros c t2. apply request_metadata_ok.
Qed.

Lemma piece_range t p :
  buffer_ok t -> metadata_size t <> 0 -> 0 <= p < metadata_pieces t ->
  0 <= p * kMetadataPieceSize < metadata_size t /\ metadata_size t <= kMaxMetadataSize
  /\ zlen (metadata_buf t) = metadata_size t /\ zlen (metadata_have t) = metadata_pieces t.
Proof.
  intros [(? & _)|(Hs & Hn & Hb & Hh)] Hne Hp; [done|]. split_and!; try lia; unfold kMetadataPieceSize in *; [lia|].
  rewrite Hn in Hp. pose proof (Z.mul_div_le (metadata_size t + 16384 - 1) 16384 ltac:(lia)). nia.
Qed.

Lemma on_metadata_piece_ok e h n p total block t :
  zlen (mem e) = 64 -> magnet.is_all_zero h = false -> 0 <= p -> 0 <= total -> Inv h n t ->
  ends (send_trouble e \/ overflowing (stored p block (ensure_metadata_buffer total t))) (on_metadata_piece e p total block t) (Inv h n).
Proof.
  intros Hm Hz Hp Htot Ht. unfold on_metadata_piece. destruct (has_metadata t) eqn:Hmd; [done|]. apply (ensure_Inv h n total) in Ht; [|done].
  assert (has_metadata (ensure_metadata_buffer total t) = false) as Hmd1 by (unfold ensure_metadata_buffer; by repeat case_match).
  set (t1 := ensure_metadata_buffer total t) in *. clearbody t1. pose proof Ht as (Ha & Hb & Hps). cbv zeta.
  destruct (Z.eqb_spec (metadata_size t1) 0); cbn [orb]; [done|]. destruct (Z.leb_spec (metadata_pieces t1) p); [done|].
  destruct (piece_range t1 p Hb ltac:(done) ltac:(lia)) as (Hr & Hk & Hlb & Hlh). destruct (zlookup_lt (metadata_have t1) p ltac:(lia)) as [[] ->]; [done|].
  unfold kMetadataPieceSize, kMaxMetadataSize in *. rewrite (u32_small (p * 16384)), (u32_small (metadata_size t1 - _)) by lia.
  destruct (Z.eqb_spec (zlen block) (Z.min 16384 (metadata_size t1 - p * 16384))) as [El|]; cbn [negb]; [|done]. rewrite <- El.
  destruct (Z.ltb_spec (zlen (metadata_buf t1)) (p * 16384 + zlen block)); [lia|].
  set (t2 := set_buffer _ _ _ _ _ t1). assert (Inv h n t2) as H2.
  { split; [split; [split; [apply Ha|intros E; cbn in E; congruence]|exact (proj2 Ha)]|]. split; [|exact Hps]. right.
    destruct Hb as [(? & _)|(Hs & Hn & _ & _)]; [done|]. cbn [t2 metadata_size metadata_pieces metadata_buf metadata_have set_buffer].
    split_and!; [lia|unfold kMaxMetadataSize; lia|done| |].
    - rewrite !zlen_app, zlen_ztake, zlen_zdrop by lia. lia.
    - unfold zlen in *. by rewrite length_insert. }
  destruct (_ =? metadata_pieces t2); [|exact H2]. exact (try_complete_ok e h n t2 Hm Hz Hmd1 H2).
Qed.

(** * Handlers *)

Lemma decode_metadata_range fuel p msg :
  ext.decode_metadata fuel p = Some (Some msg) -> 0 <= ext.piece msg < 2 ^ 32 /\ 0 <= ext.total_size msg < 2 ^ 32.
Proof.
  unfold ext.decode_metadata. destruct (ext.bencode_value_length fuel p 0) as [n|]; cbn [mbind option_bind]; [|done]. destruct (n =? 0); [done|].
  intros [= E]. unfold ext.read_metadata in E. destruct (bencode.decode_full _) as [d|]; cbn [mbind option_bind] in E; [|done].
  destruct (bencode.as_dict d); cbn [mbind option_bind] in E; [|done]. destruct (ext.find_int d (lit "msg_type")) as [ty|]; cbn [mbind option_bind] in E; [|done].
  destruct (ext.find_int d (lit "piece")) as [pc|]; cbn [mbind option_bind] in E; [|done].
  pose proof (Z.mod_pos_bound pc (2 ^ 32) ltac:(lia)). destruct (_ =? ext.Data); injection E as <-; cbn [ext.piece ext.total_size]; (split; [done|]); [|lia].
  destruct (ext.find_int d (lit "total_size")) as [n'|]; [|lia]. apply Z.mod_pos_bound. lia.
Qed.

Lemma serving_range (len p : Z) :
  0 <= len -> 0 <= p < u32 (u32 len + kMetadataPieceSize - 1) / kMetadataPieceSize ->
  let off := u32 (p * kMetadataPieceSize) in
  off = p * kMetadataPieceSize /\ off < u32 len <= len /\ u32 (u32 len - off) = u32 len - off.
Proof.
  unfold kMetadataPieceSize. intros Hl [Hp0 Hp]. cbv zeta. assert (0 <= u32 len < 2 ^ 32) by (apply Z.mod_pos_bound; lia).
  assert (u32 len <= len) by (apply Z.mod_le; lia). set (n := u32 len) in *. clearbody n.
  assert (p * 16384 < n).
  { destruct (Z.lt_ge_cases (n + 16384 - 1) (2 ^ 32)) as [Hlt|Hge].
    - rewrite u32_small in Hp by lia. pose proof (Z.mul_div_le (n + 16384 - 1) 16384 ltac:(lia)). nia.
    - assert (u32 (n + 16384 - 1) = n + 16384 - 1 - 2 ^ 32) as E by (unfold u32; symmetry; apply (Z.mod_unique_pos _ _ 1); lia).
      rewrite E, Z.div_small in Hp by lia. lia. }
  rewrite (u32_small (p * 16384)), (u32_small (n - _)) by lia. lia.
Qed.

Lemma send_Inv e c id p h n t : Inv h n t -> Inv h n (send_extended e c id p t).
Proof. intros Ht. by eapply quiet_Inv; [apply send_quiet|]. Qed.

Definition scan_trouble (e : Env) (p : list byte) (t : Torrent) : Prop :=
  match ext.decode_metadata (steps e) p with
  | None => True
  | Some None => False
  | Some (Some msg) => overflowing (stored (ext.piece msg) (ext.block msg) (ensure_metadata_buffer (ext.total_size msg) t))
  end.

Lemma encode_metadata_Some ty p total :
  0 <= ty < 256 -> 0 <= p < 2 ^ 32 -> (forall n, total = Some n -> ext.u32_ok n) -> exists d, ext.encode_metadata ty p total = Some d.
Proof. intros Hty Hp Ht. destruct (ext.metadata_header ty p total Hty Hp Ht) as (d & E & _). by eexists. Qed.

Lemma handle_ut_metadata_ok e h n c p t :
  zlen (mem e) = 64 -> magnet.is_all_zero h = false -> Inv h n t ->
  ends (send_trouble e \/ scan_trouble e p t) (handle_ut_metadata e c p t) (Inv h n).
Proof.
  intros Hm Hz Ht. unfold handle_ut_metadata, scan_trouble. destruct (ext.decode_metadata (steps e) p) as [[msg|]|] eqn:Ed; [|done|by right].
  destruct (decode_metadata_range _ _ _ Ed) as [Hp Htot]. destruct (_ =? ext.Request).
  - destruct (match peer_ext t !! c with Some x => _ | None => _ end =? 0); [done|]. cbv zeta.
    set (bytes := torrent_info.info_dict_bytes (info t)). destruct (has_metadata t && _) eqn:Eb.
    + apply andb_prop in Eb as [_ Eb%Z.ltb_lt]. destruct (serving_range (zlen bytes) (ext.piece msg)) as (Eo & Hr & Es); [zlen_facts; lia|lia|].
      rewrite Eo in *. rewrite Es. destruct (Z.ltb_spec (zlen bytes) (ext.piece msg * kMetadataPieceSize + Z.min kMetadataPieceSize (u32 (zlen bytes) - ext.piece msg * kMetadataPieceSize))); [lia|].
      destruct (encode_metadata_Some ext.Data (ext.piece msg) (Some (u32 (zlen bytes)))) as [d E]; [done|lia|intros ? [= <-]; apply Z.mod_pos_bound; lia|].
      unfold ext.encode_metadata_data. rewrite E. cbn [mbind option_bind encoded outcome_bind ends]. by apply send_Inv.
    + destruct (encode_metadata_Some ext.Reject (ext.piece msg) None) as [d E]; [done|lia|done|]. unfold ext.encode_metadata_reject. rewrite E.
      cbn [encoded mbind outcome_bind ends]. by apply send_Inv.
  - destruct (_ =? ext.Data); [|done]. apply on_metadata_piece_ok; [done|done|lia|lia|done].
Qed.

Lemma handle_ext_handshake_ok e h n c p t : Inv h n t -> ends (send_trouble e) (handle_ext_handshake e c p t) (Inv h n).
Proof.
  intros Ht. unfold handle_ext_handshake. destruct (ext.decode_handshake p) as [pe|]; [|done]. cbv zeta. set (t1 := set_peers _ _ t).
  assert (Inv h n t1) as H1 by exact Ht. destruct (_ && _) eqn:Eb; [|exact H1]. apply andb_prop in Eb as [_ Eb%Z.ltb_lt].
  apply (ensure_Inv h n (ext.metadata_size pe)) in H1; [|lia]. eapply ends_mono; [intros H; exact H| |by apply (request_metadata_ok e c h n)].
  intros t2 [Hq _]. by eapply quiet_Inv.
Qed.

(** * Steps *)

Section Steps.
Context `{peer_list.Sorting} (e : Env) (h : list byte) (n : Z).
Hypothesis mem_ok : zlen (mem e) = 64.
Hypothesis hash_ok : magnet.is_all_zero h = false.
Hypothesis port_ok : 0 <= own_port e < 2 ^ 16.

(** Nothing but the addresses changes. *)
Lemma try_connect_quiet t : quiet_step t (try_connect t).
Proof. unfold try_connect. destruct (_ || _); [done|]. by destruct (peer_list.connect_candidates _ _). Qed.

Lemma handle_pex_quiet p t : quiet_step t (handle_pex p t).
Proof.
  unfold handle_pex. destruct (ext.decode_pex p) as [msg|]; [|done]. destruct (learn_peers _ _) as [[] k]; [|done].
  match goal with |- quiet_step _ (try_connect ?x) => exact (try_connect_quiet x) end.
Qed.

Lemma on_handshake_ok c k x t : Inv h n t -> ends (send_trouble e) (on_handshake e c k x t) (Inv h n).
Proof.
  intros Ht. unfold on_handshake. destruct (paused t); [by eapply quiet_Inv; [apply close_quiet|]|].
  destruct (Z.leb_spec kMaxPeers (zlen (peers t))) as [|Hlt]; [by eapply quiet_Inv; [apply close_quiet|]|]. cbv zeta. set (t1 := set_net _ _ _ _ _).
  assert (Inv h n t1) as H1.
  { destruct Ht as (Ha & Hb & _). split; [exact Ha|]. split; [exact Hb|]. cbn [t1 peers set_net set_peers]. rewrite zlen_app. change (zlen [c]) with 1. lia. }
  destruct x; [|exact H1]. unfold send_extended_handshake.
  destruct (ext.handshake_roundtrip (if has_metadata t1 then u32 (zlen (torrent_info.info_dict_bytes (info t1))) else 0) (own_port e)) as (hs & -> & _);
    [unfold ext.u32_ok; destruct (has_metadata t1); [apply Z.mod_pos_bound|]; lia|exact port_ok|].
  cbn [encoded mbind outcome_bind ends]. by apply send_Inv.
Qed.

Lemma drop_peers_quiet todo : forall t,
  ends (todo <> []) (for_live todo (fun c t => Ret (close c t)) t) (fun t' => quiet_step t t').
Proof.
  induction todo as [|c todo IH]; intros t; cbn [for_live mbind outcome_bind]; [done|]. case_bool_decide; [|done].
  eapply ends_mono; [| |apply IH]; [done|]. intros t' Hq. eapply quiet_step_trans; [apply close_quiet|done].
Qed.

(** What can go wrong in one step. *)
Definition step_trouble (ev : Event) (t : Torrent) : Prop :=
  send_trouble e
  \/ match ev with
     | Extended _ id p => id = ext.kUtMetadataLocalId /\ scan_trouble e p t
     | Paused => peers t <> []
     | _ => False
     end.

Lemma step_Inv ev t : Inv h n t -> ends (step_trouble ev t) (step e ev t) (Inv h n).
Proof.
  intros Ht. destruct ev as [c k x|c id p|c| | |i p| |i p]; cbn [step].
  - destruct (conns t !! c); [done|]. eapply ends_mono; [intros Hc; left; exact Hc|intros t' Ht'; exact Ht'|]. apply on_handshake_ok. exact Ht.
  - destruct (conns t !! c) as [k|]; [|done]. destruct (closed k); [done|]. unfold on_extended. destruct (Z.eqb_spec id 0).
    { eapply ends_mono; [intros Hc; left; exact Hc|intros t' Ht'; exact Ht'|]. by apply handle_ext_handshake_ok. }
    destruct (Z.eqb_spec id ext.kUtMetadataLocalId).
    { eapply ends_mono; [|intros t' Ht'; exact Ht'|by apply (handle_ut_metadata_ok e h n)]. intros [?|?]; [by left|right; done]. }
    destruct (_ =? _); [|done]. by eapply quiet_Inv; [apply handle_pex_quiet|].
  - by eapply quiet_Inv; [apply close_quiet|].
  - unfold pause. destruct (_ || _); [done|]. eapply ends_bind.
    + eapply ends_mono; [|intros t' Ht'; exact Ht'|apply (drop_peers_quiet (peers t))]. intros Hc. by right.
    + intros t' Hq. destruct (quiet_Inv h n _ _ Hq Ht) as (Ha & Hb & _). split; [exact Ha|]. split; [exact Hb|done].
  - unfold resume. destruct (_ || _); [done|]. eapply quiet_Inv; [apply try_connect_quiet|exact Ht].
  - unfold add_peer. by destruct (peer_list.add i p _ _).
  - by eapply quiet_Inv; [apply try_connect_quiet|].
  - exact Ht.
Qed.

Lemma run_Inv evs : forall t,
  Inv h n t ->
  ends (exists evs1 ev evs2 t1, evs = evs1 ++ ev :: evs2 /\ run e evs1 t = Ret t1 /\ step e ev t1 = UB /\ step_trouble ev t1) (run e evs t) (Inv h n).
Proof.
  induction evs as [|ev evs IH]; intros t Ht; cbn [run]; [done|]. pose proof (step_Inv ev t Ht) as Hs.
  destruct (step e ev t) as [t1| |] eqn:Es; cbn [ends mbind outcome_bind] in *; [|done|by exists [], ev, evs, t].
  eapply ends_mono; [|intros t' Ht'; exact Ht'|by apply IH]. intros (evs1 & ev' & evs2 & t2 & -> & Er & Eu & Htr).
  exists (ev :: evs1), ev', evs2, t2. cbn [run]. rewrite Es. done.
Qed.

End Steps.

Lemma started_Inv i h :
  torrent_info.info_hash i = h ->
  (torrent_info.has_metadata i = true -> torrent_proofs.accepted i /\ h = sha1.sha1_ref (torrent_info.info_dict_bytes i)) -> Inv h 0 (started i).
Proof. intros Hh Ha. split; [split; [split; [exact Hh|exact Ha]|done]|]. split; [by left|done]. Qed.

End torrent_invariant.
