(* ===== verification/TorrentExchange.v ===== *)
(** An exchange of metadata between two torrents: one made from a magnet link and one that has
    the dictionary, over connections that do not fail. *)

From Stdlib Require Import Strings.String.
From S2P Require Import Prelude Text PeerId Address DhtId Bencode Krpc KrpcCodec KrpcRoundtrip.
From S2P Require Import Words Sha1 Sha1Proofs PiecePicker FileStorage InfoSpan Magnet TorrentInfo TorrentInfoProofs Extensions PeerList Torrent TorrentProofs.
Import torrent torrent_invariant.

Module torrent_exchange.

(** * Counting *)

Definition count (l : list bool) : Z := zlen (List.filter (fun b => b) l).

Lemma count_le l : 0 <= count l <= zlen l.
Proof. unfold count. induction l as [|[] l IH]; cbn [List.filter]; zlia. Qed.

Lemma count_set l i : l !! i = Some false -> count (<[i := true]> l) = count l + 1.
Proof.
  unfold count. revert i. induction l as [|b l IH]; intros [|i] E; cbn [lookup list_lookup insert list_insert List.filter] in *; [done|done| |].
  - injection E as ->. rewrite zlen_cons. lia.
  - destruct b; rewrite ?zlen_cons, IH by done; lia.
Qed.

Lemma count_full l i : count l = zlen l -> (i < length l)%nat -> l !! i = Some true.
Proof.
  unfold count. revert i. induction l as [|b l IH]; intros [|i] E Hi; cbn [length List.filter lookup list_lookup] in *; [lia|lia| |].
  - destruct b; [done|]. pose proof (count_le l) as Hc. unfold count in Hc. rewrite zlen_cons in E. lia.
  - apply IH; [|lia]. destruct b; rewrite ?zlen_cons in E; [lia|]. pose proof (count_le l) as Hc. unfold count in Hc. lia.
Qed.

Lemma count_all l : (forall i, (i < length l)%nat -> l !! i = Some true) -> count l = zlen l.
Proof.
  unfold count. induction l as [|b l IH]; intros H; [done|]. pose proof (H 0%nat ltac:(cbn; lia)) as H0. cbn in H0. injection H0 as ->.
  cbn [List.filter]. rewrite !zlen_cons, IH; [done|]. intros i Hi. apply (H (S i)). cbn. lia.
Qed.

Lemma count_none n : count (replicate n false) = 0.
Proof. unfold count. by induction n. Qed.

(** * Writing a block *)

Lemma lookup_write {A} (l b : list A) o j :
  (o + length b <= length l)%nat ->
  (take o l ++ b ++ drop (o + length b) l) !! j = if decide (o <= j < o + length b)%nat then b !! (j - o)%nat else l !! j.
Proof.
  intros Hl. destruct (decide (j < o)%nat) as [Hlt|Hge].
  - rewrite lookup_app_l by (rewrite length_take; lia). rewrite decide_False by lia. by rewrite lookup_take_lt.
  - rewrite lookup_app_r by (rewrite length_take; lia). rewrite length_take, Nat.min_l by lia. destruct (decide (j < o + length b)%nat) as [Hin|Hout].
    + rewrite lookup_app_l by lia. by rewrite decide_True by lia.
    + rewrite lookup_app_r by lia. rewrite decide_False, lookup_drop by lia. f_equal. lia.
Qed.

(** The piece of metadata that a byte is in. *)
Definition piece_of (j : nat) : nat := Z.to_nat (Z.of_nat j / kMetadataPieceSize).

(** * The one that fetches *)

(** Part of the dictionary [B] is there: [buf] agrees with it wherever [have] says so. *)
Definition agrees (B buf : list byte) (have : list bool) : Prop :=
  length buf = length B /\ forall j, (j < length B)%nat -> have !! piece_of j = Some true -> buf !! j = B !! j.

(** What a peer that has [B] sends for piece [p]. *)
Definition slice (B : list byte) (p : Z) : list byte := ztake (Z.min kMetadataPieceSize (zlen B - p * kMetadataPieceSize)) (zdrop (p * kMetadataPieceSize) B).

Lemma slice_len B p : 0 <= p -> p * kMetadataPieceSize < zlen B -> zlen (slice B p) = Z.min kMetadataPieceSize (zlen B - p * kMetadataPieceSize).
Proof. unfold kMetadataPieceSize. intros Hp Hl. unfold slice, kMetadataPieceSize. rewrite zlen_ztake; [done|]. rewrite zlen_zdrop by lia. lia. Qed.

Lemma agrees_store B buf have p :
  agrees B buf have -> 0 <= p -> p * kMetadataPieceSize < zlen B ->
  let off := p * kMetadataPieceSize in
  agrees B (ztake off buf ++ slice B p ++ zdrop (off + zlen (slice B p)) buf) (<[Z.to_nat p := true]> have).
Proof.
  intros [Hlen Hag] Hp Hl. cbv zeta. pose proof (slice_len B p Hp Hl) as Hs. unfold kMetadataPieceSize in *. unfold ztake at 1, zdrop at 1.
  replace (Z.to_nat (p * 16384 + zlen (slice B p))) with (Z.to_nat (p * 16384) + length (slice B p))%nat by (unfold zlen; lia).
  assert (Z.to_nat (p * 16384) + length (slice B p) <= length buf)%nat as Hfit by (rewrite Hlen; unfold zlen in *; lia). split.
  - rewrite !length_app, length_take, length_drop. lia.
  - intros j Hj Hh. rewrite lookup_write by done. unfold piece_of, kMetadataPieceSize in *. case_decide as Hin.
    + unfold slice, ztake, zdrop, kMetadataPieceSize. rewrite lookup_take_lt by (unfold zlen in *; lia). rewrite lookup_drop. f_equal. lia.
    + apply Hag; [done|]. rewrite list_lookup_insert_ne in Hh; [done|]. intros E. apply Hin. unfold zlen in *.
      pose proof (Z.div_mod (Z.of_nat j) 16384 ltac:(lia)). pose proof (Z.mod_pos_bound (Z.of_nat j) 16384 ltac:(lia)). lia.
Qed.

Lemma agrees_full B buf have : agrees B buf have -> (forall j, (j < length B)%nat -> have !! piece_of j = Some true) -> buf = B.
Proof.
  intros [Hlen Hag] Hall. apply list_eq. intros j. destruct (decide (j < length B)%nat) as [Hj|Hj]; [apply Hag; auto|].
  rewrite !lookup_ge_None_2 by lia. done.
Qed.

Section Fetch.
Context `{peer_list.Sorting} (e : Env) (B : list byte) (i : torrent_info.TorrentInfo).
Hypothesis mem_ok : zlen (mem e) = 64.
Hypothesis size_ok : 0 < zlen B <= kMaxMetadataSize.
Hypothesis valid : torrent_info.from_info_dict (mem e) B torrent_proofs.zero_hash = Ret (inr i).
Hypothesis calm : forall n, send_fails e n = false.

Definition npieces : Z := (zlen B + kMetadataPieceSize - 1) / kMetadataPieceSize.

Lemma npieces_spec p : 0 <= p -> p < npieces <-> p * kMetadataPieceSize < zlen B.
Proof using size_ok.
  unfold npieces, kMetadataPieceSize. intros Hp. pose proof (Z.div_mod (zlen B + 16384 - 1) 16384 ltac:(lia)).
  pose proof (Z.mod_pos_bound (zlen B + 16384 - 1) 16384 ltac:(lia)). lia.
Qed.

Lemma npieces_small : 0 < npieces <= 256.
Proof using size_ok.
  unfold npieces, kMetadataPieceSize. unfold kMaxMetadataSize in size_ok. pose proof (Z.div_mod (zlen B + 16384 - 1) 16384 ltac:(lia)).
  pose proof (Z.mod_pos_bound (zlen B + 16384 - 1) 16384 ltac:(lia)). lia.
Qed.

(** Some pieces are still missing. *)
Record fetching (t : Torrent) : Prop := {
  f_none : has_metadata t = false;
  f_hash : torrent_info.info_hash (info t) = sha1.sha1_ref B;
  f_size : metadata_size t = zlen B;
  f_pieces : metadata_pieces t = npieces;
  f_have : zlen (metadata_have t) = npieces;
  f_received : metadata_received t = count (metadata_have t);
  f_missing : count (metadata_have t) < npieces;
  f_agrees : agrees B (metadata_buf t) (metadata_have t);
}.

(** The dictionary is there. *)
Record complete (t : Torrent) : Prop := {
  c_some : has_metadata t = true;
  c_state : state t = Downloading;
  c_bytes : torrent_info.info_dict_bytes (info t) = B;
  c_files : torrent_info.info_files (info t) = torrent_info.info_files i;
  c_hashes : torrent_info.piece_hashes (info t) = torrent_info.piece_hashes i;
  c_private : torrent_info.is_private (info t) = torrent_info.is_private i;
}.

Lemma complete_now t :
  has_metadata t = false -> torrent_info.info_hash (info t) = sha1.sha1_ref B -> metadata_buf t = B ->
  returns (try_complete_metadata e t) (fun t' => complete t' /\ conns t' = conns t).
Proof using mem_ok size_ok valid.
  intros Hn Hh Hb. unfold try_complete_metadata, torrent_info.set_metadata. rewrite Hb, Hh.
  assert (zlen B < 2 ^ 60) as Hl by (unfold kMaxMetadataSize in size_ok; lia).
  pose proof (torrent_proofs.from_info_dict_ok (mem e) B torrent_proofs.zero_hash mem_ok Hl) as Hok.
  rewrite (torrent_proofs.from_info_dict_own (mem e) B mem_ok Hl). rewrite valid in *. cbn [mbind outcome_bind returns].
  destruct Hok as (_ & Eb & _). split; [|done]. by constructor.
Qed.

Lemma piece_step p t :
  fetching t -> 0 <= p < npieces ->
  returns (on_metadata_piece e p (zlen B) (slice B p) t) (fun t' =>
    (complete t' \/ (fetching t' /\ metadata_have t' = <[Z.to_nat p := true]> (metadata_have t))) /\ conns t' = conns t).
Proof using mem_ok size_ok valid.
  intros Ht Hp. pose proof npieces_small as Hn. pose proof (proj1 (npieces_spec p (proj1 Hp)) (proj2 Hp)) as Hin.
  unfold kMaxMetadataSize in size_ok. pose proof (slice_len B p (proj1 Hp) Hin) as Hs.
  unfold on_metadata_piece, ensure_metadata_buffer. rewrite (f_none t Ht), (f_size t Ht). destruct (Z.eqb_spec (zlen B) 0); [lia|]. cbn [negb orb]. cbv zeta.
  rewrite (f_size t Ht), (f_pieces t Ht). destruct (Z.eqb_spec (zlen B) 0); [lia|]. cbn [orb]. destruct (Z.leb_spec npieces p); [lia|].
  pose proof (f_have t Ht) as Hhave. destruct (zlookup_lt (metadata_have t) p ltac:(lia)) as [b Eb]. rewrite Eb.
  assert (metadata_have t !! Z.to_nat p = Some b) as El by (unfold zlookup in Eb; by destruct (0 <=? p)).
  destruct b; cbn [returns]; [split; [|done]; right; split; [done|]; by rewrite list_insert_id|].
  rewrite (u32_small (p * kMetadataPieceSize)), (u32_small (zlen B - _)) by (unfold kMetadataPieceSize in *; lia). rewrite <- Hs.
  rewrite (proj2 (Z.eqb_eq (zlen (slice B p)) _) eq_refl). cbn [negb].
  assert (zlen (metadata_buf t) = zlen B) as Hbl by (unfold zlen; f_equal; apply (f_agrees t Ht)).
  destruct (Z.ltb_spec (zlen (metadata_buf t)) (p * kMetadataPieceSize + zlen (slice B p))); [rewrite Hbl, Hs in *; lia|].
  pose proof (agrees_store B _ _ p (f_agrees t Ht) (proj1 Hp) Hin) as Hag. cbv zeta in Hag. rewrite (f_received t Ht).
  pose proof (count_le (metadata_have t)). rewrite u32_small by lia. rewrite <- (count_set _ _ El). set (have' := <[Z.to_nat p := true]> (metadata_have t)) in *.
  assert (zlen have' = npieces) as Hh' by (unfold have', zlen in *; by rewrite length_insert). cbn [metadata_pieces set_buffer].
  set (t1 := set_buffer _ _ _ _ _ t). change (metadata_pieces t1) with npieces. destruct (Z.eqb_spec (count have') npieces) as [Ec|Ec].
  - eapply returns_mono; [apply (complete_now t1)|]; [exact (f_none t Ht)|exact (f_hash t Ht)| |intros t' [Hc Hcn]; split; [by left|done]].
    apply (agrees_full B _ have' Hag). intros j Hj. apply count_full; [lia|]. unfold piece_of.
    assert (Z.of_nat j / kMetadataPieceSize < npieces) as Hlt.
    { apply npieces_spec; [apply Z.div_pos; [lia|done]|]. pose proof (Z.mul_div_le (Z.of_nat j) kMetadataPieceSize ltac:(done)). unfold zlen. lia. }
    assert (0 <= Z.of_nat j / kMetadataPieceSize) by (apply Z.div_pos; [lia|done]). unfold zlen in Hh'. lia.
  - cbn [returns]. split; [|done]. right. split; [|done]. constructor; try done; try apply Ht; cbn.
    pose proof (count_le have'). lia.
Qed.

(** A connection that is open. *)
Definition open (c : nat) (t : Torrent) : Prop := exists k, conns t !! c = Some k /\ closed k = false.

(** The message with a piece, which the scanner has the steps to read. *)
Definition piece_message (p : Z) (da : list byte) : Prop :=
  0 <= p < npieces /\ ext.encode_metadata_data p (zlen B) (slice B p) = Some da /\ zlen da < 2 ^ 60 /\ 2 * zlen da + 1 <= Z.of_nat (steps e).

Lemma piece_decode p da :
  piece_message p da -> ext.decode_metadata (steps e) da = Some (Some (ext.mkMetadata ext.Data p (zlen B) (slice B p))).
Proof using size_ok.
  intros (Hp & E & Hl & Hst). pose proof npieces_small. unfold kMaxMetadataSize in size_ok.
  unfold ext.encode_metadata_data in E. destruct (ext.encode_metadata ext.Data p (Some (zlen B))) as [d|] eqn:Ed; cbn [mbind option_bind] in E; [|done]. injection E as <-.
  by rewrite (ext.decode_metadata_header ext.Data p (Some (zlen B)) (slice B p) d _ ltac:(done)) by
    (done || (unfold ext.u32_ok; lia) || (intros n [= <-]; unfold ext.u32_ok; lia)).
Qed.

Lemma message_step c p da t :
  piece_message p da -> open c t -> step e (Extended c ext.kUtMetadataLocalId da) t = on_metadata_piece e p (zlen B) (slice B p) t.
Proof using size_ok.
  intros Hm (k & Ek & Ec). cbn [step]. rewrite Ek, Ec. unfold on_extended, handle_ut_metadata. change (ext.kUtMetadataLocalId =? 0) with false.
  change (ext.kUtMetadataLocalId =? ext.kUtMetadataLocalId) with true. cbv iota. by rewrite (piece_decode p da Hm).
Qed.

Lemma feed_complete c t ps das : Forall2 piece_message ps das -> open c t -> complete t -> run e (Extended c ext.kUtMetadataLocalId <$> das) t = Ret t.
Proof using size_ok.
  intros H2 Ho Hc. induction H2 as [|p da ps das Hm _ IH]; [done|]. cbn [fmap list_fmap run]. rewrite (message_step c p da t Hm Ho).
  unfold on_metadata_piece. rewrite (c_some t Hc). exact IH.
Qed.

Lemma feed c ps das : Forall2 piece_message ps das -> forall t,
  open c t -> fetching t ->
  returns (run e (Extended c ext.kUtMetadataLocalId <$> das) t) (fun t' =>
    complete t' \/ (fetching t' /\ (forall p, p ∈ ps -> metadata_have t' !! Z.to_nat p = Some true)
                   /\ (forall j, metadata_have t !! j = Some true -> metadata_have t' !! j = Some true))).
Proof using mem_ok size_ok valid.
  induction 1 as [|p da ps das Hm Hr IH]; intros t Ho Hf.
  { cbn [fmap list_fmap run returns]. right. split_and!; [done| |done]. by intros p ?%not_elem_of_nil. }
  cbn [fmap list_fmap run]. rewrite (message_step c p da t Hm Ho). pose proof Hm as [Hp _].
  eapply returns_bind; [by apply piece_step|]. intros t1 [[Hc|[Hf1 Eh]] Ecn]; cbv beta.
  all: assert (open c t1) as Ho1 by (unfold open; by rewrite Ecn).
  - rewrite (feed_complete c t1 ps das Hr Ho1 Hc). by left.
  - eapply returns_mono; [by apply IH|]. intros t' [?|(Hf' & Hall & Hkeep)]; [by left|right]. split_and!; [done| |].
    + intros q [->|Hq]%elem_of_cons; [|by apply Hall]. apply Hkeep. rewrite Eh. apply list_lookup_insert_eq. pose proof (f_have t Hf). unfold zlen in *. lia.
    + intros j Hj. apply Hkeep. rewrite Eh. destruct (decide (Z.to_nat p = j)) as [<-|]; [|by rewrite list_lookup_insert_ne].
      apply list_lookup_insert_eq. by eapply lookup_lt_Some.
Qed.

(** All pieces, in any order and any number of times. *)
Lemma feed_all c ps das t :
  Forall2 piece_message ps das -> (forall p, 0 <= p < npieces -> p ∈ ps) -> open c t -> fetching t ->
  returns (run e (Extended c ext.kUtMetadataLocalId <$> das) t) complete.
Proof using mem_ok size_ok valid.
  intros H2 Hall Ho Hf. eapply returns_mono; [by apply (feed c ps)|]. intros t' [?|(Hf' & Hp & _)]; [done|]. exfalso.
  pose proof (f_missing t' Hf'). pose proof (f_have t' Hf') as Hh. rewrite count_all in *; [lia|]. intros j Hj.
  replace j with (Z.to_nat (Z.of_nat j)) by lia. apply Hp, Hall. unfold zlen in Hh. lia.
Qed.

(** * Asking *)

Definition log (out : list (nat * Z * list byte)) (t : Torrent) : Torrent := set_net (known t) (conns t) (sent t ++ out) (dialled t) t.

Lemma send_open c id p t : open c t -> send_extended e c id p t = log [(c, id, p)] t.
Proof using calm. intros (k & Ek & Ec). unfold send_extended. rewrite Ek, Ec. cbv zeta. by rewrite calm. Qed.

Lemma request_all c x ps rqs : forall t,
  Forall2 (fun p rq => ext.encode_metadata_request p = Some rq /\ zlookup (metadata_have t) p = Some false) ps rqs ->
  open c t -> peer_ext t !! c = Some x ->
  request_loop e c ps t = Ret (log ((fun rq => (c, ext.ut_metadata_id x, rq)) <$> rqs) t).
Proof using calm.
  revert rqs. induction ps as [|p ps IH]; intros rqs t H2 Ho Hx; [apply Forall2_nil_inv_l in H2 as ->|apply Forall2_cons_inv_l in H2 as (rq & rqs' & [Er El] & Hr & ->)]; cbn [request_loop].
  - unfold log. cbn [fmap list_fmap]. rewrite app_nil_r. by destruct t.
  - rewrite El, Hx, Er. cbn [encoded mbind outcome_bind]. rewrite (send_open _ _ _ _ Ho).
    rewrite (IH rqs' (log [(c, ext.ut_metadata_id x, rq)] t)) by done. cbn [fmap list_fmap]. unfold log, set_net. cbn. by rewrite <- app_assoc.
Qed.

Lemma zseq_elem n p : p ∈ zseq n <-> 0 <= p < n.
Proof.
  unfold zseq. rewrite list_elem_of_fmap. split; [intros (j & -> & Hj%elem_of_seq); lia|]. intros Hp. exists (Z.to_nat p). split; [lia|]. apply elem_of_seq. lia.
Qed.

Lemma requests_exist n : 0 <= n < 2 ^ 32 -> exists rqs, Forall2 (fun p rq => ext.encode_metadata_request p = Some rq) (zseq n) rqs.
Proof.
  intros Hn. assert (Forall (fun p => 0 <= p < 2 ^ 32) (zseq n)) as Hall by (apply Forall_forall; intros p Hp%zseq_elem; lia).
  induction Hall as [|p ps Hp _ (rqs & IH)]; [by exists []|]. destruct (encode_request_Some p Hp) as [rq E]. exists (rq :: rqs). by constructor.
Qed.

Lemma Forall2_with {A C} (P : A -> Prop) (R : A -> C -> Prop) l k : Forall P l -> Forall2 R l k -> Forall2 (fun x y => R x y /\ P x) l k.
Proof. intros HP H2. induction H2 as [|x y l k Hxy _ IH]; [constructor|]. apply Forall_cons in HP as [Hx HP]. constructor; auto. Qed.

(** The other peer's handshake makes the torrent ask for every piece. *)
Lemma ask c port hs t :
  has_metadata t = false -> torrent_info.info_hash (info t) = sha1.sha1_ref B -> metadata_size t = 0 -> open c t ->
  port_ok port -> ext.encode_handshake (zlen B) port = Some hs -> zlen hs < 2 ^ 60 ->
  exists rqs t1, step e (Extended c 0 hs) t = Ret t1 /\ Forall2 (fun p rq => ext.encode_metadata_request p = Some rq) (zseq npieces) rqs
    /\ sent t1 = sent t ++ ((fun rq => (c, ext.kUtMetadataLocalId, rq)) <$> rqs) /\ fetching t1 /\ open c t1.
Proof using calm size_ok.
  intros Hn Hh Hs Ho Hport Eh Hl. pose proof npieces_small as Hnp. unfold kMaxMetadataSize in size_ok.
  destruct (requests_exist npieces ltac:(lia)) as [rqs Hrq].
  destruct (ext.handshake_roundtrip (zlen B) port) as (hs' & Eh' & Ed); [unfold ext.u32_ok; lia|done|]. rewrite Eh in Eh'. injection Eh' as <-.
  set (x := ext.mkExt 1 2 (zlen B) port) in *. set (t0 := set_peers (peers t) (<[c := x]> (peer_ext t)) t).
  assert (ensure_metadata_buffer (zlen B) t0 = set_buffer (replicate (Z.to_nat (zlen B)) x00) (zlen B) npieces 0 (replicate (Z.to_nat npieces) false) t0) as Ee.
  { unfold ensure_metadata_buffer. change (metadata_size t0) with (metadata_size t). rewrite Hs. cbn [Z.eqb negb orb]. destruct (Z.eqb_spec (zlen B) 0); [lia|].
    unfold kMaxMetadataSize. destruct (Z.ltb_spec 4194304 (zlen B)); [lia|]. cbv zeta. by rewrite u32_small by (unfold kMetadataPieceSize; lia). }
  set (t1 := set_buffer _ _ _ _ _ t0) in Ee. exists rqs, (log ((fun rq => (c, ext.kUtMetadataLocalId, rq)) <$> rqs) t1).
  assert (forall p, 0 <= p < npieces -> zlookup (metadata_have t1) p = Some false) as Hfalse.
  { intros p Hp. unfold zlookup. destruct (Z.leb_spec 0 p); [|lia]. cbn [t1 metadata_have set_buffer]. apply lookup_replicate_2. lia. }
  split_and!; [|done|done| |exact Ho].
  - destruct Ho as (k & Ek & Ec). cbn [step]. rewrite Ek, Ec. unfold on_extended. change (0 =? 0) with true. cbv iota. unfold handle_ext_handshake. rewrite (Ed Hl). cbv zeta.
    fold x. fold t0. change (has_metadata t0) with (has_metadata t). rewrite Hn. change (ext.metadata_size x) with (zlen B). destruct (Z.ltb_spec 0 (zlen B)); [|lia]. cbn [negb andb].
    rewrite Ee. unfold request_metadata. change (has_metadata t1) with (has_metadata t). rewrite Hn. change (metadata_pieces t1) with npieces. destruct (Z.eqb_spec npieces 0); [lia|]. cbn [orb].
    assert (peer_ext t1 !! c = Some x) as Ex by (cbn [t1 t0 peer_ext set_buffer set_peers]; apply (lookup_insert_eq (M := gmap nat))). rewrite Ex. change (ext.ut_metadata_id x =? 0) with false. cbv iota.
    apply (request_all c x); [|by exists k|done]. apply Forall2_with; [|done]. apply Forall_forall. intros p Hp%zseq_elem. by apply Hfalse.
  - pose proof (zlen_nonneg B) as Hb. constructor; try done; cbn [log t1 metadata_have metadata_received metadata_buf set_net set_buffer].
    + unfold zlen. rewrite length_replicate. lia.
    + symmetry. apply count_none.
    + rewrite count_none. lia.
    + split; [rewrite length_replicate; unfold zlen; lia|]. intros j _ Hj. by apply lookup_replicate in Hj as [[=] _].
Qed.


End Fetch.

(** * Serving *)

Section Serve.
Context `{peer_list.Sorting} (e : Env) (B : list byte).
Hypothesis size_ok : 0 < zlen B <= kMaxMetadataSize.
Hypothesis calm : forall n, send_fails e n = false.

(** It has the dictionary, and the peer told under which number it takes metadata. *)
Record serving (c : nat) (id : Z) (s : Torrent) : Prop := {
  s_some : has_metadata s = true;
  s_bytes : torrent_info.info_dict_bytes (info s) = B;
  s_open : open c s;
  s_ext : exists x, peer_ext s !! c = Some x /\ ext.ut_metadata_id x = id;
  s_id : id <> 0;
}.

Lemma serve c id p rq s :
  serving c id s -> 0 <= p < npieces B -> ext.encode_metadata_request p = Some rq -> zlen rq < 2 ^ 60 -> 2 * zlen rq + 1 <= Z.of_nat (steps e) ->
  exists da, ext.encode_metadata_data p (zlen B) (slice B p) = Some da /\ step e (Extended c ext.kUtMetadataLocalId rq) s = Ret (log [(c, id, da)] s).
Proof using size_ok calm.
  intros [Hm Hb Ho (x & Ex & Ei) Hid] Hp Er Hl Hst. pose proof (npieces_small B size_ok) as Hn. pose proof (proj1 (npieces_spec B size_ok p (proj1 Hp)) (proj2 Hp)) as Hin.
  unfold kMaxMetadataSize in size_ok.
  destruct (encode_metadata_Some ext.Data p (Some (zlen B))) as [d Ed]; [done|lia|intros n [= <-]; unfold ext.u32_ok; lia|].
  exists (d ++ slice B p). unfold ext.encode_metadata_data. rewrite Ed. split; [done|]. pose proof Ho as (k & Ek & Ec). cbn [step]. rewrite Ek, Ec. unfold on_extended.
  change (ext.kUtMetadataLocalId =? 0) with false. change (ext.kUtMetadataLocalId =? ext.kUtMetadataLocalId) with true. cbv iota. unfold handle_ut_metadata.
  rewrite (ext.decode_metadata_header ext.Request p None [] rq rq) by (done || (unfold ext.u32_ok; lia) || by rewrite app_nil_r).
  change (ext.Request =? ext.Data) with false. cbv iota. cbn [ext.mtype ext.piece]. change (ext.Request =? ext.Request) with true. cbv iota. rewrite Ex, Ei.
  destruct (Z.eqb_spec id 0); [done|]. cbv zeta. rewrite Hb, Hm. cbn [andb]. unfold kMetadataPieceSize in *. rewrite (u32_small (zlen B)), (u32_small (zlen B + _ - _)) by lia.
  fold (npieces B). change ((zlen B + 16384 - 1) / 16384) with (npieces B). destruct (Z.ltb_spec p (npieces B)); [|lia].
  rewrite (u32_small (p * 16384)), (u32_small (zlen B - _)) by lia. destruct (Z.ltb_spec (zlen B) (p * 16384 + Z.min 16384 (zlen B - p * 16384))); [lia|].
  unfold ext.encode_metadata_data. rewrite Ed. cbn [mbind option_bind encoded outcome_bind]. by rewrite (send_open e calm).
Qed.

Lemma serve_all c id ps rqs : forall s,
  serving c id s ->
  Forall2 (fun p rq => ext.encode_metadata_request p = Some rq /\ 0 <= p < npieces B) ps rqs ->
  Forall (fun rq => zlen rq < 2 ^ 60 /\ 2 * zlen rq + 1 <= Z.of_nat (steps e)) rqs ->
  exists das s', run e (Extended c ext.kUtMetadataLocalId <$> rqs) s = Ret s' /\ sent s' = sent s ++ ((fun da => (c, id, da)) <$> das)
    /\ Forall2 (fun p da => ext.encode_metadata_data p (zlen B) (slice B p) = Some da /\ 0 <= p < npieces B) ps das.
Proof using size_ok calm.
  intros s Hs H2. revert s Hs. induction H2 as [|p rq ps rqs [Er Hp] _ IH]; intros s Hs Hst.
  { exists [], s. cbn [fmap list_fmap]. by rewrite app_nil_r. }
  apply Forall_cons in Hst as [[Hl Hst1] Hst]. destruct (serve c id p rq s Hs Hp Er Hl Hst1) as (da & Ed & Es).
  assert (serving c id (log [(c, id, da)] s)) as Hs1 by (destruct Hs; by constructor).
  destruct (IH _ Hs1 Hst) as (das & s' & E & Hsent & H2'). exists (da :: das), s'. cbn [fmap list_fmap run]. rewrite Es. cbn [mbind outcome_bind].
  split_and!; [done| |by constructor]. rewrite Hsent. cbn [log sent set_net]. by rewrite <- app_assoc.
Qed.

End Serve.

(** * The exchange *)

(** The scanner of the environment can read the message. *)
Definition readable (e : Env) (m : list byte) : Prop := zlen m < 2 ^ 60 /\ 2 * zlen m + 1 <= Z.of_nat (steps e).

(** Messages among those sent are messages with pieces. *)
Lemma messages_pieces e B das das' ps0 :
  Forall2 (fun p da => ext.encode_metadata_data p (zlen B) (slice B p) = Some da /\ 0 <= p < npieces B) ps0 das ->
  Forall (readable e) das -> (forall da, da ∈ das' -> da ∈ das) -> exists ps, Forall2 (piece_message e B) ps das'.
Proof.
  intros Hda Hread Hsub. assert (forall da, da ∈ das' -> exists p, piece_message e B p da) as Hex.
  { intros da Hin%Hsub. rewrite Forall_forall in Hread. destruct (Hread da Hin) as [R1 R2]. apply list_elem_of_lookup in Hin as [j Ej].
    destruct (Forall2_lookup_r _ _ _ _ _ Hda Ej) as (p & _ & Ep & Hp). by exists p. }
  clear -Hex. induction das' as [|da das' IH]; [by exists []|]. destruct (Hex da (list_elem_of_here _ _)) as [p Hp].
  destruct IH as [ps IH]; [intros da' Hin; apply Hex; by apply list_elem_of_further|]. exists (p :: ps). by constructor.
Qed.

(** C18: Metadata is exchanged completely. Between a torrent made from a magnet link and one that has
    a valid dictionary of at most four mebibytes with its hash, over connections that do not
    fail: the handshake of the second makes the first ask for every piece; the second answers
    every request with a piece; and when the answers reach the first, in any order and any number
    of times, it has the dictionary, byte for byte, and the files and hashes in it, and goes on
    to download. *)
Theorem metadata_exchange `{peer_list.Sorting} (e e' : Env) (B hs : list byte) (i : torrent_info.TorrentInfo) (t s : Torrent) (c l : nat) :
  zlen (mem e) = 64 -> 0 < zlen B <= kMaxMetadataSize -> torrent_info.from_info_dict (mem e) B torrent_proofs.zero_hash = Ret (inr i) ->
  (forall n, send_fails e n = false) -> (forall n, send_fails e' n = false) ->
  has_metadata t = false -> torrent_info.info_hash (info t) = sha1.sha1_ref B -> metadata_size t = 0 -> open c t ->
  serving B l ext.kUtMetadataLocalId s -> port_ok (own_port e') -> ext.encode_handshake (zlen B) (own_port e') = Some hs -> zlen hs < 2 ^ 60 ->
  exists rqs t1, step e (Extended c 0 hs) t = Ret t1 /\ sent t1 = sent t ++ ((fun rq => (c, ext.kUtMetadataLocalId, rq)) <$> rqs)
    /\ (Forall (readable e') rqs ->
        exists das s1, run e' (Extended l ext.kUtMetadataLocalId <$> rqs) s = Ret s1 /\ sent s1 = sent s ++ ((fun da => (l, ext.kUtMetadataLocalId, da)) <$> das)
          /\ zlen das = (zlen B + kMetadataPieceSize - 1) / kMetadataPieceSize
          /\ (Forall (readable e) das -> forall das', (forall da, da ∈ das' <-> da ∈ das) ->
              returns (run e (Extended c ext.kUtMetadataLocalId <$> das') t1) (complete B i))).
Proof.
  intros Hm Hsz Hv Hc Hc' Hn Hh Hs Ho Hsv Hport Ehs Hlh.
  destruct (ask e B Hsz Hc c (own_port e') hs t Hn Hh Hs Ho Hport Ehs Hlh) as (rqs & t1 & E1 & Hrq & Hsent1 & Hf & Ho1).
  exists rqs, t1. split_and!; [done..|]. intros Hread.
  destruct (serve_all e' B Hsz Hc' l ext.kUtMetadataLocalId (zseq (npieces B)) rqs s Hsv) as (das & s1 & E2 & Hsent2 & Hda).
  { apply Forall2_with; [|done]. apply Forall_forall. by intros p ?%zseq_elem. }
  { exact Hread. }
  exists das, s1. split_and!; [done..| |].
  - unfold zlen. rewrite <- (Forall2_length _ _ _ Hda). unfold zseq. rewrite length_fmap, length_seq. pose proof (npieces_small B Hsz). fold (zlen B). change ((zlen B + kMetadataPieceSize - 1) / kMetadataPieceSize) with (npieces B). lia.
  - intros Hread2 das' Hsame.
    destruct (messages_pieces e B das das' (zseq (npieces B)) Hda Hread2 ltac:(intros da Hin; by apply Hsame)) as [ps Hps].
    apply (feed_all e B i Hm Hsz Hv c ps); [done| |done|done]. intros p Hp. apply zseq_elem in Hp as Hz. apply list_elem_of_lookup in Hz as [j Ej].
    destruct (Forall2_lookup_l _ _ _ _ _ Hda Ej) as (da & Eda & Ep & _). apply list_elem_of_lookup_2 in Eda.
    rewrite Forall_forall in Hread2. destruct (Hread2 da Eda) as [R1 R2]. apply Hsame, list_elem_of_lookup in Eda as [j' Ej'].
    destruct (Forall2_lookup_r _ _ _ _ _ Hps Ej') as (p' & Ep' & Hp'). pose proof (piece_decode e B Hsz p' da Hp') as D1.
    rewrite (piece_decode e B Hsz p da) in D1 by done. injection D1 as ->. by eapply list_elem_of_lookup_2.
Qed.

(** A magnet link with one peer, and that peer. *)
Definition demo_env : Env := mkEnv torrent_proofs.demo_mem 2000 6881 (fun _ => false).
Definition demo_conn : gmap nat Conn := {[ 0%nat := mkConn (lit "10.0.0.1") 6881 false ]}.
Definition demo_hash : list byte := sha1.sha1_ref torrent_proofs.demo_dict.
Definition demo_link : torrent_info.TorrentInfo :=
  torrent_info.mkInfo demo_hash [] [] [] 0 false false file_storage.empty_storage [] [] [] [] [] [].
Definition demo_meta : torrent_info.TorrentInfo :=
  match torrent_info.from_info_dict torrent_proofs.demo_mem torrent_proofs.demo_dict torrent_proofs.zero_hash with Ret (inr i) => i | _ => demo_link end.
Definition demo_fetcher : Torrent := set_net ∅ demo_conn [] [] (set_peers [0%nat] ∅ (started demo_link)).
Definition demo_server : Torrent := set_net ∅ demo_conn [] [] (set_peers [0%nat] {[ 0%nat := ext.mkExt 1 2 0 6881 ]} (started demo_meta)).

Lemma metadata_exchange_witness :
  exists (rqs : list (list byte)) (t1 : Torrent) (das : list (list byte)), step (H := peer_list.by_merging) demo_env (Extended 0 0 (default [] (ext.encode_handshake (zlen torrent_proofs.demo_dict) 6881))) demo_fetcher = Ret t1
    /\ zlen rqs = 1 /\ zlen das = 1
    /\ (Forall (readable demo_env) das -> returns (run (H := peer_list.by_merging) demo_env (Extended 0 ext.kUtMetadataLocalId <$> das) t1) (complete torrent_proofs.demo_dict demo_meta)).
Proof.
  destruct (metadata_exchange (H := peer_list.by_merging) demo_env demo_env torrent_proofs.demo_dict
    (default [] (ext.encode_handshake (zlen torrent_proofs.demo_dict) 6881)) demo_meta demo_fetcher demo_server 0 0) as (rqs & t1 & E1 & Hs & H1).
  - reflexivity.
  - split; [reflexivity|]. apply Z.leb_le. vm_compute. reflexivity.
  - vm_compute. reflexivity.
  - intros n. reflexivity.
  - intros n. reflexivity.
  - reflexivity.
  - reflexivity.
  - reflexivity.
  - exists (mkConn (lit "10.0.0.1") 6881 false). split; reflexivity.
  - constructor; [vm_compute; reflexivity|vm_compute; reflexivity|exists (mkConn (lit "10.0.0.1") 6881 false); split; reflexivity| |discriminate].
    exists (ext.mkExt 1 2 0 6881). split; reflexivity.
  - split; [discriminate|reflexivity].
  - vm_compute. reflexivity.
  - apply Z.ltb_lt. vm_compute. reflexivity.
  - assert (exists t1', step (H := peer_list.by_merging) demo_env (Extended 0 0 (default [] (ext.encode_handshake (zlen torrent_proofs.demo_dict) 6881))) demo_fetcher = Ret t1'
      /\ sent t1' = [(0%nat, 1, lit "d8:msg_typei0e5:piecei0ee")]) as (t1' & E1' & Hs') by (eexists; split; vm_compute; reflexivity).
    rewrite E1 in E1'. injection E1' as <-. rewrite Hs' in Hs. destruct rqs as [|rq [|]]; [discriminate| |discriminate]. injection Hs as <-.
    destruct H1 as (das & s1 & _ & _ & Hn & Hall).
    { constructor; [|constructor]. split; [apply Z.ltb_lt|apply Z.leb_le]; vm_compute; reflexivity. }
    exists [lit "d8:msg_typei0e5:piecei0ee"], t1, das. split; [exact E1|]. split; [reflexivity|]. split; [rewrite Hn; vm_compute; reflexivity|].
    intros Hr. apply (Hall Hr). reflexivity.
Defined.

End torrent_exchange.
