(* ===== verification/TorrentTheorems.v ===== *)
(** Metadata under attack: what no peer can do to a torrent made from a magnet link, and what one
    can. *)

From Stdlib Require Import Strings.String.
From S2P Require Import Prelude Text PeerId Address DhtId Bencode Krpc KrpcCodec KrpcRoundtrip.
From S2P Require Import Words Sha1 Sha1Proofs PiecePicker FileStorage InfoSpan Magnet TorrentInfo TorrentInfoProofs Extensions PeerList.
From S2P Require Import Torrent TorrentProofs TorrentExchange.
Import torrent torrent_invariant torrent_exchange.

Module torrent_theorems.


Definition demo_peer : Conn := mkConn (lit "10.0.0.1") 6881 false.
Definition demo_handshake (size : Z) : list byte := default [] (ext.encode_handshake size 6881).
Definition demo_data : list byte := default [] (ext.encode_metadata_data 0 (zlen torrent_proofs.demo_dict) torrent_proofs.demo_dict).
Definition demo_events : list Event :=
  [Joined 0 demo_peer true; Extended 0 0 (demo_handshake (zlen torrent_proofs.demo_dict)); Extended 0 ext.kUtMetadataLocalId demo_data].


(** The first size that a peer announces is never given up: if no dictionary of that size has
    the hash of the torrent, its metadata is never resolved, whoever connects later and whatever
    is sent. *)
Theorem announced_size_sticks `{peer_list.Sorting} (e : Env) (h : list byte) (t t' : Torrent) (evs : list Event) :
  zlen (mem e) = 64 -> 0 <= own_port e < 2 ^ 16 -> magnet.is_all_zero h = false ->
  torrent_info.info_hash (info t) = h -> has_metadata t = false -> buffer_ok t -> zlen (peers t) <= kMaxPeers -> metadata_size t <> 0 ->
  (forall b, zlen b = metadata_size t -> sha1.sha1_ref b <> h) ->
  run e evs t = Ret t' -> has_metadata t' = false /\ metadata_size t' = metadata_size t.
Proof.
  intros Hm Hp Hz Hh Hn Hb Hps Hs Hpre Er.
  assert (Inv h (metadata_size t) t) as Hi by (split; [split; [split; [done|by rewrite Hn]|intros _; split; [done|by rewrite Hn]]|done]).
  pose proof (run_Inv e h (metadata_size t) Hm Hz Hp evs t Hi) as Hr. rewrite Er in Hr. cbn [ends] in Hr. destruct Hr as (([_ Ha] & Hsz) & _).
  destruct (Hsz Hs) as [-> Hl]. split; [|done]. destruct (has_metadata t'); [|done]. destruct (Ha eq_refl) as [_ E]. specialize (Hl eq_refl).
  by destruct (Hpre _ Hl).
Qed.

(** A peer that announces one byte, and then an honest one. *)
Definition demo_stuck : outcome Torrent :=
  run (H := peer_list.by_merging) demo_env [Joined 7 demo_peer true; Extended 7 0 (demo_handshake 1)] (started demo_link).

Lemma one_byte (b : list byte) : zlen b = 1 -> exists x, b = [x].
Proof. intros Hb. destruct b as [|x [|]]; [discriminate|by exists x|zlia]. Qed.

Lemma one_byte_no_preimage b : zlen b = 1 -> sha1.sha1_ref b <> demo_hash.
Proof.
  intros Hb E. destruct (one_byte b Hb) as [x ->]. clear Hb.
  assert (forallb (fun x => negb (bool_decide (sha1.sha1_ref [x] = demo_hash))) (byte_of <$> zseq 256) = true) as Hall by (vm_compute; reflexivity).
  rewrite forallb_forall in Hall. specialize (Hall x). rewrite (bool_decide_true _ E) in Hall. cbn [negb] in Hall.
  apply diff_false_true. apply Hall, list_elem_of_In, list_elem_of_fmap. exists (u8 x). split; [by rewrite byte_of_u8|]. apply zseq_elem. apply u8_range.
Qed.

Lemma announced_size_sticks_witness :
  exists t, demo_stuck = Ret t /\ forall t', run (H := peer_list.by_merging) demo_env demo_events t = Ret t' -> has_metadata t' = false.
Proof.
  destruct demo_stuck as [t| |] eqn:E.
  2, 3: exfalso; assert (match demo_stuck with Ret _ => true | _ => false end = true) as Eb by (vm_compute; reflexivity); rewrite E in Eb; discriminate.
  assert (match demo_stuck with
          | Ret t => bool_decide (torrent_info.info_hash (info t) = demo_hash) && negb (has_metadata t) && (metadata_size t =? 1) && (metadata_pieces t =? 1)
                     && (zlen (metadata_buf t) =? 1) && (zlen (metadata_have t) =? 1) && (zlen (peers t) =? 1)
          | _ => false
          end = true) as Eb by (vm_compute; reflexivity).
  rewrite E in Eb. rewrite !andb_true_iff in Eb. destruct Eb as ((((((E1%bool_decide_eq_true & E2%negb_true_iff) & E3%Z.eqb_eq) & E4%Z.eqb_eq) & E5%Z.eqb_eq) & E6%Z.eqb_eq) & E7%Z.eqb_eq).
  exists t. split; [reflexivity|]. intros t' Er.
  apply (announced_size_sticks (H := peer_list.by_merging) demo_env demo_hash t t' demo_events); [reflexivity|split; [discriminate|reflexivity]|vm_compute; reflexivity|exact E1|exact E2| | | | |exact Er].
  - right. rewrite E3, E4, E5, E6. vm_compute. repeat split; discriminate.
  - rewrite E7. discriminate.
  - rewrite E3. discriminate.
  - rewrite E3. exact one_byte_no_preimage.
Defined.

(** * Connections that close under a loop *)

Lemma erase_first_changes c ps : c ∈ ps -> erase_first c ps <> ps.
Proof.
  intros Hin E. assert (length (erase_first c ps) < length ps)%nat as Hl; [|rewrite E in Hl; lia]. clear E.
  induction ps as [|p ps IH]; [by apply not_elem_of_nil in Hin|]. cbn [erase_first]. case_bool_decide as Ep; cbn [length]; [lia|].
  apply elem_of_cons in Hin as [->|Hin]; [done|]. specialize (IH Hin). lia.
Qed.

(** Closing a connected peer takes it out of the vector and of the map. *)
Lemma close_removes c t : open c t -> c ∈ peers t -> peers (close c t) = erase_first c (peers t) /\ peer_ext (close c t) = delete c (peer_ext t)
  /\ metadata_have (close c t) = metadata_have t.
Proof. intros (k & Ek & Ec) Hin. unfold close. rewrite Ek, Ec. unfold on_closed, remove_peer. cbn [peers set_net]. by rewrite bool_decide_true. Qed.

Lemma drop_peers_undefined t c ps : peers t = c :: ps -> open c t -> drop_peers t = UB.
Proof.
  intros Ep Ho. unfold drop_peers. rewrite Ep. cbn [for_live mbind outcome_bind].
  assert (c ∈ peers t) as Hin by (rewrite Ep; apply list_elem_of_here). destruct (close_removes c t Ho Hin) as (E & _).
  rewrite bool_decide_false; [done|]. rewrite E. by apply erase_first_changes.
Qed.

Lemma send_closes e c id p t :
  open c t -> c ∈ peers t -> send_fails e (length (sent t)) = true ->
  peer_ext (send_extended e c id p t) !! c = None /\ metadata_have (send_extended e c id p t) = metadata_have t.
Proof.
  intros Ho Hin Hf. pose proof Ho as (k & Ek & Ec). unfold send_extended. rewrite Ek, Ec, Hf. cbv zeta. set (t1 := set_net _ _ _ _ t).
  destruct (close_removes c t1) as (_ & -> & ->); [exact Ho|exact Hin|]. split; [|done]. apply (lookup_delete_eq (M := gmap nat)).
Qed.

(** A connection that closes inside a loop over the peers is undefined behaviour. Pausing or
    stopping a torrent with a connected peer closes it inside a loop over the vector it is erased
    from; and when a peer announces metadata of two pieces or more and the first request closes
    the connection, the next is made through an iterator to the erased entry. *)
Theorem closed_inside_loop `{peer_list.Sorting} (e : Env) (t : Torrent) (c : nat) (ps : list nat) (hs : list byte) (pe : ext.PeerExtensions) :
  peers t = c :: ps -> open c t -> running t = true -> paused t = false ->
  pause t = UB /\ stop t = UB
  /\ (has_metadata t = false -> metadata_size t = 0 -> ext.decode_handshake hs = Some pe ->
      kMetadataPieceSize < ext.metadata_size pe <= kMaxMetadataSize -> ext.ut_metadata_id pe <> 0 -> send_fails e (length (sent t)) = true ->
      step e (Extended c 0 hs) t = UB).
Proof.
  intros Ep Ho Hr Hpa. split_and!.
  - unfold pause. rewrite Hr, Hpa. cbn [negb orb]. by rewrite (drop_peers_undefined _ c ps).
  - unfold stop. rewrite Hr. cbn [negb]. by rewrite (drop_peers_undefined _ c ps).
  - intros Hn Hs Hd Hsz Hid Hf. pose proof Ho as (k & Ek & Ec). cbn [step]. rewrite Ek, Ec. unfold on_extended. change (0 =? 0) with true. cbv iota.
    unfold handle_ext_handshake. rewrite Hd. cbv zeta. set (t0 := set_peers _ _ t). change (has_metadata t0) with (has_metadata t). rewrite Hn.
    unfold kMaxMetadataSize, kMetadataPieceSize in Hsz. destruct (Z.ltb_spec 0 (ext.metadata_size pe)); [|lia]. cbn [negb andb].
    unfold ensure_metadata_buffer, kMaxMetadataSize, kMetadataPieceSize. change (metadata_size t0) with (metadata_size t). rewrite Hs. cbn [Z.eqb negb orb].
    destruct (Z.eqb_spec (ext.metadata_size pe) 0); [lia|]. destruct (Z.ltb_spec 4194304 (ext.metadata_size pe)); [lia|]. rewrite u32_small by lia.
    set (np := (ext.metadata_size pe + 16384 - 1) / 16384). assert (2 <= np) as Hn2 by (apply Z.div_le_lower_bound; lia). set (t1 := set_buffer _ _ _ _ _ t0).
    unfold request_metadata. change (has_metadata t1) with (has_metadata t). rewrite Hn. change (metadata_pieces t1) with np. destruct (Z.eqb_spec np 0); [lia|]. cbn [orb].
    assert (peer_ext t1 !! c = Some pe) as Ex by (apply (lookup_insert_eq (M := gmap nat))). rewrite Ex. destruct (Z.eqb_spec (ext.ut_metadata_id pe) 0); [done|].
    assert (exists m, Z.to_nat np = S (S m)) as [m Em] by (exists (Z.to_nat (np - 2)); lia). unfold zseq. rewrite Em. cbn [seq fmap list_fmap request_loop].
    assert (forall j, (j < 2)%nat -> zlookup (metadata_have t1) (Z.of_nat j) = Some false) as Hh.
    { intros j Hj. unfold zlookup. rewrite (proj2 (Z.leb_le 0 (Z.of_nat j))), Nat2Z.id by lia. cbn [t1 metadata_have set_buffer]. apply lookup_replicate_2. lia. }
    rewrite (Hh 0%nat), Ex by lia. destruct (encode_request_Some (Z.of_nat 0) ltac:(lia)) as [rq ->]. cbn [encoded mbind outcome_bind].
    destruct (send_closes e c (ext.ut_metadata_id pe) rq t1) as [Ed Eh]; [exact Ho|change (peers t1) with (peers t); rewrite Ep; apply list_elem_of_here|exact Hf|].
    by rewrite Eh, (Hh 1%nat), Ed by lia.
Qed.

Lemma closed_inside_loop_witness :
  pause demo_fetcher = UB /\ stop demo_fetcher = UB
  /\ step (H := peer_list.by_merging) (mkEnv torrent_proofs.demo_mem 2000 6881 (fun _ => true)) (Extended 0 0 (demo_handshake 20000)) demo_fetcher = UB.
Proof.
  destruct (closed_inside_loop (H := peer_list.by_merging) (mkEnv torrent_proofs.demo_mem 2000 6881 (fun _ => true)) demo_fetcher 0 [] (demo_handshake 20000)
    (ext.mkExt 1 2 20000 6881)) as (H1 & H2 & H3); [reflexivity|exists demo_peer; split; reflexivity|reflexivity|reflexivity|].
  split; [exact H1|]. split; [exact H2|]. apply H3; [reflexivity|reflexivity|vm_compute; reflexivity|split; [reflexivity|discriminate]|discriminate|reflexivity].
Defined.

End torrent_theorems.
